(** * RunnAI: run classification, best-effort mining and sync bookkeeping

    A shallow embedding of the engine's TypeScript sources:
    - [src/utils/activities-db.ts]   (SQLite store: upserts and queries),
    - [src/utils/run-classifier.ts]  (lap-pattern classifier [classifyRun]
                                      and its helpers),
    - [src/tools/best-efforts.ts]    (segment search, realism floor, merge),
    - [src/tools/strava.ts]          (sync orchestrator: fetch window, backfill),
    - [src/strava/client.ts]         (detail and stream requests),
    - [src/utils/hr-zones.ts]        (zone estimate, easy-pace reference),
    - [src/utils/training-patterns.ts] ([mode]),
    - [src/types/index.ts]           (record types),
    and the records tool and the plan manager, whose text this tree keeps
    in [src/tools/strava.ts].

    JavaScript numbers are modelled by rationals ([Q]); the non-finite
    values ([Infinity], [-Infinity], [NaN]) are added where the code can
    produce them.  The segment search, the realism check, the tempo
    threshold and the tempo detail, the display helpers, the fetch window
    and the pace of a provider effort compute as the language does, in
    IEEE 754 binary64: [JS.fadd], [JS.fsub], [JS.fmul] and [JS.fdiv] round
    the exact result to the nearest double.  The remaining arithmetic of
    the classifier and of the zone estimate is exact.  The sign of zero is
    not modelled.  Identifiers and indices are integers ([Z]). *)

From Stdlib Require Import ZArith QArith Qround Qpower Lia Lqa List Sorted String Ascii DecimalString.
From Stdlib Require Reals Qreals Lra Qcanon.
From stdpp Require Import base option list sorting gmap strings.

Local Open Scope Z_scope.

(** ** Rational comparisons as booleans *)

Definition Qltb (a b : Q) : bool := negb (Qle_bool b a).
Definition Qleb (a b : Q) : bool := Qle_bool a b.
Definition Qabs' (a : Q) : Q := if Qltb a 0 then (- a)%Q else a.

(** ** Stable sorting *)

Section StableSort.
Context {A : Type} (leb : A -> A -> bool).

Fixpoint insert_sorted (x : A) (l : list A) : list A :=
  match l with
  | [] => [x]
  | y :: r => if leb x y then x :: y :: r else y :: insert_sorted x r
  end.

Definition stable_sort (l : list A) : list A := foldr insert_sorted [] l.
End StableSort.

(** ** JavaScript numbers with the non-finite values *)

Module JS.

Inductive num : Type :=
| Fin (q : Q)
| PInf
| NInf
| NaN.

Definition is_zero (q : Q) : bool := Qeq_bool q 0.

(** [a - b] *)
Definition sub (a b : num) : num :=
  match a, b with
  | NaN, _ | _, NaN => NaN
  | Fin x, Fin y => Fin (x - y)
  | Fin _, PInf => NInf
  | Fin _, NInf => PInf
  | PInf, PInf => NaN
  | PInf, _ => PInf
  | NInf, NInf => NaN
  | NInf, _ => NInf
  end.

(** sign of a finite value: a zero counts as [+0] *)
Definition inf_of_sign (positive : bool) : num := if positive then PInf else NInf.

(** [a / b] *)
Definition div (a b : num) : num :=
  match a, b with
  | NaN, _ | _, NaN => NaN
  | Fin x, Fin y =>
      if is_zero y then
        if is_zero x then NaN else inf_of_sign (Qltb 0 x)
      else Fin (x / y)
  | Fin _, (PInf | NInf) => Fin 0
  | (PInf | NInf), (PInf | NInf) => NaN
  | PInf, Fin y => inf_of_sign (Qleb 0 y)
  | NInf, Fin y => inf_of_sign (Qltb y 0)
  end.

(** [a * b] *)
Definition mul (a b : num) : num :=
  match a, b with
  | NaN, _ | _, NaN => NaN
  | Fin x, Fin y => Fin (x * y)
  | Fin x, PInf | PInf, Fin x =>
      if is_zero x then NaN else inf_of_sign (Qltb 0 x)
  | Fin x, NInf | NInf, Fin x =>
      if is_zero x then NaN else inf_of_sign (Qltb x 0)
  | PInf, PInf | NInf, NInf => PInf
  | PInf, NInf | NInf, PInf => NInf
  end.

(** [a % b] for a finite divisor: the remainder has the dividend's sign *)
Definition rem (a : num) (b : Q) : num :=
  match a with
  | Fin x =>
      if is_zero b then NaN
      else
        let q := (x / b)%Q in
        let t := if Qltb q 0 then Qceiling q else Qfloor q in
        Fin (x - inject_Z t * b)
  | _ => NaN
  end.

(** [a < b]: false as soon as one side is [NaN] *)
Definition lt (a b : num) : bool :=
  match a, b with
  | NaN, _ | _, NaN => false
  | Fin x, Fin y => Qltb x y
  | Fin _, PInf => true
  | Fin _, NInf => false
  | PInf, _ => false
  | NInf, NInf => false
  | NInf, _ => true
  end.

(** [a <= b] *)
Definition le (a b : num) : bool :=
  match a, b with
  | NaN, _ | _, NaN => false
  | Fin x, Fin y => Qleb x y
  | Fin _, PInf => true
  | Fin _, NInf => false
  | PInf, PInf => true
  | PInf, _ => false
  | NInf, _ => true
  end.

(** [a + b] *)
Definition add (a b : num) : num :=
  match a, b with
  | NaN, _ | _, NaN => NaN
  | Fin x, Fin y => Fin (x + y)
  | PInf, NInf | NInf, PInf => NaN
  | PInf, _ | _, PInf => PInf
  | NInf, _ | _, NInf => NInf
  end.

(** *** Rounding to binary64

    A JavaScript number is an IEEE 754 binary64 value, and the result of
    [+], [-], [*] and [/] is the exact result rounded to the nearest such
    value, a tie going to the even significand.  [sub], [div], [mul] and
    [add] above are the exact operations; [fsub], [fdiv], [fmul] and
    [fadd] round their result and are the operators of the language. *)

(** [2^e] *)
Definition pow2 (e : Z) : Q := Qpower 2 e.

(** [floor(log2 q)] for a positive [q] *)
Definition ilog2 (q : Q) : Z :=
  let k := (Z.log2 (Qnum q) - Z.log2 (Zpos (Qden q)))%Z in
  if Qle_bool (pow2 k) q then k else (k - 1)%Z.

(** the integer nearest to [x]; of two nearest integers the even one *)
Definition nearest_even (x : Q) : Z :=
  let f := Qfloor x in
  match Qcompare (x - inject_Z f) (1 # 2) with
  | Lt => f
  | Gt => (f + 1)%Z
  | Eq => if Z.even f then f else (f + 1)%Z
  end.

(** The binary64 value nearest to a positive [a]: a significand of 53
    bits times a power of two that is at least [2^-1074] (the subnormal
    numbers); the exponent is not bounded from above here. *)
Definition exponent64 (a : Q) : Z := Z.max (ilog2 a - 52) (-1074).

Definition round64_pos (a : Q) : Q :=
  let e := exponent64 a in
  (inject_Z (nearest_even (a / pow2 e)) * pow2 e)%Q.

Definition round64 (q : Q) : Q :=
  let c := Qred q in
  Qred match Qcompare c 0 with
       | Eq => 0
       | Gt => round64_pos c
       | Lt => - round64_pos (- c)
       end.

(** the number that an operation with the exact result [q] returns: from
    [2^1024] on the rounded value overflows to an infinity *)
Definition double (q : Q) : num :=
  let r := round64 q in
  if Qle_bool (pow2 1024) r then PInf
  else if Qle_bool r (- pow2 1024) then NInf
  else Fin r.

Definition rounded (a : num) : num :=
  match a with Fin q => double q | _ => a end.

Definition fadd (a b : num) : num := rounded (add a b).
Definition fsub (a b : num) : num := rounded (sub a b).
Definition fmul (a b : num) : num := rounded (mul a b).
Definition fdiv (a b : num) : num := rounded (div a b).

(** [arr[i]] used as a number: a missing element is [undefined], which
    arithmetic turns into [NaN] *)
Definition get (arr : list Q) (i : nat) : num :=
  match arr !! i with
  | Some q => Fin q
  | None => NaN
  end.

(** [Math.floor] and [Math.round] (ties go towards [+Infinity]) *)
Definition round_Q (q : Q) : Z := Qfloor (q + (1 # 2)).

Definition floor (a : num) : num :=
  match a with Fin x => Fin (inject_Z (Qfloor x)) | _ => a end.

Definition round (a : num) : num :=
  match a with Fin x => Fin (inject_Z (round_Q x)) | _ => a end.

(** [String(z)] for an integer *)
Definition string_of_Z (z : Z) : string := NilZero.string_of_int (Z.to_int z).

(** [String(a)]; the code only prints integral values, a finite value is
    printed through its integer part.  The digits are those of the
    language for integers below [2^53]. *)
Definition to_string (a : num) : string :=
  match a with
  | Fin x => string_of_Z (Qfloor x)
  | PInf => "Infinity"
  | NInf => "-Infinity"
  | NaN => "NaN"
  end.

(** [s.padStart(n, "0")] *)
Fixpoint zeros (n : nat) : string :=
  match n with O => EmptyString | S k => String "0"%char (zeros k) end.

Definition padStart0 (n : nat) (s : string) : string :=
  String.append (zeros (n - String.length s)) s.

(** [x.toFixed(1)]: the digits of the integer nearest to the exact value
    of [10 * |x|], the larger one of two nearest integers; this is the
    result of the language for a finite [x] below 1e21 *)
Definition fixed1 (x : Q) : string :=
  let negative := Qltb x 0 in
  let n := round_Q (Qabs' x * 10) in
  let body :=
    String.append (string_of_Z (n / 10))
      (String.append "." (string_of_Z (n mod 10))) in
  if negative then String.append "-" body else body.

Definition toFixed1 (a : num) : string :=
  match a with
  | Fin x => fixed1 x
  | PInf => "Infinity"
  | NInf => "-Infinity"
  | NaN => "NaN"
  end.

(** [arr.slice(s, e)] with JavaScript's relative indices *)
Definition rel_index (n i : Z) : Z :=
  if i <? 0 then Z.max (n + i) 0 else Z.min i n.

Definition slice {A} (l : list A) (s e : Z) : list A :=
  let n := Z.of_nat (length l) in
  let k := rel_index n s in
  let final := rel_index n e in
  take (Z.to_nat (final - k)) (drop (Z.to_nat k) l).

(** [arr.slice(1, -1)] *)
Definition inner {A} (l : list A) : list A := slice l 1 (-1).

(** [Array.prototype.sort] is stable, so for a consistent comparator its
    result is the one of the stable insertion sort *)
Definition sort {A} (leb : A -> A -> bool) (l : list A) : list A :=
  stable_sort leb l.

(** [Map<number, V>]: keys in insertion order; [set] on a present key
    replaces the value in place *)
Section MapOps.
Context {V : Type}.

Definition map_has (m : list (Z * V)) (k : Z) : bool :=
  existsb (fun p => (fst p =? k)%Z) m.

Fixpoint map_set (m : list (Z * V)) (k : Z) (v : V) : list (Z * V) :=
  match m with
  | [] => [(k, v)]
  | (k', v') :: r =>
      if (k' =? k)%Z then (k, v) :: r else (k', v') :: map_set r k v
  end.

Definition map_values (m : list (Z * V)) : list V := map snd m.
End MapOps.

End JS.

(** ** Types ([src/types/index.ts]) *)

Inductive RunType : Type :=
| easy | tempo | intervals | fartlek | long_run | race
| recovery | threshold | progression | unknown.

Inductive Confidence : Type := high | medium | low.

Record ClassificationResult : Type := {
  run_type : RunType;
  run_type_detail : option string;
  confidence : Confidence
}.

Inductive HrZoneSource : Type := lactate_test | estimated | manual.

Record HrZones : Type := {
  hr_source : HrZoneSource;
  lt1 : Q;
  lt2 : Q;
  max_hr : Q;
  confirmed : bool
}.

Record ActivityLapRecord : Type := {
  lap_activity_id : Z;
  lap_index : Z;
  lap_distance : Q;
  lap_elapsed_time : Q;
  lap_moving_time : Q;
  lap_average_speed : Q;
  lap_max_speed : Q;
  lap_average_heartrate : option Q;
  lap_max_heartrate : option Q;
  lap_start_index : Z;
  lap_end_index : Z
}.

(** [ActivityData] of the classifier *)
Record ActivityData : Type := {
  act_id : Z;
  act_distance : Q;
  act_moving_time : Q;
  act_average_speed : Q;
  act_average_heartrate : option Q;
  act_workout_type : option Z
}.

(** ** Lap-pattern classifier ([src/utils/run-classifier.ts])

    [classifyRun] and its helpers, imported by [src/tools/strava.ts] from
    [../utils/run-classifier.js]; in this tree the text of the module
    follows the store functions in [src/utils/activities-db.ts]. *)

Module Classifier.

Local Open Scope Q_scope.

Definition mkResult (t : RunType) (d : option string) (c : Confidence) :=
  {| run_type := t; run_type_detail := d; confidence := c |}.

Definition sumQ (l : list Q) : Q := fold_left Qplus l 0.

Definition getHrZone (hr : Q) (zones : HrZones) : Z :=
  if Qltb hr (lt1 zones) then
    (if Qltb hr (lt1 zones * 0.88) then 1 else 2)%Z
  else if Qltb hr (lt2 zones) then 3%Z
  else if Qltb hr (max_hr zones * 0.97) then 4%Z
  else 5%Z.

(** [hr && hrZones ? getHrZone(hr, hrZones) : null] *)
Definition hrZoneOf (hr : option Q) (hrZones : option HrZones) : option Z :=
  match hr, hrZones with
  | Some h, Some z => if JS.is_zero h then None else Some (getHrZone h z)
  | _, _ => None
  end.

(** [hrZone && p(hrZone)] used as a condition *)
Definition zoneAnd (hrZone : option Z) (p : Z -> bool) : bool :=
  match hrZone with
  | Some z => negb (z =? 0)%Z && p z
  | None => false
  end.

Definition classifyByPaceAndHr
    (activity : ActivityData) (hrZones : option HrZones) (easyPaceRef : Q)
  : ClassificationResult :=
  let paceSecKm :=
    if Qltb 0 (act_distance activity)
    then (act_moving_time activity / act_distance activity) * 1000
    else easyPaceRef in
  let hr := act_average_heartrate activity in
  let distKm := act_distance activity / 1000 in
  let hrZone := hrZoneOf hr hrZones in
  if Qltb (easyPaceRef * 1.05) paceSecKm then
    if zoneAnd hrZone (fun z => z <=? 2)%Z
    then mkResult recovery None medium
    else mkResult easy None low
  else if Qleb (easyPaceRef * 0.95) paceSecKm then
    if Qleb 15 distKm
    then mkResult long_run None medium
    else mkResult easy None medium
  else if zoneAnd hrZone (fun z => 4 <=? z)%Z then
    mkResult threshold None medium
  else if match hrZone with Some 3%Z => true | _ => false end then
    mkResult tempo None medium
  else if Qleb 15 distKm then
    mkResult long_run None low
  else
    mkResult unknown None low.

Definition classifyAutoLapRun
    (activity : ActivityData) (hrZones : option HrZones) (easyPaceRef : Q)
  : ClassificationResult :=
  classifyByPaceAndHr activity hrZones easyPaceRef.

Definition nearKm (d : Q) : bool := Qltb (Qabs' (d - 1000)) 120.
Definition nearMile (d : Q) : bool := Qltb (Qabs' (d - 1609)) 150.

Definition detectAutoLaps (laps : list ActivityLapRecord) : bool :=
  if (length laps <=? 2)%nat then true
  else
    let innerLaps := JS.inner laps in
    if (length innerLaps =? 0)%nat then true
    else
      let distances := map lap_distance innerLaps in
      let allKm := forallb nearKm distances in
      if allKm then true
      else
        let allMile := forallb nearMile distances in
        if allMile then true else false.

(** number of positions [i >= 1] with [paces[i] < paces[i-1] * 1.01] *)
Fixpoint countDecreasing (prev : Q) (rest : list Q) : nat :=
  match rest with
  | [] => O
  | p :: r =>
      ((if Qltb p (prev * 1.01) then 1 else 0) + countDecreasing p r)%nat
  end.

Definition isProgression (paces : list Q) : bool :=
  if (length paces <? 3)%nat then false
  else
    let corePaces := if (4 <? length paces)%nat then JS.inner paces else paces in
    let decreasing :=
      match corePaces with
      | [] => O
      | p :: r => countDecreasing p r
      end in
    Qleb ((inject_Z (Z.of_nat (length corePaces)) - 1) * 0.8)
         (inject_Z (Z.of_nat decreasing)).

(** [getMedian]; only called on a non-empty list *)
Definition getMedian (values : list Q) : Q :=
  let sorted := JS.sort Qleb values in
  let mid := (length sorted / 2)%nat in
  if (length sorted mod 2 =? 0)%nat
  then (nth (mid - 1) sorted 0 + nth mid sorted 0) / 2
  else nth mid sorted 0.

(** [coefficientOfVariation] takes a square root, so its value is a real
    number.  [mean] and [variance] are the two quantities of the source;
    the callers only compare the result with a positive bound, and
    [cvBelow values b] is that comparison, [coefficientOfVariation(values)
    < b], made executable (see [cvBelow_correct]). *)
Definition mean (values : list Q) : Q :=
  sumQ values / inject_Z (Z.of_nat (length values)).

Definition variance (values : list Q) : Q :=
  let m := mean values in
  fold_left (fun sum v => sum + (v - m) * (v - m)) values 0
    / inject_Z (Z.of_nat (length values)).

Definition coefficientOfVariation (values : list Q) : Rdefinitions.R :=
  if (length values <? 2)%nat then Rdefinitions.IZR 0
  else
    let m := mean values in
    if JS.is_zero m then Rdefinitions.IZR 0
    else Rdefinitions.Rdiv (R_sqrt.sqrt (Rdefinitions.Q2R (variance values))) (Rdefinitions.Q2R m).

Definition cvBelow (values : list Q) (b : Q) : bool :=
  if (length values <? 2)%nat then true
  else
    let m := mean values in
    if JS.is_zero m then true
    else if Qltb m 0 then true
    else Qltb (variance values) ((b * m) * (b * m)).

(** [easyPaceRef * 0.92] as the language computes it: the literal is the
    binary64 value nearest to 0.92 and the product is rounded *)
Definition fastThresholdOf (easyPaceRef : Q) : JS.num :=
  JS.fmul (JS.Fin easyPaceRef) (JS.double 0.92).

(** the loop of [detectTempoBlock]; the result is [(fastStart, fastEnd)] *)
Fixpoint tempoScan (thr : JS.num) (paces : list Q) (i fastStart fastEnd : Z) : Z * Z :=
  match paces with
  | [] => (fastStart, fastEnd)
  | p :: rest =>
      if JS.lt (JS.Fin p) thr then
        tempoScan thr rest (i + 1)%Z (if (fastStart =? -1)%Z then i else fastStart) i
      else if negb (fastStart =? -1)%Z && (fastEnd + 1 <? i)%Z then
        (fastStart, fastEnd)
      else
        tempoScan thr rest (i + 1)%Z fastStart fastEnd
  end.

(** the detail of a tempo block, every operation rounded as in the
    language; [block] is [laps.slice(fastStart, fastEnd + 1)] *)
Definition tempoDetail (block : list ActivityLapRecord) : string :=
  let tempoDistance :=
    fold_left (fun sum l => JS.fadd sum (JS.Fin (lap_distance l))) block (JS.Fin 0) in
  let distKm := JS.fdiv tempoDistance (JS.Fin 1000) in
  let avgPace :=
    JS.fmul
      (JS.fdiv
         (fold_left (fun sum l => JS.fadd sum (JS.Fin (lap_moving_time l))) block (JS.Fin 0))
         tempoDistance)
      (JS.Fin 1000) in
  let paceMin := JS.floor (JS.fdiv avgPace (JS.Fin 60)) in
  let paceSec := JS.round (JS.rem avgPace 60) in
  String.append (JS.toFixed1 distKm)
    (String.append "km @ "
      (String.append (JS.to_string paceMin)
        (String.append ":"
          (String.append (JS.padStart0 2 (JS.to_string paceSec)) "/km")))).

Definition detectTempoBlock
    (laps : list ActivityLapRecord) (lapPaces : list Q) (easyPaceRef : Q)
  : option ClassificationResult :=
  if (length laps <? 3)%nat then None
  else
    let fastThreshold := fastThresholdOf easyPaceRef in
    let '(fastStart, fastEnd) := tempoScan fastThreshold lapPaces 0 (-1) (-1) in
    if (fastStart =? -1)%Z then None
    else
      let fastLapCount := (fastEnd - fastStart + 1)%Z in
      if (fastLapCount <? 2)%Z then None
      else if (fastStart =? 0)%Z && (fastEnd =? Z.of_nat (length lapPaces) - 1)%Z then None
      else
        let block := JS.slice laps fastStart (fastEnd + 1) in
        Some (mkResult tempo (Some (tempoDetail block)) high).

(** the [type] tag of [allLaps]: ["work"] or ["rest"] *)
Inductive LapKind : Type := kindWork | kindRest.

Definition LapKind_eqb (a b : LapKind) : bool :=
  match a, b with
  | kindWork, kindWork | kindRest, kindRest => true
  | _, _ => false
  end.

Fixpoint countAlternations (prev : LapKind) (l : list (nat * LapKind)) : nat :=
  match l with
  | [] => O
  | (_, k) :: r =>
      ((if LapKind_eqb k prev then 0 else 1) + countAlternations k r)%nat
  end.

Definition isAlternatingPattern (workLaps restLaps : list nat) : bool :=
  if (length workLaps <? 2)%nat then false
  else
    let allLaps :=
      JS.sort (fun a b => (fst a <=? fst b)%nat)
        (map (fun i => (i, kindWork)) workLaps ++ map (fun i => (i, kindRest)) restLaps) in
    let alternations :=
      match allLaps with
      | [] => O
      | (_, k) :: r => countAlternations k r
      end in
    (length workLaps <=? alternations)%nat.

Definition dummyLap : ActivityLapRecord :=
  {| lap_activity_id := 0; lap_index := 0; lap_distance := 0; lap_elapsed_time := 0;
     lap_moving_time := 0; lap_average_speed := 0; lap_max_speed := 0;
     lap_average_heartrate := None; lap_max_heartrate := None;
     lap_start_index := 0; lap_end_index := 0 |}.

(** [laps[i]] for an index the caller took from [laps] itself *)
Definition lapAt (laps : list ActivityLapRecord) (i : nat) : ActivityLapRecord :=
  nth i laps dummyLap.

Definition countPrefix (count : nat) (suffix : string) : string :=
  String.append (JS.string_of_Z (Z.of_nat count)) (String.append "x" suffix).

Definition formatIntervalDetail (workLaps : list nat) (laps : list ActivityLapRecord) : string :=
  let count := length workLaps in
  let avgDistance :=
    sumQ (map (fun i => lap_distance (lapAt laps i)) workLaps)
      / inject_Z (Z.of_nat count) in
  if Qltb (Qabs' (avgDistance - 1000)) 150 then countPrefix count "1km"
  else if Qltb (Qabs' (avgDistance - 800)) 100 then countPrefix count "800m"
  else if Qltb (Qabs' (avgDistance - 400)) 80 then countPrefix count "400m"
  else if Qltb (Qabs' (avgDistance - 1600)) 200 || Qltb (Qabs' (avgDistance - 1609)) 200
    then countPrefix count "1mi"
  else if Qltb (Qabs' (avgDistance - 2000)) 200 then countPrefix count "2km"
  else if Qltb (Qabs' (avgDistance - 1200)) 150 then countPrefix count "1200m"
  else
    let roundedM := (JS.round_Q (avgDistance / 100) * 100)%Z in
    countPrefix count (String.append (JS.string_of_Z roundedM) "m").

Definition formatFartlekDetail
    (workLaps restLaps : list nat) (laps : list ActivityLapRecord) : string :=
  let workCount := length workLaps in
  let avgWorkTime :=
    sumQ (map (fun i => lap_moving_time (lapAt laps i)) workLaps)
      / inject_Z (Z.of_nat workCount) in
  let avgRestTime :=
    if (0 <? length restLaps)%nat
    then sumQ (map (fun i => lap_moving_time (lapAt laps i)) restLaps)
           / inject_Z (Z.of_nat (length restLaps))
    else 0 in
  let workMin := JS.round_Q (avgWorkTime / 60) in
  let restMin := JS.round_Q (avgRestTime / 60) in
  if (0 <? workMin)%Z && (0 <? restMin)%Z then
    countPrefix workCount
      (String.append (JS.string_of_Z workMin)
        (String.append "/" (String.append (JS.string_of_Z restMin) "min")))
  else if (0 <? workMin)%Z then
    countPrefix workCount (String.append (JS.string_of_Z workMin) "min")
  else
    let workSec := (JS.round_Q (avgWorkTime / 10) * 10)%Z in
    countPrefix workCount (String.append (JS.string_of_Z workSec) "s").

Definition lapPace (l : ActivityLapRecord) : Q :=
  if Qltb 0 (lap_distance l) then (lap_moving_time l / lap_distance l) * 1000 else 0.

Definition isWork (lapPaces : list Q) (workThreshold : Q) (i : nat) : bool :=
  Qleb (nth i lapPaces 0) workThreshold.

(** the two index lists filled by the loop over [laps] *)
Definition workLapsOf (n : nat) (lapPaces : list Q) (workThreshold : Q) : list nat :=
  List.filter (fun i => isWork lapPaces workThreshold i) (seq 0 n).

Definition restLapsOf (n : nat) (lapPaces : list Q) (workThreshold : Q) : list nat :=
  List.filter (fun i => negb (isWork lapPaces workThreshold i)) (seq 0 n).

Definition classifyStructuredLapRun
    (activity : ActivityData) (laps : list ActivityLapRecord)
    (hrZones : option HrZones) (easyPaceRef : Q)
  : ClassificationResult :=
  if (length laps <? 3)%nat then classifyByPaceAndHr activity hrZones easyPaceRef
  else
    let lapPaces := map lapPace laps in
    if isProgression lapPaces then mkResult progression None high
    else
      let medianPace := getMedian lapPaces in
      let workThreshold := medianPace * 0.92 in
      let workLaps := workLapsOf (length laps) lapPaces workThreshold in
      let restLaps := restLapsOf (length laps) lapPaces workThreshold in
      if (length workLaps <? 2)%nat then
        match detectTempoBlock laps lapPaces easyPaceRef with
        | Some tempoResult => tempoResult
        | None => classifyByPaceAndHr activity hrZones easyPaceRef
        end
      else
        let hasAlternating := isAlternatingPattern workLaps restLaps in
        if negb hasAlternating then classifyByPaceAndHr activity hrZones easyPaceRef
        else
          let workDistances := map (fun i => lap_distance (lapAt laps i)) workLaps in
          if cvBelow workDistances 0.15 then
            mkResult intervals (Some (formatIntervalDetail workLaps laps)) high
          else
            mkResult fartlek (Some (formatFartlekDetail workLaps restLaps laps)) high.

Definition classifyRun
    (activity : ActivityData) (laps : list ActivityLapRecord)
    (hrZones : option HrZones) (easyPaceRef : Q)
  : ClassificationResult :=
  match act_workout_type activity with
  | Some 1%Z => mkResult race None high
  | _ =>
      if (length laps =? 0)%nat then classifyByPaceAndHr activity hrZones easyPaceRef
      else
        let isAutoLap := detectAutoLaps laps in
        if isAutoLap then classifyAutoLapRun activity hrZones easyPaceRef
        else classifyStructuredLapRun activity laps hrZones easyPaceRef
  end.

End Classifier.

(** ** Streams, segments and best-effort results ([src/types/index.ts]) *)

Record ActivityStream : Type := {
  time : list Q;
  distance : list Q
}.

Record Segment : Type := {
  timeSeconds : JS.num;
  distanceMeters : JS.num;
  startIndex : nat;
  endIndex : nat
}.

Inductive EffortSource : Type := strava | computed.

Record BestEffortResult : Type := {
  activityId : Z;
  activityName : string;
  activityDate : string;
  segmentTimeSeconds : JS.num;
  segmentDistanceMeters : JS.num;
  formattedTime : string;
  pacePerKm : string;
  stravaUrl : string;
  source : EffortSource
}.

(** ** The SQLite store ([src/utils/activities-db.ts]) *)

(** [StravaActivity]: one activity summary as the provider returns it *)
Record StravaActivity : Type := {
  sa_id : Z;
  sa_name : string;
  sa_type : string;
  sa_sport_type : string;
  sa_start_date : string;
  sa_start_date_local : string;
  sa_distance : Q;
  sa_moving_time : Q;
  sa_elapsed_time : Q;
  sa_total_elevation_gain : Q;
  sa_average_speed : Q;
  sa_max_speed : Q;
  sa_average_heartrate : option Q;
  sa_max_heartrate : option Q;
  sa_suffer_score : option Q;
  sa_average_cadence : option Q;
  sa_workout_type : option Z;
  sa_description : option string;
  sa_trainer : option bool;
  sa_start_latlng : option (Q * Q)
}.

(** a row of table [activities]: the columns of [CREATE TABLE] followed by
    the columns the migrations add *)
Record ActivityRow : Type := {
  row_id : Z;
  row_name : string;
  row_type : string;
  row_sport_type : string;
  row_start_date : string;
  row_start_date_local : string;
  row_distance : Q;
  row_moving_time : Q;
  row_elapsed_time : Q;
  row_total_elevation_gain : Q;
  row_average_speed : Q;
  row_max_speed : Q;
  row_average_heartrate : option Q;
  row_max_heartrate : option Q;
  row_suffer_score : option Q;
  row_average_cadence : option Q;
  row_workout_type : option Z;
  row_description : option string;
  row_trainer : Z;
  row_detail_fetched : Z;
  row_start_latitude : option Q;
  row_start_longitude : option Q;
  row_run_type : option RunType;
  row_run_type_detail : option string
}.

(** a row of table [best_efforts] *)
Record BestEffortRecord : Type := {
  be_activity_id : Z;
  be_distance_name : string;
  be_distance_meters : Q;
  be_elapsed_time : JS.num;
  be_pace_per_km : JS.num;
  be_start_index : nat;
  be_end_index : nat;
  be_computed_at : string
}.

(** [StravaBestEffort]: a best effort of the provider's detail payload *)
Record StravaBestEffort : Type := {
  sbe_id : Z;
  sbe_name : string;
  sbe_elapsed_time : Q;
  sbe_moving_time : Q;
  sbe_distance : Q;
  sbe_start_index : Z;
  sbe_end_index : Z;
  sbe_pr_rank : option Z
}.

(** a row of table [strava_best_efforts] *)
Record StravaBestEffortRecord : Type := {
  rec_strava_effort_id : Z;
  rec_activity_id : Z;
  rec_distance_name : string;
  rec_distance_meters : Q;
  rec_elapsed_time : Q;
  rec_moving_time : Q;
  rec_pace_per_km : JS.num;
  rec_start_index : Z;
  rec_end_index : Z;
  rec_pr_rank : option Z;
  rec_fetched_at : string
}.

(** [StravaLap]: a lap of the provider's detail payload *)
Record StravaLap : Type := {
  sl_id : Z;
  sl_lap_index : Z;
  sl_distance : Q;
  sl_elapsed_time : Q;
  sl_moving_time : Q;
  sl_average_speed : Q;
  sl_max_speed : Q;
  sl_average_heartrate : option Q;
  sl_max_heartrate : option Q;
  sl_start_index : Z;
  sl_end_index : Z
}.

(** The database.  [activities] has primary key [id]; [best_efforts] is
    unique by [(activity_id, distance_name)] and [activity_laps] by
    [(activity_id, lap_index)]; [strava_best_efforts] has two uniqueness
    constraints and is kept as the list of its rows. *)
Record Store : Type := {
  activities : gmap Z ActivityRow;
  best_efforts : gmap (Z * string) BestEffortRecord;
  strava_best_efforts : list StravaBestEffortRecord;
  activity_laps : gmap (Z * Z) ActivityLapRecord
}.

Module DB.

Definition set_activities (f : gmap Z ActivityRow -> gmap Z ActivityRow) (st : Store) : Store :=
  {| activities := f (activities st); best_efforts := best_efforts st;
     strava_best_efforts := strava_best_efforts st; activity_laps := activity_laps st |}.

Definition set_best_efforts
    (f : gmap (Z * string) BestEffortRecord -> gmap (Z * string) BestEffortRecord)
    (st : Store) : Store :=
  {| activities := activities st; best_efforts := f (best_efforts st);
     strava_best_efforts := strava_best_efforts st; activity_laps := activity_laps st |}.

Definition set_strava_best_efforts
    (f : list StravaBestEffortRecord -> list StravaBestEffortRecord) (st : Store) : Store :=
  {| activities := activities st; best_efforts := best_efforts st;
     strava_best_efforts := f (strava_best_efforts st); activity_laps := activity_laps st |}.

Definition set_activity_laps
    (f : gmap (Z * Z) ActivityLapRecord -> gmap (Z * Z) ActivityLapRecord) (st : Store) : Store :=
  {| activities := activities st; best_efforts := best_efforts st;
     strava_best_efforts := strava_best_efforts st; activity_laps := f (activity_laps st) |}.

(** The row written by the [INSERT OR REPLACE INTO activities (...)] of
    [upsertActivities].  [REPLACE] deletes a row with the same primary
    key before it inserts, and a column that the statement does not list
    takes its default: [0] for [detail_fetched], [NULL] for [run_type]
    and [run_type_detail]. *)
Definition rowOfActivity (activity : StravaActivity) : ActivityRow :=
  {| row_id := sa_id activity;
     row_name := sa_name activity;
     row_type := sa_type activity;
     row_sport_type := sa_sport_type activity;
     row_start_date := sa_start_date activity;
     row_start_date_local := sa_start_date_local activity;
     row_distance := sa_distance activity;
     row_moving_time := sa_moving_time activity;
     row_elapsed_time := sa_elapsed_time activity;
     row_total_elevation_gain := sa_total_elevation_gain activity;
     row_average_speed := sa_average_speed activity;
     row_max_speed := sa_max_speed activity;
     row_average_heartrate := sa_average_heartrate activity;
     row_max_heartrate := sa_max_heartrate activity;
     row_suffer_score := sa_suffer_score activity;
     row_average_cadence := sa_average_cadence activity;
     row_workout_type := sa_workout_type activity;
     row_description := sa_description activity;
     row_trainer := match sa_trainer activity with Some true => 1 | _ => 0 end;
     row_detail_fetched := 0;
     row_start_latitude := fst <$> sa_start_latlng activity;
     row_start_longitude := snd <$> sa_start_latlng activity;
     row_run_type := None;
     row_run_type_detail := None |}.

Definition upsertActivity (tbl : gmap Z ActivityRow) (activity : StravaActivity)
  : gmap Z ActivityRow :=
  <[sa_id activity := rowOfActivity activity]> tbl.

Definition upsertActivities (acts : list StravaActivity) (st : Store) : Store :=
  set_activities (fun tbl => fold_left upsertActivity acts tbl) st.

(** rows of [activities] in primary-key order *)
Definition activityRows (st : Store) : list ActivityRow :=
  map snd (stable_sort (fun a b => (fst a <=? fst b)%Z) (map_to_list (activities st))).

(** [SELECT MAX(start_date_local) FROM activities] *)
Definition maxString (a b : string) : string := if String.leb a b then b else a.

Definition getLatestActivityDate (st : Store) : option string :=
  match map row_start_date_local (activityRows st) with
  | [] => None
  | d :: ds => Some (fold_left maxString ds d)
  end.

Definition getExistingActivityIds (st : Store) : gset Z := dom (activities st).

(** [LIMIT ?]: a negative limit means no limit *)
Definition sqlLimit {A} (limit : Z) (l : list A) : list A :=
  if limit <? 0 then l else take (Z.to_nat limit) l.

(** [ORDER BY start_date_local DESC]; rows with equal keys stay in
    primary-key order *)
Definition orderByDateDesc (rows : list ActivityRow) : list ActivityRow :=
  stable_sort (fun a b => String.leb (row_start_date_local b) (row_start_date_local a)) rows.

(** [WHERE type = 'Run' AND trainer = 0 AND detail_fetched = 0] *)
Definition missingDetail (r : ActivityRow) : bool :=
  String.eqb (row_type r) "Run" && (row_trainer r =? 0) && (row_detail_fetched r =? 0).

Definition getActivitiesWithoutDetail (limit : Z) (st : Store) : list ActivityRow :=
  sqlLimit limit (orderByDateDesc (List.filter missingDetail (activityRows st))).

(** [UPDATE activities SET detail_fetched = 1 WHERE id = ?] *)
Definition withDetailFetched (r : ActivityRow) : ActivityRow :=
  {| row_id := row_id r; row_name := row_name r; row_type := row_type r;
     row_sport_type := row_sport_type r; row_start_date := row_start_date r;
     row_start_date_local := row_start_date_local r; row_distance := row_distance r;
     row_moving_time := row_moving_time r; row_elapsed_time := row_elapsed_time r;
     row_total_elevation_gain := row_total_elevation_gain r;
     row_average_speed := row_average_speed r; row_max_speed := row_max_speed r;
     row_average_heartrate := row_average_heartrate r;
     row_max_heartrate := row_max_heartrate r; row_suffer_score := row_suffer_score r;
     row_average_cadence := row_average_cadence r;
     row_workout_type := row_workout_type r; row_description := row_description r;
     row_trainer := row_trainer r; row_detail_fetched := 1;
     row_start_latitude := row_start_latitude r;
     row_start_longitude := row_start_longitude r;
     row_run_type := row_run_type r; row_run_type_detail := row_run_type_detail r |}.

Definition markActivityDetailFetched (activityId : Z) (st : Store) : Store :=
  set_activities (alter withDetailFetched activityId) st.

(** [UPDATE activities SET run_type = ?, run_type_detail = ? WHERE id = ?] *)
Definition withRunType (t : RunType) (d : option string) (r : ActivityRow) : ActivityRow :=
  {| row_id := row_id r; row_name := row_name r; row_type := row_type r;
     row_sport_type := row_sport_type r; row_start_date := row_start_date r;
     row_start_date_local := row_start_date_local r; row_distance := row_distance r;
     row_moving_time := row_moving_time r; row_elapsed_time := row_elapsed_time r;
     row_total_elevation_gain := row_total_elevation_gain r;
     row_average_speed := row_average_speed r; row_max_speed := row_max_speed r;
     row_average_heartrate := row_average_heartrate r;
     row_max_heartrate := row_max_heartrate r; row_suffer_score := row_suffer_score r;
     row_average_cadence := row_average_cadence r;
     row_workout_type := row_workout_type r; row_description := row_description r;
     row_trainer := row_trainer r; row_detail_fetched := row_detail_fetched r;
     row_start_latitude := row_start_latitude r;
     row_start_longitude := row_start_longitude r;
     row_run_type := Some t; row_run_type_detail := d |}.

Definition setRunType (activityId : Z) (runType : RunType) (runTypeDetail : option string)
    (st : Store) : Store :=
  set_activities (alter (withRunType runType runTypeDetail) activityId) st.

(** [INSERT OR REPLACE INTO best_efforts] *)
Definition upsertBestEffort (record : BestEffortRecord) (st : Store) : Store :=
  set_best_efforts
    (fun tbl => <[(be_activity_id record, be_distance_name record) := record]> tbl) st.

(** [INSERT OR REPLACE INTO strava_best_efforts]: the rows that share the
    new row's [strava_effort_id] or its [(activity_id, distance_name)]
    are deleted, then the row is inserted *)
Definition conflicts (r x : StravaBestEffortRecord) : bool :=
  (rec_strava_effort_id x =? rec_strava_effort_id r)
  || ((rec_activity_id x =? rec_activity_id r)
      && String.eqb (rec_distance_name x) (rec_distance_name r)).

Definition replaceStravaBestEffort
    (tbl : list StravaBestEffortRecord) (r : StravaBestEffortRecord)
  : list StravaBestEffortRecord :=
  List.filter (fun x => negb (conflicts r x)) tbl ++ [r].

Definition upsertStravaBestEfforts (records : list StravaBestEffortRecord) (st : Store) : Store :=
  set_strava_best_efforts (fun tbl => fold_left replaceStravaBestEffort records tbl) st.

(** [INSERT OR REPLACE INTO activity_laps]; the row's [activity_id] is
    the function's argument *)
Definition withActivityId (activityId : Z) (r : ActivityLapRecord) : ActivityLapRecord :=
  {| lap_activity_id := activityId; lap_index := lap_index r;
     lap_distance := lap_distance r; lap_elapsed_time := lap_elapsed_time r;
     lap_moving_time := lap_moving_time r; lap_average_speed := lap_average_speed r;
     lap_max_speed := lap_max_speed r;
     lap_average_heartrate := lap_average_heartrate r;
     lap_max_heartrate := lap_max_heartrate r;
     lap_start_index := lap_start_index r; lap_end_index := lap_end_index r |}.

Definition upsertLap (activityId : Z) (tbl : gmap (Z * Z) ActivityLapRecord)
    (r : ActivityLapRecord) : gmap (Z * Z) ActivityLapRecord :=
  <[(activityId, lap_index r) := withActivityId activityId r]> tbl.

Definition upsertActivityLaps (activityId : Z) (laps : list ActivityLapRecord) (st : Store)
  : Store :=
  set_activity_laps (fun tbl => fold_left (upsertLap activityId) laps tbl) st.

(** [SELECT * FROM activity_laps WHERE activity_id = ? ORDER BY lap_index ASC] *)
Definition getActivityLaps (activityId : Z) (st : Store) : list ActivityLapRecord :=
  map snd
    (stable_sort (fun a b => (snd (fst a) <=? snd (fst b))%Z)
       (List.filter (fun kv => (fst (fst kv) =? activityId)%Z)
          (map_to_list (activity_laps st)))).

(** [SELECT COUNT( * ) as count FROM activities] *)
Definition getActivityCount (st : Store) : nat := length (activityRows st).

(** [WHERE type = 'Run' AND trainer = 0 AND detail_fetched = 1 AND
    run_type IS NULL] *)
Definition unclassified (r : ActivityRow) : bool :=
  String.eqb (row_type r) "Run" && (row_trainer r =? 0) && (row_detail_fetched r =? 1)
  && match row_run_type r with None => true | Some _ => false end.

Definition getUnclassifiedActivities (limit : Z) (st : Store) : list ActivityRow :=
  sqlLimit limit (orderByDateDesc (List.filter unclassified (activityRows st))).

(** A row of [strava_best_efforts sbe JOIN activities a ON
    sbe.activity_id = a.id]: the effort's columns ([sbe.*]) and the five
    columns selected from the activity. *)
Record StravaBestEffortRow : Type := {
  joined_effort : StravaBestEffortRecord;
  joined_activity_name : string;
  joined_start_date_local : string;
  joined_activity_distance : Q;
  joined_workout_type : option Z;
  joined_run_type : option RunType
}.

(** an effort whose activity is not stored has no row in the join *)
Definition joinActivity (st : Store) (sbe : StravaBestEffortRecord)
  : option StravaBestEffortRow :=
  match activities st !! rec_activity_id sbe with
  | None => None
  | Some a =>
      Some {| joined_effort := sbe;
              joined_activity_name := row_name a;
              joined_start_date_local := row_start_date_local a;
              joined_activity_distance := row_distance a;
              joined_workout_type := row_workout_type a;
              joined_run_type := row_run_type a |}
  end.

(** [ORDER BY sbe.elapsed_time ASC] and [ORDER BY sbe.distance_name,
    sbe.elapsed_time ASC]; rows with equal keys stay in the order of the
    table *)
Definition byElapsedTime (x y : StravaBestEffortRow) : bool :=
  Qleb (rec_elapsed_time (joined_effort x)) (rec_elapsed_time (joined_effort y)).

Definition byNameAndElapsedTime (x y : StravaBestEffortRow) : bool :=
  match String.compare (rec_distance_name (joined_effort x))
                       (rec_distance_name (joined_effort y)) with
  | Lt => true
  | Gt => false
  | Eq => byElapsedTime x y
  end.

(** [getStravaBestEfforts(distanceName?)]: an absent or empty name
    selects the efforts of every distance *)
Definition getStravaBestEfforts (distanceName : option string) (st : Store)
  : list StravaBestEffortRow :=
  let joined := omap (joinActivity st) (strava_best_efforts st) in
  match distanceName with
  | Some (String _ _ as name) =>
      stable_sort byElapsedTime
        (List.filter (fun x => String.eqb (rec_distance_name (joined_effort x)) name) joined)
  | _ => stable_sort byNameAndElapsedTime joined
  end.

End DB.

(** ** Segment search and best-effort merge ([src/tools/best-efforts.ts]) *)

Module BestEfforts.

Local Open Scope Q_scope.

Definition DISTANCE_TOLERANCE : Q := 50.

Record SearchState : Type := {
  bestTime : JS.num;
  bestDistance : JS.num;
  bestStartIdx : nat;
  bestEndIdx : nat;
  startIdx : nat
}.

Section Search.
Variable stream : ActivityStream.
Variable targetDistance : Q.

(** [distance[endIdx] - distance[startIdx]] *)
Definition windowDistance (s e : nat) : JS.num :=
  JS.fsub (JS.get (distance stream) e) (JS.get (distance stream) s).

Definition windowTime (s e : nat) : JS.num :=
  JS.fsub (JS.get (time stream) e) (JS.get (time stream) s).

(** [targetDistance + DISTANCE_TOLERANCE] and
    [targetDistance - DISTANCE_TOLERANCE] *)
Definition upperEnd : JS.num := JS.fadd (JS.Fin targetDistance) (JS.Fin DISTANCE_TOLERANCE).
Definition lowerEnd : JS.num := JS.fsub (JS.Fin targetDistance) (JS.Fin DISTANCE_TOLERANCE).

(** the inner [while] loop; it increments [startIdx] at most
    [endIdx - startIdx] times, which is the fuel it is started with *)
Fixpoint advance (fuel : nat) (endIdx s : nat) : nat :=
  match fuel with
  | O => s
  | S fuel' =>
      if (s <? endIdx)%nat && JS.lt upperEnd (windowDistance s endIdx)
      then advance fuel' endIdx (S s)
      else s
  end.

Definition normalized (s e : nat) : JS.num :=
  JS.fmul (JS.fdiv (windowTime s e) (windowDistance s e)) (JS.Fin targetDistance).

(** one iteration of the [for] loop over [endIdx] *)
Definition searchStep (st : SearchState) (endIdx : nat) : SearchState :=
  let s := advance (endIdx - startIdx st) endIdx (startIdx st) in
  let segmentDistance := windowDistance s endIdx in
  if JS.le lowerEnd segmentDistance then
    let normalizedTime := normalized s endIdx in
    if JS.lt normalizedTime (bestTime st) then
      {| bestTime := normalizedTime; bestDistance := segmentDistance;
         bestStartIdx := s; bestEndIdx := endIdx; startIdx := s |}
    else
      {| bestTime := bestTime st; bestDistance := bestDistance st;
         bestStartIdx := bestStartIdx st; bestEndIdx := bestEndIdx st; startIdx := s |}
  else
    {| bestTime := bestTime st; bestDistance := bestDistance st;
       bestStartIdx := bestStartIdx st; bestEndIdx := bestEndIdx st; startIdx := s |}.

Definition searchInit : SearchState :=
  {| bestTime := JS.PInf; bestDistance := JS.Fin 0;
     bestStartIdx := O; bestEndIdx := O; startIdx := O |}.

Definition searchLoop (n : nat) : SearchState :=
  fold_left searchStep (seq 0 n) searchInit.

Definition findFastestSegment : option Segment :=
  let n := length (distance stream) in
  if (n =? 0)%nat || JS.lt (JS.get (distance stream) (n - 1)) (JS.Fin targetDistance)
  then None
  else
    let st := searchLoop n in
    match bestTime st with
    | JS.PInf => None
    | _ =>
        Some {| timeSeconds := JS.round (bestTime st);
                distanceMeters := JS.round (bestDistance st);
                startIndex := bestStartIdx st;
                endIndex := bestEndIdx st |}
    end.
End Search.


Definition MIN_REALISTIC_PACE_PER_KM : list (Z * Q) :=
  [(1000%Z, 2.5 * 60); (5000%Z, 3.0 * 60); (10000%Z, 3.0 * 60);
   (21097%Z, 3.0 * 60); (42195%Z, 3.0 * 60)].

Record DistanceConfig : Type := {
  dbName : string;
  meters : Z
}.

Definition DISTANCE_CONFIG : list (string * DistanceConfig) :=
  [("1k"%string, {| dbName := "1K"; meters := 1000 |});
   ("5k"%string, {| dbName := "5K"; meters := 5000 |});
   ("10k"%string, {| dbName := "10K"; meters := 10000 |});
   ("half"%string, {| dbName := "HALF"; meters := 21097 |});
   ("marathon"%string, {| dbName := "MARATHON"; meters := 42195 |})].

Fixpoint lookupZ {V} (tbl : list (Z * V)) (k : Z) : option V :=
  match tbl with
  | [] => None
  | (k', v) :: r => if (k' =? k)%Z then Some v else lookupZ r k
  end.

(** [MIN_REALISTIC_PACE_PER_KM[config.meters] || 3 * 60] *)
Definition minPaceFor (m : Z) : Q :=
  match lookupZ MIN_REALISTIC_PACE_PER_KM m with
  | Some v => if JS.is_zero v then 3 * 60 else v
  | None => 3 * 60
  end.

Definition formatTime (seconds : JS.num) : string :=
  let hours := JS.floor (JS.fdiv seconds (JS.Fin 3600)) in
  let mins := JS.floor (JS.fdiv (JS.rem seconds 3600) (JS.Fin 60)) in
  let secs := JS.round (JS.rem seconds 60) in
  if JS.lt (JS.Fin 0) hours then
    String.append (JS.to_string hours)
      (String.append ":"
        (String.append (JS.padStart0 2 (JS.to_string mins))
          (String.append ":" (JS.padStart0 2 (JS.to_string secs)))))
  else
    String.append (JS.to_string mins)
      (String.append ":" (JS.padStart0 2 (JS.to_string secs))).

Definition formatPace (seconds : JS.num) (m : Q) : string :=
  let paceSecsPerKm := JS.fmul (JS.fdiv seconds (JS.Fin m)) (JS.Fin 1000) in
  let mins := JS.floor (JS.fdiv paceSecsPerKm (JS.Fin 60)) in
  let secs := JS.round (JS.rem paceSecsPerKm 60) in
  String.append (JS.to_string mins)
    (String.append ":" (String.append (JS.padStart0 2 (JS.to_string secs)) "/km")).

(** [s.split("T")[0]] *)
Fixpoint beforeT (s : string) : string :=
  match s with
  | EmptyString => EmptyString
  | String c r => if Ascii.eqb c "T" then EmptyString else String c (beforeT r)
  end.

Definition stravaUrlOf (activityId : Z) : string :=
  String.append "https://www.strava.com/activities/" (JS.string_of_Z activityId).

(** the comparator [(a, b) => a.segmentTimeSeconds - b.segmentTimeSeconds]:
    [a] stays before [b] unless the difference is positive *)
Definition effortLeb (a b : BestEffortResult) : bool :=
  negb (JS.lt (JS.Fin 0) (JS.sub (segmentTimeSeconds a) (segmentTimeSeconds b))).

(** what [fetchActivityStream] does: it throws (no usable credential),
    or returns a stream or [null] *)
Inductive StreamOutcome : Type :=
| StreamThrows
| StreamReturns (stream : option ActivityStream).

Section ComputeEfforts.
Variable fetchActivityStream : Z -> StreamOutcome.
Variable today : string.
Variable config : DistanceConfig.

(** the [SELECT] of [computeEfforts] *)
Definition selectRuns (st : Store) : list ActivityRow :=
  DB.orderByDateDesc
    (List.filter
       (fun r => String.eqb (row_type r) "Run"
                 && Qleb (inject_Z (meters config)) (row_distance r)
                 && (row_trainer r =? 0)%Z)
       (DB.activityRows st)).

(** [segment.timeSeconds / segment.distanceMeters * 1000] *)
Definition impliedPace (segment : Segment) : JS.num :=
  JS.fmul (JS.fdiv (timeSeconds segment) (distanceMeters segment)) (JS.Fin 1000).

Definition tooFast (segment : Segment) : bool :=
  JS.lt (impliedPace segment) (JS.Fin (minPaceFor (meters config))).

Definition recordOf (run : ActivityRow) (segment : Segment) : BestEffortRecord :=
  {| be_activity_id := row_id run;
     be_distance_name := dbName config;
     be_distance_meters := inject_Z (meters config);
     be_elapsed_time := timeSeconds segment;
     be_pace_per_km := impliedPace segment;
     be_start_index := startIndex segment;
     be_end_index := endIndex segment;
     be_computed_at := today |}.

Definition resultOf (run : ActivityRow) (segment : Segment) : BestEffortResult :=
  {| activityId := row_id run;
     activityName := row_name run;
     activityDate := beforeT (row_start_date_local run);
     segmentTimeSeconds := timeSeconds segment;
     segmentDistanceMeters := distanceMeters segment;
     formattedTime := formatTime (timeSeconds segment);
     pacePerKm := formatPace (timeSeconds segment) (inject_Z (meters config));
     stravaUrl := stravaUrlOf (row_id run);
     source := computed |}.

(** The [for] loop over [runs].  The first component is the database
    when the loop is left, the second one the array [efforts], [None] for an
    exception that leaves the function: the rows written before it stay. *)
Fixpoint computeLoop (runs : list ActivityRow) (st : Store) (efforts : list BestEffortResult)
  : Store * option (list BestEffortResult) :=
  match runs with
  | [] => (st, Some efforts)
  | run :: rest =>
      match fetchActivityStream (row_id run) with
      | StreamThrows => (st, None)
      | StreamReturns None => computeLoop rest st efforts
      | StreamReturns (Some stream) =>
          match findFastestSegment stream (inject_Z (meters config)) with
          | None => computeLoop rest st efforts
          | Some segment =>
              if tooFast segment then computeLoop rest st efforts
              else
                computeLoop rest
                  (DB.upsertBestEffort (recordOf run segment) st)
                  (efforts ++ [resultOf run segment])
          end
      end
  end.

(** the database after the call and the array it returns, [None] when it
    throws *)
Definition computeEfforts (limit : Z) (st : Store)
  : Store * option (list BestEffortResult) :=
  let runs := selectRuns st in
  if (length runs =? 0)%nat then (st, Some [])
  else
    match computeLoop runs st [] with
    | (st', None) => (st', None)
    | (st', Some efforts) => (st', Some (JS.slice (JS.sort effortLeb efforts) 0 limit))
    end.
End ComputeEfforts.

Definition mergeAll (stravaEfforts computedEfforts : list BestEffortResult)
  : list BestEffortResult :=
  let byActivity :=
    fold_left (fun m e => JS.map_set m (activityId e) e) stravaEfforts [] in
  let byActivity :=
    fold_left
      (fun m e => if negb (JS.map_has m (activityId e)) then JS.map_set m (activityId e) e else m)
      computedEfforts byActivity in
  let merged := JS.map_values byActivity in
  JS.sort effortLeb merged.

Definition mergeEfforts (stravaEfforts computedEfforts : list BestEffortResult) (limit : Z)
  : list BestEffortResult :=
  JS.slice (mergeAll stravaEfforts computedEfforts) 0 limit.

(** [queryStravaEfforts]: the provider-native efforts of a distance, the
    fastest first *)
Definition resultOfRow (config : DistanceConfig) (row : DB.StravaBestEffortRow)
  : BestEffortResult :=
  let sbe := DB.joined_effort row in
  {| activityId := rec_activity_id sbe;
     activityName := DB.joined_activity_name row;
     activityDate := beforeT (DB.joined_start_date_local row);
     segmentTimeSeconds := JS.Fin (rec_elapsed_time sbe);
     segmentDistanceMeters := JS.Fin (rec_distance_meters sbe);
     formattedTime := formatTime (JS.Fin (rec_elapsed_time sbe));
     pacePerKm := formatPace (JS.Fin (rec_elapsed_time sbe)) (inject_Z (meters config));
     stravaUrl := stravaUrlOf (rec_activity_id sbe);
     source := strava |}.

Definition queryStravaEfforts (config : DistanceConfig) (limit : Z) (st : Store)
  : list BestEffortResult :=
  let rows := DB.getStravaBestEfforts (Some (dbName config)) st in
  map (resultOfRow config) (JS.slice rows 0 limit).

End BestEfforts.

(** ** Sync orchestrator ([src/tools/strava.ts], [src/strava/client.ts]) *)

Module Sync.

Local Open Scope Q_scope.

(** *** The fetch window *)

Record FetchWindow : Type := {
  after : JS.num;
  existingIds : gset Z;
  isIncremental : bool
}.

Section Window.
(** [new Date(s).getTime()] and [Date.now()], both in milliseconds *)
Variable getTime : string -> JS.num.
Variable now : Q.

Definition nowSeconds : JS.num := JS.floor (JS.fdiv (JS.Fin now) (JS.Fin 1000)).

Definition fetchWindow (days : Q) (incremental : bool) (st : Store) : FetchWindow :=
  if incremental then
    match DB.getLatestActivityDate st with
    | Some (String c r as latestDate) =>
        {| after :=
             JS.fsub (JS.floor (JS.fdiv (getTime latestDate) (JS.Fin 1000))) (JS.Fin 1);
           existingIds := DB.getExistingActivityIds st;
           isIncremental := true |}
    | _ =>
        {| after := JS.fsub nowSeconds (JS.Fin (180 * 24 * 60 * 60));
           existingIds := ∅;
           isIncremental := false |}
    end
  else
    {| after :=
         JS.fsub nowSeconds
           (JS.fmul (JS.fmul (JS.fmul (JS.Fin days) (JS.Fin 24)) (JS.Fin 60)) (JS.Fin 60));
       existingIds := ∅;
       isIncremental := false |}.
End Window.

(** The list request carries [after] as its lower bound; the provider
    answers with the activities whose start, in epoch seconds, lies after
    it. *)
Definition requested (afterBound : JS.num) (startEpoch : Z) : bool :=
  JS.lt afterBound (JS.Fin (inject_Z startEpoch)).

(** *** Detail backfill *)

Definition STRAVA_DISTANCE_NAME_MAP : list (string * string) :=
  [("400m", "400M"); ("1/2 mile", "800M"); ("1K", "1K"); ("1 mile", "1MILE");
   ("2 mile", "2MILE"); ("5K", "5K"); ("10K", "10K"); ("15K", "15K");
   ("10 mile", "10MILE"); ("20K", "20K"); ("Half-Marathon", "HALF");
   ("30K", "30K"); ("Marathon", "MARATHON")]%string.

(** the own entries of the map; for the members that the object of the
    source inherits see [objectPrototypeKeys] *)
Fixpoint lookupName (tbl : list (string * string)) (k : string) : option string :=
  match tbl with
  | [] => None
  | (k', v) :: r => if String.eqb k' k then Some v else lookupName r k
  end.

(** the members that every object inherits from [Object.prototype]: the
    lookup [STRAVA_DISTANCE_NAME_MAP[name]] of the source finds them although
    the map does not list them *)
Definition objectPrototypeKeys : list string :=
  ["constructor"; "__proto__"; "hasOwnProperty"; "isPrototypeOf";
   "propertyIsEnumerable"; "toLocaleString"; "toString"; "valueOf";
   "__defineGetter__"; "__defineSetter__"; "__lookupGetter__"; "__lookupSetter__"]%string.

Definition inheritedName (name : string) : bool :=
  existsb (String.eqb name) objectPrototypeKeys.

(** For an effort with an inherited name [distanceName] is a function or
    an object, which is not falsy: [convertStravaBestEfforts] keeps the
    effort, and [upsertStravaBestEfforts] cannot bind the value to
    [$distance_name] and throws; its transaction is rolled back. *)
Definition bindFails (bestEfforts : list StravaBestEffort) : bool :=
  existsb (fun effort => inheritedName (sbe_name effort)) bestEfforts.

Section Detail.
Variable today : string.

(** A name that the map does not list gives no record.  For a name of
    [objectPrototypeKeys] the source builds a record whose [distance_name]
    is not a string; it cannot be written, [persistDetail] stops at it, and
    it is not represented here. *)
Definition convertStravaBestEffort (activityId : Z) (effort : StravaBestEffort)
  : option StravaBestEffortRecord :=
  match lookupName STRAVA_DISTANCE_NAME_MAP (sbe_name effort) with
  | None => None
  | Some distanceName =>
      let pacePerKm :=
        JS.fmul (JS.fdiv (JS.Fin (sbe_elapsed_time effort)) (JS.Fin (sbe_distance effort)))
                (JS.Fin 1000) in
      Some {| rec_strava_effort_id := sbe_id effort;
              rec_activity_id := activityId;
              rec_distance_name := distanceName;
              rec_distance_meters := sbe_distance effort;
              rec_elapsed_time := sbe_elapsed_time effort;
              rec_moving_time := sbe_moving_time effort;
              rec_pace_per_km := pacePerKm;
              rec_start_index := sbe_start_index effort;
              rec_end_index := sbe_end_index effort;
              rec_pr_rank := sbe_pr_rank effort;
              rec_fetched_at := today |}
  end.

Definition convertStravaBestEfforts (activityId : Z) (efforts : list StravaBestEffort)
  : list StravaBestEffortRecord :=
  omap (convertStravaBestEffort activityId) efforts.

Definition lapRecordOf (activityId : Z) (lap : StravaLap) : ActivityLapRecord :=
  {| lap_activity_id := activityId;
     lap_index := sl_lap_index lap;
     lap_distance := sl_distance lap;
     lap_elapsed_time := sl_elapsed_time lap;
     lap_moving_time := sl_moving_time lap;
     lap_average_speed := sl_average_speed lap;
     lap_max_speed := sl_max_speed lap;
     lap_average_heartrate := sl_average_heartrate lap;
     lap_max_heartrate := sl_max_heartrate lap;
     lap_start_index := sl_start_index lap;
     lap_end_index := sl_end_index lap |}.

(** what [fetchActivityDetail] does: it returns the detail, throws
    [RATE_LIMITED] on status 429, or throws another error *)
Inductive DetailOutcome : Type :=
| DetailOk (bestEfforts : list StravaBestEffort) (laps : list StravaLap)
| RateLimited
| DetailFails.

Variable fetchActivityDetail : Z -> DetailOutcome.

(** the three writes of the [try] block after a successful fetch *)
Definition writeDetail (activityId : Z)
    (bestEfforts : list StravaBestEffort) (laps : list StravaLap) (st : Store) : Store :=
  let st1 :=
    if (0 <? length bestEfforts)%nat
    then DB.upsertStravaBestEfforts (convertStravaBestEfforts activityId bestEfforts) st
    else st in
  let st2 :=
    if (0 <? length laps)%nat
    then DB.upsertActivityLaps activityId (map (lapRecordOf activityId) laps) st1
    else st1 in
  DB.markActivityDetailFetched activityId st2.

(** The body of the [try] block after a successful fetch; [None] is an
    exception.  The one statement that can throw is the first write, so an
    exception leaves the database as it was. *)
Definition persistDetail (activityId : Z)
    (bestEfforts : list StravaBestEffort) (laps : list StravaLap) (st : Store) : option Store :=
  if bindFails bestEfforts then None
  else Some (writeDetail activityId bestEfforts laps st).

Record LoopState : Type := {
  store : Store;
  count : nat;
  requests : list Z
}.

(** The backfill loop over [toBackfill].  [requests] logs the detail
    requests in the order they are sent; [count] is [backfillCount].
    [RATE_LIMITED] leaves the loop; any other error, of the request or of
    the writes after it, is swallowed and the loop goes on with the next
    activity. *)
Fixpoint detailLoop (toBackfill : list Z) (s : LoopState) : LoopState :=
  match toBackfill with
  | [] => s
  | activityId :: rest =>
      let sent := requests s ++ [activityId] in
      match fetchActivityDetail activityId with
      | DetailOk bestEfforts laps =>
          match persistDetail activityId bestEfforts laps (store s) with
          | Some st' =>
              detailLoop rest {| store := st'; count := S (count s); requests := sent |}
          | None =>
              detailLoop rest {| store := store s; count := count s; requests := sent |}
          end
      | RateLimited =>
          {| store := store s; count := count s; requests := sent |}
      | DetailFails =>
          detailLoop rest {| store := store s; count := count s; requests := sent |}
      end
  end.

(** [backfill_best_efforts ?? 100], the selection and the loop *)
Definition backfill (backfill_best_efforts : option Z) (st : Store) : LoopState :=
  let backfillLimit := default 100%Z backfill_best_efforts in
  let toBackfill := DB.getActivitiesWithoutDetail backfillLimit st in
  detailLoop (map row_id toBackfill) {| store := st; count := 0; requests := [] |}.
End Detail.

(** *** New activities and their detail *)

(** [a.type === "Run" || a.sport_type === "Run"] and [a.trainer] as a
    condition *)
Definition isRun (a : StravaActivity) : bool :=
  String.eqb (sa_type a) "Run" || String.eqb (sa_sport_type a) "Run".

Definition isTrainer (a : StravaActivity) : bool :=
  match sa_trainer a with Some true => true | _ => false end.

Definition newActivities (existingIds : gset Z) (activities : list StravaActivity)
  : list StravaActivity :=
  List.filter (fun a => negb (bool_decide (sa_id a ∈ existingIds))) activities.

Definition newRuns (existingIds : gset Z) (activities : list StravaActivity)
  : list StravaActivity :=
  List.filter (fun a => isRun a && negb (isTrainer a)) (newActivities existingIds activities).

Definition newNonRuns (existingIds : gset Z) (activities : list StravaActivity)
  : list StravaActivity :=
  List.filter (fun a => negb (isRun a && negb (isTrainer a)))
    (newActivities existingIds activities).

Definition allRuns (activities : list StravaActivity) : list StravaActivity :=
  List.filter isRun activities.

(** the loop over [newRuns]: the body is the one of the backfill loop, and
    [count] is [detailFetched] *)
Definition fetchNewRunDetail (today : string) (fetchActivityDetail : Z -> DetailOutcome)
    (runs : list StravaActivity) (st : Store) : LoopState :=
  detailLoop today fetchActivityDetail (map sa_id runs)
    {| store := st; count := 0; requests := [] |}.

(** *** Classification *)

Definition dataOfActivity (run : StravaActivity) : ActivityData :=
  {| act_id := sa_id run;
     act_distance := sa_distance run;
     act_moving_time := sa_moving_time run;
     act_average_speed := sa_average_speed run;
     act_average_heartrate := sa_average_heartrate run;
     act_workout_type := sa_workout_type run |}.

Definition dataOfRow (a : ActivityRow) : ActivityData :=
  {| act_id := row_id a;
     act_distance := row_distance a;
     act_moving_time := row_moving_time a;
     act_average_speed := row_average_speed a;
     act_average_heartrate := row_average_heartrate a;
     act_workout_type := row_workout_type a |}.

Record Classification : Type := {
  classified : Store;
  classificationMap : list (Z * (RunType * option string));
  classifiedCount : nat
}.

Section Classify.
(** the confirmed zones and the value of [computeEasyPaceRef()] *)
Variable zones : HrZones.
Variable easyPaceRef : Q.

(** the body of the loop over [newRuns] *)
Definition classifyNewRun (s : Classification) (run : StravaActivity) : Classification :=
  let laps := DB.getActivityLaps (sa_id run) (classified s) in
  let result := Classifier.classifyRun (dataOfActivity run) laps (Some zones) easyPaceRef in
  {| classified :=
       DB.setRunType (sa_id run) (run_type result) (run_type_detail result) (classified s);
     classificationMap :=
       JS.map_set (classificationMap s) (sa_id run) (run_type result, run_type_detail result);
     classifiedCount := S (classifiedCount s) |}.

(** the body of the loop over [unclassified] *)
Definition classifyStored (s : Classification) (a : ActivityRow) : Classification :=
  let laps := DB.getActivityLaps (row_id a) (classified s) in
  let result := Classifier.classifyRun (dataOfRow a) laps (Some zones) easyPaceRef in
  {| classified :=
       DB.setRunType (row_id a) (run_type result) (run_type_detail result) (classified s);
     classificationMap := classificationMap s;
     classifiedCount := S (classifiedCount s) |}.

Definition classifyRuns (runs : list StravaActivity) (st : Store) : Classification :=
  let s :=
    fold_left classifyNewRun runs
      {| classified := st; classificationMap := []; classifiedCount := 0 |} in
  let unclassified := DB.getUnclassifiedActivities 50 (classified s) in
  fold_left classifyStored unclassified s.
End Classify.

(** The classification step of the sync for the zones that [loadHrZones]
    returns: nothing is classified before the zones are confirmed.  The
    second component is [zonesNeedConfirmation]. *)
Definition classification (zones : HrZones) (easyPaceRef : Q)
    (runs : list StravaActivity) (st : Store) : Classification * bool :=
  if negb (confirmed zones)
  then ({| classified := st; classificationMap := []; classifiedCount := 0 |}, true)
  else (classifyRuns zones easyPaceRef runs st, false).

End Sync.

(** ** Heart-rate zones and the easy-pace reference ([src/utils/hr-zones.ts])

    The two functions that the sync tool imports from [../utils/hr-zones.js].
    The factors 0.95 and 0.4 are taken as exact; the products in the
    source are array lengths times these factors, whose floor is the same
    for the exact values and for the doubles. *)

Module Zones.

Local Open Scope Q_scope.

(** [SELECT max_heartrate FROM activities WHERE type = 'Run' AND trainer = 0
    AND max_heartrate IS NOT NULL ORDER BY max_heartrate ASC] *)
Definition maxHeartrateOf (r : ActivityRow) : option Q :=
  if String.eqb (row_type r) "Run" && (row_trainer r =? 0)%Z
  then row_max_heartrate r
  else None.

Definition maxHeartrates (st : Store) : list Q :=
  stable_sort Qleb (omap maxHeartrateOf (DB.activityRows st)).

(** [estimateHrZones]; [None] stands for the [TypeError] of reading
    [max_heartrate] from a row that does not exist *)
Definition estimateHrZones (st : Store) : option HrZones :=
  let rows := maxHeartrates st in
  if (length rows =? 0)%nat then
    Some {| hr_source := estimated; lt1 := 148; lt2 := 170; max_hr := 190;
            confirmed := false |}
  else
    let p95Index := Qfloor (inject_Z (Z.of_nat (length rows)) * 0.95) in
    match rows !! Z.to_nat p95Index with
    | None => None
    | Some maxHr =>
        let lt2 := JS.round_Q (maxHr * 0.89) in
        let lt1 := JS.round_Q (maxHr * 0.82) in
        Some {| hr_source := estimated; lt1 := inject_Z lt1; lt2 := inject_Z lt2;
                max_hr := maxHr; confirmed := false |}
    end.

(** [WHERE type = 'Run' AND trainer = 0 AND distance >= 5000 AND
    distance <= 15000 AND average_speed > 0 ORDER BY start_date_local DESC
    LIMIT 100] *)
Definition easyPaceCandidate (r : ActivityRow) : bool :=
  String.eqb (row_type r) "Run" && (row_trainer r =? 0)%Z
  && Qleb 5000 (row_distance r) && Qleb (row_distance r) 15000
  && Qltb 0 (row_average_speed r).

Definition easyPaceRows (st : Store) : list ActivityRow :=
  DB.sqlLimit 100 (DB.orderByDateDesc (List.filter easyPaceCandidate (DB.activityRows st))).

Definition paceOfRow (r : ActivityRow) : Q := (row_moving_time r / row_distance r) * 1000.

(** [computeEasyPaceRef]; [None] stands for [undefined], the value of an
    array element that does not exist *)
Definition computeEasyPaceRef (st : Store) : option Q :=
  let rows := easyPaceRows st in
  if (length rows =? 0)%nat then Some 360
  else
    let paces := JS.sort Qleb (map paceOfRow rows) in
    let slowerPaces :=
      JS.slice paces (Qfloor (inject_Z (Z.of_nat (length paces)) * 0.4))
               (Z.of_nat (length paces)) in
    let medianIndex := (length slowerPaces / 2)%nat in
    slowerPaces !! medianIndex.

End Zones.

(** ** Official race times

    Table [personal_records] and its three functions in
    [src/utils/activities-db.ts], and [distanceToMeters] of the records
    tool. *)

(** a row of the table; [time_seconds] is the number the caller passes *)
Record PersonalRecord : Type := {
  pr_id : Z;
  pr_distance_name : string;
  pr_time_seconds : Q;
  pr_race_name : string;
  pr_race_date : string;
  pr_notes : option string;
  pr_recorded_at : string
}.

(** [Omit<PersonalRecord, "id" | "recorded_at">] *)
Record PersonalRecordInput : Type := {
  in_distance_name : string;
  in_time_seconds : Q;
  in_race_name : string;
  in_race_date : string;
  in_notes : option string
}.

(** The table: its rows in the order of their [id]s, and the largest [id]
    ever given, which [AUTOINCREMENT] keeps in [sqlite_sequence].
    [distance_name] is [UNIQUE]. *)
Record PersonalRecordsTable : Type := {
  pr_rows : list PersonalRecord;
  pr_sequence : Z
}.

Module PersonalRecords.

Definition nextId (tbl : PersonalRecordsTable) : Z :=
  Z.max (pr_sequence tbl) (foldr Z.max 0 (pr_id <$> pr_rows tbl)) + 1.

Definition named (distanceName : string) (r : PersonalRecord) : bool :=
  String.eqb (pr_distance_name r) distanceName.

(** [INSERT OR REPLACE INTO personal_records (...)]: a row of the same
    distance is deleted, the new row gets the next [id] *)
Definition upsertPersonalRecord (today : string) (record : PersonalRecordInput)
    (tbl : PersonalRecordsTable) : PersonalRecordsTable :=
  let row :=
    {| pr_id := nextId tbl;
       pr_distance_name := in_distance_name record;
       pr_time_seconds := in_time_seconds record;
       pr_race_name := in_race_name record;
       pr_race_date := in_race_date record;
       pr_notes := in_notes record;
       pr_recorded_at := today |} in
  {| pr_rows :=
       List.filter (fun r => negb (named (in_distance_name record) r)) (pr_rows tbl) ++ [row];
     pr_sequence := nextId tbl |}.

(** [getPersonalRecords(distanceName?)]: an absent or empty name lists the
    whole table, [ORDER BY distance_name] *)
Definition getPersonalRecords (distanceName : option string) (tbl : PersonalRecordsTable)
  : list PersonalRecord :=
  match distanceName with
  | Some (String _ _ as name) => List.filter (named name) (pr_rows tbl)
  | _ =>
      stable_sort (fun a b => String.leb (pr_distance_name a) (pr_distance_name b))
        (pr_rows tbl)
  end.

(** [DELETE FROM personal_records WHERE distance_name = ?]; the result is
    [result.changes > 0] *)
Definition deletePersonalRecord (distanceName : string) (tbl : PersonalRecordsTable)
  : PersonalRecordsTable * bool :=
  let changes := length (List.filter (named distanceName) (pr_rows tbl)) in
  ({| pr_rows := List.filter (fun r => negb (named distanceName r)) (pr_rows tbl);
      pr_sequence := pr_sequence tbl |},
   (0 <? changes)%nat).

(** [distanceToMeters] of the records tool: [map[name] || 5000] *)
Definition distanceToMeters (name : string) : Z :=
  if String.eqb name "1K" then 1000
  else if String.eqb name "5K" then 5000
  else if String.eqb name "10K" then 10000
  else if String.eqb name "HALF" then 21097
  else if String.eqb name "MARATHON" then 42195
  else 5000.

End PersonalRecords.

(** ** Plan file names

    [sanitizeFilename] of the plan manager ([manage_plan]); the research
    tool ([src/tools/research.ts]) has the same function for its topics.
    Strings are sequences of bytes; a character outside ASCII is one or
    more bytes, none of them a lower-case letter or a digit. *)

Module Plans.

Definition isLowerOrDigit (c : ascii) : bool :=
  let n := nat_of_ascii c in
  ((97 <=? n) && (n <=? 122) || (48 <=? n) && (n <=? 57))%nat.

(** [s.replace(/[^a-z0-9]+/g, "-")]: every maximal run of other
    characters becomes one dash; [inRun] tells that the dash of the
    current run has been written *)
Fixpoint replaceOthers (inRun : bool) (s : string) : string :=
  match s with
  | EmptyString => EmptyString
  | String c r =>
      if isLowerOrDigit c then String c (replaceOthers false r)
      else if inRun then replaceOthers true r
      else String "-"%char (replaceOthers true r)
  end.

(** [s.replace(/^-|-$/g, "")]: a dash at the start goes, then a dash at
    the end of what is left *)
Definition dropLeadingDash (s : string) : string :=
  match s with
  | String "-"%char r => r
  | _ => s
  end.

Fixpoint dropTrailingDash (s : string) : string :=
  match s with
  | EmptyString => EmptyString
  | String c EmptyString => if Ascii.eqb c "-"%char then EmptyString else s
  | String c r => String c (dropTrailingDash r)
  end.

Section Sanitize.
(** [String.prototype.toLowerCase] *)
Variable toLowerCase : string -> string.

Definition sanitizeFilename (name : string) : string :=
  dropTrailingDash (dropLeadingDash (replaceOthers false (toLowerCase name))).
End Sanitize.

End Plans.

(** ** Training patterns ([mode] in [src/utils/training-patterns.ts]) *)

Module TrainingPatterns.

(** [counts.get(v)] *)
Fixpoint mapGet (m : list (Z * nat)) (k : Z) : option nat :=
  match m with
  | [] => None
  | (k', c) :: r => if (k' =? k)%Z then Some c else mapGet r k
  end.

(** the first loop of [mode]: [counts.set(v, (counts.get(v) || 0) + 1)] *)
Definition countValue (counts : list (Z * nat)) (v : Z) : list (Z * nat) :=
  JS.map_set counts v (default O (mapGet counts v) + 1)%nat.

(** the second loop: the first entry with a larger count wins *)
Definition better (state : option Z * nat) (entry : Z * nat) : option Z * nat :=
  if (snd state <? snd entry)%nat then (Some (fst entry), snd entry) else state.

(** [mode]; [None] is [undefined], the first element of an empty array *)
Definition mode (values : list Z) : option Z :=
  let counts := fold_left countValue values [] in
  fst (fold_left better counts (head values, O)).

End TrainingPatterns.

(** * Notions used in the statements *)

(** the two auto-lap bands of [detectAutoLaps] *)
Definition inKmBand (l : ActivityLapRecord) : Prop :=
  (1000 - 120 < lap_distance l /\ lap_distance l < 1000 + 120)%Q.

Definition inMileBand (l : ActivityLapRecord) : Prop :=
  (1609 - 150 < lap_distance l /\ lap_distance l < 1609 + 150)%Q.

(** the results of structured-lap analysis proper *)
Definition structuredOutcome (laps : list ActivityLapRecord) (easyPaceRef : Q)
    (r : ClassificationResult) : Prop :=
  r = Classifier.mkResult progression None high \/
  (exists d, r = Classifier.mkResult intervals (Some d) high) \/
  (exists d, r = Classifier.mkResult fartlek (Some d) high) \/
  (Classifier.detectTempoBlock laps (map Classifier.lapPace laps) easyPaceRef = Some r
   /\ run_type r = tempo).

(** a lap pace is fast for [detectTempoBlock] when it is below 92% of the
    easy-pace reference, the product computed as in the code *)
Definition fastPace (easyPaceRef : Q) (pace : Q) : Prop :=
  JS.lt (JS.Fin pace) (Classifier.fastThresholdOf easyPaceRef) = true.

Definition slowPace (easyPaceRef : Q) (pace : Q) : Prop :=
  JS.lt (JS.Fin pace) (Classifier.fastThresholdOf easyPaceRef) = false.

(** The paces of the laps that [detectTempoBlock] takes as the block: the
    first and the last are fast, and no two neighbours are both slow. *)
Inductive TempoBlock (e : Q) : list Q -> Prop :=
| block_last p :
    fastPace e p -> TempoBlock e [p]
| block_fast p blk :
    fastPace e p -> TempoBlock e blk -> TempoBlock e (p :: blk)
| block_gap p g blk :
    fastPace e p -> slowPace e g -> TempoBlock e blk -> TempoBlock e (p :: g :: blk).

(** What follows the block: nothing, one last slow lap, or two slow laps
    and anything after them. *)
Inductive BlockEnd (e : Q) : list Q -> Prop :=
| end_nil : BlockEnd e []
| end_one g : slowPace e g -> BlockEnd e [g]
| end_two g1 g2 rest : slowPace e g1 -> slowPace e g2 -> BlockEnd e (g1 :: g2 :: rest).

(** the laps of a list from position [start] on, [len] of them *)
Definition lapsFrom (start len : nat) (laps : list ActivityLapRecord) : list ActivityLapRecord :=
  take len (drop start laps).

(** [q] is a number of the language: rounding it to binary64 leaves it
    as it is *)
Definition binary64 (q : Q) : Prop := JS.double q = JS.Fin (Qred q).

(** A lap as the provider reports it: distance and moving time are numbers
    of the language, the distance between 1 m and 1000 km, the moving time
    at most 10^6 s.  With such laps the numbers that [detectTempoBlock]
    prints stay below [2^53], where [JS.to_string] and [JS.toFixed1] give
    the digits of the language. *)
Definition plainLap (l : ActivityLapRecord) : Prop :=
  binary64 (lap_distance l) /\ binary64 (lap_moving_time l) /\
  (1 <= lap_distance l /\ lap_distance l <= 1000000 /\
   0 <= lap_moving_time l /\ lap_moving_time l <= 1000000)%Q.

(** Following the spec's words (tempo-block detection): the longest
    contiguous run of fast laps, as [(start, length)]; among runs of equal
    length the first one. *)
Fixpoint longestRunFrom (fast : ActivityLapRecord -> bool) (laps : list ActivityLapRecord)
    (i curStart curLen bestStart bestLen : nat) : nat * nat :=
  match laps with
  | [] => (bestStart, bestLen)
  | l :: rest =>
      if fast l then
        let curStart' := if (curLen =? 0)%nat then i else curStart in
        let curLen' := S curLen in
        if (bestLen <? curLen')%nat
        then longestRunFrom fast rest (S i) curStart' curLen' curStart' curLen'
        else longestRunFrom fast rest (S i) curStart' curLen' bestStart bestLen
      else longestRunFrom fast rest (S i) O O bestStart bestLen
  end.

(** Following the spec's words: the longest run needs at least 2 laps and
    must not span the whole lap sequence; the detail is computed over
    exactly its laps. *)
Definition specTempoBlock (laps : list ActivityLapRecord) (easyPaceRef : Q)
  : option ClassificationResult :=
  let fast := fun l => Qltb (Classifier.lapPace l) (easyPaceRef * 0.92) in
  let '(start, len) := longestRunFrom fast laps O O O O O in
  if (len <? 2)%nat then None
  else if (len =? length laps)%nat then None
  else
    Some (Classifier.mkResult tempo
            (Some (Classifier.tempoDetail (take len (drop start laps)))) high).

(** sample laps: a distance in metres and a moving time in seconds *)
Definition sampleLap (d t : Q) : ActivityLapRecord :=
  {| lap_activity_id := 1; lap_index := 0; lap_distance := d; lap_elapsed_time := t;
     lap_moving_time := t; lap_average_speed := 0; lap_max_speed := 0;
     lap_average_heartrate := None; lap_max_heartrate := None;
     lap_start_index := 0; lap_end_index := 0 |}.

Definition sampleActivity (d t : Q) (workoutType : option Z) : ActivityData :=
  {| act_id := 1; act_distance := d; act_moving_time := t; act_average_speed := 0;
     act_average_heartrate := None; act_workout_type := workoutType |}.

(** one fast lap, two slow laps, then three fast laps (easy pace 330 s/km) *)
Definition lapsLateRun : list ActivityLapRecord :=
  [sampleLap 1500 400; sampleLap 2000 700; sampleLap 2000 700;
   sampleLap 1500 400; sampleLap 1500 400; sampleLap 1500 400].

(** warm-up, fast, slow, fast, two slow laps *)
Definition lapsWithGap : list ActivityLapRecord :=
  [sampleLap 2000 700; sampleLap 1500 400; sampleLap 1500 520;
   sampleLap 1500 400; sampleLap 2000 700; sampleLap 2000 720].

(** [avgDistance] of [formatIntervalDetail] *)
Definition meanWorkDistance (laps : list ActivityLapRecord) (workLaps : list nat) : Q :=
  (Classifier.sumQ (map (fun i => lap_distance (Classifier.lapAt laps i)) workLaps)
     / inject_Z (Z.of_nat (length workLaps)))%Q.

(** the work and rest laps of [classifyStructuredLapRun]: a lap is a work
    lap when its pace is at most 92% of the median lap pace *)
Definition workLapsIn (laps : list ActivityLapRecord) : list nat :=
  let lapPaces := map Classifier.lapPace laps in
  Classifier.workLapsOf (length laps) lapPaces (Classifier.getMedian lapPaces * 0.92)%Q.

Definition restLapsIn (laps : list ActivityLapRecord) : list nat :=
  let lapPaces := map Classifier.lapPace laps in
  Classifier.restLapsOf (length laps) lapPaces (Classifier.getMedian lapPaces * 0.92)%Q.

Definition workDistancesIn (laps : list ActivityLapRecord) : list Q :=
  map (fun i => lap_distance (Classifier.lapAt laps i)) (workLapsIn laps).

(** four laps at 5:00/km: the inner ones are one of about 1 km and one of
    about a mile *)
Definition lapsMixedBands : list ActivityLapRecord :=
  [sampleLap 500 150; sampleLap 1000 300; sampleLap 1600 480; sampleLap 400 120].

(** the lap paces that go with [lapsWithGap], in whole seconds per km *)
Definition pacesWithGap : list Q := [350; 267; 347; 267; 350; 360]%Q.

(** six laps of 1 km, alternating 4:00 and 6:00 per km *)
Definition lapsSixKm : list ActivityLapRecord :=
  [sampleLap 1000 240; sampleLap 1000 360; sampleLap 1000 240;
   sampleLap 1000 360; sampleLap 1000 240; sampleLap 1000 360].

(** 2 km warm-up, six 1 km repeats with 300 m jogs, 1.5 km cool-down *)
Definition lapsSixRepeats : list ActivityLapRecord :=
  [sampleLap 2000 720;
   sampleLap 1000 240; sampleLap 300 120; sampleLap 1000 238; sampleLap 300 120;
   sampleLap 1000 236; sampleLap 300 120; sampleLap 1000 236; sampleLap 300 120;
   sampleLap 1000 236; sampleLap 300 120; sampleLap 1000 236;
   sampleLap 1500 540].

(** *** Windows of a stream *)

Section Windows.
Variable stream : ActivityStream.
Variable targetDistance : Q.

Definition distanceAt (i : nat) : Q := nth i (distance stream) 0%Q.
Definition timeAt (i : nat) : Q := nth i (time stream) 0%Q.

(** Distance, time and normalized time ([windowTime / windowDistance *
    targetDistance]) of the window from sample [s] to sample [e].  They are
    numbers of the language: every operation rounds to binary64. *)
Definition spanDistance (s e : nat) : JS.num :=
  JS.fsub (JS.Fin (distanceAt e)) (JS.Fin (distanceAt s)).

Definition spanTime (s e : nat) : JS.num :=
  JS.fsub (JS.Fin (timeAt e)) (JS.Fin (timeAt s)).

Definition normalizedTime (s e : nat) : JS.num :=
  JS.fmul (JS.fdiv (spanTime s e) (spanDistance s e)) (JS.Fin targetDistance).

(** the tolerance band of 50 m around the target *)
Definition bandLow : JS.num := JS.fsub (JS.Fin targetDistance) (JS.Fin 50).
Definition bandHigh : JS.num := JS.fadd (JS.Fin targetDistance) (JS.Fin 50).

Definition inBand (s e : nat) : Prop :=
  JS.le bandLow (spanDistance s e) = true /\ JS.le (spanDistance s e) bandHigh = true.

(** The one window the two-pointer scan looks at for the right end [e]:
    the longest window ending at [e] that does not exceed the upper end of
    the band. *)
Definition examined (s e : nat) : Prop :=
  (s <= e)%nat /\
  JS.le (spanDistance s e) bandHigh = true /\
  forall s', (s' < s)%nat -> JS.lt bandHigh (spanDistance s' e) = true.
End Windows.

Definition nondecreasing (l : list Q) : Prop :=
  forall i j, (i <= j < length l)%nat -> (nth i l 0 <= nth j l 0)%Q.

(** [a] is not smaller than [b]: the comparison [a < b] of the language
    is false *)
Definition notBelow (a b : JS.num) : Prop := JS.lt a b = false.

(** a slow first second, then 1000 m in 512 s *)
Definition streamLateSprint : ActivityStream :=
  {| time := [0; 512; 1024]%Q; distance := [0; 24; 1024]%Q |}.

(** two samples 2000 m apart *)
Definition streamSparse : ActivityStream :=
  {| time := [0; 100]%Q; distance := [0; 2000]%Q |}.

(** a steady run: 250 m every 100 s *)
Definition streamSteady : ActivityStream :=
  {| time := [0; 100; 200; 300; 400; 500]%Q;
     distance := [0; 250; 500; 750; 1000; 1250]%Q |}.

(** *** Notions for the best-effort tool *)

(** the segment of an activity is found and passes the realism floor, so
    [computeEfforts] stores and reports it *)
Definition kept (fetchActivityStream : Z -> BestEfforts.StreamOutcome)
    (config : BestEfforts.DistanceConfig) (activityId : Z) : bool :=
  match fetchActivityStream activityId with
  | BestEfforts.StreamReturns (Some stream) =>
      match BestEfforts.findFastestSegment stream (inject_Z (BestEfforts.meters config)) with
      | Some segment => negb (BestEfforts.tooFast config segment)
      | None => false
      end
  | _ => false
  end.

(** the elapsed segment time of a result, when it is a finite number *)
Definition finiteTime (e : BestEffortResult) : Prop :=
  exists q, segmentTimeSeconds e = JS.Fin q.

Definition timeOf (e : BestEffortResult) : Q :=
  match segmentTimeSeconds e with
  | JS.Fin q => q
  | _ => 0%Q
  end.

Definition byTimeAscending (a b : BestEffortResult) : Prop := (timeOf a <= timeOf b)%Q.

(** a stream that covers 1000 m in 100 s *)
Definition streamTooFast : ActivityStream :=
  {| time := [0; 100]%Q; distance := [0; 1000]%Q |}.

(** 960 m in the first 142 s, a pace of 2:28/km, then a jog up to 5200 m *)
Definition streamShortWindow : ActivityStream :=
  {| time := [0; 142; 1800]%Q; distance := [0; 960; 5200]%Q |}.

Definition sampleRow (activityId : Z) (date : string) (d : Q) : ActivityRow :=
  {| row_id := activityId; row_name := "Morning Run"; row_type := "Run";
     row_sport_type := "Run"; row_start_date := date; row_start_date_local := date;
     row_distance := d; row_moving_time := 1800; row_elapsed_time := 1850;
     row_total_elevation_gain := 12; row_average_speed := 3; row_max_speed := 4;
     row_average_heartrate := None; row_max_heartrate := None; row_suffer_score := None;
     row_average_cadence := None; row_workout_type := None; row_description := None;
     row_trainer := 0; row_detail_fetched := 0;
     row_start_latitude := None; row_start_longitude := None;
     row_run_type := None; row_run_type_detail := None |}.

Definition emptyStore : Store :=
  {| activities := ∅; best_efforts := ∅; strava_best_efforts := []; activity_laps := ∅ |}.

Definition storeOneRun : Store :=
  DB.set_activities (fun _ => {[ 7 := sampleRow 7 "2026-02-10T07:30:00Z" 5200 ]}) emptyStore.

Definition config1k : BestEfforts.DistanceConfig :=
  {| BestEfforts.dbName := "1K"; BestEfforts.meters := 1000 |}.

Definition sampleEffort (activityId : Z) (seconds : Q) (src : EffortSource) : BestEffortResult :=
  {| activityId := activityId; activityName := "Run"; activityDate := "2026-02-10";
     segmentTimeSeconds := JS.Fin seconds; segmentDistanceMeters := JS.Fin 5000;
     formattedTime := BestEfforts.formatTime (JS.Fin seconds);
     pacePerKm := BestEfforts.formatPace (JS.Fin seconds) 5000;
     stravaUrl := BestEfforts.stravaUrlOf activityId; source := src |}.

(** every entry of the map is filed under its own activity identity *)
Definition keyed (m : list (Z * BestEffortResult)) : Prop :=
  forall k e, (k, e) ∈ m -> activityId e = k.

Definition sampleStrava : list BestEffortResult :=
  [sampleEffort 1 1500 strava; sampleEffort 2 1400 strava].

Definition sampleComputed : list BestEffortResult :=
  [sampleEffort 2 1390 computed; sampleEffort 3 1450 computed].

(** *** Notions for the store and the sync *)

(** the [id] column is the primary key of [activities] *)
Definition wellKeyed (st : Store) : Prop :=
  forall k r, activities st !! k = Some r -> row_id r = k.

Definition sampleSummary (activityId : Z) (date : string) (d : Q) : StravaActivity :=
  {| sa_id := activityId; sa_name := "Morning Run"; sa_type := "Run"; sa_sport_type := "Run";
     sa_start_date := date; sa_start_date_local := date;
     sa_distance := d; sa_moving_time := 1800; sa_elapsed_time := 1850;
     sa_total_elevation_gain := 12; sa_average_speed := 3; sa_max_speed := 4;
     sa_average_heartrate := None; sa_max_heartrate := None; sa_suffer_score := None;
     sa_average_cadence := None; sa_workout_type := None; sa_description := None;
     sa_trainer := Some false; sa_start_latlng := None |}.

(** one stored run with fetched detail, classified as intervals 6x1km *)
Definition storeClassified : Store :=
  DB.setRunType 7 intervals (Some "6x1km"%string)
    (DB.markActivityDetailFetched 7 storeOneRun).

(** [new Date("2026-02-10T07:30:00Z").getTime()] *)
Definition sampleGetTime (s : string) : JS.num := JS.Fin (inject_Z 1770708600000).

(** one stored run of an athlete two hours east of UTC: it started at
    05:30 UTC, which is 07:30 local time *)
Definition storeEastOfUtc : Store :=
  DB.upsertActivities
    [{| sa_id := 7; sa_name := "Morning Run"; sa_type := "Run"; sa_sport_type := "Run";
        sa_start_date := "2026-02-10T05:30:00Z"; sa_start_date_local := "2026-02-10T07:30:00Z";
        sa_distance := 5200; sa_moving_time := 1800; sa_elapsed_time := 1850;
        sa_total_elevation_gain := 12; sa_average_speed := 3; sa_max_speed := 4;
        sa_average_heartrate := None; sa_max_heartrate := None; sa_suffer_score := None;
        sa_average_cadence := None; sa_workout_type := None; sa_description := None;
        sa_trainer := Some false; sa_start_latlng := None |}]
    emptyStore.

(** [new Date(s).getTime()] for the two timestamps of that run *)
Definition sampleGetTimeOf (s : string) : JS.num :=
  if String.eqb s "2026-02-10T05:30:00Z" then JS.Fin (inject_Z 1770701400000)
  else JS.Fin (inject_Z 1770708600000).

(** the effect on the store of one detail request of the backfill loop *)
Definition persistAnswered (today : string) (fetchActivityDetail : Z -> Sync.DetailOutcome)
    (st : Store) (activityId : Z) : Store :=
  match fetchActivityDetail activityId with
  | Sync.DetailOk bestEfforts laps =>
      default st (Sync.persistDetail today activityId bestEfforts laps st)
  | _ => st
  end.

(** the provider best efforts and the laps of the answer to a request *)
Definition effortsOf (fetchActivityDetail : Z -> Sync.DetailOutcome) (activityId : Z)
  : list StravaBestEffort :=
  match fetchActivityDetail activityId with
  | Sync.DetailOk bestEfforts _ => bestEfforts
  | _ => []
  end.

Definition lapsOf (fetchActivityDetail : Z -> Sync.DetailOutcome) (activityId : Z)
  : list StravaLap :=
  match fetchActivityDetail activityId with
  | Sync.DetailOk _ laps => laps
  | _ => []
  end.

(** the provider best efforts of an activity as they are written *)
Definition recordsOf (today : string) (fetchActivityDetail : Z -> Sync.DetailOutcome)
    (activityId : Z) : list StravaBestEffortRecord :=
  match fetchActivityDetail activityId with
  | Sync.DetailOk bestEfforts _ => Sync.convertStravaBestEfforts today activityId bestEfforts
  | _ => []
  end.

(** no two of the records collide on one of the two uniqueness
    constraints of [strava_best_efforts] *)
Definition conflictFree (records : list StravaBestEffortRecord) : Prop :=
  NoDup (rec_strava_effort_id <$> records) /\
  NoDup ((fun r => (rec_activity_id r, rec_distance_name r)) <$> records).

Definition sampleLapOf (i : Z) (d t : Q) : StravaLap :=
  {| sl_id := 100 + i; sl_lap_index := i; sl_distance := d; sl_elapsed_time := t;
     sl_moving_time := t; sl_average_speed := 3; sl_max_speed := 4;
     sl_average_heartrate := None; sl_max_heartrate := None;
     sl_start_index := 0; sl_end_index := 10 |}.

Definition sampleBestEffort (effortId : Z) (name : string) (d t : Q) : StravaBestEffort :=
  {| sbe_id := effortId; sbe_name := name; sbe_elapsed_time := t; sbe_moving_time := t;
     sbe_distance := d; sbe_start_index := 0; sbe_end_index := 10; sbe_pr_rank := None |}.

(** three runs without detail, the newest first in the selection *)
Definition storeThreeRuns : Store :=
  DB.upsertActivities
    [sampleSummary 11 "2026-02-01T07:00:00Z" 5000;
     sampleSummary 12 "2026-02-03T07:00:00Z" 8000;
     sampleSummary 13 "2026-02-05T07:00:00Z" 10000] emptyStore.

(** the provider answers the first two requests and rate-limits the third *)
Definition sampleFetchDetail (activityId : Z) : Sync.DetailOutcome :=
  if activityId =? 13 then
    Sync.DetailOk [sampleBestEffort 501 "1K" 1000 240] [sampleLapOf 0 5000 1500; sampleLapOf 1 5000 1550]
  else if activityId =? 12 then
    Sync.DetailOk [sampleBestEffort 502 "1K" 1000 250] [sampleLapOf 0 8000 2500]
  else Sync.RateLimited.

(** Every one of the requests for [ids] is answered with a detail, and no
    best effort of it is named like a member of [Object.prototype], so that
    the writes after the request do not throw. *)
Definition allPersisted (fetchActivityDetail : Z -> Sync.DetailOutcome) (ids : list Z) : Prop :=
  forall a, a ∈ ids ->
    exists bestEfforts laps,
      fetchActivityDetail a = Sync.DetailOk bestEfforts laps /\
      Forall (fun effort => sbe_name effort ∉ Sync.objectPrototypeKeys) bestEfforts.

(** The provider best efforts of the answers for [ids] carry distinct
    identities, and those of one answer distinct names. *)
Definition distinctEfforts (fetchActivityDetail : Z -> Sync.DetailOutcome) (ids : list Z)
  : Prop :=
  NoDup (sbe_id <$> concat (effortsOf fetchActivityDetail <$> ids)) /\
  forall a, a ∈ ids -> NoDup (sbe_name <$> effortsOf fetchActivityDetail a).

(** the coefficient of variation of [values] is below, or at least, [b] *)
Definition cvLt (values : list Q) (b : Q) : Prop :=
  Rdefinitions.Rlt (Classifier.coefficientOfVariation values) (Rdefinitions.Q2R b).

Definition cvGe (values : list Q) (b : Q) : Prop :=
  Rdefinitions.Rle (Rdefinitions.Q2R b) (Classifier.coefficientOfVariation values).

(** the row of an activity after the detail of the activities [done] has
    been fetched *)
Definition rowAfter (done : list Z) (r : ActivityRow) : ActivityRow :=
  if decide (row_id r ∈ done) then DB.withDetailFetched r else r.

(** the comparison of [ORDER BY start_date_local DESC] *)
Definition dateDesc (a b : ActivityRow) : bool :=
  String.leb (row_start_date_local b) (row_start_date_local a).

(** the state of the search after the right ends [0 .. k-1]: the left
    pointer is the start of the window examined last, and the best window
    so far is optimal among the examined windows within the band *)
Definition searchInv (stream : ActivityStream) (targetDistance : Q)
    (k : nat) (st : BestEfforts.SearchState) : Prop :=
  (match k with
   | O => BestEfforts.startIdx st = O
   | S k' => examined stream targetDistance (BestEfforts.startIdx st) k'
   end) /\
  ((BestEfforts.bestTime st = JS.PInf /\
    forall s e, (e < k)%nat -> examined stream targetDistance s e ->
                inBand stream targetDistance s e ->
                notBelow (normalizedTime stream targetDistance s e) JS.PInf)
   \/
   ((BestEfforts.bestEndIdx st < k)%nat /\
    examined stream targetDistance (BestEfforts.bestStartIdx st) (BestEfforts.bestEndIdx st) /\
    inBand stream targetDistance (BestEfforts.bestStartIdx st) (BestEfforts.bestEndIdx st) /\
    BestEfforts.bestTime st
    = normalizedTime stream targetDistance
        (BestEfforts.bestStartIdx st) (BestEfforts.bestEndIdx st) /\
    JS.lt (BestEfforts.bestTime st) JS.PInf = true /\
    BestEfforts.bestDistance st
    = spanDistance stream (BestEfforts.bestStartIdx st) (BestEfforts.bestEndIdx st) /\
    forall s e, (e < k)%nat -> examined stream targetDistance s e ->
                inBand stream targetDistance s e ->
                notBelow (normalizedTime stream targetDistance s e)
                         (normalizedTime stream targetDistance
                            (BestEfforts.bestStartIdx st) (BestEfforts.bestEndIdx st)))).

(** *** Notions for the further properties *)

(** no pace is 1% or more above the pace of the lap before it *)
Fixpoint neverSlower (prev : Q) (rest : list Q) : Prop :=
  match rest with
  | [] => True
  | p :: r => (p < prev * 1.01)%Q /\ neverSlower p r
  end.

Definition steadyOrFaster (paces : list Q) : Prop :=
  match paces with
  | [] => True
  | p :: r => neverSlower p r
  end.

(** four manual laps of 2 km, all at 5:00/km *)
Definition lapsEvenPace : list ActivityLapRecord :=
  [sampleLap 2000 600; sampleLap 2000 600; sampleLap 2000 600; sampleLap 2000 600].

Definition samplePaces : list Q := [300; 280; 320; 290]%Q.

(** two laps of an activity, the later one first *)
Definition sampleLapRecords : list ActivityLapRecord :=
  [Sync.lapRecordOf 3 (sampleLapOf 1 1000 290); Sync.lapRecordOf 3 (sampleLapOf 0 1000 300)].

(** the rows of [activity_laps] of one activity, with their keys, and the
    comparison of [ORDER BY lap_index ASC] *)
Definition lapRowsOf (activityId : Z) (m : gmap (Z * Z) ActivityLapRecord)
  : list (Z * Z * ActivityLapRecord) :=
  List.filter (fun kv => (fst (fst kv) =? activityId)%Z) (map_to_list m).

Definition byLapKey (a b : Z * Z * ActivityLapRecord) : bool :=
  (snd (fst a) <=? snd (fst b))%Z.

(** the row of an activity after [setRunType] for [activityId] *)
Definition rowClassified (activityId : Z) (runType : RunType) (detail : option string)
    (r : ActivityRow) : ActivityRow :=
  if decide (row_id r = activityId) then DB.withRunType runType detail r else r.

(** the two rows agree in every column but [run_type] and [run_type_detail] *)
Definition sameSummary (r r' : ActivityRow) : Prop :=
  DB.withRunType easy None r' = DB.withRunType easy None r.

Definition sampleRecord : PersonalRecordInput :=
  {| in_distance_name := "5K"; in_time_seconds := 1185; in_race_name := "Spring 5K";
     in_race_date := "2026-04-12"; in_notes := None |}.

Definition emptyRecords : PersonalRecordsTable := {| pr_rows := []; pr_sequence := 0 |}.

(** the request for the detail of an activity is answered with a detail
    that the loop writes: the writes after the request do not throw *)
Definition isPersisted (fetchActivityDetail : Z -> Sync.DetailOutcome) (activityId : Z) : bool :=
  match fetchActivityDetail activityId with
  | Sync.DetailOk bestEfforts _ => negb (Sync.bindFails bestEfforts)
  | _ => false
  end.

(** the request for activity 12 fails, the others are answered *)
Definition sampleFlakyDetail (activityId : Z) : Sync.DetailOutcome :=
  if activityId =? 12 then Sync.DetailFails
  else Sync.DetailOk [] [sampleLapOf 0 5000 1500].

Definition sampleZones : HrZones :=
  {| hr_source := manual; lt1 := 150; lt2 := 170; max_hr := 190; confirmed := true |}.

(** three provider best efforts; the name of the last one is not in
    [STRAVA_DISTANCE_NAME_MAP] *)
Definition sampleEfforts : list StravaBestEffort :=
  [sampleBestEffort 501 "1K" 1000 240; sampleBestEffort 502 "Half-Marathon" 21097 6000;
   sampleBestEffort 503 "1 km split" 1000 250].

(** the stream of the run holds a segment that passes the realism floor *)
Definition keptSegment (fetchActivityStream : Z -> BestEfforts.StreamOutcome)
    (config : BestEfforts.DistanceConfig) (run : ActivityRow) (segment : Segment) : Prop :=
  exists stream,
    fetchActivityStream (row_id run) = BestEfforts.StreamReturns (Some stream) /\
    BestEfforts.findFastestSegment stream (inject_Z (BestEfforts.meters config)) = Some segment /\
    BestEfforts.tooFast config segment = false.

(** [s] holds lower-case letters, digits and single dashes only;
    [afterDash] tells that a dash may not come first *)
Fixpoint dashSeparated (afterDash : bool) (s : string) : bool :=
  match s with
  | EmptyString => true
  | String c r =>
      if Plans.isLowerOrDigit c then dashSeparated false r
      else Ascii.eqb c "-"%char && negb afterDash && dashSeparated true r
  end.

Fixpoint endsWithDash (s : string) : bool :=
  match s with
  | EmptyString => false
  | String c EmptyString => Ascii.eqb c "-"%char
  | String c r => endsWithDash r
  end.

(** words of lower-case letters and digits, joined by single dashes *)
Definition isSlug (s : string) : bool := dashSeparated true s && negb (endsWithDash s).

(** the number of occurrences of [v] in [values] *)
Definition occurrences (v : Z) (values : list Z) : nat :=
  length (List.filter (Z.eqb v) values).

(** * Properties *)

Import Classifier.

(** case analysis on every condition of the goal *)
Ltac destruct_conditions :=
  repeat match goal with
         | |- context [if ?b then _ else _] => destruct b
         end.

(** ** Rational comparisons *)

Section QBool.
Local Open Scope Q_scope.

Lemma Qltb_lt (a b : Q) : Qltb a b = true <-> a < b.
Proof.
  unfold Qltb. rewrite negb_true_iff, <- not_true_iff_false, Qle_bool_iff.
  split; [apply Qnot_le_lt | apply Qlt_not_le].
Qed.

Lemma Qltb_ge (a b : Q) : Qltb a b = false <-> b <= a.
Proof.
  unfold Qltb. rewrite negb_false_iff. apply Qle_bool_iff.
Qed.

Lemma Qleb_le (a b : Q) : Qleb a b = true <-> a <= b.
Proof. apply Qle_bool_iff. Qed.

Lemma Qleb_gt (a b : Q) : Qleb a b = false <-> b < a.
Proof.
  unfold Qleb. rewrite <- not_true_iff_false, Qle_bool_iff.
  split; [apply Qnot_le_lt | apply Qlt_not_le].
Qed.

Lemma Qabs'_lt (x r : Q) : Qltb (Qabs' x) r = true <-> - r < x /\ x < r.
Proof.
  unfold Qabs'. destruct (Qltb x 0) eqn:E.
  - apply Qltb_lt in E. rewrite Qltb_lt. split; intros; [split|]; lra.
  - apply Qltb_ge in E. rewrite Qltb_lt. split; intros; [split|]; lra.
Qed.
End QBool.

(** ** Binary64 *)

Section Binary64.
Import JS.
Local Open Scope Q_scope.

Lemma pow2_pos e : 0 < pow2 e.
Proof. unfold pow2. apply Qpower_0_lt. reflexivity. Qed.

Lemma pow2_add a b : pow2 (a + b) == pow2 a * pow2 b.
Proof. unfold pow2. apply Qpower_plus. discriminate. Qed.

Lemma pow2_le a b : (a <= b)%Z -> pow2 a <= pow2 b.
Proof. intros H. unfold pow2. apply Qpower_le_compat_l; [exact H|discriminate]. Qed.

Lemma pow2_Z n : (0 <= n)%Z -> pow2 n == inject_Z (2 ^ n).
Proof. intros H. unfold pow2. rewrite Zpower_Qpower by exact H. reflexivity. Qed.

Lemma ilog2_spec (a : Q) : 0 < a -> pow2 (ilog2 a) <= a /\ a < pow2 (ilog2 a + 1).
Proof.
  intros Ha. destruct a as [n d]. unfold ilog2. cbn [Qnum Qden].
  assert (Hn : (0 < n)%Z).
  { unfold Qlt in Ha. simpl in Ha. lia. }
  set (ln := Z.log2 n). set (ld := Z.log2 (Z.pos d)).
  destruct (Z.log2_spec n Hn) as [Hn1 Hn2]. fold ln in Hn1, Hn2.
  destruct (Z.log2_spec (Z.pos d) ltac:(lia)) as [Hd1 Hd2]. fold ld in Hd1, Hd2.
  assert (Hln : (0 <= ln)%Z) by apply Z.log2_nonneg.
  assert (Hld : (0 <= ld)%Z) by apply Z.log2_nonneg.
  assert (Eq1 : n # d == inject_Z n / inject_Z (Z.pos d)) by apply Qmake_Qdiv.
  assert (Hdpos : 0 < inject_Z (Z.pos d)) by (unfold Qlt; simpl; lia).
  assert (HN1 : pow2 ln <= inject_Z n) by (rewrite pow2_Z by lia; rewrite <- Zle_Qle; exact Hn1).
  assert (HN2 : inject_Z n < pow2 (ln + 1)) by (rewrite pow2_Z by lia; rewrite <- Zlt_Qlt; exact Hn2).
  assert (HD1 : pow2 ld <= inject_Z (Z.pos d)) by (rewrite pow2_Z by lia; rewrite <- Zle_Qle; exact Hd1).
  assert (HD2 : inject_Z (Z.pos d) < pow2 (ld + 1)) by (rewrite pow2_Z by lia; rewrite <- Zlt_Qlt; exact Hd2).
  assert (Hup : n # d < pow2 (ln - ld + 1)).
  { rewrite Eq1. apply Qlt_shift_div_r; [exact Hdpos|].
    pose proof (pow2_pos (ln - ld + 1)) as Hp.
    assert (E : pow2 (ln - ld + 1) * pow2 ld == pow2 (ln + 1)).
    { rewrite <- pow2_add. replace (ln - ld + 1 + ld)%Z with (ln + 1)%Z by lia. reflexivity. }
    assert (pow2 (ln - ld + 1) * pow2 ld <= pow2 (ln - ld + 1) * inject_Z (Z.pos d))
      by (apply Qmult_le_l; assumption).
    lra. }
  assert (Hlow : pow2 (ln - ld - 1) <= n # d).
  { rewrite Eq1. apply Qle_shift_div_l; [exact Hdpos|].
    pose proof (pow2_pos (ln - ld - 1)) as Hp.
    assert (E : pow2 (ln - ld - 1) * pow2 (ld + 1) == pow2 ln).
    { rewrite <- pow2_add. replace (ln - ld - 1 + (ld + 1))%Z with ln by lia. reflexivity. }
    assert (pow2 (ln - ld - 1) * inject_Z (Z.pos d) <= pow2 (ln - ld - 1) * pow2 (ld + 1))
      by (apply Qmult_le_l; [assumption|lra]).
    lra. }
  destruct (Qle_bool (pow2 (ln - ld)) (n # d)) eqn:E.
  - apply Qle_bool_iff in E. split; [exact E|exact Hup].
  - split; [exact Hlow|].
    replace (ln - ld - 1 + 1)%Z with (ln - ld)%Z by lia.
    apply Qnot_le_lt. intros H. apply Qle_bool_iff in H. congruence.
Qed.

Lemma ilog2_mono a b : 0 < a -> a <= b -> (ilog2 a <= ilog2 b)%Z.
Proof.
  intros Ha Hab.
  destruct (ilog2_spec a Ha) as [A1 A2].
  destruct (ilog2_spec b ltac:(lra)) as [B1 B2].
  destruct (Z_le_gt_dec (ilog2 a) (ilog2 b)) as [H|H]; [exact H|exfalso].
  assert (pow2 (ilog2 b + 1) <= pow2 (ilog2 a)) by (apply pow2_le; lia).
  lra.
Qed.

Lemma nearest_even_bounds x : (Qfloor x <= nearest_even x <= Qfloor x + 1)%Z.
Proof.
  unfold nearest_even. destruct (Qcompare _ _); [destruct (Z.even _)| |]; lia.
Qed.

Lemma nearest_even_ge x (N : Z) : inject_Z N <= x -> (N <= nearest_even x)%Z.
Proof.
  intros H. pose proof (nearest_even_bounds x).
  assert (N <= Qfloor x)%Z; [|lia].
  rewrite <- (Qfloor_Z N). apply Qfloor_resp_le. exact H.
Qed.

Lemma nearest_even_le x (N : Z) : x <= inject_Z N -> (nearest_even x <= N)%Z.
Proof.
  intros H. pose proof (nearest_even_bounds x).
  pose proof (Qfloor_le x). pose proof (Qlt_floor x).
  destruct (Z_lt_le_dec (Qfloor x) N) as [Hlt|Hge]; [lia|].
  assert (Hx : x == inject_Z N).
  { apply Qle_antisym; [exact H|]. apply Qle_trans with (inject_Z (Qfloor x)); [|assumption].
    rewrite <- Zle_Qle. exact Hge. }
  unfold nearest_even. rewrite (Qfloor_comp _ _ Hx), Qfloor_Z.
  assert (E : Qcompare (x - inject_Z N) (1 # 2) = Lt).
  { apply Qlt_alt. assert (E0 : x - inject_Z N == 0) by (rewrite Hx; ring).
    rewrite E0. reflexivity. }
  rewrite E. lia.
Qed.

Lemma nearest_even_mono x y : x <= y -> (nearest_even x <= nearest_even y)%Z.
Proof.
  intros H. pose proof (Qfloor_resp_le _ _ H) as Hf.
  pose proof (nearest_even_bounds x). pose proof (nearest_even_bounds y).
  destruct (Z.eq_dec (Qfloor x) (Qfloor y)) as [E|E]; [|lia].
  unfold nearest_even. rewrite <- E.
  destruct (Qcompare (x - inject_Z (Qfloor x)) (1 # 2)) eqn:Cx;
    destruct (Qcompare (y - inject_Z (Qfloor x)) (1 # 2)) eqn:Cy;
    try (destruct (Z.even (Qfloor x))); try lia; exfalso.
  - apply Qeq_alt in Cx. apply Qlt_alt in Cy. lra.
  - apply Qgt_alt in Cx. apply Qeq_alt in Cy. lra.
  - apply Qgt_alt in Cx. apply Qlt_alt in Cy. lra.
  - apply Qgt_alt in Cx. apply Qlt_alt in Cy. lra.
Qed.

Lemma round64_pos_nonneg a : 0 < a -> 0 <= round64_pos a.
Proof.
  intros Ha. unfold round64_pos. cbv zeta.
  pose proof (pow2_pos (exponent64 a)) as Hp.
  apply Qmult_le_0_compat; [|lra].
  change 0 with (inject_Z 0). rewrite <- Zle_Qle.
  apply nearest_even_ge. change (inject_Z 0) with 0.
  apply Qle_shift_div_l; [exact Hp|]. lra.
Qed.

Lemma round64_pos_mono a b : 0 < a -> a <= b -> round64_pos a <= round64_pos b.
Proof.
  intros Ha Hab. assert (Hb : 0 < b) by lra.
  unfold round64_pos. cbv zeta. fold (exponent64 a). fold (exponent64 b).
  pose proof (ilog2_mono a b Ha Hab) as Hl.
  destruct (ilog2_spec a Ha) as [A1 A2]. destruct (ilog2_spec b Hb) as [B1 B2].
  pose proof (pow2_pos (exponent64 a)) as Pa. pose proof (pow2_pos (exponent64 b)) as Pb.
  destruct (Z.eq_dec (exponent64 a) (exponent64 b)) as [E|E].
  - rewrite E. apply Qmult_le_r; [exact Pb|]. rewrite <- Zle_Qle.
    apply nearest_even_mono. apply Qmult_le_r; [apply Qinv_lt_0_compat; exact Pb|]. exact Hab.
  - assert (Hlt : (exponent64 a < exponent64 b)%Z) by (unfold exponent64 in *; lia).
    assert (Eb : exponent64 b = (ilog2 b - 52)%Z) by (unfold exponent64 in *; lia).
    assert (Ea : (ilog2 a - 52 <= exponent64 a)%Z) by (unfold exponent64; lia).
    (* the significand of [a] is at most 2^53, the one of [b] at least 2^52 *)
    assert (Ha53 : (nearest_even (a / pow2 (exponent64 a)) <= 2 ^ 53)%Z).
    { apply nearest_even_le. apply Qle_shift_div_r; [exact Pa|].
      rewrite <- pow2_Z by lia. rewrite <- pow2_add.
      apply Qle_trans with (pow2 (ilog2 a + 1)); [lra|]. apply pow2_le. lia. }
    assert (Hb52 : (2 ^ 52 <= nearest_even (b / pow2 (exponent64 b)))%Z).
    { apply nearest_even_ge. apply Qle_shift_div_l; [exact Pb|].
      rewrite <- pow2_Z by lia. rewrite <- pow2_add.
      apply Qle_trans with (pow2 (ilog2 b)); [|lra]. apply pow2_le. lia. }
    apply Qle_trans with (inject_Z (2 ^ 53) * pow2 (exponent64 a)).
    { apply Qmult_le_r; [exact Pa|]. rewrite <- Zle_Qle. exact Ha53. }
    apply Qle_trans with (inject_Z (2 ^ 52) * pow2 (exponent64 b)).
    { rewrite <- !pow2_Z by lia. rewrite <- !pow2_add. apply pow2_le. lia. }
    apply Qmult_le_r; [exact Pb|]. rewrite <- Zle_Qle. exact Hb52.
Qed.

Lemma round64_cases q :
  (q == 0 /\ round64 q == 0) \/
  (0 < q /\ round64 q == round64_pos (Qred q)) \/
  (q < 0 /\ round64 q == - round64_pos (- Qred q)).
Proof.
  unfold round64. cbv zeta. rewrite Qred_correct.
  destruct (Qcompare (Qred q) 0) eqn:C.
  - left. apply Qeq_alt in C. rewrite Qred_correct in C. split; [exact C|reflexivity].
  - right; right. apply Qlt_alt in C. rewrite Qred_correct in C. split; [exact C|reflexivity].
  - right; left. apply Qgt_alt in C. rewrite Qred_correct in C. split; [exact C|reflexivity].
Qed.

Lemma round64_mono a b : a <= b -> round64 a <= round64 b.
Proof.
  intros Hab.
  pose proof (Qred_correct a) as Ra. pose proof (Qred_correct b) as Rb.
  destruct (round64_cases a) as [[A ->]|[[A ->]|[A ->]]];
    destruct (round64_cases b) as [[B ->]|[[B ->]|[B ->]]]; try lra.
  - apply round64_pos_nonneg. lra.
  - apply round64_pos_mono; lra.
  - pose proof (round64_pos_nonneg (- Qred a) ltac:(lra)). lra.
  - pose proof (round64_pos_nonneg (- Qred a) ltac:(lra)).
    pose proof (round64_pos_nonneg (Qred b) ltac:(lra)). lra.
  - pose proof (round64_pos_mono (- Qred b) (- Qred a) ltac:(lra) ltac:(lra)). lra.
Qed.

Lemma round64_proper a b : a == b -> round64 a = round64 b.
Proof. intros H. unfold round64. rewrite (Qred_complete _ _ H). reflexivity. Qed.

Lemma double_proper a b : a == b -> double a = double b.
Proof. intros H. unfold double. rewrite (round64_proper _ _ H). reflexivity. Qed.

Lemma double_zero : double 0 = Fin 0.
Proof. vm_compute. reflexivity. Qed.

Lemma double_mono a b : a <= b -> le (double a) (double b) = true.
Proof.
  intros H. pose proof (round64_mono a b H) as Hr.
  pose proof (pow2_pos 1024) as Hp.
  unfold double. cbv zeta.
  destruct (Qle_bool (pow2 1024) (round64 a)) eqn:A1.
  - apply Qle_bool_iff in A1.
    assert (B1 : Qle_bool (pow2 1024) (round64 b) = true) by (apply Qle_bool_iff; lra).
    rewrite B1. reflexivity.
  - destruct (Qle_bool (round64 a) (- pow2 1024)) eqn:A2.
    + destruct (Qle_bool (pow2 1024) (round64 b)); [reflexivity|].
      destruct (Qle_bool (round64 b) (- pow2 1024)); reflexivity.
    + destruct (Qle_bool (pow2 1024) (round64 b)) eqn:B1; [reflexivity|].
      destruct (Qle_bool (round64 b) (- pow2 1024)) eqn:B2.
      * exfalso. apply Qle_bool_iff in B2.
        apply not_true_iff_false in A2. apply A2. apply Qle_bool_iff. lra.
      * simpl. apply Qle_bool_iff. exact Hr.
Qed.

(** a rounded result is never [NaN] *)
Lemma double_not_nan q : double q <> NaN.
Proof.
  unfold double. cbv zeta.
  destruct (Qle_bool _ _); [discriminate|]. destruct (Qle_bool _ _); discriminate.
Qed.
Lemma nearest_even_Z x (m : Z) : x == inject_Z m -> nearest_even x = m.
Proof.
  intros Hx. unfold nearest_even. rewrite (Qfloor_comp _ _ Hx), Qfloor_Z.
  assert (E : Qcompare (x - inject_Z m) (1 # 2) = Lt).
  { apply Qlt_alt. assert (E0 : x - inject_Z m == 0) by (rewrite Hx; ring).
    rewrite E0. reflexivity. }
  rewrite E. reflexivity.
Qed.

Lemma nearest_even_upper x : inject_Z (nearest_even x) <= x + (1 # 2).
Proof.
  unfold nearest_even. pose proof (Qfloor_le x) as Hf.
  destruct (Qcompare (x - inject_Z (Qfloor x)) (1 # 2)) eqn:C.
  - apply Qeq_alt in C. destruct (Z.even _); [lra|]. rewrite inject_Z_plus.
    change (inject_Z 1) with 1. lra.
  - lra.
  - apply Qgt_alt in C. rewrite inject_Z_plus. change (inject_Z 1) with 1.
    pose proof (Qlt_floor x) as Hl. rewrite inject_Z_plus in Hl. change (inject_Z 1) with 1 in Hl.
    lra.
Qed.

Lemma pow2_half e : pow2 (e - 1) == pow2 e * (1 # 2).
Proof.
  replace (e - 1)%Z with (e + -1)%Z by lia. rewrite pow2_add. reflexivity.
Qed.

Lemma round64_pos_upper a : 0 < a -> round64_pos a <= a + pow2 (exponent64 a - 1).
Proof.
  intros Ha. unfold round64_pos. cbv zeta. fold (exponent64 a).
  pose proof (pow2_pos (exponent64 a)) as Hp.
  pose proof (nearest_even_upper (a / pow2 (exponent64 a))) as Hn.
  apply Qle_trans with ((a / pow2 (exponent64 a) + (1 # 2)) * pow2 (exponent64 a)).
  - apply Qmult_le_r; [exact Hp|exact Hn].
  - rewrite pow2_half. apply Qle_lteq. right. field. lra.
Qed.

Lemma ilog2_lt a L : 0 < a -> a < pow2 (L + 1) -> (ilog2 a <= L)%Z.
Proof.
  intros Ha H. destruct (ilog2_spec a Ha) as [A1 _].
  destruct (Z_le_gt_dec (ilog2 a) L) as [G|G]; [exact G|exfalso].
  assert (pow2 (L + 1) <= pow2 (ilog2 a)) by (apply pow2_le; lia). lra.
Qed.

Lemma round64_pos_Z (z : Z) : (0 < z < 2 ^ 53)%Z -> round64_pos (inject_Z z) == inject_Z z.
Proof.
  intros Hz.
  assert (Ha : 0 < inject_Z z) by (change 0 with (inject_Z 0); rewrite <- Zlt_Qlt; lia).
  assert (Hl : (ilog2 (inject_Z z) <= 52)%Z).
  { apply ilog2_lt; [exact Ha|]. rewrite pow2_Z by lia. rewrite <- Zlt_Qlt. simpl. lia. }
  unfold round64_pos. cbv zeta. fold (exponent64 (inject_Z z)).
  set (e := exponent64 (inject_Z z)).
  assert (He : (-1074 <= e <= 0)%Z) by (unfold e, exponent64; lia).
  pose proof (pow2_pos e) as Hp.
  assert (E1 : pow2 e * pow2 (- e) == 1).
  { rewrite <- pow2_add. replace (e + - e)%Z with 0%Z by lia. reflexivity. }
  assert (E2 : inject_Z z / pow2 e == inject_Z (z * 2 ^ (- e))).
  { rewrite inject_Z_mult, <- pow2_Z by lia.
    apply Qmult_inj_r with (pow2 e); [lra|].
    unfold Qdiv. rewrite <- !Qmult_assoc. rewrite (Qmult_comm (/ pow2 e)), Qmult_inv_r by lra.
    rewrite (Qmult_comm (pow2 (- e))), E1. reflexivity. }
  rewrite (nearest_even_Z _ _ E2). rewrite inject_Z_mult, <- pow2_Z by lia.
  rewrite <- Qmult_assoc, (Qmult_comm (pow2 (- e))), E1. ring.
Qed.

Lemma Qred_Z (z : Z) : Qred (inject_Z z) = inject_Z z.
Proof. apply Qcanon.Qred_identity. simpl. apply Z.gcd_1_r. Qed.

Lemma round64_Z (z : Z) : (- 2 ^ 53 < z < 2 ^ 53)%Z -> round64 (inject_Z z) = inject_Z z.
Proof.
  intros Hz. unfold round64. cbv zeta. rewrite Qred_Z.
  transitivity (Qred (inject_Z z)); [|apply Qred_Z].
  apply Qred_complete.
  destruct (Qcompare (inject_Z z) 0) eqn:C.
  - apply Qeq_alt in C. symmetry. exact C.
  - apply Qlt_alt in C. change 0 with (inject_Z 0) in C. rewrite <- Zlt_Qlt in C.
    rewrite <- inject_Z_opp. rewrite round64_pos_Z by lia. rewrite inject_Z_opp. ring.
  - apply Qgt_alt in C. change 0 with (inject_Z 0) in C. rewrite <- Zlt_Qlt in C.
    apply round64_pos_Z. lia.
Qed.

Lemma double_Z (z : Z) : (- 2 ^ 53 < z < 2 ^ 53)%Z -> double (inject_Z z) = Fin (inject_Z z).
Proof.
  intros Hz. unfold double. cbv zeta. rewrite (round64_Z z Hz).
  assert (E1 : Qle_bool (pow2 1024) (inject_Z z) = false).
  { apply not_true_iff_false. rewrite Qle_bool_iff. rewrite pow2_Z by lia.
    rewrite <- Zle_Qle. intros H.
    assert (2 ^ 53 < 2 ^ 1024)%Z by (apply Z.pow_lt_mono_r; lia). lia. }
  assert (E2 : Qle_bool (inject_Z z) (- pow2 1024) = false).
  { apply not_true_iff_false. rewrite Qle_bool_iff. rewrite pow2_Z by lia.
    rewrite <- inject_Z_opp, <- Zle_Qle. intros H.
    assert (2 ^ 53 < 2 ^ 1024)%Z by (apply Z.pow_lt_mono_r; lia). lia. }
  rewrite E1, E2. reflexivity.
Qed.

(** The floor of a rounded value.  [q] lies between the integers [k] and
    [k + 1] and below [2^(L+1)]; the rounding moves it by at most
    [2^(L-53)], which does not reach [k + 1]. *)
Lemma floor_double (q : Q) (k L : Z) :
  (0 <= k < 2 ^ 53 - 1)%Z -> (-1022 <= L)%Z ->
  inject_Z k <= q -> q < pow2 (L + 1) ->
  q + pow2 (L - 53) < inject_Z (k + 1) ->
  exists r, double q = Fin r /\ Qfloor r = k.
Proof.
  intros Hk HL Hq1 Hq2 Hq3.
  assert (Hlow : inject_Z k <= round64 q).
  { rewrite <- (round64_Z k) by lia. apply round64_mono. exact Hq1. }
  assert (Hup : round64 q < inject_Z (k + 1)).
  { assert (H0 : 0 <= inject_Z k) by (change 0 with (inject_Z 0); rewrite <- Zle_Qle; lia).
    pose proof (pow2_pos (L - 53)) as Hp.
    destruct (round64_cases q) as [[A ->]|[[A ->]|[A _]]]; [lra| |lra].
    pose proof (Qred_correct q) as Rq.
    assert (Ha : 0 < Qred q) by lra.
    pose proof (round64_pos_upper (Qred q) Ha) as Hu.
    assert (He : (exponent64 (Qred q) - 1 <= L - 53)%Z).
    { unfold exponent64. pose proof (ilog2_lt (Qred q) L Ha ltac:(lra)). lia. }
    pose proof (pow2_le _ _ He). lra. }
  assert (Hfl : Qfloor (round64 q) = k).
  { pose proof (Qfloor_resp_le _ _ Hlow) as H3. rewrite Qfloor_Z in H3.
    pose proof (Qfloor_le (round64 q)) as H4.
    assert (H5 : inject_Z (Qfloor (round64 q)) < inject_Z (k + 1)) by lra.
    rewrite <- Zlt_Qlt in H5. lia. }
  exists (round64 q). split; [|exact Hfl].
  unfold double. cbv zeta.
  assert (Hbig : inject_Z (k + 1) <= pow2 1024).
  { rewrite pow2_Z by lia. rewrite <- Zle_Qle.
    assert (2 ^ 53 < 2 ^ 1024)%Z by (apply Z.pow_lt_mono_r; lia). lia. }
  assert (E1 : Qle_bool (pow2 1024) (round64 q) = false).
  { apply not_true_iff_false. rewrite Qle_bool_iff. lra. }
  assert (E2 : Qle_bool (round64 q) (- pow2 1024) = false).
  { apply not_true_iff_false. rewrite Qle_bool_iff.
    pose proof (pow2_pos 1024).
    assert (H0 : 0 <= inject_Z k) by (change 0 with (inject_Z 0); rewrite <- Zle_Qle; lia).
    lra. }
  rewrite E1, E2. reflexivity.
Qed.

(** [Math.floor(s / b)] for whole numbers: the quotient of the integers,
    as long as the quotient stays below [2^(L+1)] and [b] below [2^(53-L)] *)
Lemma floor_fdiv_whole (s : Z) (b : positive) (L : Z) :
  (0 <= s)%Z -> (-1022 <= L <= 51)%Z ->
  (s < Zpos b * 2 ^ (L + 1))%Z -> (Zpos b < 2 ^ (53 - L))%Z ->
  floor (fdiv (Fin (inject_Z s)) (Fin (inject_Z (Zpos b)))) = Fin (inject_Z (s / Zpos b)).
Proof.
  intros Hs HL Hs2 Hb.
  assert (Hbpos : 0 < inject_Z (Zpos b)) by (change 0 with (inject_Z 0); rewrite <- Zlt_Qlt; lia).
  assert (Ez : is_zero (inject_Z (Zpos b)) = false).
  { unfold is_zero. apply not_true_iff_false. rewrite Qeq_bool_iff. lra. }
  unfold fdiv, div. rewrite Ez. cbn [rounded].
  set (k := (s / Zpos b)%Z).
  pose proof (Z.div_mod s (Zpos b) ltac:(lia)) as Hdm.
  pose proof (Z.mod_pos_bound s (Zpos b) ltac:(lia)) as Hmod. fold k in Hdm.
  assert (Hk0 : (0 <= k)%Z) by (apply Z.div_pos; lia).
  assert (Hq1 : inject_Z k <= inject_Z s / inject_Z (Zpos b)).
  { apply Qle_shift_div_l; [exact Hbpos|]. rewrite <- inject_Z_mult, <- Zle_Qle. nia. }
  assert (Hq2 : inject_Z s / inject_Z (Zpos b) < pow2 (L + 1)).
  { apply Qlt_shift_div_r; [exact Hbpos|].
    destruct (Z_le_gt_dec 0 (L + 1)) as [G|G].
    - rewrite pow2_Z by lia. rewrite <- inject_Z_mult, <- Zlt_Qlt. rewrite Z.mul_comm. exact Hs2.
    - (* a negative exponent: [s] is 0 *)
      assert (Z.pos b * 2 ^ (L + 1) = 0)%Z by (rewrite Z.pow_neg_r by lia; lia).
      lia. }
  assert (Hkb : (k < 2 ^ (L + 1))%Z \/ (L + 1 < 0)%Z).
  { destruct (Z_le_gt_dec 0 (L + 1)) as [G|G]; [left|right; lia].
    apply Z.div_lt_upper_bound; lia. }
  assert (Hk : (0 <= k < 2 ^ 53 - 1)%Z).
  { split; [exact Hk0|]. destruct Hkb as [Hkb|Hkb].
    - assert (2 ^ (L + 1) <= 2 ^ 52)%Z by (apply Z.pow_le_mono_r; lia).
      assert (2 ^ 52 < 2 ^ 53 - 1)%Z by (simpl; lia). lia.
    - assert (Z.pos b * 2 ^ (L + 1) = 0)%Z by (rewrite Z.pow_neg_r by lia; lia). lia. }
  assert (Hq3 : inject_Z s / inject_Z (Zpos b) + pow2 (L - 53) < inject_Z (k + 1)).
  { (* s / b <= k + 1 - 1/b and 2^(L-53) < 1/b *)
    assert (Hinv : pow2 (L - 53) * inject_Z (Zpos b) < 1).
    { assert (E : pow2 (L - 53) * pow2 (53 - L) == 1).
      { rewrite <- pow2_add. replace (L - 53 + (53 - L))%Z with 0%Z by lia. reflexivity. }
      pose proof (pow2_pos (L - 53)) as Hp.
      assert (inject_Z (Zpos b) < pow2 (53 - L)).
      { rewrite pow2_Z by lia. rewrite <- Zlt_Qlt. exact Hb. }
      assert (pow2 (L - 53) * inject_Z (Z.pos b) < pow2 (L - 53) * pow2 (53 - L))
        by (apply Qmult_lt_l; assumption).
      lra. }
    assert (Hsum : inject_Z s / inject_Z (Zpos b) + pow2 (L - 53)
                   == (inject_Z s + pow2 (L - 53) * inject_Z (Zpos b)) / inject_Z (Zpos b))
      by (field; lra).
    rewrite Hsum. apply Qlt_shift_div_r; [exact Hbpos|].
    assert (inject_Z s + 1 <= inject_Z (k + 1) * inject_Z (Zpos b)).
    { rewrite <- inject_Z_mult. change 1 with (inject_Z 1). rewrite <- inject_Z_plus, <- Zle_Qle. nia. }
    lra. }
  destruct (floor_double _ k L Hk ltac:(lia) Hq1 Hq2 Hq3) as (r & Er & Hr).
  rewrite Er. simpl. rewrite Hr. reflexivity.
Qed.

(** *** The order of the numbers *)

Lemma num_lt_irrefl a : lt a a = false.
Proof. destruct a; try reflexivity. simpl. apply Qltb_ge. apply Qle_refl. Qed.

(** what is not below [b] is not below a smaller number *)
Lemma num_not_lt_trans a b w : lt a b = true -> lt w b = false -> lt w a = false.
Proof.
  destruct a as [x| | |], b as [y| | |], w as [z| | |]; simpl; try congruence.
  rewrite Qltb_lt, !Qltb_ge. intros H1 H2. lra.
Qed.

Lemma num_lt_below_infinity a b : lt a b = true -> lt a PInf = true.
Proof. destruct a, b; simpl; congruence. Qed.

Lemma num_lt_le_trans u x y : lt u x = true -> le x y = true -> lt u y = true.
Proof.
  destruct u as [a| | |], x as [b| | |], y as [c| | |]; simpl; try congruence.
  rewrite !Qltb_lt, Qleb_le. intros H1 H2. lra.
Qed.

Lemma num_le_not_lt a b : le a b = true -> lt b a = false.
Proof.
  destruct a as [x| | |], b as [y| | |]; simpl; try congruence.
  rewrite Qleb_le, Qltb_ge. auto.
Qed.

Lemma num_not_lt_le a b : a <> NaN -> b <> NaN -> lt b a = false -> le a b = true.
Proof.
  destruct a as [x| | |], b as [y| | |]; simpl; try congruence.
  rewrite Qleb_le, Qltb_ge. auto.
Qed.

Lemma rounded_Fin q : rounded (Fin q) = double q.
Proof. reflexivity. Qed.
End Binary64.

(** *** The coefficient of variation *)

Module CoefficientOfVariation.
Import Reals Qreals.
Local Open Scope R_scope.

(** [cvBelow] decides the comparison of the real-valued coefficient of
    variation with a positive bound *)
Lemma cvBelow_correct (values : list Q) (b : Q) :
  (0 < b)%Q ->
  cvBelow values b = true <-> coefficientOfVariation values < Q2R b.
Proof.
  intros Hb. assert (Hb' : 0 < Q2R b).
  { replace 0 with (Q2R 0) by (unfold Q2R; simpl; Lra.lra). apply Qlt_Rlt, Hb. }
  unfold cvBelow, coefficientOfVariation.
  destruct (length values <? 2)%nat; [tauto|]. cbv zeta.
  destruct (JS.is_zero (mean values)) eqn:Ez; [tauto|].
  assert (Hm0 : Q2R (mean values) <> 0).
  { intros H. unfold JS.is_zero in Ez. apply not_true_iff_false in Ez. apply Ez.
    apply Qeq_bool_iff. apply eqR_Qeq. rewrite H. unfold Q2R; simpl; Lra.lra. }
  pose proof (sqrt_pos (Q2R (variance values))) as Hsq.
  destruct (Qltb (mean values) 0) eqn:En.
  - apply Qltb_lt in En. apply Qlt_Rlt in En.
    replace (Q2R 0) with 0 in En by (unfold Q2R; simpl; Lra.lra).
    split; [intros _|reflexivity].
    apply Rle_lt_trans with 0; [|exact Hb'].
    unfold Rdiv. replace 0 with (sqrt (Q2R (variance values)) * 0) by Lra.lra.
    apply Rmult_le_compat_l; [exact Hsq|].
    left. apply Rinv_lt_0_compat. exact En.
  - apply Qltb_ge in En. apply Qle_Rle in En.
    replace (Q2R 0) with 0 in En by (unfold Q2R; simpl; Lra.lra).
    assert (Hm : 0 < Q2R (mean values)) by Lra.lra.
    assert (Hbm : 0 < Q2R b * Q2R (mean values)) by (apply Rmult_lt_0_compat; assumption).
    rewrite Qltb_lt. split.
    + intros H. apply Qlt_Rlt in H. rewrite !Q2R_mult in H.
      apply Rmult_lt_reg_r with (Q2R (mean values)); [exact Hm|].
      unfold Rdiv. rewrite Rmult_assoc, Rinv_l, Rmult_1_r by exact Hm0.
      destruct (Rle_or_lt 0 (Q2R (variance values))) as [Hv|Hv].
      * rewrite <- (sqrt_square (Q2R b * Q2R (mean values))) by Lra.lra.
        apply sqrt_lt_1_alt. split; [exact Hv|exact H].
      * rewrite sqrt_neg_0 by Lra.lra. exact Hbm.
    + intros H. apply Rlt_Qlt. rewrite !Q2R_mult.
      apply Rmult_lt_compat_r with (r := Q2R (mean values)) in H; [|exact Hm].
      unfold Rdiv in H. rewrite Rmult_assoc, Rinv_l, Rmult_1_r in H by exact Hm0.
      destruct (Rle_or_lt 0 (Q2R (variance values))) as [Hv|Hv].
      * rewrite <- (sqrt_sqrt (Q2R (variance values))) by exact Hv.
        apply Rmult_le_0_lt_compat; assumption.
      * apply Rlt_trans with 0; [exact Hv|]. apply Rmult_lt_0_compat; exact Hbm.
Qed.
End CoefficientOfVariation.

Lemma cvBelow_true (values : list Q) (b : Q) :
  (0 < b)%Q -> cvBelow values b = true <-> cvLt values b.
Proof. apply CoefficientOfVariation.cvBelow_correct. Qed.

Lemma cvBelow_false (values : list Q) (b : Q) :
  (0 < b)%Q -> cvBelow values b = false <-> cvGe values b.
Proof.
  intros Hb. rewrite <- not_true_iff_false, (cvBelow_true values b Hb).
  unfold cvLt, cvGe. split; [apply RIneq.Rnot_lt_le|apply RIneq.Rle_not_lt].
Qed.

(** ** The classifier: auto laps *)

Lemma nearKm_band l : nearKm (lap_distance l) = true <-> inKmBand l.
Proof. unfold nearKm, inKmBand. rewrite Qabs'_lt. split; intros [? ?]; split; lra. Qed.

Lemma nearMile_band l : nearMile (lap_distance l) = true <-> inMileBand l.
Proof. unfold nearMile, inMileBand. rewrite Qabs'_lt. split; intros [? ?]; split; lra. Qed.

Lemma inner_cons_snoc {A} (x y : A) (mid : list A) : JS.inner (x :: mid ++ [y]) = mid.
Proof.
  unfold JS.inner, JS.slice, JS.rel_index. simpl length.
  rewrite length_app. simpl length.
  replace (1 <? 0) with false by reflexivity.
  replace (-1 <? 0) with true by reflexivity.
  rewrite Z.min_l by lia. rewrite Z.max_l by lia.
  change (Z.to_nat 1) with 1%nat. simpl drop. rewrite drop_0.
  replace (Z.to_nat _) with (length mid) by lia.
  apply take_app_length.
Qed.

Lemma forallb_Forall_map {A B} (f : A -> B) (p : B -> bool) (P : A -> Prop) (l : list A) :
  (forall a, p (f a) = true <-> P a) ->
  forallb p (map f l) = true <-> Forall P l.
Proof.
  intros H. induction l as [|a l IH]; simpl.
  - split; auto.
  - rewrite andb_true_iff, IH, H, Forall_cons. tauto.
Qed.

Lemma detectAutoLaps_iff laps :
  detectAutoLaps laps = true <->
  (length laps <= 2)%nat \/ Forall inKmBand (JS.inner laps) \/ Forall inMileBand (JS.inner laps).
Proof.
  unfold detectAutoLaps.
  destruct (length laps <=? 2)%nat eqn:E.
  - apply Nat.leb_le in E. tauto.
  - apply Nat.leb_gt in E.
    destruct (length (JS.inner laps) =? 0)%nat eqn:E0.
    + apply Nat.eqb_eq in E0. destruct (JS.inner laps); [|discriminate].
      split; auto.
    + pose proof (forallb_Forall_map lap_distance nearKm inKmBand (JS.inner laps) nearKm_band) as Hk.
      pose proof (forallb_Forall_map lap_distance nearMile inMileBand (JS.inner laps) nearMile_band) as Hm.
      destruct (forallb nearKm _) eqn:Ek.
      * split; auto. intros _. right; left. apply Hk. reflexivity.
      * destruct (forallb nearMile _) eqn:Em.
        -- split; auto. intros _. right; right. apply Hm; reflexivity.
        -- split; [discriminate|]. intros [H|[H|H]]; [lia| |].
           ++ apply Hk in H. discriminate.
           ++ apply Hm in H. discriminate.
Qed.

Lemma classifyRun_no_race activity laps hrZones easyPaceRef :
  act_workout_type activity <> Some 1 ->
  classifyRun activity laps hrZones easyPaceRef =
    if detectAutoLaps laps
    then classifyByPaceAndHr activity hrZones easyPaceRef
    else classifyStructuredLapRun activity laps hrZones easyPaceRef.
Proof.
  intros H. unfold classifyRun, classifyAutoLapRun.
  assert (Hlen : (length laps =? 0)%nat = true -> detectAutoLaps laps = true).
  { intros E. apply Nat.eqb_eq in E. destruct laps; [reflexivity|discriminate]. }
  destruct (act_workout_type activity) as [[|[]|]|]; try congruence;
    destruct (length laps =? 0)%nat; try (rewrite Hlen by reflexivity); reflexivity.
Qed.

(** C6, as stated, fails.  In [lapsMixedBands] every inner lap is within
    120 m of 1000 m or within 150 m of a mile, and there is no race marker;
    yet the laps are not automatic, since one band has to hold all inner
    laps: structured analysis runs and answers progression. *)
Lemma mixed_bands_are_not_auto_laps :
  act_workout_type (sampleActivity 3500 1050 None) = None /\
  JS.inner lapsMixedBands = [sampleLap 1000 300; sampleLap 1600 480] /\
  Forall (fun l => inKmBand l \/ inMileBand l) (JS.inner lapsMixedBands) /\
  detectAutoLaps lapsMixedBands = false /\
  classifyRun (sampleActivity 3500 1050 None) lapsMixedBands None 330
  = classifyStructuredLapRun (sampleActivity 3500 1050 None) lapsMixedBands None 330 /\
  classifyRun (sampleActivity 3500 1050 None) lapsMixedBands None 330
  = mkResult progression None high /\
  classifyByPaceAndHr (sampleActivity 3500 1050 None) None 330 = mkResult unknown None low.
Proof.
  split; [reflexivity|]. split; [reflexivity|]. split.
  { change (JS.inner lapsMixedBands) with [sampleLap 1000 300; sampleLap 1600 480].
    constructor; [left; split; reflexivity|].
    constructor; [right; split; reflexivity|constructor]. }
  split; [reflexivity|]. split; [reflexivity|]. split; reflexivity.
Qed.

(** C6, amended.  Without the race marker: two or fewer laps are
    automatic.  Laps [first], [inner], [last] are automatic exactly when
    every lap of [inner] is closer than 120 m to 1000 m, or every lap of
    [inner] is closer than 150 m to 1609 m; one of the two bands has to hold
    them all.  Automatic laps go to the pace/HR fallback, the others to
    structured analysis.  The laps' times, hence their paces, play no
    role. *)
Theorem auto_laps_exactly_when activity hrZones easyPaceRef :
  act_workout_type activity <> Some 1 ->
  (forall laps, (length laps <= 2)%nat ->
     detectAutoLaps laps = true /\
     classifyRun activity laps hrZones easyPaceRef
     = classifyByPaceAndHr activity hrZones easyPaceRef) /\
  (forall first inner last,
     let laps := first :: inner ++ [last] in
     let automatic := Forall inKmBand inner \/ Forall inMileBand inner in
     (detectAutoLaps laps = true <-> automatic) /\
     (automatic ->
        classifyRun activity laps hrZones easyPaceRef
        = classifyByPaceAndHr activity hrZones easyPaceRef) /\
     (~ automatic ->
        classifyRun activity laps hrZones easyPaceRef
        = classifyStructuredLapRun activity laps hrZones easyPaceRef)).
Proof.
  intros Hrace. split.
  - intros laps Hlen.
    assert (Ha : detectAutoLaps laps = true) by (apply detectAutoLaps_iff; left; exact Hlen).
    split; [exact Ha|]. rewrite (classifyRun_no_race _ _ _ _ Hrace), Ha. reflexivity.
  - intros first inner last laps automatic.
    assert (Hiff : detectAutoLaps laps = true <-> automatic).
    { rewrite detectAutoLaps_iff. unfold laps. rewrite inner_cons_snoc.
      unfold automatic. split; [|tauto].
      intros [Hlen|H]; [|exact H].
      simpl in Hlen. rewrite length_app in Hlen. simpl in Hlen.
      destruct inner; [left; constructor|simpl in Hlen; lia]. }
    rewrite (classifyRun_no_race _ _ _ _ Hrace).
    split; [exact Hiff|]. split.
    + intros Ha. apply Hiff in Ha. rewrite Ha. reflexivity.
    + intros Hn. destruct (detectAutoLaps laps) eqn:E; [|reflexivity].
      exfalso. apply Hn, Hiff. reflexivity.
Qed.

Lemma auto_laps_exactly_when_witness :
  act_workout_type (sampleActivity 6000 1800 None) <> Some 1 /\
  detectAutoLaps lapsSixKm = true /\
  classifyRun (sampleActivity 6000 1800 None) lapsSixKm None 330
  = classifyByPaceAndHr (sampleActivity 6000 1800 None) None 330.
Proof.
  assert (Hrace : act_workout_type (sampleActivity 6000 1800 None) <> Some 1) by discriminate.
  split; [exact Hrace|].
  destruct (auto_laps_exactly_when (sampleActivity 6000 1800 None) None 330 Hrace) as [_ H].
  specialize (H (sampleLap 1000 240)
                [sampleLap 1000 360; sampleLap 1000 240; sampleLap 1000 360; sampleLap 1000 240]
                (sampleLap 1000 360)).
  cbv zeta in H. destruct H as (H1 & H2 & _).
  assert (Ha : Forall inKmBand
                 [sampleLap 1000 360; sampleLap 1000 240; sampleLap 1000 360; sampleLap 1000 240]).
  { repeat constructor. }
  split; [apply H1; left; exact Ha|apply H2; left; exact Ha].
Defined.

(** ** The classifier: confidence *)

Lemma fallback_confidence activity hrZones easyPaceRef :
  confidence (classifyByPaceAndHr activity hrZones easyPaceRef) <> high /\
  run_type_detail (classifyByPaceAndHr activity hrZones easyPaceRef) = None.
Proof.
  unfold classifyByPaceAndHr.
  destruct_conditions; simpl; split; congruence.
Qed.

Lemma detectTempoBlock_tempo laps paces easyPaceRef r :
  detectTempoBlock laps paces easyPaceRef = Some r ->
  run_type r = tempo /\ confidence r = high.
Proof.
  unfold detectTempoBlock.
  destruct (length laps <? 3)%nat; [discriminate|].
  destruct (tempoScan _ _ _ _ _) as [fastStart fastEnd].
  destruct_conditions; try discriminate.
  intros [= <-]. split; reflexivity.
Qed.

Lemma structured_cases activity laps hrZones easyPaceRef :
  let r := classifyStructuredLapRun activity laps hrZones easyPaceRef in
  r = classifyByPaceAndHr activity hrZones easyPaceRef \/
  structuredOutcome laps easyPaceRef r.
Proof.
  unfold classifyStructuredLapRun, structuredOutcome. cbv zeta.
  destruct (length laps <? 3)%nat; [left; reflexivity|].
  destruct (isProgression _); [right; left; reflexivity|].
  destruct (length (workLapsOf _ _ _) <? 2)%nat.
  - destruct (detectTempoBlock _ _ _) as [t|] eqn:E; [|left; reflexivity].
    right; right; right; right. split; [reflexivity|].
    apply (detectTempoBlock_tempo _ _ _ _ E).
  - destruct (isAlternatingPattern _ _); simpl; [|left; reflexivity].
    destruct (cvBelow _ _).
    + right; right; left. eexists; reflexivity.
    + right; right; right; left. eexists; reflexivity.
Qed.

(** C10. Every result of the pace/HR fallback has confidence medium or
    low and no detail; [classifyRun] reports confidence high only for the
    provider's race marker or for a result of structured-lap analysis
    (progression, intervals, fartlek or a tempo block). *)
Theorem high_confidence_only_from_race_or_structure activity laps hrZones easyPaceRef :
  let fallback := classifyByPaceAndHr activity hrZones easyPaceRef in
  let r := classifyRun activity laps hrZones easyPaceRef in
  (confidence fallback <> high /\ run_type_detail fallback = None) /\
  (confidence r = high ->
     act_workout_type activity = Some 1 \/
     (detectAutoLaps laps = false /\
      r = classifyStructuredLapRun activity laps hrZones easyPaceRef /\
      structuredOutcome laps easyPaceRef r)).
Proof.
  cbv zeta. split; [apply fallback_confidence|].
  destruct (decide (act_workout_type activity = Some 1)) as [Hr|Hr]; [left; exact Hr|].
  rewrite (classifyRun_no_race _ _ _ _ Hr).
  intros Hhigh. right.
  destruct (detectAutoLaps laps).
  - exfalso. exact (proj1 (fallback_confidence _ _ _) Hhigh).
  - split; [reflexivity|]. split; [reflexivity|].
    destruct (structured_cases activity laps hrZones easyPaceRef) as [E|S]; [|exact S].
    exfalso. rewrite E in Hhigh. exact (proj1 (fallback_confidence _ _ _) Hhigh).
Qed.

(** ** The classifier: tempo blocks *)

(** C4, as stated, fails.  In [lapsLateRun] the longest run of fast laps
    is the last three laps, yet the scan stops after the two slow laps that
    follow the first fast lap and reports no tempo block.  In
    [lapsWithGap] no two neighbouring laps are both fast, yet a tempo block
    of three laps is reported, the slow lap between the two fast ones
    included in distance and pace. *)
Lemma detectTempoBlock_differs_from_longest_run :
  (detectTempoBlock lapsLateRun (map lapPace lapsLateRun) 330 = None /\
   specTempoBlock lapsLateRun 330 =
     Some (mkResult tempo (Some "4.5km @ 4:27/km"%string) high)) /\
  (detectTempoBlock lapsWithGap (map lapPace lapsWithGap) 330 =
     Some (mkResult tempo (Some "4.5km @ 4:53/km"%string) high) /\
   specTempoBlock lapsWithGap 330 = None).
Proof. vm_compute. repeat split. Qed.

Section TempoScan.
Variable e : Q.

Local Abbreviation thr := (fastThresholdOf e).

Lemma tempoScan_slow_prefix pre rest i :
  Forall (slowPace e) pre ->
  tempoScan thr (pre ++ rest) i (-1) (-1)
  = tempoScan thr rest (i + Z.of_nat (length pre)) (-1) (-1).
Proof.
  intros H. revert i. induction H as [|p pre Hp Hpre IH]; intros i.
  - cbn [app length]. f_equal. lia.
  - cbn [app tempoScan]. unfold slowPace in Hp. rewrite Hp.
    change (negb (-1 =? -1) && (-1 + 1 <? i)) with false. cbv iota.
    rewrite IH. f_equal. cbn [length]. lia.
Qed.

Lemma tempoScan_all_slow paces i :
  Forall (slowPace e) paces ->
  tempoScan thr paces i (-1) (-1) = (-1, -1).
Proof.
  intros H. revert i. induction H as [|p pre Hp Hpre IH]; intros i; [reflexivity|].
  cbn [tempoScan]. unfold slowPace in Hp. rewrite Hp.
  change (negb (-1 =? -1) && (-1 + 1 <? i)) with false. cbv iota. apply IH.
Qed.

Lemma tempoScan_end post i fs :
  BlockEnd e post -> fs <> -1 ->
  tempoScan thr post (i + 1) fs i = (fs, i).
Proof.
  intros H Hfs. apply Z.eqb_neq in Hfs.
  destruct H as [|g Hg|g1 g2 rest Hg1 Hg2]; cbn [tempoScan].
  - reflexivity.
  - unfold slowPace in Hg. rewrite Hg, Hfs. cbn [negb andb].
    rewrite Z.ltb_irrefl. reflexivity.
  - unfold slowPace in Hg1, Hg2. rewrite Hg1, Hg2, Hfs. cbn [negb andb].
    rewrite Z.ltb_irrefl.
    replace (i + 1 <? i + 1 + 1) with true by (symmetry; apply Z.ltb_lt; lia).
    reflexivity.
Qed.

Lemma tempoScan_block blk post :
  TempoBlock e blk -> BlockEnd e post ->
  forall i fs fe, 0 <= i -> fs = -1 \/ 0 <= fs ->
  tempoScan thr (blk ++ post) i fs fe
  = (if fs =? -1 then i else fs, i + Z.of_nat (length blk) - 1).
Proof.
  intros Hb Hend. induction Hb as [p Hp|p blk Hp Hb IH|p g blk Hp Hg Hb IH];
    intros i fs fe Hi Hfs; unfold fastPace in Hp.
  - cbn [app tempoScan length]. rewrite Hp.
    rewrite tempoScan_end; [f_equal; lia|exact Hend|].
    destruct (fs =? -1) eqn:E; [lia|]. apply Z.eqb_neq in E. exact E.
  - cbn [app tempoScan length]. rewrite Hp. rewrite IH.
    + assert (((if fs =? -1 then i else fs) =? -1) = false) as ->.
      { destruct (fs =? -1) eqn:E; apply Z.eqb_neq; [lia|]. apply Z.eqb_neq in E. exact E. }
      f_equal. lia.
    + lia.
    + right. destruct (fs =? -1) eqn:E; [lia|]. apply Z.eqb_neq in E. lia.
  - cbn [app tempoScan length]. rewrite Hp. unfold slowPace in Hg. rewrite Hg.
    assert (((if fs =? -1 then i else fs) =? -1) = false) as Hne.
    { destruct (fs =? -1) eqn:E; apply Z.eqb_neq; [lia|]. apply Z.eqb_neq in E. exact E. }
    rewrite Hne. cbn [negb andb]. rewrite Z.ltb_irrefl. rewrite IH.
    + rewrite Hne. f_equal. lia.
    + lia.
    + right. destruct (fs =? -1) eqn:E; [lia|]. apply Z.eqb_neq in E. lia.
Qed.
End TempoScan.

Lemma slice_from {A} (l : list A) (a b : nat) :
  (a + b <= length l)%nat ->
  JS.slice l (Z.of_nat a) (Z.of_nat a + Z.of_nat b - 1 + 1) = take b (drop a l).
Proof.
  intros H. unfold JS.slice, JS.rel_index.
  assert (H1 : (Z.of_nat a <? 0) = false) by (apply Z.ltb_ge; lia).
  assert (H2 : (Z.of_nat a + Z.of_nat b - 1 + 1 <? 0) = false) by (apply Z.ltb_ge; lia).
  rewrite H1, H2. rewrite !Z.min_l by lia.
  rewrite Nat2Z.id. f_equal. lia.
Qed.

Lemma slow_or_fast e p : {fastPace e p} + {slowPace e p}.
Proof. unfold fastPace, slowPace. destruct (JS.lt _ _); [left|right]; reflexivity. Qed.

Lemma block_from_fast e p : forall rest,
  fastPace e p ->
  exists blk post, p :: rest = blk ++ post /\ TempoBlock e blk /\ BlockEnd e post.
Proof.
  intros rest. remember (length rest) as n eqn:Hn. revert p rest Hn.
  induction n as [n IH] using lt_wf_ind. intros p rest Hn Hp.
  destruct rest as [|x rest].
  - exists [p], []. repeat split; [constructor; exact Hp|constructor].
  - destruct (slow_or_fast e x) as [Hx|Hx].
    + destruct (IH (length rest)) with (p := x) (rest := rest) as (blk & post & E & Hb & Hend);
        [simpl in Hn; lia|reflexivity|exact Hx|].
      exists (p :: blk), post. rewrite E. repeat split; [|exact Hend].
      apply block_fast; assumption.
    + destruct rest as [|y rest].
      * exists [p], [x]. repeat split; [constructor; exact Hp|constructor; exact Hx].
      * destruct (slow_or_fast e y) as [Hy|Hy].
        -- destruct (IH (length rest)) with (p := y) (rest := rest) as (blk & post & E & Hb & Hend);
             [simpl in Hn; lia|reflexivity|exact Hy|].
           exists (p :: x :: blk), post. rewrite E. repeat split; [|exact Hend].
           apply block_gap; assumption.
        -- exists [p], (x :: y :: rest). repeat split; [constructor; exact Hp|].
           constructor; assumption.
Qed.

Lemma tempo_decomposition e paces :
  Forall (slowPace e) paces \/
  exists pre blk post,
    paces = pre ++ blk ++ post /\
    Forall (slowPace e) pre /\ TempoBlock e blk /\ BlockEnd e post.
Proof.
  induction paces as [|p paces IH].
  - left. constructor.
  - destruct (slow_or_fast e p) as [Hp|Hp].
    + right. destruct (block_from_fast e p paces Hp) as (blk & post & E & Hb & Hend).
      exists [], blk, post. repeat split; [exact E|constructor|exact Hb|exact Hend].
    + destruct IH as [IH|(pre & blk & post & E & Hpre & Hb & Hend)].
      * left. constructor; assumption.
      * right. exists (p :: pre), blk, post. rewrite E.
        repeat split; [constructor; assumption|exact Hb|exact Hend].
Qed.

Lemma TempoBlock_nonempty e blk : TempoBlock e blk -> (1 <= length blk)%nat.
Proof. intros H; destruct H; simpl; lia. Qed.

Lemma detectTempoBlock_on_block e laps pre blk post :
  length (pre ++ blk ++ post) = length laps ->
  Forall (slowPace e) pre -> TempoBlock e blk -> BlockEnd e post ->
  detectTempoBlock laps (pre ++ blk ++ post) e =
    if (2 <=? length blk)%nat && negb ((length pre =? 0)%nat && (length post =? 0)%nat)
    then Some (mkResult tempo (Some (tempoDetail (lapsFrom (length pre) (length blk) laps))) high)
    else None.
Proof.
  intros Hlen Hpre Hb Hend. pose proof (TempoBlock_nonempty _ _ Hb) as Hne.
  unfold detectTempoBlock. cbv zeta.
  rewrite tempoScan_slow_prefix by exact Hpre.
  rewrite (tempoScan_block e blk post Hb Hend) by lia.
  change (-1 =? -1) with true. cbv iota.
  rewrite <- Hlen. rewrite !length_app in *.
  set (a := length pre) in *. set (b := length blk) in *. set (c := length post) in *.
  assert (E1 : (0 + Z.of_nat a =? -1) = false) by (apply Z.eqb_neq; lia).
  rewrite E1.
  replace (0 + Z.of_nat a + Z.of_nat b - 1 - (0 + Z.of_nat a) + 1) with (Z.of_nat b) by lia.
  destruct (2 <=? b)%nat eqn:E2.
  - apply Nat.leb_le in E2.
    assert (E3 : (Z.of_nat b <? 2) = false) by (apply Z.ltb_ge; lia). rewrite E3.
    destruct ((a =? 0)%nat && (c =? 0)%nat) eqn:Ew; cbn [andb negb].
    + apply andb_true_iff in Ew. destruct Ew as [Ea Ec].
      apply Nat.eqb_eq in Ea, Ec.
      destruct (a + (b + c) <? 3)%nat; [reflexivity|].
      assert (E4 : (0 + Z.of_nat a =? 0) = true) by (apply Z.eqb_eq; lia).
      assert (E5 : (0 + Z.of_nat a + Z.of_nat b - 1 =? Z.of_nat (a + (b + c)) - 1) = true)
        by (apply Z.eqb_eq; lia).
      rewrite E4, E5. reflexivity.
    + assert (Hsum : (3 <= a + (b + c))%nat).
      { apply andb_false_iff in Ew. destruct Ew as [Ew|Ew]; apply Nat.eqb_neq in Ew; lia. }
      assert (E0 : (a + (b + c) <? 3)%nat = false) by (apply Nat.ltb_ge; exact Hsum).
      rewrite E0.
      assert (E4 : (0 + Z.of_nat a =? 0) && (0 + Z.of_nat a + Z.of_nat b - 1 =? Z.of_nat (a + (b + c)) - 1)
                   = false).
      { apply andb_false_iff. apply andb_false_iff in Ew.
        destruct Ew as [Ew|Ew]; apply Nat.eqb_neq in Ew; [left|right]; apply Z.eqb_neq; lia. }
      rewrite E4.
      replace (0 + Z.of_nat a) with (Z.of_nat a) by lia.
      rewrite slice_from by (rewrite <- Hlen; lia). reflexivity.
  - apply Nat.leb_gt in E2. cbn [andb].
    destruct (a + (b + c) <? 3)%nat; [reflexivity|].
    assert (E3 : (Z.of_nat b <? 2) = true) by (apply Z.ltb_lt; lia). rewrite E3. reflexivity.
Qed.

Lemma detectTempoBlock_all_slow e laps paces :
  Forall (slowPace e) paces -> detectTempoBlock laps paces e = None.
Proof.
  intros H. unfold detectTempoBlock.
  destruct (_ <? 3)%nat; [reflexivity|]. cbv zeta.
  rewrite tempoScan_all_slow by exact H. reflexivity.
Qed.

(** C4, amended.  [paces] are the paces of [laps], lap by lap.  Either
    no pace is fast and there is no tempo block, or the paces split into
    slow ones, then the block -- from the first fast lap to the last fast
    lap reached before two slow laps in a row, single slow laps in between
    included -- and what follows it.  The block must have at least 2 laps
    and must not be the whole lap sequence; the result is then [tempo],
    confidence high, with the detail computed over all laps of the block.
    The easy pace, the paces and the laps' numbers are numbers of the
    language; the laps are plain laps (1 m to 1000 km, at most 10^6 s), for
    which the printed numbers are within the range of the string
    functions. *)
Theorem tempo_block_is_first_block e laps paces :
  binary64 e ->
  Forall binary64 paces ->
  length paces = length laps ->
  Forall plainLap laps ->
  (Forall (slowPace e) paces /\ detectTempoBlock laps paces e = None) \/
  (exists pre blk post,
     paces = pre ++ blk ++ post /\
     Forall (slowPace e) pre /\ TempoBlock e blk /\ BlockEnd e post /\
     detectTempoBlock laps paces e =
       if (2 <=? length blk)%nat && negb ((length pre =? 0)%nat && (length post =? 0)%nat)
       then Some (mkResult tempo
                    (Some (tempoDetail (lapsFrom (length pre) (length blk) laps))) high)
       else None).
Proof.
  intros _ _ Hlen _.
  destruct (tempo_decomposition e paces) as [H|(pre & blk & post & E & Hpre & Hb & Hend)].
  - left. split; [exact H|apply detectTempoBlock_all_slow; exact H].
  - right. exists pre, blk, post. subst paces.
    repeat split; try assumption. apply detectTempoBlock_on_block; assumption.
Qed.

Lemma tempo_block_is_first_block_witness :
  binary64 330 /\
  Forall binary64 pacesWithGap /\
  length pacesWithGap = length lapsWithGap /\
  Forall plainLap lapsWithGap /\
  detectTempoBlock lapsWithGap pacesWithGap 330
  = Some (mkResult tempo (Some "4.5km @ 4:53/km"%string) high) /\
  ((Forall (slowPace 330) pacesWithGap /\
    detectTempoBlock lapsWithGap pacesWithGap 330 = None) \/
   (exists pre blk post,
      pacesWithGap = pre ++ blk ++ post /\
      Forall (slowPace 330) pre /\ TempoBlock 330 blk /\ BlockEnd 330 post /\
      detectTempoBlock lapsWithGap pacesWithGap 330 =
        if (2 <=? length blk)%nat && negb ((length pre =? 0)%nat && (length post =? 0)%nat)
        then Some (mkResult tempo
                     (Some (tempoDetail (lapsFrom (length pre) (length blk) lapsWithGap))) high)
        else None)).
Proof.
  assert (He : binary64 330) by (vm_compute; reflexivity).
  assert (Hp : Forall binary64 pacesWithGap).
  { repeat (constructor; [vm_compute; reflexivity|]). constructor. }
  assert (H1 : length pacesWithGap = length lapsWithGap) by reflexivity.
  assert (H2 : Forall plainLap lapsWithGap).
  { repeat (constructor;
            [split; [vm_compute; reflexivity|];
             split; [vm_compute; reflexivity|repeat split; discriminate]|]).
    constructor. }
  split; [exact He|]. split; [exact Hp|].
  split; [exact H1|]. split; [exact H2|]. split; [vm_compute; reflexivity|].
  apply (tempo_block_is_first_block 330 lapsWithGap pacesWithGap He Hp H1 H2).
Defined.

(** ** The classifier: intervals and fartlek *)


Lemma fallback_run_type activity hrZones easyPaceRef :
  run_type (classifyByPaceAndHr activity hrZones easyPaceRef) <> intervals /\
  run_type (classifyByPaceAndHr activity hrZones easyPaceRef) <> fartlek.
Proof.
  unfold classifyByPaceAndHr.
  destruct_conditions; simpl; split; congruence.
Qed.

Lemma Forall_inner {A} (P : A -> Prop) (l : list A) : Forall P l -> Forall P (JS.inner l).
Proof.
  intros H. unfold JS.inner, JS.slice. apply Forall_take, Forall_drop, H.
Qed.

Lemma formatIntervalDetail_1km laps workLaps :
  (1000 - 150 < meanWorkDistance laps workLaps /\
   meanWorkDistance laps workLaps < 1000 + 150)%Q ->
  formatIntervalDetail workLaps laps = countPrefix (length workLaps) "1km".
Proof.
  intros H. unfold formatIntervalDetail. fold (meanWorkDistance laps workLaps).
  assert (E : Qltb (Qabs' (meanWorkDistance laps workLaps - 1000)) 150 = true).
  { apply Qabs'_lt. destruct H. split; lra. }
  rewrite E. reflexivity.
Qed.

Lemma detectAutoLaps_false_length laps : detectAutoLaps laps = false -> (3 <= length laps)%nat.
Proof.
  unfold detectAutoLaps. destruct (length laps <=? 2)%nat eqn:E; [discriminate|].
  apply Nat.leb_gt in E. lia.
Qed.



(** ** Segment search *)

Import BestEfforts.

Lemma nondecreasing_check (l : list Q) :
  forallb (fun i => forallb (fun j => Qleb (nth i l 0%Q) (nth j l 0%Q)) (seq i (length l - i)))
          (seq 0 (length l)) = true ->
  nondecreasing l.
Proof.
  intros H i j [Hij Hj]. rewrite forallb_forall in H.
  specialize (H i). rewrite forallb_forall in H.
  apply Qleb_le. apply H; apply in_seq; lia.
Qed.

(** C2, as stated, fails.  In [streamLateSprint] (target 1000 m) the
    search returns the window from sample 0 to sample 2 (1024 m, normalized
    time 1000 s), although the window from sample 1 to sample 2 is in the
    band (1000 m) and has normalized time 512 s: for a right end only the
    longest window that stays below the upper end of the band is looked
    at.  In [streamSparse] the total distance is 2000 m and no window is
    returned at all. *)
Lemma findFastestSegment_not_optimal :
  (nondecreasing (time streamLateSprint) /\ nondecreasing (distance streamLateSprint) /\
   length (time streamLateSprint) = length (distance streamLateSprint) /\
   (1000 <= distanceAt streamLateSprint 2)%Q /\
   findFastestSegment streamLateSprint 1000 =
     Some {| timeSeconds := JS.Fin (inject_Z 1000); distanceMeters := JS.Fin (inject_Z 1024);
             startIndex := 0; endIndex := 2 |} /\
   inBand streamLateSprint 1000 1 2 /\
   normalizedTime streamLateSprint 1000 1 2 = JS.Fin 512 /\
   normalizedTime streamLateSprint 1000 0 2 = JS.Fin 1000 /\
   JS.lt (normalizedTime streamLateSprint 1000 1 2) (normalizedTime streamLateSprint 1000 0 2)
   = true) /\
  (nondecreasing (time streamSparse) /\ nondecreasing (distance streamSparse) /\
   length (time streamSparse) = length (distance streamSparse) /\
   (1000 <= distanceAt streamSparse 1)%Q /\
   findFastestSegment streamSparse 1000 = None).
Proof.
  split.
  - split; [apply nondecreasing_check; reflexivity|].
    split; [apply nondecreasing_check; reflexivity|].
    split; [reflexivity|]. split; [discriminate|].
    split; [vm_compute; reflexivity|].
    split; [split; vm_compute; reflexivity|].
    split; [vm_compute; reflexivity|]. split; vm_compute; reflexivity.
  - split; [apply nondecreasing_check; reflexivity|].
    split; [apply nondecreasing_check; reflexivity|].
    split; [reflexivity|]. split; [discriminate|vm_compute; reflexivity].
Qed.

Lemma get_nth (l : list Q) (i : nat) : (i < length l)%nat -> JS.get l i = JS.Fin (nth i l 0%Q).
Proof.
  intros H. unfold JS.get.
  destruct (l !! i) as [q|] eqn:E.
  - rewrite (nth_lookup_Some _ _ _ _ E). reflexivity.
  - apply lookup_ge_None in E. lia.
Qed.

Section SearchCorrect.
Variable stream : ActivityStream.
Variable T : Q.
Hypothesis Hlen : length (time stream) = length (distance stream).
Hypothesis Hmono : nondecreasing (distance stream).
Hypothesis HT : (50 < T)%Q.

Let n := length (distance stream).

Local Abbreviation span := (spanDistance stream).
Local Abbreviation norm := (normalizedTime stream T).
Local Abbreviation high := (bandHigh T).
Local Abbreviation low := (bandLow T).

Lemma windowDistance_span s e :
  (s < n)%nat -> (e < n)%nat -> windowDistance stream s e = span s e.
Proof.
  intros Hs He. unfold windowDistance. rewrite !get_nth by assumption. reflexivity.
Qed.

Lemma windowTime_span s e :
  (s < n)%nat -> (e < n)%nat -> windowTime stream s e = spanTime stream s e.
Proof.
  intros Hs He. unfold windowTime. rewrite !get_nth by (rewrite Hlen; assumption). reflexivity.
Qed.

Lemma normalized_norm s e :
  (s < n)%nat -> (e < n)%nat -> normalized stream T s e = norm s e.
Proof.
  intros Hs He. unfold normalized.
  rewrite windowTime_span, windowDistance_span by assumption. reflexivity.
Qed.

Lemma span_double s e : span s e = JS.double (distanceAt stream e - distanceAt stream s).
Proof. reflexivity. Qed.

Lemma span_not_nan s e : span s e <> JS.NaN.
Proof. rewrite span_double. apply double_not_nan. Qed.

Lemma high_not_nan : high <> JS.NaN.
Proof. apply double_not_nan. Qed.

Lemma span_mono s e e' : (e <= e' < n)%nat -> JS.le (span s e) (span s e') = true.
Proof.
  intros H. rewrite !span_double. apply double_mono.
  unfold distanceAt. pose proof (Hmono e e' H). lra.
Qed.

Lemma span_refl e : span e e = JS.Fin 0.
Proof.
  rewrite span_double. rewrite <- double_zero. apply double_proper. ring.
Qed.

Lemma zero_le_high : JS.le (JS.Fin 0) high = true.
Proof.
  rewrite <- double_zero. apply (double_mono 0 (T + 50)). lra.
Qed.

Lemma examined_unique s s' e : examined stream T s e -> examined stream T s' e -> s = s'.
Proof.
  intros (H1 & H2 & H3) (H1' & H2' & H3').
  destruct (lt_eq_lt_dec s s') as [[H|H]|H]; [|exact H|].
  - specialize (H3' s H). apply num_le_not_lt in H2. congruence.
  - specialize (H3 s' H). apply num_le_not_lt in H2'. congruence.
Qed.

Lemma advance_examined fuel e s0 :
  (e < n)%nat -> (s0 <= e)%nat -> fuel = (e - s0)%nat ->
  (forall s', (s' < s0)%nat -> JS.lt high (span s' e) = true) ->
  examined stream T (advance stream T fuel e s0) e.
Proof.
  revert s0. induction fuel as [|fuel IH]; intros s0 He Hs Hf Hpre.
  - simpl. assert (s0 = e) by lia. subst s0.
    split; [lia|]. split; [|exact Hpre].
    rewrite span_refl. apply zero_le_high.
  - cbn [advance].
    destruct (s0 <? e)%nat eqn:Elt.
    + apply Nat.ltb_lt in Elt. rewrite windowDistance_span by lia.
      change (upperEnd T) with high. cbn [andb].
      destruct (JS.lt high (span s0 e)) eqn:Ec.
      * apply IH; [exact He|lia|lia|].
        intros s' Hs'. destruct (decide (s' = s0)) as [->|Hne]; [exact Ec|].
        apply Hpre. lia.
      * split; [lia|]. split; [|exact Hpre].
        apply num_not_lt_le; [apply span_not_nan|apply high_not_nan|exact Ec].
    + apply Nat.ltb_ge in Elt. lia.
Qed.

Lemma searchLoop_succ k : searchLoop stream T (S k) = searchStep stream T (searchLoop stream T k) k.
Proof.
  unfold searchLoop. rewrite seq_S, fold_left_app. reflexivity.
Qed.

Lemma searchStep_inv k st :
  (k < n)%nat -> searchInv stream T k st -> searchInv stream T (S k) (searchStep stream T st k).
Proof.
  intros Hk [Hstart Hbest].
  assert (Hex : examined stream T (advance stream T (k - startIdx st) k (startIdx st)) k).
  { destruct k as [|k'].
    - rewrite Hstart. apply advance_examined; [exact Hk|lia|reflexivity|]. intros s' Hs'. lia.
    - destruct Hstart as (H1 & H2 & H3).
      apply advance_examined; [exact Hk|lia|reflexivity|].
      intros s' Hs'. apply (num_lt_le_trans _ (span s' k')); [exact (H3 s' Hs')|].
      apply span_mono. lia. }
  unfold searchStep. cbv zeta.
  set (s := advance stream T (k - startIdx st) k (startIdx st)) in *.
  assert (Hs : (s <= k)%nat) by (destruct Hex; assumption).
  rewrite windowDistance_span by lia. change (lowerEnd T) with low.
  destruct (JS.le low (span s k)) eqn:Eb.
  - assert (Hband : inBand stream T s k).
    { split; [exact Eb|]. destruct Hex as (_ & H & _). exact H. }
    rewrite normalized_norm by lia.
    destruct Hbest as [[Hinf Hnone]|(Hbe & Hbex & Hbband & Hbt & Hbfin & Hbd & Hopt)].
    + rewrite Hinf. destruct (JS.lt (norm s k) JS.PInf) eqn:Ecmp.
      * split; [exact Hex|]. right. cbn.
        split; [lia|]. split; [exact Hex|]. split; [exact Hband|].
        split; [reflexivity|]. split; [exact Ecmp|]. split; [reflexivity|].
        intros s' e' He' Hex' Hband'.
        destruct (decide (e' = k)) as [->|Hne].
        -- rewrite (examined_unique _ _ _ Hex' Hex). apply num_lt_irrefl.
        -- apply (num_not_lt_trans _ JS.PInf); [exact Ecmp|].
           apply (Hnone s' e'); [lia|assumption|assumption].
      * split; [exact Hex|]. left. cbn. split; [reflexivity|].
        intros s' e' He' Hex' Hband'.
        destruct (decide (e' = k)) as [->|Hne].
        -- rewrite (examined_unique _ _ _ Hex' Hex). exact Ecmp.
        -- apply (Hnone s' e'); [lia|assumption|assumption].
    + destruct (JS.lt (norm s k) (bestTime st)) eqn:Ecmp.
      * split; [exact Hex|]. right. cbn.
        split; [lia|]. split; [exact Hex|]. split; [exact Hband|].
        split; [reflexivity|].
        split; [exact (num_lt_below_infinity _ _ Ecmp)|]. split; [reflexivity|].
        intros s' e' He' Hex' Hband'.
        destruct (decide (e' = k)) as [->|Hne].
        -- rewrite (examined_unique _ _ _ Hex' Hex). apply num_lt_irrefl.
        -- apply (num_not_lt_trans _ (bestTime st)); [exact Ecmp|].
           rewrite Hbt. apply Hopt; [lia|assumption|assumption].
      * split; [exact Hex|]. right. cbn.
        split; [lia|]. split; [exact Hbex|]. split; [exact Hbband|].
        split; [exact Hbt|]. split; [exact Hbfin|]. split; [exact Hbd|].
        intros s' e' He' Hex' Hband'.
        destruct (decide (e' = k)) as [->|Hne].
        -- rewrite (examined_unique _ _ _ Hex' Hex). rewrite <- Hbt. exact Ecmp.
        -- apply Hopt; [lia|assumption|assumption].
  - split; [exact Hex|]. cbn.
    assert (Hnew : forall s' , examined stream T s' k -> inBand stream T s' k -> False).
    { intros s' Hex' [Hb1 _]. rewrite (examined_unique _ _ _ Hex' Hex) in Hb1. congruence. }
    destruct Hbest as [[Hinf Hnone]|(Hbe & Hbex & Hbband & Hbt & Hbfin & Hbd & Hopt)].
    + left. split; [exact Hinf|]. intros s' e' He' Hex' Hband'.
      destruct (decide (e' = k)) as [->|Hne]; [exfalso; exact (Hnew s' Hex' Hband')|].
      apply (Hnone s' e'); [lia|assumption|assumption].
    + right. split; [lia|]. split; [exact Hbex|]. split; [exact Hbband|].
      split; [exact Hbt|]. split; [exact Hbfin|]. split; [exact Hbd|].
      intros s' e' He' Hex' Hband'.
      destruct (decide (e' = k)) as [->|Hne]; [exfalso; exact (Hnew s' Hex' Hband')|].
      apply Hopt; [lia|assumption|assumption].
Qed.

Lemma searchLoop_inv k : (k <= n)%nat -> searchInv stream T k (searchLoop stream T k).
Proof.
  induction k as [|k IH]; intros Hk.
  - split; [reflexivity|]. left. split; [reflexivity|]. intros s e He. lia.
  - rewrite searchLoop_succ. apply searchStep_inv; [lia|]. apply IH. lia.
Qed.
End SearchCorrect.

(** *** Windows of bounded input have a finite normalized time *)

Section BoundedInput.
Local Open Scope Q_scope.

Lemma num_le_trans a b c : JS.le a b = true -> JS.le b c = true -> JS.le a c = true.
Proof.
  destruct a as [x| | |], b as [y| | |], c as [z| | |]; simpl; try congruence.
  rewrite !Qleb_le. intros H1 H2. lra.
Qed.

(** a number between two finite numbers is finite *)
Lemma num_between x lo hi :
  JS.le (JS.Fin lo) x = true -> JS.le x (JS.Fin hi) = true ->
  exists r, x = JS.Fin r /\ lo <= r <= hi.
Proof.
  destruct x as [r| | |]; simpl; try congruence.
  rewrite !Qleb_le. intros H1 H2. exists r. auto.
Qed.

(** rounding keeps a value between two numbers of the language *)
Lemma double_between q lo hi :
  JS.double lo = JS.Fin lo -> JS.double hi = JS.Fin hi -> lo <= q <= hi ->
  exists r, JS.double q = JS.Fin r /\ lo <= r <= hi.
Proof.
  intros Hlo Hhi [H1 H2]. apply num_between.
  - rewrite <- Hlo. apply double_mono, H1.
  - rewrite <- Hhi. apply double_mono, H2.
Qed.

Lemma double_pow2_53 : JS.double (inject_Z (2 ^ 53)) = JS.Fin (inject_Z (2 ^ 53)).
Proof. vm_compute. reflexivity. Qed.
Lemma double_pow2_53_opp : JS.double (- inject_Z (2 ^ 53)) = JS.Fin (- inject_Z (2 ^ 53)).
Proof. vm_compute. reflexivity. Qed.
Lemma double_pow2_54 : JS.double (inject_Z (2 ^ 54)) = JS.Fin (inject_Z (2 ^ 54)).
Proof. vm_compute. reflexivity. Qed.
Lemma double_pow2_106 : JS.double (inject_Z (2 ^ 106)) = JS.Fin (inject_Z (2 ^ 106)).
Proof. vm_compute. reflexivity. Qed.
Lemma double_pow2_106_opp : JS.double (- inject_Z (2 ^ 106)) = JS.Fin (- inject_Z (2 ^ 106)).
Proof. vm_compute. reflexivity. Qed.
Lemma double_one : JS.double 1 = JS.Fin 1.
Proof. vm_compute. reflexivity. Qed.

Variable stream : ActivityStream.
Variable T : Q.
Hypothesis HT : 51 <= T <= inject_Z (2 ^ 53).
Hypothesis Htime : forall i, 0 <= timeAt stream i <= inject_Z (2 ^ 53).

Lemma inBand_below_infinity s e :
  inBand stream T s e -> JS.lt (normalizedTime stream T s e) JS.PInf = true.
Proof.
  intros [Hlow Hhigh].
  assert (P53 : inject_Z (2 ^ 53) == 9007199254740992) by reflexivity.
  assert (P54 : inject_Z (2 ^ 54) == 18014398509481984) by reflexivity.
  assert (P106 : inject_Z (2 ^ 106) == 81129638414606681695789005144064) by reflexivity.
  destruct (num_between (spanDistance stream s e) 1 (inject_Z (2 ^ 54))) as (x & Ex & Hx).
  { apply (num_le_trans _ (bandLow T)); [|exact Hlow].
    unfold bandLow, JS.fsub, JS.sub. rewrite rounded_Fin, <- double_one.
    apply double_mono. lra. }
  { apply (num_le_trans _ (bandHigh T)); [exact Hhigh|].
    unfold bandHigh, JS.fadd, JS.add. rewrite rounded_Fin, <- double_pow2_54.
    apply double_mono. lra. }
  destruct (double_between (timeAt stream e - timeAt stream s)
              (- inject_Z (2 ^ 53)) (inject_Z (2 ^ 53)) double_pow2_53_opp double_pow2_53)
    as (y & Ey & Hy).
  { pose proof (Htime s). pose proof (Htime e). lra. }
  unfold normalizedTime. rewrite Ex.
  change (spanTime stream s e) with (JS.double (timeAt stream e - timeAt stream s)).
  rewrite Ey. unfold JS.fdiv, JS.div.
  assert (Ez : JS.is_zero x = false).
  { unfold JS.is_zero. apply not_true_iff_false. rewrite Qeq_bool_iff. lra. }
  rewrite Ez, rounded_Fin.
  destruct (double_between (y / x) (- inject_Z (2 ^ 53)) (inject_Z (2 ^ 53))
              double_pow2_53_opp double_pow2_53) as (z & Ezz & Hz).
  { split.
    - apply Qle_shift_div_l; [lra|]. nra.
    - apply Qle_shift_div_r; [lra|]. nra. }
  rewrite Ezz. unfold JS.fmul, JS.mul. rewrite rounded_Fin.
  destruct (double_between (z * T) (- inject_Z (2 ^ 106)) (inject_Z (2 ^ 106))
              double_pow2_106_opp double_pow2_106) as (w & Ew & Hw).
  { split; nra. }
  rewrite Ew. reflexivity.
Qed.
End BoundedInput.

(** C2, amended.  The stream's numbers and the target are numbers of
    the language, the two arrays have equal length, the distance does not
    decrease and the target is above 50 m; windows are measured as the code
    measures them, every operation rounding to binary64.  A returned window
    lies within the 50 m band around the target, it is the window examined
    for its right end (the longest one ending there that does not exceed
    target + 50 m), its reported time is [Math.round] of its normalized
    time, its reported distance [Math.round] of its distance, and no
    examined window within the band has a smaller normalized time.  A
    window is returned as soon as the total distance reaches the target and
    some examined window within the band has a normalized time below
    [Infinity]; every window within the band has one when the target is
    between 51 m and [2^53] m and the times are between 0 and [2^53]
    seconds. *)
Theorem fastest_among_examined (stream : ActivityStream) (T : Q) :
  Forall binary64 (time stream) ->
  Forall binary64 (distance stream) ->
  binary64 T ->
  length (time stream) = length (distance stream) ->
  nondecreasing (distance stream) ->
  (50 < T)%Q ->
  let n := length (distance stream) in
  (forall seg, findFastestSegment stream T = Some seg ->
     (startIndex seg <= endIndex seg < n)%nat /\
     inBand stream T (startIndex seg) (endIndex seg) /\
     examined stream T (startIndex seg) (endIndex seg) /\
     timeSeconds seg = JS.round (normalizedTime stream T (startIndex seg) (endIndex seg)) /\
     distanceMeters seg = JS.round (spanDistance stream (startIndex seg) (endIndex seg)) /\
     forall s e, (e < n)%nat -> examined stream T s e -> inBand stream T s e ->
       notBelow (normalizedTime stream T s e)
                (normalizedTime stream T (startIndex seg) (endIndex seg)))
  /\
  ((T <= distanceAt stream (n - 1))%Q ->
   (exists s e, (e < n)%nat /\ examined stream T s e /\ inBand stream T s e /\
                JS.lt (normalizedTime stream T s e) JS.PInf = true) ->
   exists seg, findFastestSegment stream T = Some seg)
  /\
  ((51 <= T <= inject_Z (2 ^ 53))%Q ->
   (forall i, (0 <= timeAt stream i <= inject_Z (2 ^ 53))%Q) ->
   forall s e, inBand stream T s e ->
     JS.lt (normalizedTime stream T s e) JS.PInf = true).
Proof.
  intros _ _ _ Hlen Hmono HT n.
  pose proof (searchLoop_inv stream T Hlen Hmono HT n (Nat.le_refl _)) as [_ Hbest].
  split; [|split; [|intros HT51 Htime s e; apply inBand_below_infinity; assumption]];
    unfold findFastestSegment; fold n.
  - intros seg. destruct (n =? 0)%nat eqn:En; cbn [orb]; [discriminate|].
    apply Nat.eqb_neq in En.
    destruct (JS.lt (JS.get (distance stream) (n - 1)) (JS.Fin T)); [discriminate|]. cbv zeta.
    destruct Hbest as [[Hinf _]|(Hbe & Hbex & Hbband & Hbt & Hbfin & Hbd & Hopt)].
    + rewrite Hinf. discriminate.
    + assert (Hseg : Some {| timeSeconds := JS.round (bestTime (searchLoop stream T n));
                             distanceMeters := JS.round (bestDistance (searchLoop stream T n));
                             startIndex := bestStartIdx (searchLoop stream T n);
                             endIndex := bestEndIdx (searchLoop stream T n) |} = Some seg ->
                     seg = {| timeSeconds := JS.round (bestTime (searchLoop stream T n));
                              distanceMeters := JS.round (bestDistance (searchLoop stream T n));
                              startIndex := bestStartIdx (searchLoop stream T n);
                              endIndex := bestEndIdx (searchLoop stream T n) |})
        by congruence.
      intros H.
      assert (Hs : seg = {| timeSeconds := JS.round (bestTime (searchLoop stream T n));
                            distanceMeters := JS.round (bestDistance (searchLoop stream T n));
                            startIndex := bestStartIdx (searchLoop stream T n);
                            endIndex := bestEndIdx (searchLoop stream T n) |}).
      { apply Hseg. destruct (bestTime (searchLoop stream T n)); try exact H; discriminate. }
      subst seg. cbn [startIndex endIndex timeSeconds distanceMeters].
      split; [destruct Hbex; lia|]. split; [exact Hbband|]. split; [exact Hbex|].
      split; [f_equal; exact Hbt|]. split; [f_equal; exact Hbd|]. exact Hopt.
  - intros Htotal (s & e & He & Hex & Hband & Hfin).
    destruct (n =? 0)%nat eqn:En; [apply Nat.eqb_eq in En; lia|]. apply Nat.eqb_neq in En.
    rewrite get_nth by (fold n; lia). cbn [orb JS.lt].
    assert (Qltb (nth (n - 1) (distance stream) 0%Q) T = false) as ->.
    { apply Qltb_ge. exact Htotal. }
    cbv zeta.
    destruct Hbest as [[_ Hnone]|(Hbe & Hbex & Hbband & Hbt & Hbfin & Hbd & Hopt)].
    + exfalso. specialize (Hnone s e He Hex Hband). unfold notBelow in Hnone. congruence.
    + destruct (bestTime (searchLoop stream T n)); try discriminate; eexists; reflexivity.
Qed.

Lemma fastest_among_examined_witness :
  Forall binary64 (time streamSteady) /\
  Forall binary64 (distance streamSteady) /\
  binary64 1000 /\
  length (time streamSteady) = length (distance streamSteady) /\
  nondecreasing (distance streamSteady) /\
  (50 < 1000)%Q /\
  exists seg, findFastestSegment streamSteady 1000 = Some seg /\
    inBand streamSteady 1000 (startIndex seg) (endIndex seg) /\
    timeSeconds seg = JS.Fin 400 /\
    JS.lt (normalizedTime streamSteady 1000 (startIndex seg) (endIndex seg)) JS.PInf = true /\
    forall s e, (e < 6)%nat -> examined streamSteady 1000 s e -> inBand streamSteady 1000 s e ->
      notBelow (normalizedTime streamSteady 1000 s e)
               (normalizedTime streamSteady 1000 (startIndex seg) (endIndex seg)).
Proof.
  assert (Ht : Forall binary64 (time streamSteady)).
  { repeat (constructor; [vm_compute; reflexivity|]). constructor. }
  assert (Hd : Forall binary64 (distance streamSteady)).
  { repeat (constructor; [vm_compute; reflexivity|]). constructor. }
  assert (HT : binary64 1000) by (vm_compute; reflexivity).
  assert (H1 : length (time streamSteady) = length (distance streamSteady)) by reflexivity.
  assert (H2 : nondecreasing (distance streamSteady)) by (apply nondecreasing_check; reflexivity).
  assert (H3 : (50 < 1000)%Q) by reflexivity.
  split; [exact Ht|]. split; [exact Hd|]. split; [exact HT|].
  split; [exact H1|]. split; [exact H2|]. split; [exact H3|].
  destruct (fastest_among_examined streamSteady 1000 Ht Hd HT H1 H2 H3) as (Hsome & _ & Hfin).
  eexists. split; [vm_compute; reflexivity|].
  destruct (Hsome _ ltac:(vm_compute; reflexivity)) as (_ & Hband & _ & _ & _ & Hopt).
  split; [exact Hband|]. split; [vm_compute; reflexivity|]. split; [|exact Hopt].
  apply Hfin; [split; [discriminate|discriminate]| |exact Hband].
  intros i. unfold timeAt. cbn [time streamSteady].
  do 6 (destruct i as [|i]; [split; discriminate|]).
  destruct i; split; discriminate.
Defined.
(** ** The best-effort tool *)

(** *** Sorting and slicing *)

Section SortFacts.
Context {A : Type} (leb : A -> A -> bool).

Lemma insert_sorted_perm x l : insert_sorted leb x l ≡ₚ x :: l.
Proof.
  induction l as [|y l IH]; simpl; [reflexivity|].
  destruct (leb x y); [reflexivity|].
  rewrite IH. apply Permutation_swap.
Qed.

Lemma stable_sort_perm l : stable_sort leb l ≡ₚ l.
Proof.
  induction l as [|x l IH]; simpl; [reflexivity|].
  rewrite insert_sorted_perm, IH. reflexivity.
Qed.

Lemma elem_of_stable_sort x l : x ∈ stable_sort leb l <-> x ∈ l.
Proof. rewrite stable_sort_perm. reflexivity. Qed.

End SortFacts.

Lemma slice_sublist {A} (l : list A) (a b : Z) : JS.slice l a b `sublist_of` l.
Proof.
  unfold JS.slice. etransitivity; [apply sublist_take|apply sublist_drop].
Qed.

Lemma elem_of_slice {A} (x : A) (l : list A) (a b : Z) : x ∈ JS.slice l a b -> x ∈ l.
Proof. apply sublist_subseteq, slice_sublist. Qed.

Lemma slice_prefix {A} (l : list A) (limit : Z) :
  0 <= limit -> JS.slice l 0 limit = take (Z.to_nat limit) l.
Proof.
  intros H. unfold JS.slice, JS.rel_index.
  change (0 <? 0) with false. cbv iota.
  assert (E : (limit <? 0) = false) by (apply Z.ltb_ge; lia). rewrite E.
  rewrite (Z.min_l 0) by lia. change (Z.to_nat 0) with O. rewrite drop_0, Z.sub_0_r.
  destruct (Z.le_gt_cases limit (Z.of_nat (length l))) as [Hle|Hgt].
  - rewrite Z.min_l by lia. reflexivity.
  - rewrite Z.min_r by lia. rewrite Nat2Z.id.
    rewrite !take_ge by lia. reflexivity.
Qed.

(** *** computeEfforts *)

Section ComputeFacts.
Variable fetchActivityStream : Z -> StreamOutcome.
Variable today : string.
Variable config : DistanceConfig.

Lemma computeLoop_spec runs : forall st efforts,
  exists st' added,
    fst (computeLoop fetchActivityStream today config runs st efforts) = st' /\
    (snd (computeLoop fetchActivityStream today config runs st efforts) = None \/
     snd (computeLoop fetchActivityStream today config runs st efforts)
     = Some (efforts ++ added)) /\
    ((forall run, run ∈ runs -> fetchActivityStream (row_id run) <> StreamThrows) ->
     snd (computeLoop fetchActivityStream today config runs st efforts)
     = Some (efforts ++ added)) /\
    (forall r, r ∈ added -> kept fetchActivityStream config (activityId r) = true) /\
    (forall i, kept fetchActivityStream config i = false ->
       best_efforts st' !! (i, dbName config) = best_efforts st !! (i, dbName config)).
Proof.
  induction runs as [|run runs IH]; intros st efforts.
  - exists st, []. cbn [computeLoop fst snd]. rewrite app_nil_r. split; [reflexivity|].
    split; [right; reflexivity|]. split; [reflexivity|].
    split; [intros r Hr; inversion Hr|reflexivity].
  - assert (Htail : forall st0 efforts0,
              computeLoop fetchActivityStream today config (run :: runs) st efforts
              = computeLoop fetchActivityStream today config runs st0 efforts0 ->
              st0 = st -> efforts0 = efforts ->
              exists st' added,
                fst (computeLoop fetchActivityStream today config (run :: runs) st efforts) = st' /\
                (snd (computeLoop fetchActivityStream today config (run :: runs) st efforts) = None \/
                 snd (computeLoop fetchActivityStream today config (run :: runs) st efforts)
                 = Some (efforts ++ added)) /\
                ((forall r, r ∈ run :: runs -> fetchActivityStream (row_id r) <> StreamThrows) ->
                 snd (computeLoop fetchActivityStream today config (run :: runs) st efforts)
                 = Some (efforts ++ added)) /\
                (forall r, r ∈ added -> kept fetchActivityStream config (activityId r) = true) /\
                (forall i, kept fetchActivityStream config i = false ->
                   best_efforts st' !! (i, dbName config) = best_efforts st !! (i, dbName config))).
    { intros st0 efforts0 E -> ->. rewrite E.
      destruct (IH st efforts) as (st' & added & H1 & H2 & H3 & H4 & H5).
      exists st', added. split; [exact H1|]. split; [exact H2|].
      split; [|split; assumption].
      intros Hok. apply H3. intros r Hr. apply Hok. right. exact Hr. }
    destruct (fetchActivityStream (row_id run)) as [|[stream|]] eqn:Ef.
    + exists st, []. cbn [computeLoop]. rewrite Ef. cbn [fst snd].
      split; [reflexivity|]. split; [left; reflexivity|].
      split; [intros Hok; exfalso; apply (Hok run); [left|exact Ef]|].
      split; [intros r Hr; inversion Hr|reflexivity].
    + destruct (findFastestSegment stream (inject_Z (meters config))) as [segment|] eqn:Es.
      * destruct (tooFast config segment) eqn:Et.
        -- apply (Htail st efforts); [|reflexivity|reflexivity].
           cbn [computeLoop]. rewrite Ef, Es, Et. reflexivity.
        -- destruct (IH (DB.upsertBestEffort (recordOf today config run segment) st)
                        (efforts ++ [resultOf config run segment]))
             as (st' & added & H1 & H2 & H3 & Hadded & Hkeep).
           assert (E : computeLoop fetchActivityStream today config (run :: runs) st efforts
                       = computeLoop fetchActivityStream today config runs
                           (DB.upsertBestEffort (recordOf today config run segment) st)
                           (efforts ++ [resultOf config run segment])).
           { cbn [computeLoop]. rewrite Ef, Es, Et. reflexivity. }
           rewrite E. exists st', (resultOf config run segment :: added).
           assert (Happ : (efforts ++ [resultOf config run segment]) ++ added
                          = efforts ++ resultOf config run segment :: added)
             by (rewrite <- app_assoc; reflexivity).
           rewrite <- Happ.
           split; [exact H1|]. split; [exact H2|]. split.
           { intros Hok. apply H3. intros r Hr. apply Hok. right. exact Hr. }
           split.
           ++ intros r Hr. apply elem_of_cons in Hr. destruct Hr as [->|Hr]; [|apply Hadded, Hr].
              cbn [resultOf activityId]. unfold kept. rewrite Ef, Es, Et. reflexivity.
           ++ intros i Hi. rewrite (Hkeep i Hi). cbn.
              apply lookup_insert_ne. intros [= E1].
              unfold kept in Hi. rewrite <- E1, Ef, Es, Et in Hi. discriminate.
      * apply (Htail st efforts); [|reflexivity|reflexivity].
        cbn [computeLoop]. rewrite Ef, Es. reflexivity.
    + apply (Htail st efforts); [|reflexivity|reflexivity].
      cbn [computeLoop]. rewrite Ef. reflexivity.
Qed.
End ComputeFacts.

(** the floors: 2.5 min/km for 1 km, 3 min/km for the configured
    distances of 5 km and more *)
Lemma realism_floors :
  (minPaceFor 1000 == 2.5 * 60)%Q /\
  forall name cfg, (name, cfg) ∈ DISTANCE_CONFIG -> 5000 <= meters cfg ->
    (minPaceFor (meters cfg) == 3.0 * 60)%Q.
Proof.
  split; [reflexivity|].
  intros name cfg H Hm. unfold DISTANCE_CONFIG in H.
  repeat (apply elem_of_cons in H; destruct H as [H|H];
          [injection H as -> ->; first [reflexivity | simpl in Hm; lia]|]).
  inversion H.
Qed.

(** C7 does not hold of the code.  In [streamShortWindow] activity 7
    covers 960 m in its first 142 s: 147.9 s per km, faster than the floor
    of 150 s per km (2.5 min/km) for 1 km.  The segment search returns this
    window with its time normalized to 1000 m, 148 s, and with the window's
    own distance, 960 m.  [computeEfforts] divides the one by the other,
    gets 154.2 s per km and keeps the segment: a [best_efforts] row for
    1000 m in 148 s is written where there was none, and the effort is
    reported with the time 2:28 and the pace 2:28/km. *)
Theorem short_window_passes_realism_check :
  selectRuns config1k storeOneRun = [sampleRow 7 "2026-02-10T07:30:00Z" 5200] /\
  best_efforts storeOneRun !! (7, "1K"%string) = None /\
  findFastestSegment streamShortWindow 1000
  = Some {| timeSeconds := JS.Fin 148; distanceMeters := JS.Fin 960;
            startIndex := 0; endIndex := 1 |} /\
  (minPaceFor 1000 == 150)%Q /\
  (142 / 960 * 1000 < minPaceFor 1000)%Q /\
  JS.lt (normalizedTime streamShortWindow 1000 0 1) (JS.Fin (minPaceFor 1000)) = true /\
  JS.lt (JS.fmul (JS.fdiv (JS.Fin 148) (JS.Fin 1000)) (JS.Fin 1000)) (JS.Fin (minPaceFor 1000))
  = true /\
  tooFast config1k {| timeSeconds := JS.Fin 148; distanceMeters := JS.Fin 960;
                      startIndex := 0; endIndex := 1 |} = false /\
  exists st' result record,
    computeEfforts (fun _ => StreamReturns (Some streamShortWindow)) "2026-02-12" config1k 5
      storeOneRun
    = (st', Some [result]) /\
    best_efforts st' !! (7, "1K"%string) = Some record /\
    be_activity_id record = 7 /\
    be_distance_name record = "1K"%string /\
    (be_distance_meters record == 1000)%Q /\
    be_elapsed_time record = JS.Fin 148 /\
    activityId result = 7 /\
    segmentTimeSeconds result = JS.Fin 148 /\
    formattedTime result = "2:28"%string /\
    pacePerKm result = "2:28/km"%string /\
    source result = computed.
Proof.
  split; [vm_compute; reflexivity|]. split; [vm_compute; reflexivity|].
  split; [vm_compute; reflexivity|]. split; [reflexivity|]. split; [reflexivity|].
  split; [vm_compute; reflexivity|]. split; [vm_compute; reflexivity|].
  split; [vm_compute; reflexivity|].
  eexists _, _, _. split; [vm_compute; reflexivity|].
  split; [vm_compute; reflexivity|]. repeat split.
Qed.

Example storeOneRun_discarded :
  selectRuns config1k storeOneRun = [sampleRow 7 "2026-02-10T07:30:00Z" 5200] /\
  findFastestSegment streamTooFast 1000
  = Some {| timeSeconds := JS.Fin (inject_Z 100); distanceMeters := JS.Fin (inject_Z 1000);
            startIndex := 0; endIndex := 1 |} /\
  computeEfforts (fun _ => StreamReturns (Some streamTooFast)) "2026-02-12" config1k 5 storeOneRun
  = (storeOneRun, Some []).
Proof. repeat split; vm_compute; reflexivity. Qed.

(** *** The insertion-ordered map *)

Section MapFacts.
Context {V : Type}.
Implicit Types (m : list (Z * V)) (k : Z) (v : V).

Lemma map_has_keys m k : JS.map_has m k = true <-> k ∈ m.*1.
Proof.
  unfold JS.map_has. induction m as [|[k' v'] m IH]; simpl.
  - split; [discriminate|]. intros H. inversion H.
  - rewrite orb_true_iff, IH, elem_of_cons, Z.eqb_eq. split; intros [H|H]; auto.
Qed.

Lemma map_set_keys m k v k' : k' ∈ (JS.map_set m k v).*1 <-> k' = k \/ k' ∈ m.*1.
Proof.
  induction m as [|[k0 v0] m IH]; simpl.
  - rewrite list_elem_of_singleton. split; [auto|]. intros [H|H]; [exact H|inversion H].
  - destruct (k0 =? k) eqn:E.
    + apply Z.eqb_eq in E. subst k0. simpl. rewrite !elem_of_cons. tauto.
    + simpl. rewrite !elem_of_cons, IH. tauto.
Qed.

Lemma map_set_NoDup m k v : NoDup m.*1 -> NoDup (JS.map_set m k v).*1.
Proof.
  induction m as [|[k0 v0] m IH]; simpl; intros H.
  - apply NoDup_singleton.
  - apply NoDup_cons in H. destruct H as [Hk0 Hm].
    destruct (k0 =? k) eqn:E.
    + apply Z.eqb_eq in E. subst k0. simpl. apply NoDup_cons. auto.
    + apply Z.eqb_neq in E. simpl. apply NoDup_cons. split; [|auto].
      rewrite map_set_keys. intros [H|H]; [congruence|exact (Hk0 H)].
Qed.

Lemma map_set_entries m k v k' v' :
  NoDup m.*1 ->
  (k', v') ∈ JS.map_set m k v <-> (k' = k /\ v' = v) \/ (k' <> k /\ (k', v') ∈ m).
Proof.
  induction m as [|[k0 v0] m IH]; simpl; intros Hnd.
  - rewrite list_elem_of_singleton. split.
    + intros [= -> ->]. auto.
    + intros [[-> ->]|[_ H]]; [reflexivity|inversion H].
  - apply NoDup_cons in Hnd. destruct Hnd as [Hk0 Hm].
    destruct (k0 =? k) eqn:E.
    + apply Z.eqb_eq in E. subst k0. rewrite !elem_of_cons. split.
      * intros [[= -> ->]|H]; [auto|].
        right. split; [|right; exact H].
        intros ->. apply Hk0. apply list_elem_of_fmap. exists (k, v'). auto.
      * intros [[-> ->]|[Hne [[= -> ->]|H]]]; [left; reflexivity|congruence|right; exact H].
    + apply Z.eqb_neq in E. rewrite !elem_of_cons, (IH Hm). split.
      * intros [[= -> ->]|[[-> ->]|[Hne H]]]; [right; split; [congruence|left; reflexivity]|auto|auto].
      * intros [[-> ->]|[Hne [[= -> ->]|H]]]; auto.
Qed.
End MapFacts.

(** *** mergeEfforts *)

Lemma strava_pass stravaEfforts : forall m,
  NoDup m.*1 -> keyed m ->
  let m' := fold_left (fun m e => JS.map_set m (activityId e) e) stravaEfforts m in
  NoDup m'.*1 /\ keyed m' /\
  (forall k, k ∈ m'.*1 <-> k ∈ m.*1 \/ k ∈ activityId <$> stravaEfforts) /\
  (forall k e, (k, e) ∈ m' ->
     e ∈ stravaEfforts \/ ((k, e) ∈ m /\ k ∉ activityId <$> stravaEfforts)).
Proof.
  induction stravaEfforts as [|s l IH]; intros m Hnd Hkeyed; simpl.
  - split; [exact Hnd|]. split; [exact Hkeyed|]. split.
    + intros k. split; [auto|]. intros [H|H]; [exact H|inversion H].
    + intros k e H. right. split; [exact H|]. intros H'. inversion H'.
  - destruct (IH (JS.map_set m (activityId s) s)) as (H1 & H2 & H3 & H4).
    + apply map_set_NoDup, Hnd.
    + intros k e H. apply map_set_entries in H; [|exact Hnd].
      destruct H as [[-> ->]|[_ H]]; [reflexivity|apply Hkeyed, H].
    + split; [exact H1|]. split; [exact H2|]. split.
      * intros k. rewrite H3, map_set_keys, elem_of_cons. tauto.
      * intros k e H. destruct (H4 k e H) as [He|[He Hk]].
        -- left. right. exact He.
        -- apply map_set_entries in He; [|exact Hnd].
           destruct He as [[-> ->]|[Hne He]]; [left; left; reflexivity|].
           right. split; [exact He|]. rewrite elem_of_cons. intros [E|E]; [congruence|auto].
Qed.

Lemma computed_pass computedEfforts : forall m,
  NoDup m.*1 -> keyed m ->
  let m' :=
    fold_left
      (fun m e => if negb (JS.map_has m (activityId e)) then JS.map_set m (activityId e) e else m)
      computedEfforts m in
  NoDup m'.*1 /\ keyed m' /\
  (forall k, k ∈ m'.*1 <-> k ∈ m.*1 \/ k ∈ activityId <$> computedEfforts) /\
  (forall k e, (k, e) ∈ m' -> (k, e) ∈ m \/ (e ∈ computedEfforts /\ k ∉ m.*1)).
Proof.
  induction computedEfforts as [|c l IH]; intros m Hnd Hkeyed; simpl.
  - split; [exact Hnd|]. split; [exact Hkeyed|]. split.
    + intros k. split; [auto|]. intros [H|H]; [exact H|inversion H].
    + intros k e H. left. exact H.
  - destruct (JS.map_has m (activityId c)) eqn:Ehas; simpl.
    + apply map_has_keys in Ehas.
      destruct (IH m Hnd Hkeyed) as (H1 & H2 & H3 & H4).
      split; [exact H1|]. split; [exact H2|]. split.
      * intros k. rewrite H3, elem_of_cons. split; [tauto|].
        intros [H|[->|H]]; auto.
      * intros k e H. destruct (H4 k e H) as [He|[He Hk]]; [left; exact He|].
        right. split; [right; exact He|exact Hk].
    + assert (Hfresh : activityId c ∉ m.*1).
      { intros H. apply map_has_keys in H. congruence. }
      destruct (IH (JS.map_set m (activityId c) c)) as (H1 & H2 & H3 & H4).
      * apply map_set_NoDup, Hnd.
      * intros k e H. apply map_set_entries in H; [|exact Hnd].
        destruct H as [[-> ->]|[_ H]]; [reflexivity|apply Hkeyed, H].
      * split; [exact H1|]. split; [exact H2|]. split.
        -- intros k. rewrite H3, map_set_keys, elem_of_cons. tauto.
        -- intros k e H. destruct (H4 k e H) as [He|[He Hk]].
           ++ apply map_set_entries in He; [|exact Hnd].
              destruct He as [[-> ->]|[Hne He]]; [|left; exact He].
              right. split; [left; reflexivity|exact Hfresh].
           ++ right. split; [right; exact He|].
              intros Hin. apply Hk. apply map_set_keys. right. exact Hin.
Qed.

Section SortedFacts.
Context {A : Type} (leb : A -> A -> bool) (R : A -> A -> Prop) (P : A -> Prop).
Hypothesis leb_true : forall x y, P x -> P y -> leb x y = true -> R x y.
Hypothesis leb_false : forall x y, P x -> P y -> leb x y = false -> R y x.
Hypothesis R_trans : forall x y z, R x y -> R y z -> R x z.

Lemma insert_sorted_sorted x l :
  P x -> Forall P l -> StronglySorted R l -> StronglySorted R (insert_sorted leb x l).
Proof.
  intros Hx Hl Hs. induction Hs as [|y r Hr IH Hy]; simpl.
  - constructor; constructor.
  - apply Forall_cons in Hl. destruct Hl as [Py Pr].
    destruct (leb x y) eqn:E.
    + constructor; [constructor; assumption|].
      constructor; [apply leb_true; assumption|].
      eapply Forall_impl; [exact Hy|]. intros z Hz.
      eapply R_trans; [apply leb_true; eassumption|exact Hz].
    + constructor; [apply IH; exact Pr|].
      rewrite insert_sorted_perm. constructor; [apply leb_false; assumption|exact Hy].
Qed.

Lemma stable_sort_sorted l : Forall P l -> StronglySorted R (stable_sort leb l).
Proof.
  induction l as [|x l IH]; intros H; simpl; [constructor|].
  apply Forall_cons in H. destruct H as [Px Pl].
  apply insert_sorted_sorted; [exact Px| |apply IH; exact Pl].
  rewrite stable_sort_perm. exact Pl.
Qed.
End SortedFacts.

Lemma StronglySorted_take {A} (R : A -> A -> Prop) (l : list A) (n : nat) :
  StronglySorted R l -> StronglySorted R (take n l).
Proof.
  intros H. revert n. induction H as [|x l Hl IH Hx]; intros [|n]; simpl; try constructor.
  - apply IH.
  - apply Forall_take, Hx.
Qed.

Lemma effortLeb_finite a b :
  finiteTime a -> finiteTime b -> effortLeb a b = Qleb (timeOf a) (timeOf b).
Proof.
  intros [x Hx] [y Hy]. unfold effortLeb, timeOf. rewrite Hx, Hy. simpl.
  unfold Qltb, Qleb. rewrite negb_involutive.
  destruct (Qle_bool x y) eqn:E.
  - apply Qle_bool_iff in E. apply Qle_bool_iff. lra.
  - apply not_true_iff_false. intros H. apply Qle_bool_iff in H.
    apply not_true_iff_false in E. apply E. apply Qle_bool_iff. lra.
Qed.

(** C9.  For a non-negative count and finite segment times: before
    truncation the merge holds exactly one record per activity identity
    of the two lists; a record of an activity that the provider-native
    list knows comes from that list, any other record from the computed
    list; the records are in ascending order of elapsed segment time; the
    output is the prefix of the requested length, so it has at most that
    many records and inherits the three properties.  [mergeEfforts] is a
    function of its three arguments: equal inputs give equal outputs. *)
Theorem merge_prefers_provider_and_sorts
    (stravaEfforts computedEfforts : list BestEffortResult) (limit : Z) :
  0 <= limit ->
  Forall finiteTime (stravaEfforts ++ computedEfforts) ->
  let all := mergeAll stravaEfforts computedEfforts in
  let out := mergeEfforts stravaEfforts computedEfforts limit in
  (NoDup (activityId <$> all) /\
   forall i, i ∈ activityId <$> all <->
             i ∈ activityId <$> stravaEfforts \/ i ∈ activityId <$> computedEfforts) /\
  (forall e, e ∈ all ->
     (activityId e ∈ activityId <$> stravaEfforts -> e ∈ stravaEfforts) /\
     (activityId e ∉ activityId <$> stravaEfforts -> e ∈ computedEfforts)) /\
  StronglySorted byTimeAscending all /\
  out = take (Z.to_nat limit) all /\
  (Z.of_nat (length out) <= limit) /\
  NoDup (activityId <$> out) /\
  StronglySorted byTimeAscending out /\
  (forall e, e ∈ out ->
     (activityId e ∈ activityId <$> stravaEfforts -> e ∈ stravaEfforts) /\
     (activityId e ∉ activityId <$> stravaEfforts -> e ∈ computedEfforts)).
Proof.
  intros Hlimit Hfin all out.
  destruct (strava_pass stravaEfforts [] (NoDup_nil_2) ltac:(intros k e H; inversion H))
    as (Hnd1 & Hk1 & Hkeys1 & Hent1).
  set (m1 := fold_left (fun m e => JS.map_set m (activityId e) e) stravaEfforts []) in *.
  destruct (computed_pass computedEfforts m1 Hnd1 Hk1) as (Hnd2 & Hk2 & Hkeys2 & Hent2).
  set (m2 := fold_left _ computedEfforts m1) in *.
  assert (Hids : activityId <$> JS.map_values m2 = m2.*1).
  { unfold JS.map_values. rewrite <- list_fmap_compose.
    apply list_fmap_ext. intros i [k e] H. simpl.
    apply Hk2. apply list_elem_of_lookup. exists i. exact H. }
  assert (Hall : all ≡ₚ JS.map_values m2).
  { unfold all, mergeAll. fold m1. fold m2. apply stable_sort_perm. }
  assert (Hmem : forall e, e ∈ all ->
     (activityId e ∈ activityId <$> stravaEfforts -> e ∈ stravaEfforts) /\
     (activityId e ∉ activityId <$> stravaEfforts -> e ∈ computedEfforts)).
  { intros e He. rewrite Hall in He. unfold JS.map_values in He.
    apply list_elem_of_fmap in He. destruct He as ([k e'] & -> & He). simpl.
    pose proof (Hk2 _ _ He) as Hid. simpl in Hid. rewrite Hid.
    destruct (Hent2 _ _ He) as [H1|[H1 H2]].
    - destruct (Hent1 _ _ H1) as [H|[H _]]; [|inversion H].
      split; [intros _; exact H|]. intros Hn. exfalso. apply Hn.
      rewrite <- Hid. apply list_elem_of_fmap_2, H.
    - split; [|intros _; exact H1].
      intros Hin. exfalso. apply H2. apply Hkeys1. right. exact Hin. }
  assert (Hsorted : StronglySorted byTimeAscending all).
  { unfold all, mergeAll. fold m1. fold m2.
    apply (stable_sort_sorted effortLeb byTimeAscending finiteTime).
    - intros x y Hx Hy H. rewrite effortLeb_finite in H by assumption. apply Qleb_le, H.
    - intros x y Hx Hy H. rewrite effortLeb_finite in H by assumption.
      apply Qleb_gt in H. unfold byTimeAscending. lra.
    - intros x y z. unfold byTimeAscending. lra.
    - apply Forall_forall. intros e He.
      assert (He' : e ∈ all) by (rewrite Hall; exact He).
      rewrite Forall_forall in Hfin. apply Hfin. apply elem_of_app.
      destruct (decide (activityId e ∈ activityId <$> stravaEfforts)) as [Hd|Hd].
      + left. apply (Hmem e He'), Hd.
      + right. apply (Hmem e He'), Hd. }
  assert (Hnd : NoDup (activityId <$> all)).
  { rewrite Hall, Hids. exact Hnd2. }
  assert (Hout : out = take (Z.to_nat limit) all).
  { unfold out, mergeEfforts. apply slice_prefix, Hlimit. }
  split; [split; [exact Hnd|]|].
  { intros i. rewrite Hall, Hids, Hkeys2, Hkeys1.
    split; [intros [[H|H]|H]; auto; inversion H|tauto]. }
  split; [exact Hmem|]. split; [exact Hsorted|]. split; [exact Hout|].
  split; [rewrite Hout, length_take; lia|].
  split; [rewrite Hout, fmap_take; apply (sublist_NoDup _ _ Hnd), sublist_take|].
  split; [rewrite Hout; apply StronglySorted_take, Hsorted|].
  intros e He. apply Hmem. rewrite Hout in He. eapply subseteq_take, He.
Qed.

Lemma merge_prefers_provider_and_sorts_witness :
  0 <= 2 /\
  Forall finiteTime (sampleStrava ++ sampleComputed) /\
  mergeEfforts sampleStrava sampleComputed 2
  = take 2 (mergeAll sampleStrava sampleComputed) /\
  NoDup (activityId <$> mergeEfforts sampleStrava sampleComputed 2) /\
  StronglySorted byTimeAscending (mergeEfforts sampleStrava sampleComputed 2).
Proof.
  assert (H1 : 0 <= 2) by lia.
  assert (H2 : Forall finiteTime (sampleStrava ++ sampleComputed)).
  { repeat constructor; eexists; reflexivity. }
  split; [exact H1|]. split; [exact H2|].
  destruct (merge_prefers_provider_and_sorts sampleStrava sampleComputed 2 H1 H2)
    as (_ & _ & _ & Hout & _ & Hnd & Hsorted & _).
  split; [exact Hout|]. split; [exact Hnd|exact Hsorted].
Defined.

Example mergeEfforts_sample :
  mergeEfforts sampleStrava sampleComputed 2
  = [sampleEffort 2 1400 strava; sampleEffort 3 1450 computed].
Proof. reflexivity. Qed.

(** ** The store and the sync *)

Import Sync.

(** *** upsertActivities *)

Lemma upsert_fold_in acts (tbl : gmap Z ActivityRow) a :
  a ∈ acts ->
  exists b, b ∈ acts /\ sa_id b = sa_id a /\
    fold_left DB.upsertActivity acts tbl !! sa_id a = Some (DB.rowOfActivity b).
Proof.
  induction acts as [|b acts IH] using rev_ind; intros Ha; [inversion Ha|].
  rewrite fold_left_app. simpl. unfold DB.upsertActivity at 1.
  destruct (decide (sa_id b = sa_id a)) as [E|E].
  - exists b. split; [apply elem_of_app; right; left|]. split; [exact E|].
    rewrite E. apply lookup_insert_eq.
  - apply elem_of_app in Ha. destruct Ha as [Ha|Ha].
    + destruct (IH Ha) as (c & Hc & Ec & El). exists c.
      split; [apply elem_of_app; left; exact Hc|]. split; [exact Ec|].
      rewrite lookup_insert_ne by exact E. exact El.
    + apply list_elem_of_singleton in Ha. congruence.
Qed.

Lemma upsert_fold_notin acts (tbl : gmap Z ActivityRow) k :
  k ∉ sa_id <$> acts -> fold_left DB.upsertActivity acts tbl !! k = tbl !! k.
Proof.
  revert tbl. induction acts as [|a acts IH]; intros tbl Hk; simpl; [reflexivity|].
  rewrite fmap_cons, not_elem_of_cons in Hk. destruct Hk as [Hne Hk].
  rewrite IH by exact Hk. unfold DB.upsertActivity. apply lookup_insert_ne. congruence.
Qed.

(** every activity of the batch ends up with the defaults in the columns
    that [upsertActivities] does not list, whatever was stored before *)
Lemma upsertActivities_batch_rows acts st a :
  a ∈ acts ->
  exists row, activities (DB.upsertActivities acts st) !! sa_id a = Some row /\
    row_run_type row = None /\ row_run_type_detail row = None /\ row_detail_fetched row = 0.
Proof.
  intros Ha. simpl. destruct (upsert_fold_in acts (activities st) a Ha) as (b & _ & _ & E).
  rewrite E. eexists. split; [reflexivity|]. repeat split.
Qed.

(** rows of activities outside the batch are untouched *)
Lemma upsertActivities_other_rows acts st k :
  k ∉ sa_id <$> acts ->
  activities (DB.upsertActivities acts st) !! k = activities st !! k.
Proof. intros Hk. simpl. apply upsert_fold_notin, Hk. Qed.

(** the two [UPDATE] statements leave the other columns alone *)
Lemma markActivityDetailFetched_keeps_run_type activityId st k :
  (row_run_type <$> activities (DB.markActivityDetailFetched activityId st) !! k)
  = (row_run_type <$> activities st !! k) /\
  (row_run_type_detail <$> activities (DB.markActivityDetailFetched activityId st) !! k)
  = (row_run_type_detail <$> activities st !! k).
Proof.
  simpl. destruct (decide (activityId = k)) as [->|Hne].
  - rewrite lookup_alter_eq. destruct (activities st !! k); split; reflexivity.
  - rewrite lookup_alter_ne by exact Hne. split; reflexivity.
Qed.

(** C1 fails on the code.  [storeClassified] holds activity 7 with
    [run_type] intervals, detail 6x1km and [detail_fetched] 1; after
    [upsertActivities] of a batch that contains activity 7 again, the row
    has [run_type] and [run_type_detail] [NULL] and [detail_fetched] 0. *)
Theorem upsertActivities_resets_run_type :
  (row_run_type <$> activities storeClassified !! 7) = Some (Some intervals) /\
  (row_run_type_detail <$> activities storeClassified !! 7) = Some (Some "6x1km"%string) /\
  (row_detail_fetched <$> activities storeClassified !! 7) = Some 1 /\
  let st' := DB.upsertActivities [sampleSummary 7 "2026-02-10T07:30:00Z" 5200] storeClassified in
  (row_run_type <$> activities st' !! 7) = Some None /\
  (row_run_type_detail <$> activities st' !! 7) = Some None /\
  (row_detail_fetched <$> activities st' !! 7) = Some 0.
Proof. repeat split. Qed.

(** *** The fetch window *)

(** [Math.floor(ms / 1000) - d] for a time value [ms] of a [Date] and a
    whole number [d] of seconds: no operation rounds *)
Lemma whole_seconds_minus (ms dz : Z) (d : Q) :
  0 <= ms <= 8640000000000000 -> (d == inject_Z dz)%Q -> 0 <= dz <= 2 ^ 40 ->
  JS.fsub (JS.floor (JS.fdiv (JS.Fin (inject_Z ms)) (JS.Fin 1000))) (JS.Fin d)
  = JS.Fin (inject_Z (ms / 1000 - dz)).
Proof.
  intros Hms Hd Hdz.
  change (JS.Fin 1000) with (JS.Fin (inject_Z (Zpos 1000))).
  rewrite (floor_fdiv_whole ms 1000 43);
    [|lia|lia|change (2 ^ (43 + 1)) with 17592186044416; lia
     |change (2 ^ (53 - 43)) with 1024; lia].
  unfold JS.fsub, JS.sub. rewrite rounded_Fin.
  assert (Hk : 0 <= ms / 1000 <= 8640000000000).
  { split; [apply Z.div_pos; lia|]. apply Z.div_le_upper_bound; lia. }
  rewrite (double_proper _ (inject_Z (ms / 1000 - dz))).
  - apply double_Z. change (2 ^ 40) with 1099511627776 in Hdz.
    change (2 ^ 53) with 9007199254740992. lia.
  - rewrite Hd. unfold Z.sub. rewrite inject_Z_plus, inject_Z_opp. ring.
Qed.

Lemma requested_iff (bound start : Z) :
  requested (JS.Fin (inject_Z (bound - 1))) start = true <-> bound <= start.
Proof.
  unfold requested. cbn [JS.lt]. rewrite Qltb_lt. rewrite <- Zlt_Qlt. lia.
Qed.

(** C3, as stated, fails.  With the cursor at epoch second 1770708600
    the request asks for the activities after second 1770708599: it is not
    limited to what is strictly newer than the cursor, and an activity that
    starts at the cursor second itself is requested. *)
Lemma fetchWindow_refetches_boundary :
  DB.getLatestActivityDate storeOneRun = Some "2026-02-10T07:30:00Z"%string /\
  after (fetchWindow sampleGetTime 1770900000000 30 true storeOneRun)
  = JS.Fin (inject_Z 1770708600 - 1) /\
  requested (after (fetchWindow sampleGetTime 1770900000000 30 true storeOneRun)) 1770708600
  = true /\
  ~ (forall start,
       requested (after (fetchWindow sampleGetTime 1770900000000 30 true storeOneRun)) start = true ->
       1770708600 < start).
Proof.
  split; [reflexivity|]. split; [vm_compute; reflexivity|]. split; [vm_compute; reflexivity|].
  intros H. specialize (H 1770708600 ltac:(vm_compute; reflexivity)). lia.
Qed.

(** C3, amended.  Time values are whole milliseconds within the range
    of a [Date].  In incremental mode with a cursor -- the largest
    [start_date_local] of the store, which [getTime] reads as [ms]
    milliseconds -- the lower bound of the request is the whole second of
    the cursor minus one, an exact number: the request covers exactly the
    starts at or after the cursor second, the cursor second included, so it
    is not limited to what is strictly newer.  A boundary activity, a
    stored activity whose local start is the cursor, is requested again
    exactly when the second of its [start_date], which the provider
    compares, is not before the cursor second.  The known identities are
    those of the store.  Without a cursor the lower bound is the current
    second minus 180 days, and no identity counts as known. *)
Theorem incremental_window_starts_at_cursor
    (getTime : string -> JS.num) (nowMs : Z) (days : Q) (st : Store) :
  0 <= nowMs <= 8640000000000000 ->
  (forall latestDate ms,
     DB.getLatestActivityDate st = Some latestDate ->
     latestDate <> ""%string ->
     getTime latestDate = JS.Fin (inject_Z ms) ->
     0 <= ms <= 8640000000000000 ->
     let w := fetchWindow getTime (inject_Z nowMs) days true st in
     isIncremental w = true /\
     existingIds w = dom (activities st) /\
     after w = JS.Fin (inject_Z (ms / 1000 - 1)) /\
     (forall start, requested (after w) start = true <-> ms / 1000 <= start) /\
     (forall k row utcMs,
        activities st !! k = Some row ->
        row_start_date_local row = latestDate ->
        getTime (row_start_date row) = JS.Fin (inject_Z utcMs) ->
        (requested (after w) (utcMs / 1000) = true <-> ms / 1000 <= utcMs / 1000))) /\
  (DB.getLatestActivityDate st = None ->
     let w := fetchWindow getTime (inject_Z nowMs) days true st in
     isIncremental w = false /\
     existingIds w = ∅ /\
     after w = JS.Fin (inject_Z (nowMs / 1000 - 180 * 86400))).
Proof.
  intros Hnow. split.
  - intros latestDate ms Hlatest Hne Htime Hms. unfold fetchWindow. rewrite Hlatest.
    destruct latestDate as [|c r]; [congruence|].
    cbv zeta. cbn [isIncremental existingIds after]. rewrite Htime.
    rewrite (whole_seconds_minus ms 1 1 Hms);
      [|reflexivity|change (2 ^ 40) with 1099511627776; lia].
    split; [reflexivity|]. split; [reflexivity|]. split; [reflexivity|].
    split; [intros start; apply requested_iff|].
    intros k row utcMs _ _ _. apply requested_iff.
  - intros Hnone. unfold fetchWindow. rewrite Hnone.
    cbv zeta. cbn [isIncremental existingIds after].
    split; [reflexivity|]. split; [reflexivity|].
    unfold nowSeconds.
    apply (whole_seconds_minus nowMs (180 * 86400) _ Hnow);
      [reflexivity|change (2 ^ 40) with 1099511627776; lia].
Qed.

Lemma incremental_window_starts_at_cursor_witness :
  0 <= 1770900000000 <= 8640000000000000 /\
  DB.getLatestActivityDate storeOneRun = Some "2026-02-10T07:30:00Z"%string /\
  "2026-02-10T07:30:00Z"%string <> ""%string /\
  sampleGetTime "2026-02-10T07:30:00Z" = JS.Fin (inject_Z 1770708600000) /\
  0 <= 1770708600000 <= 8640000000000000 /\
  after (fetchWindow sampleGetTime (inject_Z 1770900000000) 30 true storeOneRun)
  = JS.Fin (inject_Z 1770708599) /\
  (forall start,
     requested (after (fetchWindow sampleGetTime (inject_Z 1770900000000) 30 true storeOneRun))
       start = true
     <-> 1770708600000 / 1000 <= start) /\
  requested (after (fetchWindow sampleGetTime (inject_Z 1770900000000) 30 true storeOneRun))
    (1770708600000 / 1000) = true.
Proof.
  assert (H0 : 0 <= 1770900000000 <= 8640000000000000) by lia.
  assert (H1 : DB.getLatestActivityDate storeOneRun = Some "2026-02-10T07:30:00Z"%string)
    by reflexivity.
  assert (H2 : "2026-02-10T07:30:00Z"%string <> ""%string) by discriminate.
  assert (H3 : sampleGetTime "2026-02-10T07:30:00Z" = JS.Fin (inject_Z 1770708600000))
    by reflexivity.
  assert (H4 : 0 <= 1770708600000 <= 8640000000000000) by lia.
  split; [exact H0|]. split; [exact H1|]. split; [exact H2|]. split; [exact H3|].
  split; [exact H4|].
  destruct (incremental_window_starts_at_cursor sampleGetTime 1770900000000 30 storeOneRun H0)
    as [Hcursor _].
  destruct (Hcursor _ _ H1 H2 H3 H4) as (_ & _ & Hafter & Hreq & Hboundary).
  split; [exact Hafter|]. split; [exact Hreq|].
  apply (Hboundary 7 (sampleRow 7 "2026-02-10T07:30:00Z" 5200) 1770708600000);
    [reflexivity|reflexivity|reflexivity|lia].
Defined.

(** East of UTC the local start of the boundary activity, read as UTC,
    is later than its start: the request neither covers the boundary
    activity nor an activity that starts an hour after it. *)
Example fetchWindow_east_of_utc :
  DB.getLatestActivityDate storeEastOfUtc = Some "2026-02-10T07:30:00Z"%string /\
  (row_start_date <$> activities storeEastOfUtc !! 7) = Some "2026-02-10T05:30:00Z"%string /\
  sampleGetTimeOf "2026-02-10T05:30:00Z" = JS.Fin (inject_Z (1770701400 * 1000)) /\
  after (fetchWindow sampleGetTimeOf (inject_Z 1770900000000) 30 true storeEastOfUtc)
  = JS.Fin (inject_Z 1770708599) /\
  requested (after (fetchWindow sampleGetTimeOf (inject_Z 1770900000000) 30 true storeEastOfUtc))
    1770701400 = false /\
  requested (after (fetchWindow sampleGetTimeOf (inject_Z 1770900000000) 30 true storeEastOfUtc))
    (1770701400 + 3600) = false.
Proof. repeat split; vm_compute; reflexivity. Qed.

(** *** Selecting the activities without detail *)

Lemma activityRows_perm st : DB.activityRows st ≡ₚ (map_to_list (activities st)).*2.
Proof. unfold DB.activityRows. rewrite stable_sort_perm. reflexivity. Qed.

Lemma elem_of_activityRows st r :
  r ∈ DB.activityRows st <-> exists k, activities st !! k = Some r.
Proof.
  rewrite activityRows_perm, list_elem_of_fmap. split.
  - intros ([k r'] & -> & H). exists k. apply elem_of_map_to_list, H.
  - intros (k & H). exists (k, r). split; [reflexivity|]. apply elem_of_map_to_list, H.
Qed.

Lemma activityRows_ids st : wellKeyed st -> row_id <$> DB.activityRows st ≡ₚ (map_to_list (activities st)).*1.
Proof.
  intros Hk. rewrite activityRows_perm. rewrite <- list_fmap_compose.
  erewrite list_fmap_ext; [reflexivity|].
  intros i [k r] H. simpl. apply Hk. apply elem_of_map_to_list.
  apply list_elem_of_lookup. exists i. exact H.
Qed.

Lemma filter_sublist {A} (f : A -> bool) (l : list A) : List.filter f l `sublist_of` l.
Proof.
  induction l as [|x l IH]; simpl; [constructor|].
  destruct (f x); [apply sublist_skip|apply sublist_cons]; exact IH.
Qed.

Lemma sqlLimit_sublist {A} limit (l : list A) : DB.sqlLimit limit l `sublist_of` l.
Proof. unfold DB.sqlLimit. destruct (limit <? 0); [reflexivity|apply sublist_take]. Qed.

Lemma selection_spec limit st :
  wellKeyed st ->
  NoDup (row_id <$> DB.getActivitiesWithoutDetail limit st) /\
  forall r, r ∈ DB.getActivitiesWithoutDetail limit st ->
    activities st !! row_id r = Some r /\ DB.missingDetail r = true.
Proof.
  intros Hk. unfold DB.getActivitiesWithoutDetail, DB.orderByDateDesc. split.
  - eapply sublist_NoDup; [|apply fmap_sublist, sqlLimit_sublist].
    rewrite stable_sort_perm.
    eapply sublist_NoDup; [|apply fmap_sublist, filter_sublist].
    rewrite (activityRows_ids st Hk). apply NoDup_fst_map_to_list.
  - intros r Hr. apply (sublist_subseteq _ _ (sqlLimit_sublist _ _)) in Hr.
    apply elem_of_stable_sort in Hr.
    apply list_elem_of_In, filter_In in Hr. destruct Hr as [Hr Hm].
    split; [|exact Hm].
    apply list_elem_of_In, elem_of_activityRows in Hr. destruct Hr as [k Hr].
    rewrite (Hk _ _ Hr). exact Hr.
Qed.

(** *** The loop *)

Lemma inheritedName_spec name : inheritedName name = true <-> name ∈ objectPrototypeKeys.
Proof.
  unfold inheritedName. rewrite existsb_exists. split.
  - intros (k & Hk & E). apply String.eqb_eq in E. subst k. apply list_elem_of_In, Hk.
  - intros H. exists name. split; [apply list_elem_of_In, H|apply String.eqb_refl].
Qed.

Lemma bindFails_false bestEfforts :
  Forall (fun effort => sbe_name effort ∉ objectPrototypeKeys) bestEfforts ->
  bindFails bestEfforts = false.
Proof.
  intros H. unfold bindFails. apply not_true_iff_false. rewrite existsb_exists.
  intros (e & He & Hi). apply inheritedName_spec in Hi.
  rewrite Forall_forall in H. apply (H e); [apply list_elem_of_In, He|exact Hi].
Qed.

Section Backfill.
Variable today : string.
Variable fetchActivityDetail : Z -> DetailOutcome.

Local Abbreviation answered := (persistAnswered today fetchActivityDetail).

Local Abbreviation allPersisted := (allPersisted fetchActivityDetail).

Lemma persisted_step a :
  allPersisted [a] ->
  exists be laps,
    fetchActivityDetail a = DetailOk be laps /\
    persistDetail today a be laps = (fun st => Some (writeDetail today a be laps st)) /\
    forall st, answered st a = writeDetail today a be laps st.
Proof.
  intros H. destruct (H a ltac:(left)) as (be & laps & Ea & Hnames).
  exists be, laps. split; [exact Ea|].
  unfold persistAnswered, persistDetail. rewrite Ea, (bindFails_false _ Hnames).
  split; reflexivity.
Qed.

Lemma allPersisted_cons a done :
  allPersisted (a :: done) -> allPersisted [a] /\ allPersisted done.
Proof.
  intros H. split; intros b Hb; apply H.
  - apply list_elem_of_singleton in Hb. subst b. left.
  - right. exact Hb.
Qed.

Lemma detailLoop_rate_limited done x rest : forall s,
  allPersisted done ->
  fetchActivityDetail x = RateLimited ->
  detailLoop today fetchActivityDetail (done ++ x :: rest) s
  = {| store := fold_left answered done (store s);
       count := (count s + length done)%nat;
       requests := requests s ++ done ++ [x] |}.
Proof.
  induction done as [|a done IH]; intros s Hdone Hx; cbn [app detailLoop fold_left length].
  - rewrite Hx. f_equal. lia.
  - apply allPersisted_cons in Hdone. destruct Hdone as [Ha Hdone].
    destruct (persisted_step a Ha) as (be & laps & Ea & Ep & Ew).
    rewrite Ea, Ep. rewrite IH by assumption.
    cbn [store count requests]. rewrite Ew.
    f_equal; [lia|]. rewrite <- app_assoc. reflexivity.
Qed.

Lemma writeDetail_activities a be laps st :
  activities (writeDetail today a be laps st) = alter DB.withDetailFetched a (activities st).
Proof.
  unfold writeDetail. destruct (0 <? length be)%nat; destruct (0 <? length laps)%nat; reflexivity.
Qed.

Lemma writeDetail_laps a be laps st :
  activity_laps (writeDetail today a be laps st)
  = fold_left (DB.upsertLap a) (map (lapRecordOf a) laps) (activity_laps st).
Proof.
  unfold writeDetail. destruct laps as [|l laps].
  - destruct (0 <? length be)%nat; reflexivity.
  - destruct (0 <? length be)%nat; reflexivity.
Qed.

Lemma writeDetail_efforts a be laps st :
  strava_best_efforts (writeDetail today a be laps st)
  = fold_left DB.replaceStravaBestEffort (convertStravaBestEfforts today a be)
      (strava_best_efforts st).
Proof.
  unfold writeDetail. destruct be as [|b be].
  - destruct (0 <? length laps)%nat; reflexivity.
  - destruct (0 <? length laps)%nat; reflexivity.
Qed.

(** one request of the loop: the store is as it was, or the detail has
    been written *)
Lemma answered_cases st a :
  answered st a = st \/
  exists be laps, fetchActivityDetail a = DetailOk be laps /\
    bindFails be = false /\ answered st a = writeDetail today a be laps st.
Proof.
  unfold persistAnswered, persistDetail.
  destruct (fetchActivityDetail a) as [be laps| |]; [|left; reflexivity|left; reflexivity].
  destruct (bindFails be) eqn:E; [left; reflexivity|].
  right. exists be, laps. auto.
Qed.

Lemma answered_activities done : forall st k,
  allPersisted done ->
  activities (fold_left answered done st) !! k
  = if decide (k ∈ done) then DB.withDetailFetched <$> activities st !! k
    else activities st !! k.
Proof.
  induction done as [|a done IH]; intros st k Hdone; cbn [fold_left].
  - destruct (decide (k ∈ [])) as [H|H]; [inversion H|reflexivity].
  - apply allPersisted_cons in Hdone. destruct Hdone as [Ha Hdone].
    destruct (persisted_step a Ha) as (be & laps & Ea & Ep & Ew).
    rewrite IH by exact Hdone.
    rewrite Ew, writeDetail_activities.
    destruct (decide (a = k)) as [->|Hne].
    + rewrite lookup_alter_eq.
      destruct (decide (k ∈ k :: done)) as [_|H]; [|exfalso; apply H; left].
      destruct (decide (k ∈ done)); [|reflexivity].
      destruct (activities st !! k); reflexivity.
    + rewrite lookup_alter_ne by exact Hne.
      destruct (decide (k ∈ done)) as [Hin|Hin];
        destruct (decide (k ∈ a :: done)) as [Hin'|Hin']; try reflexivity.
      * exfalso. apply Hin'. right. exact Hin.
      * exfalso. apply elem_of_cons in Hin'. destruct Hin' as [H|H]; [congruence|exact (Hin H)].
Qed.

Lemma upsertLap_fold_other a recs : forall tbl a' i,
  a' <> a -> fold_left (DB.upsertLap a) recs tbl !! (a', i) = tbl !! (a', i).
Proof.
  induction recs as [|r recs IH]; intros tbl a' i Hne; simpl; [reflexivity|].
  rewrite IH by exact Hne. unfold DB.upsertLap. apply lookup_insert_ne. congruence.
Qed.

Lemma upsertLap_fold_in a recs : forall tbl r,
  NoDup (lap_index <$> recs) -> r ∈ recs ->
  fold_left (DB.upsertLap a) recs tbl !! (a, lap_index r) = Some (DB.withActivityId a r).
Proof.
  induction recs as [|r0 recs IH] using rev_ind; intros tbl r Hnd Hr; [inversion Hr|].
  rewrite fold_left_app. simpl. unfold DB.upsertLap at 1.
  rewrite fmap_app in Hnd. apply NoDup_app in Hnd. destruct Hnd as (Hnd & Hdisj & _).
  apply elem_of_app in Hr. destruct Hr as [Hr|Hr].
  - rewrite lookup_insert_ne; [apply IH; assumption|].
    intros [= E]. apply (Hdisj (lap_index r)).
    + apply list_elem_of_fmap_2, Hr.
    + rewrite <- E. left.
  - apply list_elem_of_singleton in Hr. subst r0. apply lookup_insert_eq.
Qed.

Lemma answered_laps_other done : forall st a i,
  a ∉ done ->
  activity_laps (fold_left answered done st) !! (a, i) = activity_laps st !! (a, i).
Proof.
  induction done as [|b done IH]; intros st a i Ha; simpl; [reflexivity|].
  rewrite not_elem_of_cons in Ha. destruct Ha as [Hne Ha].
  rewrite IH by exact Ha.
  destruct (answered_cases st b) as [->|(be & laps & _ & _ & ->)]; [reflexivity|].
  rewrite writeDetail_laps. apply upsertLap_fold_other. exact Hne.
Qed.

Lemma answered_laps done : forall st a lap,
  NoDup done -> allPersisted done -> a ∈ done ->
  NoDup (sl_lap_index <$> lapsOf fetchActivityDetail a) ->
  lap ∈ lapsOf fetchActivityDetail a ->
  activity_laps (fold_left answered done st) !! (a, sl_lap_index lap)
  = Some (lapRecordOf a lap).
Proof.
  induction done as [|b done IH]; intros st a lap Hnd Hdone Ha Hidx Hlap; [inversion Ha|].
  apply NoDup_cons in Hnd. destruct Hnd as [Hb Hnd].
  apply allPersisted_cons in Hdone. destruct Hdone as [Hpb Hdone].
  cbn [fold_left].
  apply elem_of_cons in Ha. destruct Ha as [->|Ha].
  - rewrite answered_laps_other by exact Hb.
    destruct (persisted_step b Hpb) as (be & laps & Ea & Ep & Ew).
    unfold lapsOf in Hidx, Hlap. rewrite Ea in Hidx, Hlap.
    rewrite Ew, writeDetail_laps.
    change (sl_lap_index lap) with (lap_index (lapRecordOf b lap)).
    rewrite upsertLap_fold_in.
    + reflexivity.
    + rewrite <- list_fmap_compose. exact Hidx.
    + apply list_elem_of_fmap_2, Hlap.
  - apply IH; assumption.
Qed.

Lemma answered_efforts done : forall st,
  allPersisted done ->
  strava_best_efforts (fold_left answered done st)
  = fold_left DB.replaceStravaBestEffort
      (concat (map (recordsOf today fetchActivityDetail) done)) (strava_best_efforts st).
Proof.
  induction done as [|a done IH]; intros st Hdone; cbn [fold_left map concat]; [reflexivity|].
  apply allPersisted_cons in Hdone. destruct Hdone as [Ha Hdone].
  destruct (persisted_step a Ha) as (be & laps & Ea & Ep & Ew).
  rewrite IH by exact Hdone. rewrite fold_left_app. f_equal.
  rewrite Ew. unfold recordsOf. rewrite Ea.
  apply writeDetail_efforts.
Qed.
End Backfill.

Lemma replace_fold_mem records : forall tbl r,
  conflictFree records -> r ∈ records ->
  r ∈ fold_left DB.replaceStravaBestEffort records tbl.
Proof.
  induction records as [|x records IH] using rev_ind; intros tbl r [H1 H2] Hr; [inversion Hr|].
  rewrite fold_left_app. simpl. unfold DB.replaceStravaBestEffort at 1.
  rewrite fmap_app in H1. rewrite fmap_app in H2.
  apply NoDup_app in H1. apply NoDup_app in H2.
  destruct H1 as (H1 & D1 & _). destruct H2 as (H2 & D2 & _).
  apply elem_of_app in Hr. destruct Hr as [Hr|Hr].
  - apply elem_of_app. left. apply list_elem_of_In, filter_In. split.
    + apply list_elem_of_In, IH; [split; assumption|exact Hr].
    + unfold DB.conflicts. apply negb_true_iff, orb_false_iff. split.
      * apply Z.eqb_neq. intros E. apply (D1 (rec_strava_effort_id r)).
        -- apply list_elem_of_fmap_2, Hr.
        -- rewrite E. left.
      * apply not_true_iff_false. intros E. apply andb_true_iff in E. destruct E as [Ea En].
        apply Z.eqb_eq in Ea. apply String.eqb_eq in En.
        apply (D2 (rec_activity_id r, rec_distance_name r)).
        -- apply (list_elem_of_fmap_2 (fun r => (rec_activity_id r, rec_distance_name r))), Hr.
        -- rewrite Ea, En. left.
  - apply elem_of_app. right. exact Hr.
Qed.

(** *** Order of strings *)

Lemma ascii_compare_trans (a b c : ascii) (o : comparison) :
  Ascii.compare a b = o -> Ascii.compare b c = o -> Ascii.compare a c = o.
Proof.
  unfold Ascii.compare. destruct o.
  - rewrite !N.compare_eq_iff. congruence.
  - rewrite !N.compare_lt_iff. lia.
  - rewrite !N.compare_gt_iff. lia.
Qed.

Lemma ascii_compare_eq (a b : ascii) : Ascii.compare a b = Eq -> a = b.
Proof.
  unfold Ascii.compare. rewrite N.compare_eq_iff. intros H.
  rewrite <- (ascii_N_embedding a), <- (ascii_N_embedding b), H. reflexivity.
Qed.

Lemma string_compare_trans (o : comparison) : forall s1 s2 s3,
  String.compare s1 s2 = o -> String.compare s2 s3 = o -> String.compare s1 s3 = o.
Proof.
  induction s1 as [|a s1 IH]; intros [|b s2] [|c s3]; simpl; try congruence.
  destruct (Ascii.compare a b) eqn:Eab; destruct (Ascii.compare b c) eqn:Ebc;
    intros H1 H2; subst; try congruence.
  - apply ascii_compare_eq in Eab, Ebc. subst.
    assert (Ascii.compare c c = Eq) as -> by (unfold Ascii.compare; apply N.compare_refl).
    eapply IH; eauto.
  - apply ascii_compare_eq in Eab. subst. rewrite Ebc. congruence.
  - apply ascii_compare_eq in Eab. subst. rewrite Ebc. congruence.
  - apply ascii_compare_eq in Ebc. subst. rewrite Eab. congruence.
  - rewrite (ascii_compare_trans a b c Lt Eab Ebc). reflexivity.
  - apply ascii_compare_eq in Ebc. subst. rewrite Eab. congruence.
  - rewrite (ascii_compare_trans a b c Gt Eab Ebc). reflexivity.
Qed.

Lemma string_leb_trans (s1 s2 s3 : string) :
  String.leb s1 s2 = true -> String.leb s2 s3 = true -> String.leb s1 s3 = true.
Proof.
  unfold String.leb.
  destruct (String.compare s1 s2) eqn:E12; try discriminate;
    destruct (String.compare s2 s3) eqn:E23; try discriminate; intros _ _.
  - rewrite (string_compare_trans Eq _ _ _ E12 E23). reflexivity.
  - apply String.compare_eq_iff in E12. subst. rewrite E23. reflexivity.
  - apply String.compare_eq_iff in E23. subst. rewrite E12. reflexivity.
  - rewrite (string_compare_trans Lt _ _ _ E12 E23). reflexivity.
Qed.

(** *** Stable sorting commutes with filtering and with key-preserving maps *)

Section SortCommute.
Context {A : Type} (leb : A -> A -> bool).
Hypothesis leb_total : forall x y, leb x y = true \/ leb y x = true.
Hypothesis leb_trans : forall x y z, leb x y = true -> leb y z = true -> leb x z = true.

Local Abbreviation le := (fun x y => leb x y = true).

Lemma stable_sort_leb_sorted l : StronglySorted le (stable_sort leb l).
Proof.
  apply (stable_sort_sorted leb le (fun _ => True)).
  - intros x y _ _ H. exact H.
  - intros x y _ _ H. destruct (leb_total x y) as [H'|H']; [congruence|exact H'].
  - intros x y z. apply leb_trans.
  - apply Forall_forall. intros; exact I.
Qed.

Lemma insert_sorted_head x l :
  Forall (le x) l -> insert_sorted leb x l = x :: l.
Proof.
  intros H. destruct H as [|y l Hy Hl]; simpl; [reflexivity|].
  rewrite Hy. reflexivity.
Qed.

Lemma filter_insert_sorted (P : A -> bool) x l :
  StronglySorted le l ->
  List.filter P (insert_sorted leb x l)
  = if P x then insert_sorted leb x (List.filter P l) else List.filter P l.
Proof.
  intros Hs. induction Hs as [|y r Hr IH Hy]; simpl.
  - destruct (P x); reflexivity.
  - destruct (leb x y) eqn:E.
    + simpl. destruct (P x) eqn:Px; [|reflexivity].
      symmetry. apply insert_sorted_head.
      assert (Hall : Forall (le x) (y :: r)).
      { constructor; [exact E|]. eapply Forall_impl; [exact Hy|].
        intros z Hz. eapply leb_trans; [exact E|exact Hz]. }
      apply Forall_forall. intros z Hz.
      rewrite Forall_forall in Hall. apply Hall.
      apply list_elem_of_In. apply list_elem_of_In in Hz.
      change (In z (List.filter P (y :: r))) in Hz. apply filter_In in Hz. tauto.
    + simpl. rewrite IH. destruct (P y) eqn:Py; destruct (P x) eqn:Px; simpl;
        rewrite ?E; reflexivity.
Qed.

Lemma stable_sort_filter (P : A -> bool) l :
  stable_sort leb (List.filter P l) = List.filter P (stable_sort leb l).
Proof.
  induction l as [|x l IH]; simpl; [reflexivity|].
  rewrite filter_insert_sorted by apply stable_sort_leb_sorted.
  destruct (P x); simpl; rewrite IH; reflexivity.
Qed.
End SortCommute.

Lemma stable_sort_map {A B} (lebA : A -> A -> bool) (lebB : B -> B -> bool) (f : A -> B) l :
  (forall x y, lebB (f x) (f y) = lebA x y) ->
  stable_sort lebB (map f l) = map f (stable_sort lebA l).
Proof.
  intros H. induction l as [|x l IH]; simpl; [reflexivity|].
  rewrite IH. generalize (stable_sort lebA l). intros s.
  induction s as [|y s IHs]; simpl; [reflexivity|].
  rewrite H. destruct (lebA x y); simpl; [reflexivity|]. rewrite IHs. reflexivity.
Qed.

(** *** The selection after a partial backfill *)

Lemma dateDesc_total a b : dateDesc a b = true \/ dateDesc b a = true.
Proof. unfold dateDesc. destruct (String.leb_total (row_start_date_local a) (row_start_date_local b)); auto. Qed.

Lemma dateDesc_trans a b c : dateDesc a b = true -> dateDesc b c = true -> dateDesc a c = true.
Proof. unfold dateDesc. intros H1 H2. eapply string_leb_trans; eassumption. Qed.

Lemma activityRows_fmap (st st' : Store) (g : ActivityRow -> ActivityRow) :
  activities st' = g <$> activities st ->
  DB.activityRows st' = g <$> DB.activityRows st.
Proof.
  intros E. unfold DB.activityRows. rewrite E, map_to_list_fmap.
  set (h := prod_map (@id Z) g).
  change (fmap (M := list) h) with (map h).
  rewrite (stable_sort_map (fun a b : Z * ActivityRow => fst a <=? fst b)
             (fun a b : Z * ActivityRow => fst a <=? fst b) h).
  - change (fmap (M := list) g) with (map g). rewrite !map_map. reflexivity.
  - intros [k1 r1] [k2 r2]. reflexivity.
Qed.

Lemma filter_missingDetail_after done rows :
  List.filter DB.missingDetail (rowAfter done <$> rows)
  = List.filter (fun r => negb (bool_decide (row_id r ∈ done)))
      (List.filter DB.missingDetail rows).
Proof.
  induction rows as [|r rows IH]; [reflexivity|].
  rewrite fmap_cons. simpl. rewrite IH.
  destruct (decide (row_id r ∈ done)) as [Hin|Hin].
  - assert (rowAfter done r = DB.withDetailFetched r) as ->
      by (unfold rowAfter; rewrite decide_True by exact Hin; reflexivity).
    assert (DB.missingDetail (DB.withDetailFetched r) = false) as ->.
    { unfold DB.missingDetail. simpl. rewrite andb_false_r. reflexivity. }
    destruct (DB.missingDetail r); [|reflexivity].
    simpl. rewrite bool_decide_true by exact Hin. reflexivity.
  - assert (rowAfter done r = r) as ->
      by (unfold rowAfter; rewrite decide_False by exact Hin; reflexivity).
    destruct (DB.missingDetail r); [|reflexivity].
    simpl. rewrite bool_decide_false by exact Hin. reflexivity.
Qed.

Lemma selection_after done limit st st' :
  activities st' = rowAfter done <$> activities st ->
  DB.getActivitiesWithoutDetail limit st'
  = DB.sqlLimit limit
      (List.filter (fun r => negb (bool_decide (row_id r ∈ done)))
         (DB.orderByDateDesc (List.filter DB.missingDetail (DB.activityRows st)))).
Proof.
  intros E. unfold DB.getActivitiesWithoutDetail, DB.orderByDateDesc.
  rewrite (activityRows_fmap st st' _ E), filter_missingDetail_after.
  fold dateDesc. rewrite (stable_sort_filter dateDesc dateDesc_total dateDesc_trans).
  reflexivity.
Qed.

Lemma filter_ids_prefix (done rest : list Z) (rows : list ActivityRow) :
  NoDup (row_id <$> rows) ->
  row_id <$> rows = done ++ rest ->
  row_id <$> List.filter (fun r => negb (bool_decide (row_id r ∈ done))) rows = rest.
Proof.
  revert done rest. induction rows as [|r rows IH]; intros done rest Hnd E.
  - simpl in E. symmetry in E. apply app_eq_nil in E. destruct E as [-> ->]. reflexivity.
  - rewrite fmap_cons in Hnd, E. apply NoDup_cons in Hnd. destruct Hnd as [Hr Hnd].
    cbn [List.filter].
    destruct done as [|d done].
    + simpl in E. subst rest.
      destruct (bool_decide (row_id r ∈ [])) eqn:Eb;
        [apply bool_decide_eq_true in Eb; inversion Eb|].
      cbn [negb]. rewrite fmap_cons. f_equal.
      apply (IH [] (row_id <$> rows) Hnd eq_refl).
    + simpl in E. injection E as Hd E.
      destruct (bool_decide (row_id r ∈ d :: done)) eqn:Eb;
        [|apply bool_decide_eq_false in Eb; exfalso; apply Eb; rewrite Hd; left].
      cbn [negb].
      assert (Hnotin : d ∉ row_id <$> rows) by (rewrite <- Hd; exact Hr).
      etransitivity; [|exact (IH done rest Hnd E)].
      f_equal. apply filter_ext_in. intros a Ha. f_equal.
      apply bool_decide_ext. split.
      * intros H. apply elem_of_cons in H. destruct H as [H|H]; [|exact H].
        exfalso. apply Hnotin. rewrite <- H. apply list_elem_of_fmap_2, list_elem_of_In, Ha.
      * intros H. right. exact H.
Qed.

Lemma sqlLimit_split {A} limit (l : list A) : exists tail, l = DB.sqlLimit limit l ++ tail.
Proof.
  unfold DB.sqlLimit. destruct (limit <? 0).
  - exists []. rewrite app_nil_r. reflexivity.
  - exists (drop (Z.to_nat limit) l). rewrite take_drop. reflexivity.
Qed.

Lemma fmap_sqlLimit {A B} (f : A -> B) limit (l : list A) :
  f <$> DB.sqlLimit limit l = DB.sqlLimit limit (f <$> l).
Proof. unfold DB.sqlLimit. destruct (limit <? 0); [reflexivity|apply fmap_take]. Qed.

Lemma next_selection done remaining limit st st' :
  wellKeyed st ->
  row_id <$> DB.getActivitiesWithoutDetail limit st = done ++ remaining ->
  activities st' = rowAfter done <$> activities st ->
  exists tail, forall limit',
    row_id <$> DB.getActivitiesWithoutDetail limit' st' = DB.sqlLimit limit' (remaining ++ tail).
Proof.
  intros Hk Hsel E.
  set (eligible := DB.orderByDateDesc (List.filter DB.missingDetail (DB.activityRows st))) in *.
  assert (Hnd : NoDup (row_id <$> eligible)).
  { unfold eligible, DB.orderByDateDesc. rewrite stable_sort_perm.
    eapply sublist_NoDup; [|apply fmap_sublist, filter_sublist].
    rewrite (activityRows_ids st Hk). apply NoDup_fst_map_to_list. }
  unfold DB.getActivitiesWithoutDetail in Hsel. fold eligible in Hsel.
  destruct (sqlLimit_split limit eligible) as [tl Htl].
  exists (row_id <$> tl). intros limit'.
  rewrite (selection_after done limit' st st' E). fold eligible.
  rewrite fmap_sqlLimit. f_equal.
  apply filter_ids_prefix; [exact Hnd|].
  rewrite Htl at 1. rewrite fmap_app, Hsel, <- app_assoc. reflexivity.
Qed.

Lemma activities_after (today : string) (fetchActivityDetail : Z -> DetailOutcome)
    (done : list Z) (st : Store) :
  wellKeyed st -> allPersisted fetchActivityDetail done ->
  activities (fold_left (persistAnswered today fetchActivityDetail) done st)
  = rowAfter done <$> activities st.
Proof.
  intros Hk Hdone. apply map_eq. intros k.
  rewrite answered_activities by exact Hdone. rewrite lookup_fmap.
  destruct (activities st !! k) as [r|] eqn:E; simpl.
  - unfold rowAfter. rewrite (Hk k r E). destruct (decide (k ∈ done)); reflexivity.
  - destruct (decide (k ∈ done)); reflexivity.
Qed.

Lemma wellKeyed_upsertActivities acts st : wellKeyed st -> wellKeyed (DB.upsertActivities acts st).
Proof.
  unfold wellKeyed. simpl. generalize (activities st). clear st.
  induction acts as [|a acts IH]; intros tbl Hk; simpl; [exact Hk|].
  apply IH. intros k r H. unfold DB.upsertActivity in H.
  apply lookup_insert_Some in H. destruct H as [[<- <-]|[_ H]]; [reflexivity|apply Hk, H].
Qed.

Lemma wellKeyed_empty : wellKeyed emptyStore.
Proof. intros k r H. simpl in H. rewrite lookup_empty in H. discriminate. Qed.

(** *** The records of the provider best efforts *)

Lemma lookupName_injective (n1 n2 d : string) :
  lookupName STRAVA_DISTANCE_NAME_MAP n1 = Some d ->
  lookupName STRAVA_DISTANCE_NAME_MAP n2 = Some d ->
  n1 = n2.
Proof.
  unfold STRAVA_DISTANCE_NAME_MAP. cbn [lookupName].
  repeat match goal with
         | |- context [String.eqb ?a n1] => destruct (String.eqb_spec a n1)
         end;
  try (intros; discriminate);
  intros [= <-];
  repeat match goal with
         | |- context [String.eqb ?a n2] => destruct (String.eqb_spec a n2)
         end;
  intros; try discriminate; congruence.
Qed.

Section Convert.
Variable today : string.
Variable activityId : Z.

Local Abbreviation convert := (convertStravaBestEffort today activityId).

Lemma convert_fields e r :
  convert e = Some r ->
  rec_strava_effort_id r = sbe_id e /\ rec_activity_id r = activityId /\
  lookupName STRAVA_DISTANCE_NAME_MAP (sbe_name e) = Some (rec_distance_name r).
Proof.
  unfold convertStravaBestEffort.
  destruct (lookupName STRAVA_DISTANCE_NAME_MAP (sbe_name e)) as [d|]; [|discriminate].
  intros [= <-]. auto.
Qed.

Lemma elem_of_converted efforts r :
  r ∈ convertStravaBestEfforts today activityId efforts ->
  exists e, e ∈ efforts /\ convert e = Some r.
Proof.
  unfold convertStravaBestEfforts. rewrite list_elem_of_omap. intros (e & He & E). eauto.
Qed.

Lemma converted_ids efforts :
  rec_strava_effort_id <$> convertStravaBestEfforts today activityId efforts
  `sublist_of` sbe_id <$> efforts.
Proof.
  unfold convertStravaBestEfforts. induction efforts as [|e efforts IH]; [constructor|].
  change (omap convert (e :: efforts))
    with (match convert e with
          | Some r => r :: omap convert efforts
          | None => omap convert efforts
          end).
  rewrite fmap_cons. destruct (convert e) as [r|] eqn:E.
  - rewrite fmap_cons. destruct (convert_fields _ _ E) as (-> & _ & _).
    apply sublist_skip, IH.
  - apply sublist_cons, IH.
Qed.

Lemma converted_conflictFree efforts :
  NoDup (sbe_id <$> efforts) -> NoDup (sbe_name <$> efforts) ->
  conflictFree (convertStravaBestEfforts today activityId efforts).
Proof.
  unfold conflictFree, convertStravaBestEfforts.
  induction efforts as [|e efforts IH]; intros Hid Hname.
  - split; constructor.
  - rewrite fmap_cons in Hid. rewrite fmap_cons in Hname.
    apply NoDup_cons in Hid, Hname. destruct Hid as [Hid1 Hid], Hname as [Hn1 Hname].
    destruct (IH Hid Hname) as [I1 I2].
    change (omap convert (e :: efforts))
      with (match convert e with
            | Some r => r :: omap convert efforts
            | None => omap convert efforts
            end).
    destruct (convert e) as [r|] eqn:E; [|split; assumption].
    destruct (convert_fields _ _ E) as (F1 & F2 & F3).
    rewrite !fmap_cons. split; apply NoDup_cons; (split; [|assumption]).
    + intros Hin. apply list_elem_of_fmap in Hin. destruct Hin as (r' & Hr & Hin).
      apply elem_of_converted in Hin. destruct Hin as (e' & He' & E').
      destruct (convert_fields _ _ E') as (F1' & _ & _).
      apply Hid1. apply list_elem_of_fmap. exists e'. split; [congruence|exact He'].
    + intros Hin. apply list_elem_of_fmap in Hin. destruct Hin as (r' & Hr & Hin).
      apply elem_of_converted in Hin. destruct Hin as (e' & He' & E').
      destruct (convert_fields _ _ E') as (_ & _ & F3').
      injection Hr as _ Hd. rewrite <- Hd in F3'.
      apply Hn1. apply list_elem_of_fmap. exists e'. split; [|exact He'].
      apply (lookupName_injective _ _ _ F3 F3').
Qed.
End Convert.

Lemma elem_of_concat_map {A B} (f : A -> list B) (x : B) (l : list A) :
  x ∈ concat (map f l) <-> exists a, a ∈ l /\ x ∈ f a.
Proof.
  rewrite list_elem_of_In, in_concat. split.
  - intros (y & Hy & Hx). apply in_map_iff in Hy. destruct Hy as (a & <- & Ha).
    exists a. rewrite !list_elem_of_In. auto.
  - intros (a & Ha & Hx). exists (f a).
    rewrite list_elem_of_In in Ha. rewrite list_elem_of_In in Hx.
    split; [apply in_map, Ha|exact Hx].
Qed.

Section Written.
Variable today : string.
Variable fetchActivityDetail : Z -> DetailOutcome.

Local Abbreviation records := (recordsOf today fetchActivityDetail).
Local Abbreviation efforts := (effortsOf fetchActivityDetail).

Lemma recordsOf_converted a :
  records a = convertStravaBestEfforts today a (efforts a).
Proof.
  unfold recordsOf, effortsOf. destruct (fetchActivityDetail a); reflexivity.
Qed.

Lemma recordsOf_activity a r : r ∈ records a -> rec_activity_id r = a.
Proof.
  rewrite recordsOf_converted. intros H. apply elem_of_converted in H.
  destruct H as (e & _ & E). apply (convert_fields _ _ _ _ E).
Qed.

Lemma written_ids ids :
  rec_strava_effort_id <$> concat (map records ids)
  `sublist_of` sbe_id <$> concat (efforts <$> ids).
Proof.
  induction ids as [|a ids IH]; [constructor|].
  cbn [map concat fmap list_fmap]. rewrite !fmap_app.
  apply sublist_app; [|exact IH].
  rewrite recordsOf_converted. apply converted_ids.
Qed.

Lemma written_conflictFree ids :
  NoDup ids -> distinctEfforts fetchActivityDetail ids ->
  conflictFree (concat (map records ids)).
Proof.
  intros Hnd [Hids Hnames]. split.
  - eapply sublist_NoDup; [exact Hids|apply written_ids].
  - clear Hids. revert Hnd Hnames.
    assert (Hone : forall a, NoDup (sbe_name <$> efforts a) ->
              NoDup ((fun r => (rec_activity_id r, rec_distance_name r)) <$> records a)).
    { intros a Hn. rewrite recordsOf_converted.
      generalize (efforts a) Hn. clear. intros l.
      induction l as [|e l IH]; intros Hn; [constructor|].
      rewrite fmap_cons in Hn. apply NoDup_cons in Hn. destruct Hn as [Hn1 Hn].
      unfold convertStravaBestEfforts in *.
      change (omap (convertStravaBestEffort today a) (e :: l))
        with (match convertStravaBestEffort today a e with
              | Some r => r :: omap (convertStravaBestEffort today a) l
              | None => omap (convertStravaBestEffort today a) l
              end).
      destruct (convertStravaBestEffort today a e) as [r|] eqn:E; [|apply IH, Hn].
      rewrite fmap_cons. apply NoDup_cons. split; [|apply IH, Hn].
      intros Hin. apply list_elem_of_fmap in Hin. destruct Hin as (r' & Hr & Hin).
      apply (elem_of_converted today a) in Hin. destruct Hin as (e' & He' & E').
      destruct (convert_fields _ _ _ _ E) as (_ & _ & F3).
      destruct (convert_fields _ _ _ _ E') as (_ & _ & F3').
      injection Hr as _ Hd. rewrite <- Hd in F3'.
      apply Hn1. apply list_elem_of_fmap. exists e'. split; [|exact He'].
      apply (lookupName_injective _ _ _ F3 F3'). }
    induction ids as [|a ids IH]; intros Hnd Hnames; [constructor|].
    apply NoDup_cons in Hnd. destruct Hnd as [Ha Hnd].
    cbn [map concat]. rewrite fmap_app. apply NoDup_app. split; [|split].
    + apply Hone, Hnames. left.
    + intros key Hk1 Hk2.
      apply list_elem_of_fmap in Hk1. destruct Hk1 as (r1 & -> & Hr1).
      apply list_elem_of_fmap in Hk2. destruct Hk2 as (r2 & Hr & Hr2).
      apply elem_of_concat_map in Hr2. destruct Hr2 as (b & Hb & Hr2).
      apply recordsOf_activity in Hr1, Hr2. injection Hr as Hid _.
      apply Ha. congruence.
    + apply IH; [exact Hnd|]. intros b Hb. apply Hnames. right. exact Hb.
Qed.
End Written.


(** * Further properties *)

(** ** The classifier: race marker, zones and progression *)

(** X1. [classifyRun] answers race exactly for the provider's race
    marker: with [workout_type = 1] the result is race, no detail, confidence
    high, whatever the laps and zones are, and without it the result is
    never race. *)
Theorem race_only_with_provider_marker activity laps hrZones easyPaceRef :
  (act_workout_type activity = Some 1 ->
   classifyRun activity laps hrZones easyPaceRef = mkResult race None high) /\
  (run_type (classifyRun activity laps hrZones easyPaceRef) = race ->
   act_workout_type activity = Some 1).
Proof.
  split.
  - intros H. unfold classifyRun. rewrite H. reflexivity.
  - destruct (decide (act_workout_type activity = Some 1)) as [Hr|Hr]; [intros _; exact Hr|].
    rewrite (classifyRun_no_race _ _ _ _ Hr). intros H. exfalso.
    assert (Hf : run_type (classifyByPaceAndHr activity hrZones easyPaceRef) <> race).
    { unfold classifyByPaceAndHr. destruct_conditions; simpl; congruence. }
    destruct (detectAutoLaps laps); [exact (Hf H)|].
    destruct (structured_cases activity laps hrZones easyPaceRef) as [E|S].
    + rewrite E in H. exact (Hf H).
    + destruct S as [E|[[d E]|[[d E]|[_ E]]]]; rewrite E in H; discriminate.
Qed.

(** X2. [getHrZone] returns a zone from 1 to 5, never 0, and a higher
    heart rate never gets a lower zone, whatever the three thresholds are. *)
Theorem getHrZone_monotone_in_range (zones : HrZones) (hr hr' : Q) :
  (1 <= getHrZone hr zones <= 5) /\
  ((hr <= hr')%Q -> getHrZone hr zones <= getHrZone hr' zones).
Proof.
  unfold getHrZone. split.
  - destruct_conditions; lia.
  - intros H.
    destruct (Qltb hr (lt1 zones)) eqn:A1; destruct (Qltb hr' (lt1 zones)) eqn:B1;
    destruct (Qltb hr (lt1 zones * 0.88)) eqn:A0; destruct (Qltb hr' (lt1 zones * 0.88)) eqn:B0;
    destruct (Qltb hr (lt2 zones)) eqn:A2; destruct (Qltb hr' (lt2 zones)) eqn:B2;
    destruct (Qltb hr (max_hr zones * 0.97)) eqn:A3; destruct (Qltb hr' (max_hr zones * 0.97)) eqn:B3;
    try lia; exfalso;
    repeat match goal with
    | H : Qltb _ _ = true |- _ => apply Qltb_lt in H
    | H : Qltb _ _ = false |- _ => apply Qltb_ge in H
    end; lra.
Qed.

Lemma countDecreasing_all prev rest :
  neverSlower prev rest -> countDecreasing prev rest = length rest.
Proof.
  revert prev. induction rest as [|p r IH]; intros prev H; simpl; [reflexivity|].
  destruct H as [Hp Hr]. apply Qltb_lt in Hp. rewrite Hp, (IH _ Hr). reflexivity.
Qed.

Lemma neverSlower_app prev l1 x l2 :
  neverSlower prev (l1 ++ x :: l2) -> neverSlower prev l1 /\ neverSlower x l2.
Proof.
  revert prev. induction l1 as [|a l1 IH]; intros prev H; simpl in *.
  - destruct H as [_ H]. split; [exact I|exact H].
  - destruct H as [Ha H]. destruct (IH _ H) as [H1 H2]. repeat split; assumption.
Qed.

Lemma steadyOrFaster_inner paces : steadyOrFaster paces -> steadyOrFaster (JS.inner paces).
Proof.
  destruct paces as [|x r]; [intros _; exact I|].
  destruct (decide (r = [])) as [->|Hne]; [intros _; exact I|].
  destruct (exists_last Hne) as [mid [y ->]].
  rewrite inner_cons_snoc. simpl. intros H.
  destruct mid as [|m mid]; [exact I|]. simpl in *. destruct H as [_ H].
  replace (mid ++ [y]) with (mid ++ y :: []) in H by reflexivity.
  apply neverSlower_app in H. tauto.
Qed.

Lemma isProgression_steady paces :
  (3 <= length paces)%nat -> steadyOrFaster paces -> isProgression paces = true.
Proof.
  intros Hlen H. unfold isProgression.
  assert (E : (length paces <? 3)%nat = false) by (apply Nat.ltb_ge; lia). rewrite E.
  cbv zeta.
  set (core := if (4 <? length paces)%nat then JS.inner paces else paces).
  assert (Hc : steadyOrFaster core).
  { subst core. destruct (4 <? length paces)%nat; [apply steadyOrFaster_inner|]; exact H. }
  assert (Hn : (1 <= length core)%nat).
  { subst core. destruct (4 <? length paces)%nat eqn:E4; [|lia].
    apply Nat.ltb_lt in E4.
    destruct paces as [|x r]; [simpl in E4; lia|].
    destruct (decide (r = [])) as [->|Hne]; [simpl in E4; lia|].
    destruct (exists_last Hne) as [mid [y ->]].
    rewrite inner_cons_snoc. simpl in E4. rewrite length_app in E4. simpl in E4. lia. }
  clearbody core. destruct core as [|p r]; [simpl in Hn; lia|].
  simpl in Hc. rewrite (countDecreasing_all _ _ Hc).
  apply Qleb_le. simpl length.
  assert (Hq : (inject_Z (Z.of_nat (S (length r))) - 1 == inject_Z (Z.of_nat (length r)))%Q).
  { rewrite Nat2Z.inj_succ. unfold Z.succ. rewrite inject_Z_plus. ring. }
  rewrite Hq.
  assert (0 <= inject_Z (Z.of_nat (length r)))%Q.
  { change 0%Q with (inject_Z 0). rewrite <- Zle_Qle. lia. }
  lra.
Qed.




(** ** The classifier: median and coefficient of variation *)

Lemma Qleb_sorted (l : list Q) : StronglySorted Qle (stable_sort Qleb l).
Proof.
  apply (stable_sort_sorted Qleb Qle (fun _ => True)).
  - intros x y _ _ H. apply Qleb_le, H.
  - intros x y _ _ H. apply Qleb_gt in H. apply Qlt_le_weak, H.
  - intros x y z. apply Qle_trans.
  - apply Forall_forall. intros; exact I.
Qed.

Lemma sorted_nth (s : list Q) (i j : nat) :
  StronglySorted Qle s -> (i <= j < length s)%nat -> (nth i s 0 <= nth j s 0)%Q.
Proof.
  intros H. revert i j. induction H as [|x s Hs IH Hx]; intros i j Hij; simpl in Hij; [lia|].
  destruct i as [|i], j as [|j]; simpl; try lia.
  - apply Qle_refl.
  - rewrite Forall_forall in Hx. apply Hx. apply list_elem_of_In, nth_In. lia.
  - apply IH. lia.
Qed.

Lemma filter_length_perm {A} (f : A -> bool) (l l' : list A) :
  l ≡ₚ l' -> length (List.filter f l) = length (List.filter f l').
Proof.
  induction 1; simpl; try congruence.
  - destruct (f x); simpl; congruence.
  - destruct (f x), (f y); reflexivity.
Qed.

Lemma filter_length_app {A} (f : A -> bool) (l1 l2 : list A) :
  length (List.filter f (l1 ++ l2)) = (length (List.filter f l1) + length (List.filter f l2))%nat.
Proof. rewrite List.filter_app, length_app. reflexivity. Qed.

Lemma filter_length_all {A} (f : A -> bool) (l : list A) :
  (forall x, In x l -> f x = true) -> length (List.filter f l) = length l.
Proof.
  induction l as [|a l IH]; intros H; simpl; [reflexivity|].
  rewrite (H a) by (left; reflexivity). simpl. rewrite IH; [reflexivity|].
  intros x Hx. apply H. right. exact Hx.
Qed.

Lemma In_take_nth (s : list Q) (k : nat) (x : Q) :
  In x (take k s) -> exists i, (i < k)%nat /\ (i < length s)%nat /\ x = nth i s 0%Q.
Proof.
  intros H. apply list_elem_of_In, list_elem_of_lookup in H. destruct H as [i Hi].
  apply lookup_take_Some in Hi. destruct Hi as [Hi Hk].
  exists i. split; [exact Hk|]. split; [eapply lookup_lt_Some; exact Hi|].
  rewrite nth_lookup, Hi. reflexivity.
Qed.

Lemma In_drop_nth (s : list Q) (k : nat) (x : Q) :
  In x (drop k s) -> exists i, (k <= i < length s)%nat /\ x = nth i s 0%Q.
Proof.
  intros H. apply list_elem_of_In, list_elem_of_lookup in H. destruct H as [i Hi].
  rewrite lookup_drop in Hi. exists (k + i)%nat.
  split; [split; [lia|eapply lookup_lt_Some; exact Hi]|].
  rewrite nth_lookup, Hi. reflexivity.
Qed.

(** X4. The value of [getMedian] on a non-empty list splits it: at
    least half of the values are at most the median and at least half are at
    least the median. *)
Theorem median_splits_the_values (values : list Q) :
  values <> [] ->
  let m := getMedian values in
  (length values <= 2 * length (List.filter (fun v => Qleb v m) values))%nat /\
  (length values <= 2 * length (List.filter (fun v => Qleb m v) values))%nat.
Proof.
  intros Hne m.
  pose proof (Qleb_sorted values) as Hs.
  pose proof (stable_sort_perm Qleb values) as Hp.
  assert (Hlen : length (stable_sort Qleb values) = length values)
    by (apply Permutation_length, Hp).
  rewrite <- (filter_length_perm _ _ _ Hp), <- (filter_length_perm (fun v => Qleb m v) _ _ Hp).
  rewrite <- Hlen.
  assert (Hn : (1 <= length (stable_sort Qleb values))%nat).
  { rewrite Hlen. destruct values; [congruence|simpl; lia]. }
  subst m. unfold getMedian, JS.sort.
  set (s := stable_sort Qleb values) in *. clearbody s. clear Hp Hlen Hne values.
  set (mid := (length s / 2)%nat).
  assert (Hmid : (length s = 2 * mid + length s mod 2)%nat) by (apply Nat.div_mod_eq).
  pose proof (Nat.mod_upper_bound (length s) 2 ltac:(lia)) as Hmod.
  destruct (length s mod 2 =? 0)%nat eqn:Eeven.
  - apply Nat.eqb_eq in Eeven.
    assert (Hab : (nth (mid - 1) s 0 <= nth mid s 0)%Q) by (apply sorted_nth; [exact Hs|lia]).
    set (a := nth (mid - 1) s 0%Q) in *. set (b := nth mid s 0%Q) in *.
    assert (Ham : (a <= (a + b) / 2)%Q) by (apply Qle_shift_div_l; lra).
    assert (Hmb : ((a + b) / 2 <= b)%Q) by (apply Qle_shift_div_r; lra).
    rewrite <- (take_drop mid s) at 2 4.
    rewrite !filter_length_app. split.
    + rewrite (filter_length_all _ (take mid s)).
      * rewrite length_take. lia.
      * intros x Hx. apply In_take_nth in Hx. destruct Hx as [i [Hi [Hl ->]]].
        apply Qleb_le. eapply Qle_trans; [|exact Ham].
        apply sorted_nth; [exact Hs|lia].
    + rewrite (filter_length_all _ (drop mid s)).
      * rewrite length_drop. lia.
      * intros x Hx. apply In_drop_nth in Hx. destruct Hx as [i [Hi ->]].
        apply Qleb_le. eapply Qle_trans; [exact Hmb|].
        apply sorted_nth; [exact Hs|lia].
  - apply Nat.eqb_neq in Eeven. split.
    + rewrite <- (take_drop (S mid) s) at 2.
      rewrite filter_length_app, (filter_length_all _ (take (S mid) s)).
      * rewrite length_take. lia.
      * intros x Hx. apply In_take_nth in Hx. destruct Hx as [i [Hi [Hl ->]]].
        apply Qleb_le. apply sorted_nth; [exact Hs|lia].
    + rewrite <- (take_drop mid s) at 2.
      rewrite filter_length_app, (filter_length_all _ (drop mid s)).
      * rewrite length_drop. lia.
      * intros x Hx. apply In_drop_nth in Hx. destruct Hx as [i [Hi ->]].
        apply Qleb_le. apply sorted_nth; [exact Hs|lia].
Qed.

Lemma median_splits_the_values_witness :
  (getMedian samplePaces == 295)%Q /\
  (4 <= 2 * length (List.filter (fun v => Qleb v (getMedian samplePaces)) samplePaces))%nat.
Proof.
  split; [reflexivity|].
  apply (median_splits_the_values samplePaces). discriminate.
Defined.

Section EqualValues.
Local Open Scope Q_scope.

Lemma sum_equal (values : list Q) (d acc : Q) :
  Forall (fun v => v == d) values ->
  fold_left Qplus values acc == acc + inject_Z (Z.of_nat (length values)) * d.
Proof.
  revert acc. induction values as [|v l IH]; intros acc H; simpl fold_left.
  - simpl. ring.
  - apply Forall_cons in H. destruct H as [Hv Hl].
    rewrite (IH _ Hl). simpl length. rewrite Nat2Z.inj_succ. unfold Z.succ.
    rewrite inject_Z_plus, Hv. ring.
Qed.

Lemma squares_equal (values : list Q) (m acc : Q) :
  Forall (fun v => v == m) values ->
  fold_left (fun sum v => sum + (v - m) * (v - m)) values acc == acc.
Proof.
  revert acc. induction values as [|v l IH]; intros acc H; simpl fold_left.
  - reflexivity.
  - apply Forall_cons in H. destruct H as [Hv Hl].
    rewrite (IH _ Hl), Hv. ring.
Qed.

Lemma variance_equal (values : list Q) (d : Q) :
  values <> [] -> Forall (fun v => v == d) values -> variance values == 0.
Proof.
  intros Hne H. unfold variance. cbv zeta.
  assert (Hn : ~ inject_Z (Z.of_nat (length values)) == 0).
  { destruct values; [congruence|]. simpl length. rewrite Nat2Z.inj_succ.
    change 0 with (inject_Z 0). rewrite inject_Z_injective. lia. }
  assert (Hm : mean values == d).
  { unfold mean, sumQ. rewrite (sum_equal _ d 0 H). field. exact Hn. }
  rewrite squares_equal.
  - field. exact Hn.
  - eapply Forall_impl; [exact H|]. intros v Hv. simpl in Hv. rewrite Hv, Hm. reflexivity.
Qed.
End EqualValues.

(* equal values: the deviation is 0, also for fewer than two values and for
   values that are all 0, where the mean is 0 and nothing is divided *)
Lemma cv_of_equal_values (values : list Q) (d : Q) :
  Forall (fun v => v == d)%Q values ->
  coefficientOfVariation values = Rdefinitions.IZR 0.
Proof.
  intros H. unfold coefficientOfVariation.
  destruct (length values <? 2)%nat eqn:E; [reflexivity|]. cbv zeta.
  destruct (JS.is_zero (mean values)); [reflexivity|].
  assert (Hne : values <> []) by (intros ->; discriminate).
  pose proof (variance_equal values d Hne H) as Hv.
  apply Qreals.Qeq_eqR in Hv. rewrite Hv.
  replace (Rdefinitions.Q2R 0) with (Rdefinitions.IZR 0)
    by (unfold Rdefinitions.Q2R; simpl; Lra.lra).
  rewrite R_sqrt.sqrt_0. unfold Rdefinitions.Rdiv. apply RIneq.Rmult_0_l.
Qed.




(** ** The store: upserts, laps and classification writes *)

Lemma upsert_fold_same acts (tbl1 tbl2 : gmap Z ActivityRow) k :
  k ∈ sa_id <$> acts ->
  fold_left DB.upsertActivity acts tbl1 !! k = fold_left DB.upsertActivity acts tbl2 !! k.
Proof.
  induction acts as [|b acts IH] using rev_ind; intros Hk; [inversion Hk|].
  rewrite !fold_left_app. simpl. unfold DB.upsertActivity at 1 3.
  destruct (decide (sa_id b = k)) as [E|E].
  - rewrite E, !lookup_insert_eq. reflexivity.
  - rewrite !lookup_insert_ne by exact E. apply IH.
    rewrite fmap_app in Hk. apply elem_of_app in Hk. destruct Hk as [Hk|Hk]; [exact Hk|].
    apply list_elem_of_singleton in Hk. congruence.
Qed.

Lemma upsert_fold_dom acts : forall tbl : gmap Z ActivityRow,
  dom (fold_left DB.upsertActivity acts tbl) = dom tbl ∪ list_to_set (sa_id <$> acts).
Proof.
  induction acts as [|a acts IH]; intros tbl; simpl.
  - rewrite (right_id_L ∅ (∪)). reflexivity.
  - rewrite IH. unfold DB.upsertActivity. rewrite dom_insert_L.
    rewrite (comm_L (∪) {[sa_id a]} (dom tbl)), <- (assoc_L (∪)). reflexivity.
Qed.

Lemma getActivityCount_size st : DB.getActivityCount st = size (activities st).
Proof.
  unfold DB.getActivityCount. rewrite (Permutation_length (activityRows_perm st)).
  rewrite length_fmap. apply length_map_to_list.
Qed.

Lemma size_list_to_set_le (l : list Z) : (size (list_to_set l : gset Z) <= length l)%nat.
Proof.
  induction l as [|a l IH].
  - change (list_to_set [] : gset Z) with (∅ : gset Z). rewrite size_empty. simpl. lia.
  - rewrite list_to_set_cons, size_union_alt, size_singleton. simpl length.
    assert (size (list_to_set l ∖ {[a]} : gset Z) <= size (list_to_set l : gset Z))%nat
      by (apply subseteq_size, subseteq_difference_l; reflexivity).
    lia.
Qed.

(** X6. [upsertActivities] is idempotent: a second upsert of the same
    batch changes nothing.  It never deletes an activity: the stored ids
    afterwards are the ids before and the ids of the batch, and the number
    of rows grows by at most the length of the batch. *)
Theorem upsertActivities_is_idempotent (acts : list StravaActivity) (st : Store) :
  let st' := DB.upsertActivities acts st in
  DB.upsertActivities acts st' = st' /\
  DB.getExistingActivityIds st'
  = DB.getExistingActivityIds st ∪ list_to_set (sa_id <$> acts) /\
  (DB.getActivityCount st <= DB.getActivityCount st' <= DB.getActivityCount st + length acts)%nat.
Proof.
  cbv zeta. split; [|split].
  - unfold DB.upsertActivities, DB.set_activities. simpl. f_equal.
    apply map_eq. intros k.
    destruct (decide (k ∈ sa_id <$> acts)) as [Hk|Hk].
    + apply upsert_fold_same, Hk.
    + rewrite !upsert_fold_notin by exact Hk. reflexivity.
  - unfold DB.getExistingActivityIds. simpl. apply upsert_fold_dom.
  - rewrite !getActivityCount_size. simpl.
    rewrite <- !size_dom, upsert_fold_dom. split.
    + apply subseteq_size, union_subseteq_l.
    + rewrite size_union_alt.
      assert (size (list_to_set (sa_id <$> acts) ∖ dom (activities st) : gset Z)
              <= size (list_to_set (sa_id <$> acts) : gset Z))%nat
        by (apply subseteq_size, subseteq_difference_l; reflexivity).
      pose proof (size_list_to_set_le (sa_id <$> acts)) as Hl.
      rewrite length_fmap in Hl. lia.
Qed.

Lemma unclassified_spec limit st r :
  wellKeyed st ->
  r ∈ DB.getUnclassifiedActivities limit st ->
  activities st !! row_id r = Some r /\ DB.unclassified r = true.
Proof.
  intros Hk Hr. unfold DB.getUnclassifiedActivities, DB.orderByDateDesc in Hr.
  apply (sublist_subseteq _ _ (sqlLimit_sublist _ _)) in Hr.
  apply elem_of_stable_sort in Hr.
  apply list_elem_of_In, filter_In in Hr. destruct Hr as [Hr Hm].
  split; [|exact Hm].
  apply list_elem_of_In, elem_of_activityRows in Hr. destruct Hr as [k Hr].
  rewrite (Hk _ _ Hr). exact Hr.
Qed.

Lemma without_detail_unlimited st r :
  r ∈ DB.getActivitiesWithoutDetail (-1) st <->
  (exists k, activities st !! k = Some r) /\ DB.missingDetail r = true.
Proof.
  unfold DB.getActivitiesWithoutDetail, DB.orderByDateDesc, DB.sqlLimit.
  change (-1 <? 0) with true. cbv iota.
  rewrite elem_of_stable_sort, list_elem_of_In, filter_In, <- list_elem_of_In, elem_of_activityRows.
  reflexivity.
Qed.

(** X7. After [upsertActivities] no activity of the batch is selected
    by [getUnclassifiedActivities], whatever the limit, and every activity
    of the batch that is stored as an outdoor run is selected by
    [getActivitiesWithoutDetail]: its detail is fetched before it is
    classified. *)
Theorem upserted_runs_wait_for_detail (acts : list StravaActivity) (st : Store) (limit : Z) :
  wellKeyed st ->
  let st' := DB.upsertActivities acts st in
  (forall r, r ∈ DB.getUnclassifiedActivities limit st' -> row_id r ∉ sa_id <$> acts) /\
  (forall k r, k ∈ sa_id <$> acts -> activities st' !! k = Some r ->
     row_type r = "Run"%string -> row_trainer r = 0 ->
     r ∈ DB.getActivitiesWithoutDetail (-1) st').
Proof.
  intros Hk st'.
  assert (Hk' : wellKeyed st') by (apply wellKeyed_upsertActivities, Hk).
  assert (Hrow : forall k r, k ∈ sa_id <$> acts -> activities st' !! k = Some r ->
                   row_detail_fetched r = 0).
  { intros k r Hin Hr. apply list_elem_of_fmap in Hin. destruct Hin as (a & -> & Ha).
    destruct (upsertActivities_batch_rows acts st a Ha) as (row & E & _ & _ & Hd).
    fold st' in E. rewrite E in Hr. injection Hr as <-. exact Hd. }
  split.
  - intros r Hr Hin. destruct (unclassified_spec _ _ _ Hk' Hr) as [E Hu].
    pose proof (Hrow _ _ Hin E) as Hd. unfold DB.unclassified in Hu.
    rewrite Hd in Hu. rewrite !andb_true_iff in Hu. destruct Hu as [[[_ _] Hu] _]. discriminate.
  - intros k r Hin E Ht Htr. apply without_detail_unlimited.
    split; [exists k; exact E|].
    unfold DB.missingDetail. rewrite Ht, Htr, (Hrow _ _ Hin E). reflexivity.
Qed.

Lemma upserted_runs_wait_for_detail_witness :
  wellKeyed storeThreeRuns /\
  (forall r, r ∈ DB.getUnclassifiedActivities 50
               (DB.upsertActivities [sampleSummary 13 "2026-02-05T07:00:00Z" 10000]
                  storeThreeRuns) ->
     row_id r ∉ sa_id <$> [sampleSummary 13 "2026-02-05T07:00:00Z" 10000]).
Proof.
  assert (H : wellKeyed storeThreeRuns) by apply wellKeyed_upsertActivities, wellKeyed_empty.
  split; [exact H|].
  apply (upserted_runs_wait_for_detail
           [sampleSummary 13 "2026-02-05T07:00:00Z" 10000] storeThreeRuns 50 H).
Defined.

Section SortUnique.
Context {A : Type} (leb : A -> A -> bool).
Hypothesis leb_total : forall x y, leb x y = false -> leb y x = true.
Hypothesis leb_trans : forall x y z, leb x y = true -> leb y z = true -> leb x z = true.

Lemma stable_sort_perm_unique (l1 l2 : list A) :
  l1 ≡ₚ l2 ->
  (forall x y, x ∈ l1 -> y ∈ l1 -> leb x y = true -> leb y x = true -> x = y) ->
  stable_sort leb l1 = stable_sort leb l2.
Proof.
  intros Hp Ha.
  apply (StronglySorted_unique_strong (fun x y => leb x y = true)).
  - intros x y Hx Hy. rewrite elem_of_stable_sort in Hx, Hy. rewrite <- Hp in Hy.
    apply Ha; assumption.
  - apply (stable_sort_sorted leb (fun x y => leb x y = true) (fun _ => True)).
    + intros x y _ _ H. exact H.
    + intros x y _ _ H. apply leb_total, H.
    + apply leb_trans.
    + apply Forall_forall. intros; exact I.
  - apply (stable_sort_sorted leb (fun x y => leb x y = true) (fun _ => True)).
    + intros x y _ _ H. exact H.
    + intros x y _ _ H. apply leb_total, H.
    + apply leb_trans.
    + apply Forall_forall. intros; exact I.
  - rewrite !stable_sort_perm. exact Hp.
Qed.
End SortUnique.

Lemma elem_of_lapRowsOf a m kv :
  kv ∈ lapRowsOf a m <-> fst (fst kv) = a /\ m !! fst kv = Some (snd kv).
Proof.
  unfold lapRowsOf. rewrite list_elem_of_In, filter_In, <- list_elem_of_In.
  destruct kv as [k v]. rewrite elem_of_map_to_list, Z.eqb_eq. simpl. tauto.
Qed.

Lemma NoDup_lapRowsOf a m : NoDup (lapRowsOf a m).
Proof.
  unfold lapRowsOf. eapply sublist_NoDup; [|apply filter_sublist].
  apply NoDup_map_to_list.
Qed.

Lemma lapRowsOf_antisym a m x y :
  x ∈ lapRowsOf a m -> y ∈ lapRowsOf a m ->
  byLapKey x y = true -> byLapKey y x = true -> x = y.
Proof.
  rewrite !elem_of_lapRowsOf. unfold byLapKey.
  destruct x as [[xa xi] xv], y as [[ya yi] yv]. simpl.
  intros [-> Hx] [-> Hy] H1 H2. apply Z.leb_le in H1, H2.
  assert (xi = yi) by lia. subst yi. rewrite Hx in Hy. injection Hy as ->. reflexivity.
Qed.

Lemma getActivityLaps_unfold a st :
  DB.getActivityLaps a st = map snd (stable_sort byLapKey (lapRowsOf a (activity_laps st))).
Proof. reflexivity. Qed.

Lemma byLapKey_total x y : byLapKey x y = false -> byLapKey y x = true.
Proof. unfold byLapKey. rewrite Z.leb_gt, Z.leb_le. lia. Qed.

Lemma byLapKey_trans x y z : byLapKey x y = true -> byLapKey y z = true -> byLapKey x z = true.
Proof. unfold byLapKey. rewrite !Z.leb_le. lia. Qed.

Lemma getActivityLaps_ext a st st' :
  (forall i, activity_laps st' !! (a, i) = activity_laps st !! (a, i)) ->
  DB.getActivityLaps a st' = DB.getActivityLaps a st.
Proof.
  intros H. rewrite !getActivityLaps_unfold. f_equal.
  apply (stable_sort_perm_unique byLapKey byLapKey_total byLapKey_trans).
  - apply NoDup_Permutation; [apply NoDup_lapRowsOf|apply NoDup_lapRowsOf|].
    intros [[b i] v]. rewrite !elem_of_lapRowsOf. simpl.
    split; intros [-> E]; (split; [reflexivity|]); [rewrite <- H|rewrite H]; exact E.
  - apply lapRowsOf_antisym.
Qed.

Lemma upsertLap_fold_notin a recs : forall tbl i,
  i ∉ lap_index <$> recs -> fold_left (DB.upsertLap a) recs tbl !! (a, i) = tbl !! (a, i).
Proof.
  induction recs as [|r recs IH]; intros tbl i Hi; simpl; [reflexivity|].
  rewrite fmap_cons, not_elem_of_cons in Hi. destruct Hi as [Hne Hi].
  rewrite IH by exact Hi. unfold DB.upsertLap. apply lookup_insert_ne. congruence.
Qed.

(** X8. Laps round trip: after [upsertActivityLaps] of laps with distinct
    indices for an activity that had none, [getActivityLaps] returns these
    laps in ascending order of [lap_index], each with the [activity_id] of
    the call; the laps of every other activity read as before. *)
Theorem laps_round_trip (activityId : Z) (laps : list ActivityLapRecord) (st : Store) :
  NoDup (lap_index <$> laps) ->
  (forall i, activity_laps st !! (activityId, i) = None) ->
  let st' := DB.upsertActivityLaps activityId laps st in
  DB.getActivityLaps activityId st'
  = DB.withActivityId activityId
      <$> stable_sort (fun a b => (lap_index a <=? lap_index b)%Z) laps /\
  (forall other, other <> activityId ->
     DB.getActivityLaps other st' = DB.getActivityLaps other st).
Proof.
  intros Hnd Hnone st'. split.
  - rewrite getActivityLaps_unfold.
    set (g := fun lap : ActivityLapRecord =>
                ((activityId, lap_index lap), DB.withActivityId activityId lap)).
    assert (E : stable_sort byLapKey (lapRowsOf activityId (activity_laps st'))
                = stable_sort byLapKey (map g laps)).
    { apply (stable_sort_perm_unique byLapKey byLapKey_total byLapKey_trans).
      - apply NoDup_Permutation; [apply NoDup_lapRowsOf| |].
        + change (map g laps) with (g <$> laps).
          apply (NoDup_fmap_1 (fun kv : Z * Z * ActivityLapRecord => snd (fst kv))).
          rewrite <- list_fmap_compose. exact Hnd.
        + intros [[b i] v]. rewrite elem_of_lapRowsOf. simpl.
          change (map g laps) with (g <$> laps). rewrite list_elem_of_fmap. split.
          * intros [-> Hv].
            destruct (decide (i ∈ lap_index <$> laps)) as [Hi|Hi].
            -- apply list_elem_of_fmap in Hi. destruct Hi as (lap & -> & Hlap).
               exists lap. split; [|exact Hlap].
               unfold st' in Hv. simpl in Hv.
               rewrite (upsertLap_fold_in activityId laps _ lap Hnd Hlap) in Hv.
               injection Hv as <-. reflexivity.
            -- unfold st' in Hv. simpl in Hv.
               rewrite (upsertLap_fold_notin activityId laps _ i Hi), Hnone in Hv.
               discriminate.
          * intros (lap & Heq & Hlap). unfold g in Heq. injection Heq as -> -> ->.
            split; [reflexivity|]. unfold st'. simpl.
            apply upsertLap_fold_in; assumption.
      - apply lapRowsOf_antisym. }
    rewrite E.
    rewrite (stable_sort_map (fun a b : ActivityLapRecord => (lap_index a <=? lap_index b)%Z)
               byLapKey g) by reflexivity.
    rewrite map_map. reflexivity.
  - intros other Hne. apply getActivityLaps_ext. intros i. unfold st'. simpl.
    apply upsertLap_fold_other. exact Hne.
Qed.

Lemma laps_round_trip_witness :
  DB.getActivityLaps 7 (DB.upsertActivityLaps 7 sampleLapRecords emptyStore)
  = DB.withActivityId 7
      <$> stable_sort (fun a b => (lap_index a <=? lap_index b)%Z) sampleLapRecords.
Proof.
  apply (laps_round_trip 7 sampleLapRecords emptyStore).
  - apply (NoDup_cons_2 1 [0]); [|apply (NoDup_singleton 0)].
    intros H. apply list_elem_of_singleton in H. discriminate.
  - intros i. reflexivity.
Defined.

Lemma setRunType_activities a t d st :
  wellKeyed st ->
  activities (DB.setRunType a t d st) = rowClassified a t d <$> activities st.
Proof.
  intros Hk. apply map_eq. intros k.
  change (activities (DB.setRunType a t d st))
    with (alter (DB.withRunType t d) a (activities st)).
  rewrite lookup_alter, lookup_fmap.
  destruct (decide (a = k)) as [->|Hne].
  - destruct (activities st !! k) as [r|] eqn:E; [|reflexivity].
    pose proof (Hk _ _ E) as Hid. unfold rowClassified. simpl.
    rewrite decide_True by exact Hid. reflexivity.
  - destruct (activities st !! k) as [r|] eqn:E; [|reflexivity].
    pose proof (Hk _ _ E) as Hid. unfold rowClassified. simpl.
    rewrite decide_False by congruence. reflexivity.
Qed.

Lemma filter_fmap_commute {A} (p : A -> bool) (g : A -> A) (l : list A) :
  (forall x, p (g x) = p x) -> List.filter p (g <$> l) = g <$> List.filter p l.
Proof.
  intros H. induction l as [|x l IH]; [reflexivity|].
  rewrite fmap_cons. simpl. rewrite H. destruct (p x); simpl; rewrite IH; reflexivity.
Qed.

Lemma sqlLimit_fmap {A B} (g : A -> B) limit (l : list A) :
  DB.sqlLimit limit (g <$> l) = g <$> DB.sqlLimit limit l.
Proof. unfold DB.sqlLimit. destruct (limit <? 0); [reflexivity|]. symmetry. apply fmap_take. Qed.

Lemma getActivitiesWithoutDetail_fmap g limit st st' :
  activities st' = g <$> activities st ->
  (forall r, DB.missingDetail (g r) = DB.missingDetail r) ->
  (forall r, row_start_date_local (g r) = row_start_date_local r) ->
  DB.getActivitiesWithoutDetail limit st' = g <$> DB.getActivitiesWithoutDetail limit st.
Proof.
  intros E Hm Hd. unfold DB.getActivitiesWithoutDetail, DB.orderByDateDesc.
  rewrite (activityRows_fmap st st' g E), (filter_fmap_commute _ _ _ Hm).
  change (fmap (M := list) g) with (map g) at 1.
  rewrite (stable_sort_map dateDesc) by (intros x y; rewrite !Hd; reflexivity).
  apply sqlLimit_fmap.
Qed.

Lemma wellKeyed_setRunType a t d st : wellKeyed st -> wellKeyed (DB.setRunType a t d st).
Proof.
  intros Hk k r.
  change (activities (DB.setRunType a t d st))
    with (alter (DB.withRunType t d) a (activities st)).
  rewrite lookup_alter.
  destruct (decide (a = k)) as [->|Hne].
  - destruct (activities st !! k) as [r0|] eqn:E; simpl; [|discriminate].
    intros [= <-]. simpl. apply (Hk _ _ E).
  - apply Hk.
Qed.

(** X9. [setRunType] for an activity that is not stored changes nothing.
    For a stored one it leaves every other row as it is, the activity is no
    longer selected by [getUnclassifiedActivities], and
    [getActivitiesWithoutDetail] selects the same activities in the same
    order as before. *)
Theorem setRunType_touches_one_row
    (activityId : Z) (runType : RunType) (runTypeDetail : option string)
    (st : Store) (limit : Z) :
  wellKeyed st ->
  let st' := DB.setRunType activityId runType runTypeDetail st in
  (activities st !! activityId = None -> st' = st) /\
  (forall k, k <> activityId -> activities st' !! k = activities st !! k) /\
  (activityId ∉ row_id <$> DB.getUnclassifiedActivities limit st') /\
  row_id <$> DB.getActivitiesWithoutDetail limit st'
  = row_id <$> DB.getActivitiesWithoutDetail limit st.
Proof.
  intros Hk st'. split; [|split; [|split]].
  - intros Hnone. unfold st', DB.setRunType, DB.set_activities.
    assert (E : alter (DB.withRunType runType runTypeDetail) activityId (activities st)
                = activities st).
    { apply map_eq. intros k. rewrite lookup_alter.
      destruct (decide (activityId = k)) as [<-|Hne]; [rewrite Hnone|]; reflexivity. }
    rewrite E. destruct st; reflexivity.
  - intros k Hne. unfold st'.
    change (activities (DB.setRunType activityId runType runTypeDetail st))
      with (alter (DB.withRunType runType runTypeDetail) activityId (activities st)).
    rewrite lookup_alter, decide_False by congruence. reflexivity.
  - intros Hin. apply list_elem_of_fmap in Hin. destruct Hin as (r & Hid & Hr).
    destruct (unclassified_spec _ _ _ (wellKeyed_setRunType _ _ _ _ Hk) Hr) as [E Hu].
    unfold st' in E.
    change (activities (DB.setRunType activityId runType runTypeDetail st))
      with (alter (DB.withRunType runType runTypeDetail) activityId (activities st)) in E.
    rewrite lookup_alter, decide_True in E by congruence.
    destruct (activities st !! activityId) as [r0|]; simpl in E; [|discriminate].
    injection E as <-. unfold DB.unclassified in Hu. simpl in Hu.
    rewrite andb_false_r in Hu. discriminate.
  - rewrite (getActivitiesWithoutDetail_fmap (rowClassified activityId runType runTypeDetail)
               limit st st').
    + rewrite <- list_fmap_compose. apply list_fmap_ext. intros i r _. simpl.
      unfold rowClassified. destruct (decide (row_id r = activityId)); reflexivity.
    + apply setRunType_activities, Hk.
    + intros r. unfold rowClassified. destruct (decide (row_id r = activityId)); reflexivity.
    + intros r. unfold rowClassified. destruct (decide (row_id r = activityId)); reflexivity.
Qed.

Lemma setRunType_touches_one_row_witness :
  DB.setRunType 99 tempo None storeThreeRuns = storeThreeRuns /\
  13 ∉ row_id <$> DB.getUnclassifiedActivities 50 (DB.setRunType 13 tempo None storeThreeRuns).
Proof.
  destruct (setRunType_touches_one_row 99 tempo None storeThreeRuns 50) as (H1 & _).
  { apply wellKeyed_upsertActivities, wellKeyed_empty. }
  destruct (setRunType_touches_one_row 13 tempo None storeThreeRuns 50) as (_ & _ & H3 & _).
  { apply wellKeyed_upsertActivities, wellKeyed_empty. }
  split; [apply H1; reflexivity|exact H3].
Defined.


(** ** Official race times *)

Import PersonalRecords.

Lemma filter_filter_neg {A} (p : A -> bool) (l : list A) :
  List.filter p (List.filter (fun x => negb (p x)) l) = [].
Proof.
  induction l as [|x l IH]; simpl; [reflexivity|].
  destruct (p x) eqn:E; simpl; [exact IH|]. rewrite E. exact IH.
Qed.

Lemma filter_filter_other {A} (p q : A -> bool) (l : list A) :
  (forall x, p x = true -> q x = false) ->
  List.filter p (List.filter (fun x => negb (q x)) l) = List.filter p l.
Proof.
  intros H. induction l as [|x l IH]; simpl; [reflexivity|].
  destruct (q x) eqn:Eq; simpl.
  - destruct (p x) eqn:Ep; [|exact IH]. rewrite (H x Ep) in Eq. discriminate.
  - destruct (p x); rewrite IH; reflexivity.
Qed.

Lemma filter_nil_neg {A} (p : A -> bool) (l : list A) :
  List.filter p l = [] -> List.filter (fun x => negb (p x)) l = l.
Proof.
  induction l as [|x l IH]; simpl; [reflexivity|].
  destruct (p x); simpl; [discriminate|]. intros H. rewrite IH by exact H. reflexivity.
Qed.

Lemma foldr_max_ge (l : list Z) (x : Z) : x ∈ l -> x <= foldr Z.max 0 l.
Proof.
  induction l as [|y l IH]; intros H; [inversion H|].
  simpl. apply elem_of_cons in H. destruct H as [->|H]; [lia|]. specialize (IH H). lia.
Qed.

(** X10. Personal records round trip: after [upsertPersonalRecord] the
    record of that distance is the one just written, alone, with the date
    of the day and an [id] above every earlier one; the records of the other
    distances read as before; [deletePersonalRecord] for that distance then
    answers [true] and leaves no record of it; for a distance without a
    record it answers [false] and changes nothing. *)
Theorem personal_record_round_trip
    (today : string) (record : PersonalRecordInput) (tbl : PersonalRecordsTable) :
  in_distance_name record <> ""%string ->
  let name := in_distance_name record in
  let tbl' := upsertPersonalRecord today record tbl in
  (exists row,
     getPersonalRecords (Some name) tbl' = [row] /\
     pr_distance_name row = name /\
     pr_time_seconds row = in_time_seconds record /\
     pr_race_name row = in_race_name record /\
     pr_race_date row = in_race_date record /\
     pr_notes row = in_notes record /\
     pr_recorded_at row = today /\
     forall old, old ∈ pr_rows tbl -> pr_id old < pr_id row) /\
  (forall other, other <> ""%string -> other <> name ->
     getPersonalRecords (Some other) tbl' = getPersonalRecords (Some other) tbl) /\
  snd (deletePersonalRecord name tbl') = true /\
  getPersonalRecords (Some name) (fst (deletePersonalRecord name tbl')) = [] /\
  (getPersonalRecords (Some name) tbl = [] -> deletePersonalRecord name tbl = (tbl, false)).
Proof.
  intros Hne name tbl'.
  assert (Hsome : forall n, n <> ""%string -> forall t,
            getPersonalRecords (Some n) t = List.filter (named n) (pr_rows t)).
  { intros n Hn t. destruct n; [congruence|reflexivity]. }
  assert (Hself : forall r, pr_distance_name r = name -> named name r = true).
  { intros r <-. apply String.eqb_refl. }
  split; [|split; [|split; [|split]]].
  - eexists. rewrite (Hsome name Hne). unfold tbl', upsertPersonalRecord. cbn [pr_rows].
    rewrite List.filter_app, (filter_filter_neg (named name)). cbn [List.filter app].
    rewrite Hself by reflexivity.
    split; [reflexivity|]. cbn. repeat (split; [reflexivity|]).
    intros old Hold. unfold nextId.
    pose proof (foldr_max_ge (pr_id <$> pr_rows tbl) (pr_id old)
                  (list_elem_of_fmap_2 _ _ _ Hold)). lia.
  - intros other Ho Hon. rewrite !(Hsome other Ho).
    unfold tbl', upsertPersonalRecord. cbn [pr_rows].
    rewrite List.filter_app. cbn [List.filter].
    assert (E : named other
                  {| pr_id := nextId tbl; pr_distance_name := in_distance_name record;
                     pr_time_seconds := in_time_seconds record;
                     pr_race_name := in_race_name record;
                     pr_race_date := in_race_date record;
                     pr_notes := in_notes record; pr_recorded_at := today |} = false).
    { unfold named. cbn. apply String.eqb_neq. unfold name in Hon. congruence. }
    rewrite E, app_nil_r. apply filter_filter_other.
    intros x Hx. unfold named in *. apply String.eqb_eq in Hx. apply String.eqb_neq.
    unfold name in Hon. congruence.
  - unfold deletePersonalRecord, tbl', upsertPersonalRecord. cbn [snd pr_rows].
    rewrite List.filter_app, (filter_filter_neg (named name)). cbn [List.filter app].
    rewrite Hself by reflexivity. reflexivity.
  - rewrite (Hsome name Hne). unfold deletePersonalRecord. cbn [fst pr_rows].
    apply filter_filter_neg.
  - rewrite (Hsome name Hne). intros Hnil. unfold deletePersonalRecord.
    rewrite Hnil, (filter_nil_neg _ _ Hnil). destruct tbl; reflexivity.
Qed.

Lemma personal_record_round_trip_witness :
  exists row,
    getPersonalRecords (Some "5K"%string)
      (upsertPersonalRecord "2026-05-01" sampleRecord
         (upsertPersonalRecord "2026-04-13" sampleRecord emptyRecords)) = [row] /\
    pr_recorded_at row = "2026-05-01"%string /\ pr_id row = 2.
Proof.
  destruct (personal_record_round_trip "2026-05-01" sampleRecord
              (upsertPersonalRecord "2026-04-13" sampleRecord emptyRecords))
    as ((row & Hget & _ & _ & _ & _ & _ & Hday & _) & _); [discriminate|].
  exists row. split; [exact Hget|]. split; [exact Hday|].
  cbv in Hget. injection Hget as <-. reflexivity.
Defined.


(** ** The sync: detail requests and classification *)

Section Skipped.
Variable today : string.
Variable fetchActivityDetail : Z -> DetailOutcome.

Local Abbreviation answered := (persistAnswered today fetchActivityDetail).
Local Abbreviation persisted := (isPersisted fetchActivityDetail).

Lemma answered_not_persisted st a : persisted a = false -> answered st a = st.
Proof.
  unfold isPersisted, persistAnswered, persistDetail.
  destruct (fetchActivityDetail a) as [be laps| |]; [|reflexivity|reflexivity].
  destruct (bindFails be); [reflexivity|discriminate].
Qed.

Lemma answered_persisted st a :
  persisted a = true ->
  exists be laps, fetchActivityDetail a = DetailOk be laps /\
    persistDetail today a be laps st = Some (writeDetail today a be laps st) /\
    answered st a = writeDetail today a be laps st.
Proof.
  unfold isPersisted, persistAnswered, persistDetail.
  destruct (fetchActivityDetail a) as [be laps| |]; [|discriminate|discriminate].
  destruct (bindFails be) eqn:Eb; [discriminate|]. intros _. exists be, laps.
  rewrite Eb. repeat split.
Qed.

Lemma detailLoop_no_limit ids : forall s,
  (forall a, a ∈ ids -> fetchActivityDetail a <> RateLimited) ->
  detailLoop today fetchActivityDetail ids s
  = {| store := fold_left answered ids (store s);
       count := (count s + length (List.filter persisted ids))%nat;
       requests := requests s ++ ids |}.
Proof.
  induction ids as [|a ids IH]; intros s H; cbn [detailLoop fold_left List.filter].
  - destruct s; cbn. f_equal; [lia|symmetry; apply app_nil_r].
  - assert (Ha : fetchActivityDetail a <> RateLimited) by (apply H; left).
    assert (Hids : forall b, b ∈ ids -> fetchActivityDetail b <> RateLimited)
      by (intros b Hb; apply H; right; exact Hb).
    destruct (persisted a) eqn:Ep.
    + destruct (answered_persisted (store s) a Ep) as (be & laps & Ea & Ew & Es).
      rewrite Ea, Ew, (IH _ Hids). cbn [store count requests length]. rewrite Es.
      f_equal; [lia|]. rewrite <- app_assoc. reflexivity.
    + rewrite (answered_not_persisted (store s) a Ep).
      assert (E : match fetchActivityDetail a with
                  | DetailOk bestEfforts laps =>
                      match persistDetail today a bestEfforts laps (store s) with
                      | Some st' =>
                          detailLoop today fetchActivityDetail ids
                            {| store := st'; count := S (count s);
                               requests := requests s ++ [a] |}
                      | None =>
                          detailLoop today fetchActivityDetail ids
                            {| store := store s; count := count s;
                               requests := requests s ++ [a] |}
                      end
                  | RateLimited =>
                      {| store := store s; count := count s; requests := requests s ++ [a] |}
                  | DetailFails =>
                      detailLoop today fetchActivityDetail ids
                        {| store := store s; count := count s; requests := requests s ++ [a] |}
                  end
                  = detailLoop today fetchActivityDetail ids
                      {| store := store s; count := count s; requests := requests s ++ [a] |}).
      { unfold isPersisted in Ep. unfold persistDetail.
        destruct (fetchActivityDetail a) as [be laps| |]; [|congruence|reflexivity].
        destruct (bindFails be); [reflexivity|discriminate]. }
      rewrite E, (IH _ Hids). cbn [store count requests].
      f_equal. rewrite <- app_assoc. reflexivity.
Qed.

Lemma answered_keeps_row (st : Store) (a k : Z) :
  a <> k \/ persisted a = false ->
  activities (answered st a) !! k = activities st !! k.
Proof.
  intros H. destruct (persisted a) eqn:Ep.
  - destruct (answered_persisted st a Ep) as (be & laps & _ & _ & ->).
    destruct H as [H|H]; [|discriminate].
    rewrite writeDetail_activities. apply lookup_alter_ne. exact H.
  - rewrite (answered_not_persisted st a Ep). reflexivity.
Qed.

Lemma fold_answered_keeps_row ids : forall (st : Store) (k : Z),
  k ∉ ids \/ persisted k = false ->
  activities (fold_left answered ids st) !! k = activities st !! k.
Proof.
  induction ids as [|a ids IH]; intros st k H; simpl; [reflexivity|].
  rewrite IH.
  - apply answered_keeps_row. destruct H as [H|H].
    + left. intros ->. apply H. left.
    + destruct (decide (a = k)) as [->|Hne]; [right; exact H|left; exact Hne].
  - destruct H as [H|H]; [left|right; exact H].
    intros Hin. apply H. right. exact Hin.
Qed.

Lemma withDetailFetched_twice r :
  DB.withDetailFetched (DB.withDetailFetched r) = DB.withDetailFetched r.
Proof. reflexivity. Qed.

Lemma fold_answered_marks ids : forall (st : Store) (k : Z),
  k ∈ ids -> persisted k = true ->
  activities (fold_left answered ids st) !! k = DB.withDetailFetched <$> activities st !! k.
Proof.
  induction ids as [|a ids IH]; intros st k Hin Hk; [inversion Hin|]. simpl.
  assert (Hown : activities (answered st k) !! k = DB.withDetailFetched <$> activities st !! k).
  { destruct (answered_persisted st k Hk) as (be & laps & _ & _ & ->).
    rewrite writeDetail_activities. apply lookup_alter_eq. }
  destruct (decide (k ∈ ids)) as [Hids|Hids].
  - rewrite (IH _ _ Hids Hk).
    destruct (decide (a = k)) as [->|Hne].
    + rewrite Hown. destruct (activities st !! k); reflexivity.
    + rewrite answered_keeps_row by (left; exact Hne). reflexivity.
  - apply elem_of_cons in Hin. destruct Hin as [->|Hin]; [|contradiction].
    rewrite fold_answered_keeps_row by (left; exact Hids). exact Hown.
Qed.

Lemma fold_answered_keeps_laps ids : forall (st : Store) (k i : Z),
  k ∉ ids \/ persisted k = false ->
  activity_laps (fold_left answered ids st) !! (k, i) = activity_laps st !! (k, i).
Proof.
  induction ids as [|a ids IH]; intros st k i H; simpl; [reflexivity|].
  rewrite IH.
  - destruct (persisted a) eqn:Ep.
    + destruct (answered_persisted st a Ep) as (be & laps & _ & _ & ->).
      rewrite writeDetail_laps. apply upsertLap_fold_other.
      intros ->. destruct H as [H|H]; [apply H; left|congruence].
    + rewrite (answered_not_persisted st a Ep). reflexivity.
  - destruct H as [H|H]; [left|right; exact H].
    intros Hin. apply H. right. exact Hin.
Qed.
End Skipped.



Lemma filter_all {A} (p : A -> bool) (l : list A) :
  (forall x, x ∈ l -> p x = true) -> List.filter p l = l.
Proof.
  induction l as [|x l IH]; intros H; simpl; [reflexivity|].
  rewrite (H x) by left. rewrite IH; [reflexivity|].
  intros y Hy. apply H. right. exact Hy.
Qed.

(** X12. In a sync that is not incremental every fetched activity counts
    as new, stored or not, so that, without a rate limit, the detail of
    every fetched outdoor run is requested, in the order of the list.  In an
    incremental sync with a cursor the new activities are the fetched ones
    that are not stored. *)
Theorem full_sync_requests_detail_for_every_run
    (getTime : string -> JS.num) (now days : Q) (today : string)
    (fetchActivityDetail : Z -> DetailOutcome)
    (fetched : list StravaActivity) (st : Store) :
  (forall a, a ∈ fetched -> fetchActivityDetail (sa_id a) <> RateLimited) ->
  (let w := fetchWindow getTime now days false st in
   let runs := newRuns (existingIds w) fetched in
   let s := fetchNewRunDetail today fetchActivityDetail runs (DB.upsertActivities fetched st) in
   newActivities (existingIds w) fetched = fetched /\
   runs = List.filter (fun a => isRun a && negb (isTrainer a)) fetched /\
   requests s = sa_id <$> runs) /\
  (forall latestDate,
     DB.getLatestActivityDate st = Some latestDate -> latestDate <> ""%string ->
     let w := fetchWindow getTime now days true st in
     forall a, a ∈ newActivities (existingIds w) fetched <->
               a ∈ fetched /\ activities st !! sa_id a = None).
Proof.
  intros Hlim. split.
  - cbv zeta. unfold fetchWindow. cbn [existingIds].
    assert (E : newActivities ∅ fetched = fetched).
    { unfold newActivities. apply filter_all. intros a _.
      rewrite bool_decide_false by apply not_elem_of_empty. reflexivity. }
    split; [exact E|]. unfold newRuns. rewrite E. split; [reflexivity|].
    unfold fetchNewRunDetail. rewrite detailLoop_no_limit.
    + reflexivity.
    + intros k Hk. apply list_elem_of_fmap in Hk. destruct Hk as (a & -> & Ha).
      apply Hlim. apply list_elem_of_In in Ha. apply filter_In in Ha.
      apply list_elem_of_In. tauto.
  - intros latestDate Hl Hne. cbv zeta. unfold fetchWindow. rewrite Hl.
    destruct latestDate as [|c r]; [congruence|]. cbn [existingIds].
    intros a. unfold newActivities, DB.getExistingActivityIds.
    rewrite list_elem_of_In, filter_In, <- list_elem_of_In, negb_true_iff, bool_decide_eq_false.
    rewrite not_elem_of_dom. reflexivity.
Qed.

Lemma full_sync_requests_detail_for_every_run_witness :
  let s := fetchNewRunDetail "2026-02-12" sampleFetchDetail
             (newRuns (existingIds (fetchWindow sampleGetTime 1770900000000 30 false storeThreeRuns))
                [sampleSummary 13 "2026-02-05T07:00:00Z" 10000])
             (DB.upsertActivities [sampleSummary 13 "2026-02-05T07:00:00Z" 10000] storeThreeRuns) in
  is_Some (activities storeThreeRuns !! 13) /\ requests s = [13].
Proof.
  split; [eexists; reflexivity|].
  destruct (full_sync_requests_detail_for_every_run sampleGetTime 1770900000000 30 "2026-02-12"
              sampleFetchDetail [sampleSummary 13 "2026-02-05T07:00:00Z" 10000] storeThreeRuns)
    as [(_ & _ & H) _].
  - intros a Ha. apply list_elem_of_singleton in Ha. subst a. discriminate.
  - exact H.
Defined.

Lemma setRunType_lookup a t d st k :
  activities (DB.setRunType a t d st) !! k
  = if decide (a = k) then DB.withRunType t d <$> activities st !! a else activities st !! k.
Proof.
  change (activities (DB.setRunType a t d st))
    with (alter (DB.withRunType t d) a (activities st)).
  apply lookup_alter.
Qed.

Section ClassifyFacts.
Context {X : Type} (key : X -> Z) (step : Classification -> X -> Classification).
Hypothesis step_sets : forall s x, exists t d,
  classified (step s x) = DB.setRunType (key x) t d (classified s).

Lemma fold_step_tables xs : forall s,
  best_efforts (classified (fold_left step xs s)) = best_efforts (classified s) /\
  strava_best_efforts (classified (fold_left step xs s)) = strava_best_efforts (classified s) /\
  activity_laps (classified (fold_left step xs s)) = activity_laps (classified s).
Proof.
  induction xs as [|x xs IH]; intros s; simpl; [auto|].
  destruct (IH (step s x)) as (H1 & H2 & H3). rewrite H1, H2, H3.
  destruct (step_sets s x) as (t & d & E). rewrite E. auto.
Qed.

Lemma fold_step_rows xs : forall s k,
  match activities (classified s) !! k with
  | None => activities (classified (fold_left step xs s)) !! k = None
  | Some r =>
      exists r', activities (classified (fold_left step xs s)) !! k = Some r' /\
        sameSummary r r' /\
        (k ∈ key <$> xs -> row_run_type r' <> None) /\
        (row_run_type r <> None -> row_run_type r' <> None) /\
        (k ∉ key <$> xs -> r' = r)
  end.
Proof.
  induction xs as [|x xs IH]; intros s k; cbn [fold_left].
  - destruct (activities (classified s) !! k) as [r|]; [|reflexivity].
    exists r. split; [reflexivity|]. split; [reflexivity|].
    split; [intros H; inversion H|]. split; auto.
  - rewrite fmap_cons. specialize (IH (step s x) k).
    destruct (step_sets s x) as (t & d & E). rewrite E in IH.
    rewrite setRunType_lookup in IH.
    destruct (decide (key x = k)) as [Hk|Hk].
    + rewrite Hk in IH.
      destruct (activities (classified s) !! k) as [r|]; simpl in IH; [|exact IH].
      destruct IH as (r' & E' & Hs & _ & Hkeep & Hsame).
      exists r'. split; [exact E'|]. split; [|split; [|split]].
      * unfold sameSummary in *. rewrite Hs. reflexivity.
      * intros _. apply Hkeep. discriminate.
      * intros _. apply Hkeep. discriminate.
      * intros Hnot. exfalso. apply Hnot. rewrite Hk. left.
    + destruct (activities (classified s) !! k) as [r|]; [|exact IH].
      destruct IH as (r' & E' & Hs & Hin & Hkeep & Hsame).
      exists r'. split; [exact E'|]. split; [exact Hs|]. split; [|split].
      * intros H. apply elem_of_cons in H.
        destruct H as [H|H]; [congruence|]. apply Hin, H.
      * exact Hkeep.
      * intros H. apply Hsame. intros H'. apply H. right. exact H'.
Qed.
End ClassifyFacts.

Lemma classifyNewRun_sets zones e s run : exists t d,
  classified (classifyNewRun zones e s run) = DB.setRunType (sa_id run) t d (classified s).
Proof. eexists _, _. reflexivity. Qed.

Lemma classifyStored_sets zones e s a : exists t d,
  classified (classifyStored zones e s a) = DB.setRunType (row_id a) t d (classified s).
Proof. eexists _, _. reflexivity. Qed.

Lemma classifiedCount_new zones e runs : forall s,
  classifiedCount (fold_left (classifyNewRun zones e) runs s)
  = (classifiedCount s + length runs)%nat.
Proof.
  induction runs as [|r runs IH]; intros s; simpl; [lia|]. rewrite IH. simpl. lia.
Qed.

Lemma classifiedCount_stored zones e rows : forall s,
  classifiedCount (fold_left (classifyStored zones e) rows s)
  = (classifiedCount s + length rows)%nat.
Proof.
  induction rows as [|r rows IH]; intros s; simpl; [lia|]. rewrite IH. simpl. lia.
Qed.

Lemma take_filter_mem {A} (p : A -> bool) (x : A) (l : list A) : forall n,
  x ∈ take n l -> p x = true -> x ∈ take n (List.filter p l).
Proof.
  induction l as [|y l IH]; intros n Hx Hp; [rewrite take_nil in Hx; inversion Hx|].
  destruct n as [|n]; [inversion Hx|]. simpl in Hx.
  apply elem_of_cons in Hx. simpl. destruct Hx as [->|Hx].
  - rewrite Hp. left.
  - destruct (p y); [right; apply IH; assumption|].
    specialize (IH n Hx Hp).
    replace (take n (List.filter p l)) with (take n (take (S n) (List.filter p l))) in IH
      by (rewrite take_take; f_equal; lia).
    eapply sublist_subseteq; [apply sublist_take|exact IH].
Qed.

Lemma filter_unclassified_after (g : ActivityRow -> ActivityRow) (ids : list Z) rows :
  (forall r, r ∈ rows ->
     (row_id r ∈ ids -> DB.unclassified (g r) = false) /\ (row_id r ∉ ids -> g r = r)) ->
  List.filter DB.unclassified (g <$> rows)
  = List.filter (fun r => negb (bool_decide (row_id r ∈ ids)))
      (List.filter DB.unclassified rows).
Proof.
  induction rows as [|r rows IH]; intros H; [reflexivity|].
  rewrite fmap_cons. cbn [List.filter].
  rewrite IH by (intros x Hx; apply H; right; exact Hx).
  destruct (H r ltac:(left)) as [Hin Hout].
  destruct (decide (row_id r ∈ ids)) as [Hd|Hd].
  - rewrite (Hin Hd). destruct (DB.unclassified r); [|reflexivity].
    cbn [List.filter]. rewrite bool_decide_true by exact Hd. reflexivity.
  - rewrite (Hout Hd). destruct (DB.unclassified r); [|reflexivity].
    cbn [List.filter]. rewrite bool_decide_false by exact Hd. reflexivity.
Qed.

Lemma unclassified_after (st st1 : Store) (ids : list Z) (limit : Z) :
  wellKeyed st ->
  (forall k,
     match activities st !! k with
     | None => activities st1 !! k = None
     | Some r =>
         exists r', activities st1 !! k = Some r' /\
           (k ∈ ids -> row_run_type r' <> None) /\ (k ∉ ids -> r' = r)
     end) ->
  DB.getUnclassifiedActivities limit st1
  = DB.sqlLimit limit
      (List.filter (fun r => negb (bool_decide (row_id r ∈ ids)))
         (DB.orderByDateDesc (List.filter DB.unclassified (DB.activityRows st)))).
Proof.
  intros Hk H.
  set (g := fun r : ActivityRow => default r (activities st1 !! row_id r)).
  assert (E : activities st1 = g <$> activities st).
  { apply map_eq. intros k. rewrite lookup_fmap. specialize (H k).
    destruct (activities st !! k) as [r|] eqn:Er; simpl; [|exact H].
    destruct H as (r' & E' & _). unfold g. rewrite (Hk _ _ Er), E'. reflexivity. }
  unfold DB.getUnclassifiedActivities, DB.orderByDateDesc.
  rewrite (activityRows_fmap st st1 g E).
  rewrite (filter_unclassified_after g ids).
  - fold dateDesc. rewrite (stable_sort_filter dateDesc dateDesc_total dateDesc_trans).
    reflexivity.
  - intros r Hr. apply elem_of_activityRows in Hr. destruct Hr as [k Er].
    pose proof (Hk _ _ Er) as Hid. specialize (H k). rewrite Er in H.
    destruct H as (r' & E' & Hin & Hout). unfold g. rewrite Hid, E'. simpl. split.
    + intros Hd. specialize (Hin Hd). unfold DB.unclassified.
      destruct (row_run_type r'); [apply andb_false_r|congruence].
    + exact Hout.
Qed.

(** X13. The classification step.  With unconfirmed zones nothing is
    written.  With confirmed zones it writes only [run_type] and
    [run_type_detail] of stored activities: every fetched new run that is
    stored and each of the 50 most recent unclassified runs ends with a
    [run_type]; a classified activity that is not a new run keeps its row;
    the other tables are untouched; at most 50 activities besides the new
    runs are classified. *)
Theorem classification_fills_missing_run_types
    (zones : HrZones) (easyPaceRef : Q) (runs : list StravaActivity) (st : Store) :
  wellKeyed st ->
  let result := classification zones easyPaceRef runs st in
  let st' := classified (fst result) in
  (confirmed zones = false ->
     st' = st /\ classifiedCount (fst result) = 0%nat /\ snd result = true) /\
  (confirmed zones = true ->
     snd result = false /\
     best_efforts st' = best_efforts st /\
     strava_best_efforts st' = strava_best_efforts st /\
     activity_laps st' = activity_laps st /\
     (forall k, activities st !! k = None -> activities st' !! k = None) /\
     (forall k r, activities st !! k = Some r ->
        exists r', activities st' !! k = Some r' /\ sameSummary r r' /\
          (row_run_type r <> None -> k ∉ sa_id <$> runs -> r' = r) /\
          (k ∈ sa_id <$> runs -> row_run_type r' <> None) /\
          (r ∈ DB.getUnclassifiedActivities 50 st -> row_run_type r' <> None)) /\
     (length runs <= classifiedCount (fst result) <= length runs + 50)%nat).
Proof.
  intros Hk result st'. unfold st', result, classification. split.
  - intros Hc. rewrite Hc. simpl. auto.
  - intros Hc. rewrite Hc. cbn [negb fst snd]. split; [reflexivity|].
    unfold classifyRuns.
    set (init := {| classified := st; classificationMap := []; classifiedCount := 0 |}).
    set (s1 := fold_left (classifyNewRun zones easyPaceRef) runs init).
    set (U1 := DB.getUnclassifiedActivities 50 (classified s1)).
    pose proof (fold_step_tables sa_id _ (classifyNewRun_sets zones easyPaceRef) runs init)
      as (T1 & T2 & T3).
    pose proof (fold_step_tables row_id _ (classifyStored_sets zones easyPaceRef) U1 s1)
      as (T1' & T2' & T3').
    pose proof (fold_step_rows sa_id _ (classifyNewRun_sets zones easyPaceRef) runs init) as R1.
    pose proof (fold_step_rows row_id _ (classifyStored_sets zones easyPaceRef) U1 s1) as R2.
    fold s1 in T1, T2, T3, R1. cbn [classified init] in T1, T2, T3, R1.
    assert (Hk1 : wellKeyed (classified s1)).
    { intros k r1 E1. specialize (R1 k).
      destruct (activities st !! k) as [r|] eqn:Er; [|congruence].
      destruct R1 as (r' & E' & Hs & _). rewrite E' in E1. injection E1 as <-.
      unfold sameSummary in Hs. apply (f_equal row_id) in Hs. simpl in Hs.
      rewrite Hs. apply (Hk _ _ Er). }
    assert (HU1 : U1 = DB.sqlLimit 50
              (List.filter (fun r => negb (bool_decide (row_id r ∈ sa_id <$> runs)))
                 (DB.orderByDateDesc (List.filter DB.unclassified (DB.activityRows st))))).
    { apply unclassified_after; [exact Hk|]. intros k. specialize (R1 k).
      destruct (activities st !! k) as [r|]; [|exact R1].
      destruct R1 as (r' & E' & _ & Hin & _ & Hout). exists r'. auto. }
    split; [rewrite T1', T1; reflexivity|].
    split; [rewrite T2', T2; reflexivity|].
    split; [rewrite T3', T3; reflexivity|].
    split; [|split].
    + intros k Hnone. specialize (R1 k). rewrite Hnone in R1.
      specialize (R2 k). rewrite R1 in R2. exact R2.
    + intros k r Er. specialize (R1 k). rewrite Er in R1.
      destruct R1 as (r1 & E1 & Hs1 & Hin1 & Hkeep1 & Hout1).
      specialize (R2 k). rewrite E1 in R2.
      destruct R2 as (r2 & E2 & Hs2 & Hin2 & Hkeep2 & Hout2).
      exists r2. split; [exact E2|]. split; [|split; [|split]].
      * unfold sameSummary in *. rewrite Hs2. exact Hs1.
      * intros Hsome Hnot. rewrite <- (Hout1 Hnot). apply Hout2.
        intros Hin. apply list_elem_of_fmap in Hin. destruct Hin as (a & Hid & Ha).
        destruct (unclassified_spec _ _ _ Hk1 Ha) as [Ea Hu].
        rewrite <- Hid, E1 in Ea. injection Ea as <-.
        rewrite (Hout1 Hnot) in Hu. unfold DB.unclassified in Hu.
        destruct (row_run_type r); [rewrite andb_false_r in Hu; discriminate|congruence].
      * intros Hin. apply Hkeep2, Hin1, Hin.
      * intros Hr. destruct (decide (k ∈ sa_id <$> runs)) as [Hin|Hnot].
        -- apply Hkeep2, Hin1, Hin.
        -- apply Hin2. rewrite (Hout1 Hnot) in E1.
           apply list_elem_of_fmap. exists r. split; [symmetry; apply (Hk _ _ Er)|].
           rewrite HU1. unfold DB.getUnclassifiedActivities, DB.sqlLimit in Hr |- *.
           change (50 <? 0) with false in Hr |- *. cbv iota in Hr |- *.
           apply take_filter_mem; [exact Hr|].
           rewrite (Hk _ _ Er), bool_decide_false by exact Hnot. reflexivity.
    + rewrite classifiedCount_stored. unfold s1. rewrite classifiedCount_new. cbn [classifiedCount init].
      assert (length U1 <= 50)%nat.
      { unfold U1, DB.getUnclassifiedActivities, DB.sqlLimit. change (50 <? 0) with false.
        cbv iota. rewrite length_take. change (Z.to_nat 50) with 50%nat. lia. }
      lia.
Qed.

Lemma classification_fills_missing_run_types_witness :
  confirmed sampleZones = true /\
  exists r',
    activities (classified (fst (classification sampleZones 330
                                   [sampleSummary 13 "2026-02-05T07:00:00Z" 10000]
                                   storeThreeRuns))) !! 13 = Some r' /\
    row_run_type r' <> None.
Proof.
  split; [reflexivity|].
  destruct (classification_fills_missing_run_types sampleZones 330
              [sampleSummary 13 "2026-02-05T07:00:00Z" 10000] storeThreeRuns)
    as [_ H]; [apply wellKeyed_upsertActivities, wellKeyed_empty|].
  destruct (H eq_refl) as (_ & _ & _ & _ & _ & Hrows & _).
  destruct (Hrows 13 _ eq_refl) as (r' & E & _ & _ & Hnew & _).
  exists r'. split; [exact E|]. apply Hnew. left.
Defined.

(** ** Heart-rate zones and the easy-pace reference *)

Section FloorFacts.
Local Open Scope Q_scope.

Lemma Qfloor_fraction_bounds (n : nat) (f : Q) :
  0 <= f -> f < 1 -> (1 <= n)%nat ->
  (0 <= Qfloor (inject_Z (Z.of_nat n) * f) < Z.of_nat n)%Z.
Proof.
  intros H0 H1 Hn.
  assert (Hpos : 0 < inject_Z (Z.of_nat n)).
  { change 0 with (inject_Z 0). rewrite <- Zlt_Qlt. lia. }
  split.
  - change 0%Z with (Qfloor 0). apply Qfloor_resp_le. nra.
  - rewrite Zlt_Qlt. eapply Qle_lt_trans; [apply Qfloor_le|]. nra.
Qed.
End FloorFacts.

(** X14. [estimateHrZones] always returns zones, estimated and not
    confirmed: 148/170/190 when no outdoor run has a maximal heart rate;
    otherwise [max_hr] is one of the recorded maxima, at least 95% of them
    are at most [max_hr] (the index [floor(n * 0.95)] is always within the
    array), and from 5 bpm on the thresholds are ordered, lt1 <= lt2 <=
    max_hr. *)
Theorem estimateHrZones_is_defined (st : Store) :
  exists zones,
    Zones.estimateHrZones st = Some zones /\
    hr_source zones = estimated /\ confirmed zones = false /\
    (Zones.maxHeartrates st = [] ->
       (lt1 zones == 148)%Q /\ (lt2 zones == 170)%Q /\ (max_hr zones == 190)%Q) /\
    (Zones.maxHeartrates st <> [] ->
       max_hr zones ∈ Zones.maxHeartrates st /\
       (95 * length (Zones.maxHeartrates st)
        <= 100 * length (List.filter (fun v => Qleb v (max_hr zones)) (Zones.maxHeartrates st)))%nat /\
       ((5 <= max_hr zones)%Q -> (lt1 zones <= lt2 zones <= max_hr zones)%Q)).
Proof.
  unfold Zones.estimateHrZones. cbv zeta.
  set (rows := Zones.maxHeartrates st).
  assert (Hs : StronglySorted Qle rows) by apply Qleb_sorted.
  clearbody rows.
  destruct rows as [|x rows'] eqn:Erows.
  - simpl. eexists. split; [reflexivity|]. cbn [hr_source confirmed lt1 lt2 max_hr].
    split; [reflexivity|]. split; [reflexivity|]. split.
    + intros _. repeat split; reflexivity.
    + intros H. congruence.
  - rewrite <- Erows in *. assert (Hn : (1 <= length rows)%nat) by (rewrite Erows; simpl; lia).
    assert (E0 : (length rows =? 0)%nat = false) by (apply Nat.eqb_neq; lia). rewrite E0.
    pose proof (Qfloor_fraction_bounds (length rows) 0.95 ltac:(lra) ltac:(lra) Hn) as Hp.
    set (p := Qfloor (inject_Z (Z.of_nat (length rows)) * 0.95)) in *.
    destruct (rows !! Z.to_nat p) as [maxHr|] eqn:Ep;
      [|apply lookup_ge_None in Ep; lia].
    eexists. split; [reflexivity|]. cbn [hr_source confirmed lt1 lt2 max_hr].
    split; [reflexivity|]. split; [reflexivity|]. split; [intros H; rewrite H in Hn; simpl in Hn; lia|].
    intros _. split; [|split].
    + apply list_elem_of_lookup. exists (Z.to_nat p). exact Ep.
    + assert (Hnth : maxHr = nth (Z.to_nat p) rows 0%Q) by (rewrite nth_lookup, Ep; reflexivity).
      assert (Hcount : (S (Z.to_nat p)
                        <= length (List.filter (fun v => Qleb v maxHr) rows))%nat).
      { rewrite <- (take_drop (S (Z.to_nat p)) rows) at 1.
        rewrite filter_length_app, (filter_length_all _ (take (S (Z.to_nat p)) rows)).
        - rewrite length_take. lia.
        - intros v Hv. apply In_take_nth in Hv. destruct Hv as (i & Hi & Hl & ->).
          apply Qleb_le. rewrite Hnth. apply sorted_nth; [exact Hs|lia]. }
      assert (Hlt : (inject_Z (Z.of_nat (length rows)) * 0.95 < inject_Z (p + 1))%Q)
        by apply Qlt_floor.
      assert (H95 : (95 * Z.of_nat (length rows) < 100 * (p + 1))%Z).
      { rewrite Zlt_Qlt, !inject_Z_mult.
        change (inject_Z 95) with 95%Q. change (inject_Z 100) with 100%Q. lra. }
      lia.
    + intros H5. split.
      * rewrite <- Zle_Qle. unfold JS.round_Q. apply Qfloor_resp_le. lra.
      * eapply Qle_trans; [apply Qfloor_le|]. lra.
Qed.

(** X15. [computeEasyPaceRef] always returns a number: 360 when no run
    qualifies; otherwise the pace of one of the selected runs (both array
    indices are within bounds), with at least 40% of the selected paces at
    most as slow and at least 30% at least as slow. *)
Theorem computeEasyPaceRef_is_defined (st : Store) :
  exists easyPaceRef,
    Zones.computeEasyPaceRef st = Some easyPaceRef /\
    (Zones.easyPaceRows st = [] -> easyPaceRef = 360%Q) /\
    (Zones.easyPaceRows st <> [] ->
       let paces := Zones.paceOfRow <$> Zones.easyPaceRows st in
       easyPaceRef ∈ paces /\
       (4 * length paces
        <= 10 * length (List.filter (fun v => Qleb v easyPaceRef) paces))%nat /\
       (3 * length paces
        <= 10 * length (List.filter (fun v => Qleb easyPaceRef v) paces))%nat).
Proof.
  unfold Zones.computeEasyPaceRef. cbv zeta.
  set (rows := Zones.easyPaceRows st). clearbody rows.
  destruct (length rows =? 0)%nat eqn:E0.
  - apply Nat.eqb_eq in E0. destruct rows; [|discriminate].
    exists 360%Q. split; [reflexivity|]. split; [reflexivity|]. congruence.
  - apply Nat.eqb_neq in E0.
    change (map Zones.paceOfRow rows) with (Zones.paceOfRow <$> rows).
    set (values := Zones.paceOfRow <$> rows).
    assert (Hlen : length values = length rows) by apply length_fmap.
    unfold JS.sort.
    pose proof (Qleb_sorted values) as Hs.
    pose proof (stable_sort_perm Qleb values) as Hp.
    set (paces := stable_sort Qleb values) in *.
    assert (Hn : length paces = length values) by (apply Permutation_length, Hp).
    assert (H1 : (1 <= length paces)%nat) by lia.
    pose proof (Qfloor_fraction_bounds (length paces) 0.4 ltac:(lra) ltac:(lra) H1) as Hk.
    pose proof (Qfloor_le (inject_Z (Z.of_nat (length paces)) * 0.4)) as Hk1.
    pose proof (Qlt_floor (inject_Z (Z.of_nat (length paces)) * 0.4)) as Hk2.
    set (k := Qfloor (inject_Z (Z.of_nat (length paces)) * 0.4)) in *.
    assert (Hslice : JS.slice paces k (Z.of_nat (length paces)) = drop (Z.to_nat k) paces).
    { unfold JS.slice, JS.rel_index.
      assert (Ek : (k <? 0)%Z = false) by (apply Z.ltb_ge; lia).
      assert (En : (Z.of_nat (length paces) <? 0)%Z = false) by (apply Z.ltb_ge; lia).
      rewrite Ek, En, (Z.min_l k) by lia. rewrite Z.min_id.
      apply take_ge. rewrite length_drop. lia. }
    rewrite Hslice. rewrite length_drop.
    set (m := ((length paces - Z.to_nat k) / 2)%nat).
    assert (Hm : (2 * m <= length paces - Z.to_nat k < 2 * m + 2)%nat).
    { unfold m. pose proof (Nat.div_mod_eq (length paces - Z.to_nat k) 2).
      pose proof (Nat.mod_upper_bound (length paces - Z.to_nat k) 2 ltac:(lia)). lia. }
    rewrite lookup_drop.
    destruct (paces !! (Z.to_nat k + m)%nat) as [e|] eqn:Ee;
      [|apply lookup_ge_None in Ee; lia].
    exists e. split; [reflexivity|]. split; [intros H; subst rows; simpl in E0; congruence|].
    intros _. cbv zeta.
    assert (Hnth : e = nth (Z.to_nat k + m) paces 0%Q) by (rewrite nth_lookup, Ee; reflexivity).
    rewrite <- !(filter_length_perm _ _ _ Hp), <- Hn.
    assert (H4 : (4 * Z.of_nat (length paces) < 10 * (k + 1))%Z).
    { rewrite Zlt_Qlt, !inject_Z_mult.
      change (inject_Z 4) with 4%Q. change (inject_Z 10) with 10%Q. lra. }
    assert (H6 : (10 * k <= 4 * Z.of_nat (length paces))%Z).
    { rewrite Zle_Qle, !inject_Z_mult.
      change (inject_Z 4) with 4%Q. change (inject_Z 10) with 10%Q. lra. }
    split; [|split].
    + rewrite <- Hp. apply list_elem_of_lookup. eexists. exact Ee.
    + assert (S (Z.to_nat k + m)
              <= length (List.filter (fun v => Qleb v e) paces))%nat.
      { rewrite <- (take_drop (S (Z.to_nat k + m)) paces) at 1.
        rewrite filter_length_app, (filter_length_all _ (take (S (Z.to_nat k + m)) paces)).
        - rewrite length_take. lia.
        - intros v Hv. apply In_take_nth in Hv. destruct Hv as (i & Hi & Hl & ->).
          apply Qleb_le. rewrite Hnth. apply sorted_nth; [exact Hs|lia]. }
      lia.
    + assert (length paces - (Z.to_nat k + m)
              <= length (List.filter (fun v => Qleb e v) paces))%nat.
      { rewrite <- (take_drop (Z.to_nat k + m) paces) at 2.
        rewrite filter_length_app, (filter_length_all _ (drop (Z.to_nat k + m) paces)).
        - rewrite length_drop. lia.
        - intros v Hv. apply In_drop_nth in Hv. destruct Hv as (i & Hi & ->).
          apply Qleb_le. rewrite Hnth. apply sorted_nth; [exact Hs|lia]. }
      lia.
Qed.


(** ** Provider best efforts *)

(** X16. [STRAVA_DISTANCE_NAME_MAP] sends different provider names to
    different distance names.  So the records that [convertStravaBestEfforts]
    makes from efforts with distinct ids and distinct names never collide
    on a uniqueness constraint, and after [upsertStravaBestEfforts] every
    effort with a known name is in the table, under the activity of the
    call; an effort with an unknown name gives no record.  The names are
    taken outside [objectPrototypeKeys]: for those the lookup in the
    source's object finds an inherited member, which [lookupName] does not
    model. *)
Theorem distinct_provider_efforts_are_all_stored
    (today : string) (activityId : Z) (efforts : list StravaBestEffort) (st : Store) :
  NoDup (sbe_id <$> efforts) ->
  NoDup (sbe_name <$> efforts) ->
  Forall (fun e => sbe_name e ∉ objectPrototypeKeys) efforts ->
  let records := convertStravaBestEfforts today activityId efforts in
  let st' := DB.upsertStravaBestEfforts records st in
  conflictFree records /\
  (forall e distanceName,
     e ∈ efforts ->
     lookupName STRAVA_DISTANCE_NAME_MAP (sbe_name e) = Some distanceName ->
     exists r, r ∈ strava_best_efforts st' /\
       rec_strava_effort_id r = sbe_id e /\ rec_activity_id r = activityId /\
       rec_distance_name r = distanceName /\
       rec_elapsed_time r = sbe_elapsed_time e) /\
  (forall r, r ∈ records ->
     exists e, e ∈ efforts /\
       lookupName STRAVA_DISTANCE_NAME_MAP (sbe_name e) = Some (rec_distance_name r)).
Proof.
  intros Hid Hname _ records st'.
  assert (Hcf : conflictFree records) by (apply converted_conflictFree; assumption).
  split; [exact Hcf|]. split.
  - intros e d He Hd.
    assert (Hr : exists r, convertStravaBestEffort today activityId e = Some r /\
               rec_strava_effort_id r = sbe_id e /\ rec_activity_id r = activityId /\
               rec_distance_name r = d /\ rec_elapsed_time r = sbe_elapsed_time e).
    { unfold convertStravaBestEffort. rewrite Hd. eexists. split; [reflexivity|]. auto. }
    destruct Hr as (r & Er & F).
    exists r. split; [|exact F].
    unfold st'. simpl. apply replace_fold_mem; [exact Hcf|].
    unfold records, convertStravaBestEfforts. apply list_elem_of_omap. exists e. auto.
  - intros r Hr. apply elem_of_converted in Hr. destruct Hr as (e & He & E).
    exists e. split; [exact He|]. apply (convert_fields _ _ _ _ E).
Qed.

Lemma distinct_provider_efforts_are_all_stored_witness :
  length (convertStravaBestEfforts "2026-02-12" 7 sampleEfforts) = 2%nat /\
  conflictFree (convertStravaBestEfforts "2026-02-12" 7 sampleEfforts).
Proof.
  split; [reflexivity|].
  apply (distinct_provider_efforts_are_all_stored "2026-02-12" 7 sampleEfforts emptyStore).
  - apply (bool_decide_unpack _). reflexivity.
  - apply (bool_decide_unpack _). reflexivity.
  - apply (bool_decide_unpack _). reflexivity.
Defined.

(** the two uniqueness constraints hold in a table that upserts built *)
Lemma replace_conflictFree tbl r :
  conflictFree tbl -> conflictFree (DB.replaceStravaBestEffort tbl r).
Proof.
  unfold conflictFree, DB.replaceStravaBestEffort. intros [H1 H2].
  set (kept := List.filter (fun x => negb (DB.conflicts r x)) tbl).
  assert (Hsub : kept `sublist_of` tbl) by apply filter_sublist.
  assert (Hkept : forall x, x ∈ kept -> DB.conflicts r x = false).
  { intros x Hx. apply list_elem_of_In, filter_In in Hx. destruct Hx as [_ Hx].
    apply negb_true_iff in Hx. exact Hx. }
  rewrite !fmap_app. split; apply NoDup_app.
  - split; [eapply sublist_NoDup; [exact H1|apply fmap_sublist, Hsub]|].
    split; [|apply NoDup_singleton].
    intros k Hk Hk'. apply list_elem_of_singleton in Hk'. subst k.
    apply list_elem_of_fmap in Hk. destruct Hk as (x & Ex & Hx).
    specialize (Hkept x Hx). unfold DB.conflicts in Hkept.
    apply orb_false_iff in Hkept. destruct Hkept as [Hkept _].
    apply Z.eqb_neq in Hkept. congruence.
  - split; [eapply sublist_NoDup; [exact H2|apply fmap_sublist, Hsub]|].
    split; [|apply NoDup_singleton].
    intros k Hk Hk'. apply list_elem_of_singleton in Hk'. subst k.
    apply list_elem_of_fmap in Hk. destruct Hk as (x & Ex & Hx).
    specialize (Hkept x Hx). unfold DB.conflicts in Hkept.
    apply orb_false_iff in Hkept. destruct Hkept as [_ Hkept].
    injection Ex as E1 E2. rewrite E1, E2, Z.eqb_refl, String.eqb_refl in Hkept. discriminate.
Qed.

Lemma upsertStravaBestEfforts_conflictFree records st :
  conflictFree (strava_best_efforts st) ->
  conflictFree (strava_best_efforts (DB.upsertStravaBestEfforts records st)).
Proof.
  simpl. generalize (strava_best_efforts st). induction records as [|r records IH]; intros tbl H.
  - exact H.
  - simpl. apply IH, replace_conflictFree, H.
Qed.

Lemma joined_sublist st tbl :
  DB.joined_effort <$> omap (DB.joinActivity st) tbl `sublist_of` tbl.
Proof.
  induction tbl as [|x tbl IH]; [constructor|].
  change (omap (DB.joinActivity st) (x :: tbl))
    with (match DB.joinActivity st x with
          | Some r => r :: omap (DB.joinActivity st) tbl
          | None => omap (DB.joinActivity st) tbl
          end).
  destruct (DB.joinActivity st x) as [r|] eqn:E.
  - rewrite fmap_cons.
    assert (DB.joined_effort r = x) as ->.
    { unfold DB.joinActivity in E. destruct (activities st !! rec_activity_id x); [|discriminate].
      injection E as <-. reflexivity. }
    apply sublist_skip, IH.
  - apply sublist_cons, IH.
Qed.

Lemma byElapsedTime_total x y : DB.byElapsedTime x y = true \/ DB.byElapsedTime y x = true.
Proof.
  unfold DB.byElapsedTime.
  destruct (Qleb (rec_elapsed_time (DB.joined_effort x)) (rec_elapsed_time (DB.joined_effort y))) eqn:E;
    [left; reflexivity|right].
  apply Qleb_gt in E. apply Qleb_le. apply Qlt_le_weak, E.
Qed.

Lemma byElapsedTime_trans x y z :
  DB.byElapsedTime x y = true -> DB.byElapsedTime y z = true -> DB.byElapsedTime x z = true.
Proof. unfold DB.byElapsedTime. rewrite !Qleb_le. apply Qle_trans. Qed.

(** X17. For a table that satisfies its uniqueness constraints and a
    non-empty distance name, [queryStravaEfforts] returns at most [limit]
    results, in ascending order of elapsed time, one per activity at most,
    all of source strava; each is an effort of that distance whose activity
    is stored (the join drops the others), and when fewer than [limit] are
    returned none is missing. *)
Theorem queryStravaEfforts_lists_the_fastest_first
    (config : DistanceConfig) (limit : Z) (st : Store) :
  0 <= limit ->
  dbName config <> ""%string ->
  conflictFree (strava_best_efforts st) ->
  let out := queryStravaEfforts config limit st in
  Z.of_nat (length out) <= limit /\
  StronglySorted byTimeAscending out /\
  NoDup (activityId <$> out) /\
  (forall e, e ∈ out ->
     source e = strava /\ finiteTime e /\
     exists sbe a,
       sbe ∈ strava_best_efforts st /\
       rec_distance_name sbe = dbName config /\
       activities st !! rec_activity_id sbe = Some a /\
       activityId e = rec_activity_id sbe /\
       segmentTimeSeconds e = JS.Fin (rec_elapsed_time sbe) /\
       activityName e = row_name a) /\
  (forall sbe a,
     sbe ∈ strava_best_efforts st -> rec_distance_name sbe = dbName config ->
     activities st !! rec_activity_id sbe = Some a ->
     Z.of_nat (length out) < limit ->
     rec_activity_id sbe ∈ activityId <$> out).
Proof.
  intros Hlimit Hname [_ Hcf] out. unfold out, queryStravaEfforts. cbv zeta.
  unfold DB.getStravaBestEfforts. cbv zeta.
  destruct (dbName config) as [|c nm] eqn:En; [congruence|]. rewrite <- En in *.
  set (joined := omap (DB.joinActivity st) (strava_best_efforts st)).
  set (named := List.filter
                  (fun x => String.eqb (rec_distance_name (DB.joined_effort x)) (dbName config))
                  joined).
  set (rows := stable_sort DB.byElapsedTime named).
  rewrite slice_prefix by exact Hlimit.
  change (map (resultOfRow config) (take (Z.to_nat limit) rows))
    with (resultOfRow config <$> take (Z.to_nat limit) rows).
  assert (Hrows : forall x, x ∈ rows ->
            rec_distance_name (DB.joined_effort x) = dbName config /\
            DB.joined_effort x ∈ strava_best_efforts st /\
            exists a, activities st !! rec_activity_id (DB.joined_effort x) = Some a /\
                      DB.joined_activity_name x = row_name a).
  { intros x Hx. unfold rows in Hx. apply elem_of_stable_sort in Hx.
    apply list_elem_of_In, filter_In in Hx. destruct Hx as [Hx Hn].
    apply String.eqb_eq in Hn. split; [exact Hn|].
    apply list_elem_of_In in Hx. unfold joined in Hx. apply list_elem_of_omap in Hx.
    destruct Hx as (sbe & Hsbe & E). unfold DB.joinActivity in E.
    destruct (activities st !! rec_activity_id sbe) as [a|] eqn:Ea; [|discriminate].
    injection E as <-. simpl. split; [exact Hsbe|]. exists a. split; [exact Ea|reflexivity]. }
  assert (Hsub : DB.joined_effort <$> take (Z.to_nat limit) rows
                 ⊆+ strava_best_efforts st).
  { etransitivity; [apply sublist_submseteq, fmap_sublist, sublist_take|].
    etransitivity; [apply Permutation_submseteq; unfold rows; rewrite stable_sort_perm; reflexivity|].
    etransitivity; [apply sublist_submseteq, fmap_sublist, filter_sublist|].
    apply sublist_submseteq, joined_sublist. }
  split; [|split; [|split; [|split]]].
  - rewrite length_fmap, length_take. lia.
  - apply (StronglySorted_fmap _
             (fun x y => DB.byElapsedTime x y = true)).
    + intros x y H. unfold byTimeAscending, timeOf. simpl. apply Qleb_le, H.
    + apply StronglySorted_take.
      apply (stable_sort_leb_sorted _ byElapsedTime_total byElapsedTime_trans).
  - rewrite <- list_fmap_compose.
    apply (NoDup_fmap_1 (fun a : Z => (a, dbName config))).
    rewrite <- list_fmap_compose.
    assert (E : (fun a : Z => (a, dbName config)) ∘ (activityId ∘ resultOfRow config)
                <$> take (Z.to_nat limit) rows
                = (fun r => (rec_activity_id r, rec_distance_name r))
                    <$> (DB.joined_effort <$> take (Z.to_nat limit) rows)).
    { rewrite <- list_fmap_compose. apply list_fmap_ext. intros i x Hx. simpl.
      assert (Hin : x ∈ rows).
      { eapply sublist_subseteq; [apply sublist_take|].
        apply list_elem_of_lookup. exists i. exact Hx. }
      destruct (Hrows x Hin) as [-> _]. reflexivity. }
    rewrite E.
    assert (Hsub' : (fun r => (rec_activity_id r, rec_distance_name r))
                      <$> (DB.joined_effort <$> take (Z.to_nat limit) rows)
                    ⊆+ (fun r => (rec_activity_id r, rec_distance_name r))
                      <$> strava_best_efforts st) by (apply fmap_submseteq, Hsub).
    apply submseteq_Permutation in Hsub'. destruct Hsub' as [k Hperm].
    rewrite Hperm in Hcf. apply NoDup_app in Hcf. apply Hcf.
  - intros e He. apply list_elem_of_fmap in He. destruct He as (x & -> & Hx).
    assert (Hin : x ∈ rows) by (eapply sublist_subseteq; [apply sublist_take|exact Hx]).
    destruct (Hrows x Hin) as (Hn & Hsbe & a & Ea & Hnm).
    split; [reflexivity|]. split; [eexists; reflexivity|].
    exists (DB.joined_effort x), a.
    split; [exact Hsbe|]. split; [exact Hn|]. split; [exact Ea|].
    split; [reflexivity|]. split; [reflexivity|exact Hnm].
  - intros sbe a Hsbe Hn Ea Hshort.
    rewrite length_fmap, length_take in Hshort.
    assert (Hall : take (Z.to_nat limit) rows = rows) by (apply take_ge; lia).
    rewrite Hall.
    set (row := {| DB.joined_effort := sbe; DB.joined_activity_name := row_name a;
                   DB.joined_start_date_local := row_start_date_local a;
                   DB.joined_activity_distance := row_distance a;
                   DB.joined_workout_type := row_workout_type a;
                   DB.joined_run_type := row_run_type a |}).
    apply list_elem_of_fmap. exists (resultOfRow config row). split; [reflexivity|].
    apply list_elem_of_fmap_2. unfold rows. apply elem_of_stable_sort.
    apply list_elem_of_In, filter_In. split.
    + apply list_elem_of_In. unfold joined. apply list_elem_of_omap.
      exists sbe. split; [exact Hsbe|]. unfold DB.joinActivity. rewrite Ea. reflexivity.
    + simpl. rewrite Hn. apply String.eqb_refl.
Qed.

Lemma queryStravaEfforts_lists_the_fastest_first_witness :
  let st := DB.upsertStravaBestEfforts
              (convertStravaBestEfforts "2026-02-12" 13 [sampleBestEffort 501 "1K" 1000 240]
               ++ convertStravaBestEfforts "2026-02-12" 12 [sampleBestEffort 502 "1K" 1000 230])
              storeThreeRuns in
  activityId <$> queryStravaEfforts config1k 5 st = [12; 13] /\
  StronglySorted byTimeAscending (queryStravaEfforts config1k 5 st).
Proof.
  cbv zeta. split; [reflexivity|].
  apply queryStravaEfforts_lists_the_fastest_first.
  - lia.
  - discriminate.
  - apply upsertStravaBestEfforts_conflictFree. split; constructor.
Defined.


(** ** Computed best efforts and their display *)

Section Reported.
Variable fetchActivityStream : Z -> StreamOutcome.
Variable today : string.
Variable config : DistanceConfig.

Local Abbreviation keptSegment := (keptSegment fetchActivityStream config).

Lemma keptSegment_same_id run run' segment segment' :
  row_id run = row_id run' -> keptSegment run segment -> keptSegment run' segment' ->
  recordOf today config run segment = recordOf today config run' segment'.
Proof.
  intros Hid (s1 & F1 & S1 & _) (s2 & F2 & S2 & _).
  rewrite Hid, F2 in F1. injection F1 as <-. rewrite S2 in S1. injection S1 as <-.
  unfold recordOf. rewrite Hid. reflexivity.
Qed.

Lemma computeLoop_persists runs : forall st efforts,
  (forall run, run ∈ runs -> fetchActivityStream (row_id run) <> StreamThrows) ->
  exists st' added,
    computeLoop fetchActivityStream today config runs st efforts
    = (st', Some (efforts ++ added)) /\
    activities st' = activities st /\
    strava_best_efforts st' = strava_best_efforts st /\
    activity_laps st' = activity_laps st /\
    (forall r, r ∈ added ->
       exists run segment, run ∈ runs /\ keptSegment run segment /\
         r = resultOf config run segment) /\
    (forall run segment, run ∈ runs -> keptSegment run segment ->
       best_efforts st' !! (row_id run, dbName config)
       = Some (recordOf today config run segment)) /\
    (forall i, i ∉ row_id <$> runs ->
       best_efforts st' !! (i, dbName config) = best_efforts st !! (i, dbName config)).
Proof.
  induction runs as [|run runs IH]; intros st efforts Hok.
  - exists st, []. simpl. rewrite app_nil_r. split; [reflexivity|].
    repeat (split; [reflexivity|]).
    split; [intros r Hr; inversion Hr|]. split; [intros r s Hr; inversion Hr|reflexivity].
  - assert (Hok' : forall r, r ∈ runs -> fetchActivityStream (row_id r) <> StreamThrows).
    { intros r Hr. apply Hok. right. exact Hr. }
    pose proof (Hok run ltac:(left)) as Hrun.
    assert (Hskip : (forall segment, ~ keptSegment run segment) ->
              exists st' added,
                computeLoop fetchActivityStream today config runs st efforts
                = (st', Some (efforts ++ added)) /\
                activities st' = activities st /\
                strava_best_efforts st' = strava_best_efforts st /\
                activity_laps st' = activity_laps st /\
                (forall r, r ∈ added ->
                   exists run0 segment, run0 ∈ run :: runs /\ keptSegment run0 segment /\
                     r = resultOf config run0 segment) /\
                (forall run0 segment, run0 ∈ run :: runs -> keptSegment run0 segment ->
                   best_efforts st' !! (row_id run0, dbName config)
                   = Some (recordOf today config run0 segment)) /\
                (forall i, i ∉ row_id <$> run :: runs ->
                   best_efforts st' !! (i, dbName config) = best_efforts st !! (i, dbName config))).
    { intros Hno. destruct (IH st efforts Hok') as (st' & added & E & A1 & A2 & A3 & Hadd & Hper & Hout).
      exists st', added. split; [exact E|]. repeat (split; [assumption|]).
      split; [|split].
      - intros r Hr. destruct (Hadd r Hr) as (run0 & seg & Hin & Hk & Er).
        exists run0, seg. split; [right; exact Hin|]. auto.
      - intros run0 seg Hin Hk. apply elem_of_cons in Hin. destruct Hin as [->|Hin].
        + exfalso. exact (Hno seg Hk).
        + apply Hper; assumption.
      - intros i Hi. apply Hout. intros Hin. apply Hi. rewrite fmap_cons. right. exact Hin. }
    cbn [computeLoop].
    destruct (fetchActivityStream (row_id run)) as [|[stream|]] eqn:Ef; [congruence| |].
    + destruct (findFastestSegment stream _) as [segment|] eqn:Es.
      * destruct (tooFast config segment) eqn:Et.
        -- apply Hskip. intros seg (s & F & S & T). rewrite F in Ef. injection Ef as ->.
           rewrite S in Es. injection Es as ->. congruence.
        -- assert (Hkept : keptSegment run segment) by (exists stream; auto).
           destruct (IH (DB.upsertBestEffort (recordOf today config run segment) st)
                        (efforts ++ [resultOf config run segment]) Hok')
             as (st' & added & E & A1 & A2 & A3 & Hadd & Hper & Hout).
           exists st', (resultOf config run segment :: added).
           split; [rewrite E, <- app_assoc; reflexivity|].
           split; [exact A1|]. split; [exact A2|]. split; [exact A3|].
           split; [|split].
           ++ intros r Hr. apply elem_of_cons in Hr. destruct Hr as [->|Hr].
              ** exists run, segment. split; [left|]. auto.
              ** destruct (Hadd r Hr) as (run0 & seg & Hin & Hk & Er).
                 exists run0, seg. split; [right; exact Hin|]. auto.
           ++ intros run0 seg Hin Hk. apply elem_of_cons in Hin.
              destruct (decide (row_id run0 ∈ row_id <$> runs)) as [Hd|Hd].
              ** apply list_elem_of_fmap in Hd. destruct Hd as (run1 & Hid & Hin1).
                 assert (Hk1 : keptSegment run1 seg).
                 { destruct Hk as (s & F & S & T). exists s. rewrite <- Hid. auto. }
                 rewrite Hid, (Hper run1 seg Hin1 Hk1).
                 f_equal. apply keptSegment_same_id; [symmetry; exact Hid|exact Hk1|exact Hk].
              ** destruct Hin as [->|Hin];
                   [|exfalso; apply Hd; apply list_elem_of_fmap_2; exact Hin].
                 rewrite (Hout _ Hd). simpl.
                 assert (seg = segment) as ->.
                 { destruct Hk as (s & F & S & _). rewrite F in Ef. injection Ef as ->.
                   rewrite S in Es. injection Es as ->. reflexivity. }
                 apply lookup_insert_eq.
           ++ intros i Hi. rewrite fmap_cons, not_elem_of_cons in Hi. destruct Hi as [Hne Hi].
              rewrite (Hout i Hi). simpl. apply lookup_insert_ne. congruence.
      * apply Hskip. intros seg (s & F & S & T). rewrite F in Ef. injection Ef as ->.
        rewrite S in Es. discriminate.
    + apply Hskip. intros seg (s & F & _). rewrite F in Ef. discriminate.
Qed.
End Reported.

(** X25. The realism check as [computeEfforts] makes it.  The floor is
    2.5 min/km for 1 km and 3 min/km for the configured distances from 5 km
    on; it is compared with the segment's time, which is normalized to the
    target distance and rounded, divided by the rounded distance of the
    window and multiplied by 1000.  A selected run whose segment is below
    the floor in this comparison keeps its [best_efforts] row, also when a
    stream request throws, and is not among the results when the call
    returns. *)
Theorem rejected_segment_is_not_persisted
    (fetchActivityStream : Z -> StreamOutcome) (today : string) (config : DistanceConfig)
    (limit : Z) (st : Store) (run : ActivityRow) (stream : ActivityStream) (segment : Segment) :
  run ∈ selectRuns config st ->
  fetchActivityStream (row_id run) = StreamReturns (Some stream) ->
  findFastestSegment stream (inject_Z (meters config)) = Some segment ->
  JS.lt (JS.fmul (JS.fdiv (timeSeconds segment) (distanceMeters segment)) (JS.Fin 1000))
        (JS.Fin (minPaceFor (meters config))) = true ->
  ((minPaceFor 1000 == 2.5 * 60)%Q /\
   forall name cfg, (name, cfg) ∈ DISTANCE_CONFIG -> 5000 <= meters cfg ->
     (minPaceFor (meters cfg) == 3.0 * 60)%Q) /\
  best_efforts (fst (computeEfforts fetchActivityStream today config limit st))
    !! (row_id run, dbName config)
  = best_efforts st !! (row_id run, dbName config) /\
  forall results,
    snd (computeEfforts fetchActivityStream today config limit st) = Some results ->
    forall r, r ∈ results -> activityId r <> row_id run.
Proof.
  intros Hrun Hf Hs Hfast. split; [exact realism_floors|].
  assert (Hk : kept fetchActivityStream config (row_id run) = false).
  { unfold kept. rewrite Hf, Hs. unfold tooFast, impliedPace. rewrite Hfast. reflexivity. }
  unfold computeEfforts. cbv zeta.
  destruct (length (selectRuns config st) =? 0)%nat eqn:E0.
  - apply Nat.eqb_eq in E0. destruct (selectRuns config st); [inversion Hrun|discriminate].
  - destruct (computeLoop_spec fetchActivityStream today config (selectRuns config st) st [])
      as (st' & added & E1 & E2 & _ & Hadded & Hkeep).
    destruct (computeLoop fetchActivityStream today config (selectRuns config st) st [])
      as [st1 [efforts|]] eqn:El; cbn [fst snd] in *; subst st1.
    + split; [apply Hkeep, Hk|].
      intros results [= <-] r Hr Heq.
      apply elem_of_slice, elem_of_stable_sort in Hr.
      destruct E2 as [E2|E2]; [discriminate|]. injection E2 as ->.
      apply Hadded in Hr. congruence.
    + split; [apply Hkeep, Hk|]. intros results H. discriminate.
Qed.

Lemma rejected_segment_is_not_persisted_witness :
  sampleRow 7 "2026-02-10T07:30:00Z" 5200 ∈ selectRuns config1k storeOneRun /\
  findFastestSegment streamTooFast (inject_Z (meters config1k))
  = Some {| timeSeconds := JS.Fin 100; distanceMeters := JS.Fin 1000;
            startIndex := 0; endIndex := 1 |} /\
  JS.lt (JS.fmul (JS.fdiv (JS.Fin 100) (JS.Fin 1000)) (JS.Fin 1000))
        (JS.Fin (minPaceFor (meters config1k))) = true /\
  best_efforts
    (fst (computeEfforts (fun _ => StreamReturns (Some streamTooFast)) "2026-02-12" config1k 5
            storeOneRun))
    !! (7, "1K"%string)
  = best_efforts storeOneRun !! (7, "1K"%string).
Proof.
  assert (H1 : sampleRow 7 "2026-02-10T07:30:00Z" 5200 ∈ selectRuns config1k storeOneRun).
  { change (selectRuns config1k storeOneRun) with [sampleRow 7 "2026-02-10T07:30:00Z" 5200].
    left. }
  assert (H2 : findFastestSegment streamTooFast (inject_Z (meters config1k))
               = Some {| timeSeconds := JS.Fin 100; distanceMeters := JS.Fin 1000;
                         startIndex := 0; endIndex := 1 |}) by (vm_compute; reflexivity).
  assert (H3 : JS.lt (JS.fmul (JS.fdiv (JS.Fin 100) (JS.Fin 1000)) (JS.Fin 1000))
                     (JS.Fin (minPaceFor (meters config1k))) = true)
    by (vm_compute; reflexivity).
  split; [exact H1|]. split; [exact H2|]. split; [exact H3|].
  apply (rejected_segment_is_not_persisted (fun _ => StreamReturns (Some streamTooFast))
           "2026-02-12" config1k 5 storeOneRun (sampleRow 7 "2026-02-10T07:30:00Z" 5200)
           streamTooFast _ H1 eq_refl H2 H3).
Defined.

(** X18. When no stream request fails, [computeEfforts] writes only to
    [best_efforts], and every result it reports is persisted: the row of
    that activity and distance holds the reported time, the date of the
    day and a pace that is not below the realism floor.  A selected run
    with a segment that passes the floor is persisted even when the limit
    cuts it from the results.  For a count of 0 or more the results are at
    most that many. *)
Theorem reported_efforts_are_persisted
    (fetchActivityStream : Z -> StreamOutcome) (today : string) (config : DistanceConfig)
    (limit : Z) (st : Store) :
  (forall run, run ∈ selectRuns config st -> fetchActivityStream (row_id run) <> StreamThrows) ->
  exists st' results,
    computeEfforts fetchActivityStream today config limit st = (st', Some results) /\
    activities st' = activities st /\
    strava_best_efforts st' = strava_best_efforts st /\
    activity_laps st' = activity_laps st /\
    (0 <= limit -> Z.of_nat (length results) <= limit) /\
    (forall r, r ∈ results ->
       source r = computed /\
       exists run record,
         run ∈ selectRuns config st /\ activityId r = row_id run /\
         best_efforts st' !! (row_id run, dbName config) = Some record /\
         be_elapsed_time record = segmentTimeSeconds r /\
         be_computed_at record = today /\
         JS.lt (be_pace_per_km record) (JS.Fin (minPaceFor (meters config))) = false) /\
    (forall run, run ∈ selectRuns config st ->
       kept fetchActivityStream config (row_id run) = true ->
       is_Some (best_efforts st' !! (row_id run, dbName config))).
Proof.
  intros Hok. unfold computeEfforts. cbv zeta.
  destruct (length (selectRuns config st) =? 0)%nat eqn:E0.
  - apply Nat.eqb_eq in E0. destruct (selectRuns config st) eqn:Er; [|discriminate].
    exists st, []. split; [reflexivity|]. repeat (split; [reflexivity|]).
    split; [simpl; lia|]. split; [intros r Hr; inversion Hr|intros r Hr; inversion Hr].
  - destruct (computeLoop_persists fetchActivityStream today config (selectRuns config st) st [] Hok)
      as (st' & added & E & A1 & A2 & A3 & Hadd & Hper & _).
    rewrite E. cbn [app]. exists st', (JS.slice (JS.sort effortLeb added) 0 limit).
    split; [reflexivity|]. split; [exact A1|]. split; [exact A2|]. split; [exact A3|].
    split; [|split].
    + intros Hl. rewrite slice_prefix by exact Hl. rewrite length_take. lia.
    + intros r Hr. apply elem_of_slice in Hr. unfold JS.sort in Hr.
      apply elem_of_stable_sort in Hr.
      destruct (Hadd r Hr) as (run & seg & Hin & Hk & ->).
      split; [reflexivity|].
      exists run, (recordOf today config run seg).
      split; [exact Hin|]. split; [reflexivity|].
      split; [apply Hper; assumption|]. split; [reflexivity|]. split; [reflexivity|].
      destruct Hk as (s & _ & _ & T). exact T.
    + intros run Hin Hk. unfold kept in Hk.
      destruct (fetchActivityStream (row_id run)) as [|[stream|]] eqn:Ef; try discriminate.
      destruct (findFastestSegment stream _) as [seg|] eqn:Es; [|discriminate].
      apply negb_true_iff in Hk.
      rewrite (Hper run seg Hin); [eexists; reflexivity|].
      exists stream. auto.
Qed.

Lemma reported_efforts_are_persisted_witness :
  exists st' results,
    computeEfforts (fun _ => StreamReturns (Some streamSteady)) "2026-02-12" config1k 5 storeOneRun
    = (st', Some results) /\
    activityId <$> results = [7] /\
    is_Some (best_efforts st' !! (7, "1K"%string)).
Proof.
  destruct (reported_efforts_are_persisted (fun _ => StreamReturns (Some streamSteady))
              "2026-02-12" config1k 5 storeOneRun)
    as (st' & results & E & _ & _ & _ & _ & _ & Hk); [intros run _; discriminate|].
  exists st', results. split; [exact E|]. split.
  - vm_compute in E. injection E as _ <-. reflexivity.
  - apply (Hk (sampleRow 7 "2026-02-10T07:30:00Z" 5200)); [|reflexivity].
    change (selectRuns config1k storeOneRun) with [sampleRow 7 "2026-02-10T07:30:00Z" 5200].
    left.
Defined.

Section WholeSeconds.
Local Open Scope Q_scope.

Lemma Qfloor_div_pos (a : Z) (b : positive) :
  Qfloor (inject_Z a / inject_Z (Zpos b)) = (a / Zpos b)%Z.
Proof.
  assert (E : inject_Z a / inject_Z (Zpos b) == a # b).
  { unfold Qeq, Qdiv, Qmult, Qinv, inject_Z. simpl. lia. }
  rewrite E. reflexivity.
Qed.

Lemma rem_whole (a : Z) (b : positive) :
  (0 <= a)%Z ->
  exists x, JS.rem (JS.Fin (inject_Z a)) (inject_Z (Zpos b)) = JS.Fin x /\
            x == inject_Z (a mod Zpos b).
Proof.
  intros Ha. unfold JS.rem.
  assert (Ez : JS.is_zero (inject_Z (Zpos b)) = false).
  { unfold JS.is_zero. apply not_true_iff_false. rewrite Qeq_bool_iff.
    change 0 with (inject_Z 0). rewrite inject_Z_injective. lia. }
  rewrite Ez. cbv zeta.
  assert (Hq : 0 <= inject_Z a / inject_Z (Zpos b)).
  { apply Qle_shift_div_l.
    - change 0 with (inject_Z 0). rewrite <- Zlt_Qlt. lia.
    - rewrite Qmult_0_l. change 0 with (inject_Z 0). rewrite <- Zle_Qle. exact Ha. }
  assert (En : Qltb (inject_Z a / inject_Z (Zpos b)) 0 = false) by (apply Qltb_ge, Hq).
  rewrite En, Qfloor_div_pos. eexists. split; [reflexivity|].
  unfold Qminus. rewrite <- inject_Z_mult, <- inject_Z_opp, <- inject_Z_plus.
  rewrite inject_Z_injective. pose proof (Z.div_mod a (Zpos b) ltac:(lia)). lia.
Qed.
End WholeSeconds.

Lemma to_string_whole (x : Q) (z : Z) : (x == inject_Z z)%Q -> JS.to_string (JS.Fin x) = JS.string_of_Z z.
Proof. intros H. unfold JS.to_string. rewrite H, Qfloor_Z. reflexivity. Qed.

(** [Math.floor(x / b)] for a whole [x]: see [floor_fdiv_whole] *)
Lemma floor_div_whole (x : Q) (z : Z) (b : positive) (L : Z) :
  (x == inject_Z z)%Q ->
  0 <= z -> -1022 <= L <= 51 -> z < Zpos b * 2 ^ (L + 1) -> Zpos b < 2 ^ (53 - L) ->
  JS.floor (JS.fdiv (JS.Fin x) (JS.Fin (inject_Z (Zpos b)))) = JS.Fin (inject_Z (z / Zpos b)).
Proof.
  intros H Hz HL Hq Hb. rewrite <- (floor_fdiv_whole z b L Hz HL Hq Hb). f_equal.
  unfold JS.fdiv, JS.div.
  assert (Ez : JS.is_zero (inject_Z (Zpos b)) = false).
  { unfold JS.is_zero. apply not_true_iff_false. rewrite Qeq_bool_iff.
    change 0%Q with (inject_Z 0). rewrite inject_Z_injective. lia. }
  rewrite Ez. rewrite !rounded_Fin. apply double_proper. rewrite H. reflexivity.
Qed.

Lemma round_whole (x : Q) (z : Z) :
  (x == inject_Z z)%Q -> exists y, JS.round (JS.Fin x) = JS.Fin y /\ (y == inject_Z z)%Q.
Proof.
  intros H. unfold JS.round. eexists. split; [reflexivity|]. unfold JS.round_Q. rewrite H.
  assert (E : (inject_Z z + (1 # 2) == (2 * z + 1) # 2)%Q).
  { unfold Qeq, Qplus, inject_Z. simpl. lia. }
  rewrite E. unfold Qfloor. rewrite inject_Z_injective.
  pose proof (Z.div_mod (2 * z + 1) 2 ltac:(lia)).
  pose proof (Z.mod_pos_bound (2 * z + 1) 2 ltac:(lia)). lia.
Qed.

(** X19. For a whole number of seconds below [2^53] [formatTime] prints
    the hours (when there are any), the minutes within the hour and the
    seconds within the minute; both are below 60. *)
Theorem formatTime_of_whole_seconds (s : Z) :
  0 <= s < 2 ^ 53 ->
  formatTime (JS.Fin (inject_Z s)) =
    (if 0 <? s / 3600
     then String.append (JS.string_of_Z (s / 3600))
            (String.append ":"
              (String.append (JS.padStart0 2 (JS.string_of_Z (s mod 3600 / 60)))
                (String.append ":" (JS.padStart0 2 (JS.string_of_Z (s mod 60))))))
     else String.append (JS.string_of_Z (s mod 3600 / 60))
            (String.append ":" (JS.padStart0 2 (JS.string_of_Z (s mod 60))))) /\
  s mod 3600 / 60 < 60 /\ s mod 60 < 60.
Proof.
  intros [Hs Hs53]. change (2 ^ 53) with 9007199254740992 in Hs53.
  pose proof (Z.mod_pos_bound s 3600 ltac:(lia)) as Hr3600.
  pose proof (Z.mod_pos_bound s 60 ltac:(lia)) as Hr60.
  split.
  - unfold formatTime. cbv zeta.
    change (JS.Fin 3600) with (JS.Fin (inject_Z (Zpos 3600))).
    change (JS.Fin 60) with (JS.Fin (inject_Z (Zpos 60))).
    change 3600%Q with (inject_Z (Zpos 3600)).
    change 60%Q with (inject_Z (Zpos 60)).
    rewrite (floor_div_whole (inject_Z s) s 3600 41);
      [|reflexivity|lia|lia|change (2 ^ (41 + 1)) with 4398046511104; lia
       |change (2 ^ (53 - 41)) with 4096; lia].
    destruct (rem_whole s 3600 Hs) as (r & Er & Hr).
    destruct (rem_whole s 60 Hs) as (c & Ec & Hc).
    rewrite Er, Ec.
    rewrite (floor_div_whole r (s mod 3600) 60 5 Hr);
      [|lia|lia|change (2 ^ (5 + 1)) with 64; lia
       |change (2 ^ (53 - 5)) with 281474976710656; lia].
    destruct (round_whole c (s mod 60) Hc) as (c' & Ec' & Hc').
    rewrite Ec'.
    rewrite (to_string_whole _ (s / 3600) ltac:(reflexivity)),
            (to_string_whole _ (s mod 3600 / 60) ltac:(reflexivity)),
            (to_string_whole c' _ Hc').
    assert (El : JS.lt (JS.Fin 0) (JS.Fin (inject_Z (s / 3600))) = (0 <? s / 3600)).
    { cbn [JS.lt]. destruct (0 <? s / 3600) eqn:E.
      - apply Z.ltb_lt in E. apply Qltb_lt. change 0%Q with (inject_Z 0).
        rewrite <- Zlt_Qlt. exact E.
      - apply Z.ltb_ge in E. apply Qltb_ge. change 0%Q with (inject_Z 0).
        rewrite <- Zle_Qle. exact E. }
    rewrite El. reflexivity.
  - split; [apply Z.div_lt_upper_bound; lia|lia].
Qed.

Lemma formatTime_of_whole_seconds_witness :
  0 <= 3725 < 2 ^ 53 /\ formatTime (JS.Fin (inject_Z 3725)) = "1:02:05"%string.
Proof.
  assert (H : 0 <= 3725 < 2 ^ 53) by (split; [lia|reflexivity]).
  split; [exact H|].
  destruct (formatTime_of_whole_seconds 3725 H) as [E _].
  rewrite E. reflexivity.
Defined.

(** [formatTime] half a second before the full minutes 1 to 60 *)
Lemma formatTime_before_full_minute :
  forallb
    (fun k =>
       String.eqb
         (formatTime (JS.Fin (inject_Z (60 * Z.of_nat k + 59) + (1 # 2))))
         (String.append (JS.string_of_Z (Z.of_nat k)) ":60"))
    (seq 0 60) = true.
Proof. vm_compute. reflexivity. Qed.

(** X20. [formatTime] rounds the seconds without a carry: half a second
    before a full minute, the seconds read 60. *)
Theorem formatTime_rounds_without_carry (m : Z) :
  0 <= m < 60 ->
  formatTime (JS.Fin (inject_Z (60 * m + 59) + (1 # 2)))
  = String.append (JS.string_of_Z m) ":60".
Proof.
  intros Hm. pose proof formatTime_before_full_minute as H.
  rewrite forallb_forall in H. specialize (H (Z.to_nat m)).
  rewrite Z2Nat.id in H by lia.
  apply String.eqb_eq, H. apply in_seq. lia.
Qed.

Lemma formatTime_rounds_without_carry_witness :
  formatTime (JS.Fin 119.5) = "1:60"%string.
Proof.
  pose proof (formatTime_rounds_without_carry 1 ltac:(lia)) as H.
  vm_compute. vm_compute in H. exact H.
Defined.


(** ** Plan file names *)

Import Plans.

Lemma dropLeadingDash_cons c r :
  dropLeadingDash (String c r) = if Ascii.eqb c "-"%char then r else String c r.
Proof. destruct c as [[] [] [] [] [] [] [] []]; reflexivity. Qed.

Lemma dash_not_alnum : isLowerOrDigit "-"%char = false.
Proof. reflexivity. Qed.

Lemma replaceOthers_dashSeparated t : forall b, dashSeparated b (replaceOthers b t) = true.
Proof.
  induction t as [|c r IH]; intros b; simpl; [reflexivity|].
  destruct (isLowerOrDigit c) eqn:E.
  - simpl. rewrite E. apply IH.
  - destruct b; [apply IH|]. simpl. rewrite (IH true). reflexivity.
Qed.

Lemma dashSeparated_weaken s : dashSeparated true s = true -> dashSeparated false s = true.
Proof.
  destruct s as [|c r]; simpl; [auto|].
  destruct (isLowerOrDigit c); [auto|]. rewrite andb_false_r. discriminate.
Qed.

Lemma dropLeadingDash_dashSeparated s :
  dashSeparated false s = true -> dashSeparated true (dropLeadingDash s) = true.
Proof.
  destruct s as [|c r]; [auto|]. rewrite dropLeadingDash_cons.
  destruct (Ascii.eqb_spec c "-"%char) as [->|Hne].
  - simpl. auto.
  - simpl. destruct (isLowerOrDigit c); [auto|].
    apply Ascii.eqb_neq in Hne. rewrite Hne. discriminate.
Qed.

Lemma dropTrailingDash_spec s : forall b,
  dashSeparated b s = true ->
  dashSeparated b (dropTrailingDash s) = true /\
  endsWithDash (dropTrailingDash s) = false /\
  (dropTrailingDash s = EmptyString -> s = EmptyString \/ s = String "-"%char EmptyString).
Proof.
  induction s as [|c r IH]; intros b H; [simpl; auto|].
  destruct r as [|c' r'].
  - simpl. destruct (Ascii.eqb_spec c "-"%char) as [->|Hne].
    + simpl. auto.
    + split; [exact H|]. split; [simpl; apply Ascii.eqb_neq, Hne|discriminate].
  - assert (Estep : dropTrailingDash (String c (String c' r'))
                    = String c (dropTrailingDash (String c' r'))) by reflexivity.
    rewrite Estep. clear Estep.
    remember (String c' r') as rest eqn:Erest.
    simpl dashSeparated in H |- *.
    destruct (isLowerOrDigit c) eqn:Ec.
    + destruct (IH false H) as (I1 & I2 & I3). split; [exact I1|]. split; [|discriminate].
      destruct (dropTrailingDash rest) as [|d r''] eqn:Ed; [|exact I2].
      simpl. apply Ascii.eqb_neq. intros ->. discriminate.
    + apply andb_true_iff in H. destruct H as [H0 H]. rewrite H0. cbn [andb].
      destruct (IH true H) as (I1 & I2 & I3). split; [exact I1|]. split; [|discriminate].
      destruct (dropTrailingDash rest) as [|d r''] eqn:Ed; [|exact I2].
      exfalso. destruct (I3 eq_refl) as [E|E]; [congruence|].
      rewrite E in H. simpl in H. discriminate.
Qed.

Lemma replaceOthers_slug s : forall b, dashSeparated b s = true -> replaceOthers b s = s.
Proof.
  induction s as [|c r IH]; intros b H; simpl in *; [reflexivity|].
  destruct (isLowerOrDigit c).
  - rewrite (IH false H). reflexivity.
  - apply andb_true_iff in H. destruct H as [H0 H].
    apply andb_true_iff in H0. destruct H0 as [Hc Hb].
    apply negb_true_iff in Hb. subst b. apply Ascii.eqb_eq in Hc. subst c.
    rewrite (IH true H). reflexivity.
Qed.

Lemma dropLeadingDash_slug s : dashSeparated true s = true -> dropLeadingDash s = s.
Proof.
  destruct s as [|c r]; [reflexivity|]. rewrite dropLeadingDash_cons. simpl.
  destruct (Ascii.eqb_spec c "-"%char) as [->|Hne]; [|reflexivity].
  simpl. discriminate.
Qed.

Lemma dropTrailingDash_slug s : endsWithDash s = false -> dropTrailingDash s = s.
Proof.
  induction s as [|c r IH]; [reflexivity|].
  destruct r as [|c' r'].
  - simpl. intros ->. reflexivity.
  - intros H. change (dropTrailingDash (String c (String c' r')))
      with (String c (dropTrailingDash (String c' r'))).
    rewrite IH; [reflexivity|exact H].
Qed.

Lemma dashSeparated_chars s : forall b c,
  dashSeparated b s = true -> In c (list_ascii_of_string s) ->
  isLowerOrDigit c = true \/ c = "-"%char.
Proof.
  induction s as [|d r IH]; intros b c H Hin; [inversion Hin|].
  simpl in H, Hin. destruct Hin as [->|Hin].
  - destruct (isLowerOrDigit c); [left; reflexivity|right].
    apply andb_true_iff in H. destruct H as [H _]. apply andb_true_iff in H. destruct H as [H _].
    apply Ascii.eqb_eq, H.
  - destruct (isLowerOrDigit d); [eapply IH; eassumption|].
    apply andb_true_iff in H. destruct H as [_ H]. eapply IH; eassumption.
Qed.

(** X21. Whatever [toLowerCase] returns, the result of [sanitizeFilename]
    is made of lower-case letters, digits and single dashes, with no dash at
    either end; it holds no slash, backslash or dot, so the file of a plan
    stays in the plans directory.  When [toLowerCase] leaves such names
    alone, sanitizing twice is sanitizing once. *)
Theorem sanitizeFilename_makes_a_slug (toLowerCase : string -> string) (name : string) :
  let file := sanitizeFilename toLowerCase name in
  isSlug file = true /\
  (forall c, In c (list_ascii_of_string file) ->
     c <> "/"%char /\ c <> "."%char /\ c <> "\"%char) /\
  ((forall s, isSlug s = true -> toLowerCase s = s) ->
   sanitizeFilename toLowerCase file = file).
Proof.
  cbv zeta. unfold sanitizeFilename.
  pose proof (replaceOthers_dashSeparated (toLowerCase name) false) as H1.
  apply dropLeadingDash_dashSeparated in H1.
  destruct (dropTrailingDash_spec _ true H1) as (H2 & H3 & _).
  set (file := dropTrailingDash (dropLeadingDash (replaceOthers false (toLowerCase name)))) in *.
  assert (Hslug : isSlug file = true) by (unfold isSlug; rewrite H2, H3; reflexivity).
  split; [exact Hslug|]. split.
  - intros c Hc. destruct (dashSeparated_chars _ _ _ H2 Hc) as [Hal| ->].
    + repeat split; intros ->; discriminate.
    + repeat split; discriminate.
  - intros Hlow. rewrite (Hlow file Hslug).
    rewrite (replaceOthers_slug file false (dashSeparated_weaken _ H2)).
    rewrite (dropLeadingDash_slug _ H2). apply dropTrailingDash_slug, H3.
Qed.


(** ** Training patterns *)

Import TrainingPatterns.

Lemma mapGet_set m k c k' :
  mapGet (JS.map_set m k c) k' = if (k =? k')%Z then Some c else mapGet m k'.
Proof.
  induction m as [|[k0 c0] m IH]; simpl.
  - destruct (k =? k')%Z; reflexivity.
  - destruct (k0 =? k)%Z eqn:E.
    + apply Z.eqb_eq in E. subst k0. simpl. destruct (k =? k')%Z; reflexivity.
    + simpl. rewrite IH. destruct (k0 =? k')%Z eqn:E'; [|reflexivity].
      apply Z.eqb_eq in E'. subst k0. rewrite Z.eqb_sym, E. reflexivity.
Qed.

Lemma mapGet_elem m k c : mapGet m k = Some c -> (k, c) ∈ m.
Proof.
  induction m as [|[k0 c0] m IH]; simpl; [discriminate|].
  destruct (k0 =? k)%Z eqn:E.
  - apply Z.eqb_eq in E. subst k0. intros [= ->]. left.
  - intros H. right. apply IH, H.
Qed.

Lemma elem_mapGet m k c : NoDup m.*1 -> (k, c) ∈ m -> mapGet m k = Some c.
Proof.
  induction m as [|[k0 c0] m IH]; simpl; intros Hnd H; [inversion H|].
  apply NoDup_cons in Hnd. destruct Hnd as [Hk0 Hnd].
  apply elem_of_cons in H. destruct H as [[= -> ->]|H].
  - rewrite Z.eqb_refl. reflexivity.
  - destruct (k0 =? k)%Z eqn:E; [|apply IH; assumption].
    apply Z.eqb_eq in E. subst k0. exfalso. apply Hk0.
    apply list_elem_of_fmap. exists (k, c). auto.
Qed.

Lemma counts_NoDup values : forall m, NoDup m.*1 -> NoDup (fold_left countValue values m).*1.
Proof.
  induction values as [|v values IH]; intros m H; simpl; [exact H|].
  apply IH. unfold countValue. apply map_set_NoDup, H.
Qed.

Lemma counts_get values : forall m k,
  mapGet (fold_left countValue values m) k
  = match occurrences k values with
    | O => mapGet m k
    | S n => Some (default O (mapGet m k) + S n)%nat
    end.
Proof.
  induction values as [|v values IH]; intros m k; [reflexivity|].
  cbn [fold_left]. rewrite IH. unfold occurrences. cbn [List.filter].
  unfold countValue at 1 2. rewrite mapGet_set.
  destruct (k =? v)%Z eqn:E.
  - apply Z.eqb_eq in E. subst v. rewrite Z.eqb_refl. cbn [length].
    destruct (length (List.filter (Z.eqb k) values)); simpl; f_equal; lia.
  - rewrite Z.eqb_sym, E. reflexivity.
Qed.

Lemma better_scan entries : forall best bestCount,
  let result := fold_left better entries (best, bestCount) in
  (bestCount <= snd result)%nat /\
  (forall k c, (k, c) ∈ entries -> c <= snd result)%nat /\
  (result = (best, bestCount) \/ exists k, (k, snd result) ∈ entries /\ fst result = Some k).
Proof.
  induction entries as [|[k c] entries IH]; intros best bestCount; cbn [fold_left].
  - simpl. split; [lia|]. split; [intros k c H; inversion H|left; reflexivity].
  - assert (Eb : better (best, bestCount) (k, c)
                 = if (bestCount <? c)%nat then (Some k, c) else (best, bestCount))
      by reflexivity.
    rewrite Eb. clear Eb.
    destruct (bestCount <? c)%nat eqn:E.
    + apply Nat.ltb_lt in E.
      destruct (IH (Some k) c) as (H1 & H2 & H3). cbv zeta in *.
      split; [lia|]. split.
      * intros k' c' H. apply elem_of_cons in H. destruct H as [[= -> ->]|H]; [exact H1|].
        apply (H2 _ _ H).
      * right. destruct H3 as [H3|(k' & Hk' & Ek')].
        -- exists k. rewrite H3. simpl. split; [left|reflexivity].
        -- exists k'. split; [right; exact Hk'|exact Ek'].
    + apply Nat.ltb_ge in E.
      destruct (IH best bestCount) as (H1 & H2 & H3). cbv zeta in *.
      split; [exact H1|]. split.
      * intros k' c' H. apply elem_of_cons in H. destruct H as [[= -> ->]|H]; [lia|].
        apply (H2 _ _ H).
      * destruct H3 as [H3|(k' & Hk' & Ek')]; [left; exact H3|].
        right. exists k'. split; [right; exact Hk'|exact Ek'].
Qed.

(** X22. On a non-empty array [mode] returns one of its values, and no
    value occurs more often. *)
Theorem mode_is_a_most_frequent_value (values : list Z) :
  values <> [] ->
  exists m,
    mode values = Some m /\ m ∈ values /\
    forall v, (occurrences v values <= occurrences m values)%nat.
Proof.
  intros Hne. unfold mode. cbv zeta.
  set (counts := fold_left countValue values []).
  assert (Hnd : NoDup counts.*1) by (apply counts_NoDup; constructor).
  assert (Hget : forall k, mapGet counts k
                           = match occurrences k values with O => None | S n => Some (S n) end).
  { intros k. unfold counts. rewrite counts_get. destruct (occurrences k values); reflexivity. }
  destruct (better_scan counts (head values) O) as (_ & Hmax & Hbest). cbv zeta in *.
  set (result := fold_left better counts (head values, O)) in *.
  destruct values as [|v0 values']; [congruence|].
  assert (H0 : (1 <= occurrences v0 (v0 :: values'))%nat).
  { unfold occurrences. simpl. rewrite Z.eqb_refl. simpl. lia. }
  assert (Hpos : (1 <= snd result)%nat).
  { specialize (Hget v0). destruct (occurrences v0 (v0 :: values')) as [|n] eqn:E; [lia|].
    apply mapGet_elem in Hget. specialize (Hmax _ _ Hget). lia. }
  destruct Hbest as [Hbest|(m & Hm & Em)]; [rewrite Hbest in Hpos; simpl in Hpos; lia|].
  exists m. split; [exact Em|].
  pose proof (elem_mapGet _ _ _ Hnd Hm) as Gm. rewrite Hget in Gm.
  destruct (occurrences m (v0 :: values')) as [|n] eqn:Eocc; [discriminate|].
  injection Gm as Gm. split.
  - unfold occurrences in Eocc.
    destruct (List.filter (Z.eqb m) (v0 :: values')) as [|x l] eqn:Ef; [discriminate|].
    assert (Hx : In x (List.filter (Z.eqb m) (v0 :: values'))) by (rewrite Ef; left; reflexivity).
    apply filter_In in Hx. destruct Hx as [Hx Heq]. apply Z.eqb_eq in Heq. subst x.
    apply list_elem_of_In, Hx.
  - intros v. specialize (Hget v).
    destruct (occurrences v (v0 :: values')) as [|n'] eqn:E; [lia|].
    apply mapGet_elem in Hget. specialize (Hmax _ _ Hget). lia.
Qed.

Lemma mode_is_a_most_frequent_value_witness :
  mode [4; 5; 4; 3; 5] = Some 4 /\
  exists m, mode [4; 5; 4; 3; 5] = Some m /\ m ∈ [4; 5; 4; 3; 5].
Proof.
  split; [reflexivity|].
  destruct (mode_is_a_most_frequent_value [4; 5; 4; 3; 5] ltac:(discriminate)) as (m & E & Hin & _).
  exists m. split; [exact E|exact Hin].
Defined.


(** ** The pace and heart-rate fallback at its edges *)

(** X23. Without a heart rate (none, or 0, which the code takes for none)
    or without zones, the fallback answers easy, long run or unknown, never
    recovery, tempo or threshold.  An activity without distance takes the
    easy-pace reference for its pace and is easy, confidence medium. *)
Theorem fallback_without_heart_rate (activity : ActivityData) (hrZones : option HrZones)
    (easyPaceRef : Q) :
  let r := classifyByPaceAndHr activity hrZones easyPaceRef in
  (act_average_heartrate activity = None \/ act_average_heartrate activity = Some 0%Q
   \/ hrZones = None ->
     run_type r = easy \/ run_type r = long_run \/ run_type r = unknown) /\
  ((act_distance activity <= 0)%Q -> (0 <= easyPaceRef)%Q ->
     r = mkResult easy None medium).
Proof.
  cbv zeta. split.
  - intros Hno.
    assert (Hz : hrZoneOf (act_average_heartrate activity) hrZones = None).
    { destruct Hno as [-> | [-> | ->]]; [reflexivity| |].
      - destruct hrZones; reflexivity.
      - destruct (act_average_heartrate activity); reflexivity. }
    unfold classifyByPaceAndHr. cbv zeta. rewrite Hz. cbn [zoneAnd].
    destruct_conditions; simpl; auto.
  - intros Hd He. unfold classifyByPaceAndHr. cbv zeta.
    assert (E0 : Qltb 0 (act_distance activity) = false) by (apply Qltb_ge, Hd).
    rewrite E0.
    assert (E1 : Qltb (easyPaceRef * 1.05) easyPaceRef = false) by (apply Qltb_ge; lra).
    assert (E2 : Qleb (easyPaceRef * 0.95) easyPaceRef = true) by (apply Qleb_le; lra).
    assert (E3 : Qleb 15 (act_distance activity / 1000) = false).
    { apply Qleb_gt. apply Qlt_shift_div_r; [reflexivity|]. lra. }
    rewrite E1, E2, E3. reflexivity.
Qed.


(** ** The bound of the backfill *)

Lemma detailLoop_prefix today fetchActivityDetail ids : forall s,
  exists k,
    requests (detailLoop today fetchActivityDetail ids s) = requests s ++ take k ids /\
    (count (detailLoop today fetchActivityDetail ids s) <= count s + k)%nat /\
    (k <= length ids)%nat.
Proof.
  induction ids as [|a ids IH]; intros s; cbn [detailLoop].
  - exists O. rewrite app_nil_r. simpl. split; [reflexivity|lia].
  - destruct (fetchActivityDetail a) as [be laps| |].
    + destruct (persistDetail today a be laps (store s)) as [st'|].
      * destruct (IH {| store := st'; count := S (count s); requests := requests s ++ [a] |})
          as (k & Hr & Hc & Hk).
        exists (S k). rewrite Hr. cbn [requests count] in *. rewrite <- app_assoc.
        split; [reflexivity|]. simpl. lia.
      * destruct (IH {| store := store s; count := count s; requests := requests s ++ [a] |})
          as (k & Hr & Hc & Hk).
        exists (S k). rewrite Hr. cbn [requests count] in *. rewrite <- app_assoc.
        split; [reflexivity|]. simpl. lia.
    + exists 1%nat. cbn [requests count]. split; [reflexivity|]. simpl. lia.
    + destruct (IH {| store := store s; count := count s; requests := requests s ++ [a] |})
        as (k & Hr & Hc & Hk).
      exists (S k). rewrite Hr. cbn [requests count] in *. rewrite <- app_assoc.
      split; [reflexivity|]. simpl. lia.
Qed.

(** X24. The backfill sends at most [backfill_best_efforts] requests (100
    by default) when that number is not negative, each for a different
    activity, and only for stored outdoor runs without detail; [count]
    never exceeds the number of requests. *)
Theorem backfill_stays_within_its_limit
    (today : string) (fetchActivityDetail : Z -> DetailOutcome)
    (backfill_best_efforts : option Z) (st : Store) :
  wellKeyed st ->
  let s := backfill today fetchActivityDetail backfill_best_efforts st in
  let limit := default 100 backfill_best_efforts in
  (0 <= limit -> Z.of_nat (length (requests s)) <= limit) /\
  (count s <= length (requests s))%nat /\
  NoDup (requests s) /\
  (forall a, a ∈ requests s ->
     exists row, activities st !! a = Some row /\ DB.missingDetail row = true).
Proof.
  intros Hk s limit. unfold s, backfill. cbv zeta. fold limit.
  change (map row_id (DB.getActivitiesWithoutDetail limit st))
    with (row_id <$> DB.getActivitiesWithoutDetail limit st).
  destruct (selection_spec limit st Hk) as [Hnd Hsel].
  set (ids := row_id <$> DB.getActivitiesWithoutDetail limit st) in *.
  destruct (detailLoop_prefix today fetchActivityDetail ids
              {| store := st; count := 0; requests := [] |}) as (k & Hr & Hc & Hle).
  rewrite Hr. cbn [requests count app] in *.
  assert (Hlen : 0 <= limit -> Z.of_nat (length ids) <= limit).
  { intros Hl. unfold ids. rewrite length_fmap.
    unfold DB.getActivitiesWithoutDetail, DB.sqlLimit.
    assert (E : (limit <? 0) = false) by (apply Z.ltb_ge; lia). rewrite E.
    rewrite length_take. lia. }
  split; [|split; [|split]].
  - intros Hl. specialize (Hlen Hl). rewrite length_take. lia.
  - rewrite length_take. lia.
  - eapply sublist_NoDup; [exact Hnd|apply sublist_take].
  - intros a Ha. apply (sublist_subseteq _ _ (sublist_take _ _)) in Ha.
    apply list_elem_of_fmap in Ha. destruct Ha as (row & -> & Hrow).
    exists row. apply Hsel, Hrow.
Qed.

Lemma backfill_stays_within_its_limit_witness :
  requests (backfill "2026-02-12" sampleFetchDetail (Some 2) storeThreeRuns) = [13; 12] /\
  NoDup (requests (backfill "2026-02-12" sampleFetchDetail (Some 2) storeThreeRuns)).
Proof.
  split; [reflexivity|].
  apply (backfill_stays_within_its_limit "2026-02-12" sampleFetchDetail (Some 2) storeThreeRuns).
  apply wellKeyed_upsertActivities, wellKeyed_empty.
Defined.

